(** * smaaDemo: frame graph, ephemeral ring allocator and GL frame tracker

    A shallow embedding of the parts of the renderer that the design
    document makes statements about:

    - [NullRenderer]   : [RendererImpl::createEphemeralBuffer] of
                         demo/NullRenderer.cpp (ring-buffer bump allocator);
    - [RenderGraph]    : [RenderGraph::build] (layout inference),
                         [RenderGraph::reset] and
                         [RenderGraph::createPipeline] of demo/smaaDemo.cpp;
    - [OpenGLRenderer] : [recreateRingBuffer], [waitForFrame],
                         [bindDescriptorSet], [rebindDescriptorSets] and
                         [draw] of renderer/OpenGLRenderer.cpp.

    Conventions.  [unsigned int] and [uint32_t] values are integers of [Z]
    with the wrap-around of every arithmetic operation written out
    ([U32.wrap]).  A C++ [assert] that fails, a thrown exception and
    undefined behaviour (division by zero, out-of-bounds access) are the
    three ways a call may fail to return; they are the constructors of
    [Res] next to [Ret]. *)

From Stdlib Require Import ZArith Lia List Bool String.
From stdpp Require Import base option list gmap strings.

Local Open Scope Z_scope.

(** ** Outcomes of a call *)

Inductive Res (A : Type) : Type :=
| Ret (a : A)
| AssertionFailed
| Thrown (what : string)
| Undefined.

Arguments Ret {A} a.
Arguments AssertionFailed {A}.
Arguments Thrown {A} what.
Arguments Undefined {A}.

#[global] Instance Res_ret : MRet Res := @Ret.

#[global] Instance Res_bind : MBind Res := fun A B f m =>
  match m with
  | Ret a => f a
  | AssertionFailed => AssertionFailed
  | Thrown w => Thrown w
  | Undefined => Undefined
  end.

(** [assert(c)] of <cassert>. *)
Definition assert_ (c : bool) : Res unit :=
  if c then Ret tt else AssertionFailed.

(** A precondition of the language itself (non-zero divisor, in-bounds
    index).  Violating it is undefined behaviour. *)
Definition defined_ (c : bool) : Res unit :=
  if c then Ret tt else Undefined.

(** ** 32-bit unsigned arithmetic *)

Module U32.

Definition modulus : Z := 2 ^ 32.

Definition wrap (z : Z) : Z := z mod modulus.

Definition inRange (z : Z) : Prop := 0 <= z < modulus.

End U32.

(** ** Handles and the resource container *)

(** A [Handle<T>] is an integer; 0 is the invalid handle. *)
Abbreviation Handle := N.

(** Modelled from the spec: [ResourceContainer<T>] (utils, not part of the
    sources at hand).  "[add()] allocates a slot and returns a fresh handle
    plus mutable reference; [get(handle)] resolves or fails fatally on an
    invalid handle; [remove] frees the slot."  Slots are a finite map from
    handles; [add] hands out handles from a counter, so that a handle is
    never 0 and never one that is live. *)
Record ResourceContainer (T : Type) : Type := mkContainer {
  resources : gmap N T;
  lastHandle : N
}.

Arguments mkContainer {T} _ _.
Arguments resources {T} _.
Arguments lastHandle {T} _.

Module Container.

Definition empty {T} : ResourceContainer T := mkContainer ∅ 0%N.

(** [add()] followed by the caller's initialisation [v] of the new slot. *)
Definition add {T} (v : T) (c : ResourceContainer T) : Handle * ResourceContainer T :=
  let h := N.succ (lastHandle c) in
  (h, mkContainer (<[h := v]> (resources c)) h).

Definition get {T} (h : Handle) (c : ResourceContainer T) : Res T :=
  match resources c !! h with
  | Some v => Ret v
  | None => AssertionFailed
  end.

Definition set {T} (h : Handle) (v : T) (c : ResourceContainer T) : ResourceContainer T :=
  mkContainer (<[h := v]> (resources c)) (lastHandle c).

Definition remove {T} (h : Handle) (c : ResourceContainer T) : ResourceContainer T :=
  mkContainer (delete h (resources c)) (lastHandle c).

(** Every live handle was handed out by [add]. *)
Definition wf {T} (c : ResourceContainer T) : Prop :=
  forall h, is_Some (resources c !! h) -> (0 < h <= lastHandle c)%N.

End Container.

(** * demo/NullRenderer.cpp *)

Module NullRenderer.

(** [struct Buffer] of the null back end: only the bookkeeping fields. *)
Record Buffer : Type := mkBuffer {
  ringBufferAlloc : bool;
  beginOffs : Z;
  size : Z
}.

(** The members of [RendererImpl] that the frame and buffer functions
    touch.  [ringBuffer] is the [std::vector<char>] backing the ring, one
    integer per byte. *)
Record RendererImpl : Type := mkRenderer {
  ringBufSize : Z;
  ringBufPtr : Z;
  ringBuffer : list Z;
  buffers : ResourceContainer Buffer;
  ephemeralBuffers : list Handle;
  inFrame : bool;
  inRenderPass : bool;
  validPipeline : bool;
  pipelineDrawn : bool
}.

(** [RendererImpl::RendererImpl]: cursor 0, ring of [ephemeralRingBufSize]
    zero bytes. *)
Definition RendererImpl_new (ephemeralRingBufSize : Z) : RendererImpl :=
  {| ringBufSize := ephemeralRingBufSize;
     ringBufPtr := 0;
     ringBuffer := replicate (Z.to_nat ephemeralRingBufSize) 0;
     buffers := Container.empty;
     ephemeralBuffers := [];
     inFrame := false;
     inRenderPass := false;
     validPipeline := false;
     pipelineDrawn := false |}.

(** [memcpy(&dst[begin], src, n)]. *)
Definition memcpy (dst : list Z) (begin : Z) (src : list Z) (n : Z) : list Z :=
  take (Z.to_nat begin) dst ++ take (Z.to_nat n) src ++ drop (Z.to_nat (begin + n)) dst.

(** [const unsigned int align = 8;] *)
Definition align : Z := 8.
(** [const unsigned int add = (1 << align) - 1;] *)
Definition add : Z := U32.wrap (Z.shiftl 1 align - 1).
(** [const unsigned int mask = ~add;] *)
Definition mask : Z := U32.wrap (Z.lnot add).

(** [(ptr + add) & mask] *)
Definition alignUp (ptr : Z) : Z := Z.land (U32.wrap (ptr + add)) mask.

(** [RendererImpl::createEphemeralBuffer].  [contents] is [None] for a
    null pointer, otherwise the bytes it points to. *)
Definition createEphemeralBuffer (sz : Z) (contents : option (list Z)) (r : RendererImpl)
  : Res (Handle * RendererImpl) :=
  assert_ (negb (sz =? 0));;
  src ← match contents with Some c => Ret c | None => AssertionFailed end;
  let alignedPtr := alignUp (ringBufPtr r) in
  assert_ (ringBufPtr r <=? alignedPtr);;
  defined_ (negb (ringBufSize r =? 0));;
  let beginPtr := alignedPtr mod ringBufSize r in
  '(alignedPtr, beginPtr) ←
    (if ringBufSize r <=? U32.wrap (beginPtr + sz) then
       (* we went past the end and have to go back to beginning *)
       let ptr := U32.wrap ((ringBufPtr r / ringBufSize r + 1) * ringBufSize r) in
       assert_ (Z.land ptr (U32.wrap (Z.lnot mask)) =? 0);;
       let alignedPtr := alignUp ptr in
       let beginPtr := alignedPtr mod ringBufSize r in
       assert_ (U32.wrap (beginPtr + sz) <? ringBufSize r);;
       assert_ (beginPtr =? 0);;
       Ret (alignedPtr, beginPtr)
     else Ret (alignedPtr, beginPtr));
  let ptr := U32.wrap (alignedPtr + sz) in
  defined_ (beginPtr + sz <=? Z.of_nat (length (ringBuffer r)));;
  defined_ (sz <=? Z.of_nat (length src));;
  let ring := memcpy (ringBuffer r) beginPtr src sz in
  let '(h, bufs) :=
    Container.add {| ringBufferAlloc := true; beginOffs := beginPtr; size := sz |}
                  (buffers r) in
  Ret (h, {| ringBufSize := ringBufSize r;
             ringBufPtr := ptr;
             ringBuffer := ring;
             buffers := bufs;
             ephemeralBuffers := ephemeralBuffers r ++ [h];
             inFrame := inFrame r;
             inRenderPass := inRenderPass r;
             validPipeline := validPipeline r;
             pipelineDrawn := pipelineDrawn r |}).

(** [RendererImpl::beginFrame] *)
Definition beginFrame (r : RendererImpl) : Res RendererImpl :=
  assert_ (negb (inFrame r));;
  Ret {| ringBufSize := ringBufSize r;
         ringBufPtr := ringBufPtr r;
         ringBuffer := ringBuffer r;
         buffers := buffers r;
         ephemeralBuffers := ephemeralBuffers r;
         inFrame := true;
         inRenderPass := false;
         validPipeline := false;
         pipelineDrawn := true |}.

(** The loop of [presentFrame] over [ephemeralBuffers]. *)
Fixpoint removeEphemeral (hs : list Handle) (bufs : ResourceContainer Buffer)
  : Res (ResourceContainer Buffer) :=
  match hs with
  | [] => Ret bufs
  | h :: hs' =>
      buffer ← Container.get h bufs;
      assert_ (ringBufferAlloc buffer);;
      assert_ (0 <? size buffer);;
      removeEphemeral hs' (Container.remove h bufs)
  end.

(** [RendererImpl::presentFrame] *)
Definition presentFrame (r : RendererImpl) : Res RendererImpl :=
  assert_ (inFrame r);;
  bufs ← removeEphemeral (ephemeralBuffers r) (buffers r);
  Ret {| ringBufSize := ringBufSize r;
         ringBufPtr := ringBufPtr r;
         ringBuffer := ringBuffer r;
         buffers := bufs;
         ephemeralBuffers := [];
         inFrame := false;
         inRenderPass := inRenderPass r;
         validPipeline := validPipeline r;
         pipelineDrawn := pipelineDrawn r |}.

(** Offset of the buffer behind a handle, for reading results. *)
Definition offsetOf (h : Handle) (r : RendererImpl) : option Z :=
  beginOffs <$> resources (buffers r) !! h.

Definition sizeOf (h : Handle) (r : RendererImpl) : option Z :=
  size <$> resources (buffers r) !! h.

(** ** Vocabulary of the statements about the allocator *)

(** State invariant set up by the constructor: the cursor and the size are
    [unsigned int]s, the vector has [ringBufSize] bytes. *)
Record wf (r : RendererImpl) : Prop := {
  wf_size : 0 <= ringBufSize r < 2 ^ 32;
  wf_ptr : 0 <= ringBufPtr r < 2 ^ 32;
  wf_ring : Z.of_nat (length (ringBuffer r)) = ringBufSize r
}.

(** [(ringBufPtr / ringBufSize + 1) * ringBufSize], as the code computes it. *)
Definition nextBoundary (r : RendererImpl) : Z :=
  U32.wrap ((ringBufPtr r / ringBufSize r + 1) * ringBufSize r).

(** The states a renderer goes through: construction, then any sequence of
    [beginFrame], [createEphemeralBuffer] and [presentFrame] that return. *)
Inductive reachable : RendererImpl -> Prop :=
| reach_new n :
    0 <= n < 2 ^ 32 -> reachable (RendererImpl_new n)
| reach_beginFrame r r' :
    reachable r -> beginFrame r = Ret r' -> reachable r'
| reach_alloc r sz contents h r' :
    reachable r -> 0 <= sz < 2 ^ 32 ->
    createEphemeralBuffer sz contents r = Ret (h, r') -> reachable r'
| reach_presentFrame r r' :
    reachable r -> presentFrame r = Ret r' -> reachable r'.

(** An ephemeral buffer whose frame has not been retired: its handle is
    still on the list that [presentFrame] walks. *)
Definition live (r : RendererImpl) (h : Handle) (b : Buffer) : Prop :=
  h ∈ ephemeralBuffers r /\ resources (buffers r) !! h = Some b.

(** [[offset, offset + size)] of two buffers do not meet. *)
Definition disjointRanges (b1 b2 : Buffer) : Prop :=
  beginOffs b1 + size b1 <= beginOffs b2 \/ beginOffs b2 + size b2 <= beginOffs b1.

Definition noAlias (r : RendererImpl) : Prop :=
  forall h1 h2 b1 b2,
    h1 <> h2 -> live r h1 b1 -> live r h2 b2 -> disjointRanges b1 b2.

(** A run of allocations none of which reaches [limit] with the end of its
    aligned range; [hs] are the handles returned, in order. *)
Inductive linearRun (limit : Z) : RendererImpl -> list Handle -> RendererImpl -> Prop :=
| linear_nil r : linearRun limit r [] r
| linear_cons r sz contents h r1 hs r2 :
    0 < sz ->
    alignUp (ringBufPtr r) + sz < limit ->
    createEphemeralBuffer sz contents r = Ret (h, r1) ->
    linearRun limit r1 hs r2 ->
    linearRun limit r (h :: hs) r2.

(** ** States of two small runs *)

(** A frame of a 1024-byte ring, and the states after one and after two
    buffers of 600 zero bytes. *)
Definition ring1024_frame : RendererImpl :=
  {| ringBufSize := 1024; ringBufPtr := 0; ringBuffer := replicate 1024 0;
     buffers := Container.empty; ephemeralBuffers := [];
     inFrame := true; inRenderPass := false;
     validPipeline := false; pipelineDrawn := true |}.

Definition ring1024_one : RendererImpl :=
  {| ringBufSize := 1024; ringBufPtr := 600; ringBuffer := replicate 1024 0;
     buffers := mkContainer {[ 1%N := mkBuffer true 0 600 ]} 1%N;
     ephemeralBuffers := [1%N];
     inFrame := true; inRenderPass := false;
     validPipeline := false; pipelineDrawn := true |}.

Definition ring1024_two : RendererImpl :=
  {| ringBufSize := 1024; ringBufPtr := 1624; ringBuffer := replicate 1024 0;
     buffers := mkContainer {[ 1%N := mkBuffer true 0 600; 2%N := mkBuffer true 0 600 ]} 2%N;
     ephemeralBuffers := [1%N; 2%N];
     inFrame := true; inRenderPass := false;
     validPipeline := false; pipelineDrawn := true |}.

(** The same frame with two buffers of 100 bytes. *)
Definition ring1024_small_one : RendererImpl :=
  {| ringBufSize := 1024; ringBufPtr := 100; ringBuffer := replicate 1024 0;
     buffers := mkContainer {[ 1%N := mkBuffer true 0 100 ]} 1%N;
     ephemeralBuffers := [1%N];
     inFrame := true; inRenderPass := false;
     validPipeline := false; pipelineDrawn := true |}.

Definition ring1024_small_two : RendererImpl :=
  {| ringBufSize := 1024; ringBufPtr := 356; ringBuffer := replicate 1024 0;
     buffers := mkContainer {[ 1%N := mkBuffer true 0 100; 2%N := mkBuffer true 256 100 ]} 2%N;
     ephemeralBuffers := [1%N; 2%N];
     inFrame := true; inRenderPass := false;
     validPipeline := false; pipelineDrawn := true |}.

(** A frame of a 1000-byte ring, and the states after a buffer of 990
    bytes and a further one of 10 bytes. *)
Definition ring1000_frame : RendererImpl :=
  {| ringBufSize := 1000; ringBufPtr := 0; ringBuffer := replicate 1000 0;
     buffers := Container.empty; ephemeralBuffers := [];
     inFrame := true; inRenderPass := false;
     validPipeline := false; pipelineDrawn := true |}.

Definition ring1000_one : RendererImpl :=
  {| ringBufSize := 1000; ringBufPtr := 990;
     ringBuffer := replicate 990 7 ++ replicate 10 0;
     buffers := mkContainer {[ 1%N := mkBuffer true 0 990 ]} 1%N;
     ephemeralBuffers := [1%N];
     inFrame := true; inRenderPass := false;
     validPipeline := false; pipelineDrawn := true |}.

Definition ring1000_two : RendererImpl :=
  {| ringBufSize := 1000; ringBufPtr := 1034;
     ringBuffer := replicate 24 7 ++ replicate 10 9 ++ replicate 956 7 ++ replicate 10 0;
     buffers := mkContainer {[ 1%N := mkBuffer true 0 990; 2%N := mkBuffer true 24 10 ]} 2%N;
     ephemeralBuffers := [1%N; 2%N];
     inFrame := true; inRenderPass := false;
     validPipeline := false; pipelineDrawn := true |}.

End NullRenderer.

(** * demo/smaaDemo.cpp: the render graph *)

(** ** Enumerations *)

Module Rendertargets.
Inductive t : Type :=
| Invalid | MainColor | MainDepth | Velocity | VelocityMS | Edges
| BlendWeights | TemporalPrevious | TemporalCurrent | Subsample1
| Subsample2 | FinalRender.

Definition to_N (r : t) : N :=
  match r with
  | Invalid => 0 | MainColor => 1 | MainDepth => 2 | Velocity => 3
  | VelocityMS => 4 | Edges => 5 | BlendWeights => 6
  | TemporalPrevious => 7 | TemporalCurrent => 8 | Subsample1 => 9
  | Subsample2 => 10 | FinalRender => 11
  end%N.

Definition of_N (n : N) : t :=
  match n with
  | 1 => MainColor | 2 => MainDepth | 3 => Velocity | 4 => VelocityMS
  | 5 => Edges | 6 => BlendWeights | 7 => TemporalPrevious
  | 8 => TemporalCurrent | 9 => Subsample1 | 10 => Subsample2
  | 11 => FinalRender | _ => Invalid
  end%N.

#[global] Instance eq_dec : EqDecision t.
Proof. solve_decision. Defined.

#[global] Instance countable : Countable t.
Proof. apply (inj_countable' to_N of_N). intros []; reflexivity. Defined.
End Rendertargets.

Module RenderPasses.
Inductive t : Type :=
| Invalid | Scene | Final | GUI | FXAA | Separate | SMAAEdges
| SMAAWeights | SMAABlend | SMAAEdges2 | SMAAWeights2 | SMAA2XBlend1
| SMAA2XBlend2.

Definition to_N (r : t) : N :=
  match r with
  | Invalid => 0 | Scene => 1 | Final => 2 | GUI => 3 | FXAA => 4
  | Separate => 5 | SMAAEdges => 6 | SMAAWeights => 7 | SMAABlend => 8
  | SMAAEdges2 => 9 | SMAAWeights2 => 10 | SMAA2XBlend1 => 11
  | SMAA2XBlend2 => 12
  end%N.

Definition of_N (n : N) : t :=
  match n with
  | 1 => Scene | 2 => Final | 3 => GUI | 4 => FXAA | 5 => Separate
  | 6 => SMAAEdges | 7 => SMAAWeights | 8 => SMAABlend | 9 => SMAAEdges2
  | 10 => SMAAWeights2 | 11 => SMAA2XBlend1 | 12 => SMAA2XBlend2
  | _ => Invalid
  end%N.

#[global] Instance eq_dec : EqDecision t.
Proof. solve_decision. Defined.

#[global] Instance countable : Countable t.
Proof. apply (inj_countable' to_N of_N). intros []; reflexivity. Defined.
End RenderPasses.

(** [Layout], [PassBegin] and [Format] are declared in renderer/Renderer.h,
    which is not among the sources; their members are the ones the code
    names.  A value-initialised [Layout] (what [operator[]] of the layout
    table inserts for a missing key) is taken to be [Undefined]. *)
Module Layout.
Inductive t : Type :=
| Undefined | ShaderRead | TransferSrc | TransferDst | ColorAttachment.

#[global] Instance eq_dec : EqDecision t.
Proof. solve_decision. Defined.
End Layout.

Module PassBegin.
Inductive t : Type := DontCare | Keep | Clear.

#[global] Instance eq_dec : EqDecision t.
Proof. solve_decision. Defined.
End PassBegin.

Module Format.
(** Only [Invalid] is told apart from the pixel formats. *)
Inductive t : Type := Invalid | Pixel (code : N).

#[global] Instance eq_dec : EqDecision t.
Proof. solve_decision. Defined.
End Format.

(** A [float] is carried as its bit pattern, a [glm::vec4] as four of them. *)
Abbreviation float := Z (only parsing).
Abbreviation vec4 := (Z * Z * Z * Z)%type (only parsing).

(** [1.0f] *)
Definition float_one : Z := 0x3F800000.

(** [#define MAX_COLOR_RENDERTARGETS 2] (the length of [drawBuffers] in
    renderer/OpenGLRenderer.cpp). *)
Definition MAX_COLOR_RENDERTARGETS : nat := 2.

(** ** Descriptions handed to the back end *)

(** Modelled from the spec: the descriptions of renderer/Renderer.h (not
    among the sources), "a declarative attachment description" per render
    pass, a creation descriptor per render target, a framebuffer as "a
    render pass plus concrete attachment handles", and the "full
    declarative description" of a pipeline, compared structurally.  Their
    setters store their arguments. *)
Record RenderTargetDesc : Type := mkRenderTargetDesc {
  rt_name : string;
  rt_format : Format.t;
  rt_additionalViewFormat : Format.t;
  rt_numSamples : Z;
  rt_width : Z;
  rt_height : Z
}.

Record RPColorDesc : Type := mkRPColorDesc {
  format : Format.t;
  passBegin : PassBegin.t;
  initialLayout : Layout.t;
  finalLayout : Layout.t;
  clearValue : vec4
}.

Record RenderPassDesc : Type := mkRenderPassDesc {
  rp_name : string;
  rp_numSamples : Z;
  depthStencilFormat_ : Format.t;
  rp_clearDepthAttachment : bool;
  rp_depthClearValue : float;
  rp_colorRTs : list RPColorDesc
}.

Definition RenderPassDesc_new : RenderPassDesc :=
  {| rp_name := ""; rp_numSamples := 1;
     depthStencilFormat_ := Format.Invalid;
     rp_clearDepthAttachment := false; rp_depthClearValue := 0;
     rp_colorRTs :=
       replicate MAX_COLOR_RENDERTARGETS
         (mkRPColorDesc Format.Invalid PassBegin.DontCare
            Layout.Undefined Layout.Undefined (0, 0, 0, 0)) |}.

Record FramebufferDesc : Type := mkFramebufferDesc {
  fb_name : string;
  fb_renderPass : Handle;
  fb_depthStencil : Handle;
  fb_colors : list Handle
}.

Record PipelineDesc : Type := mkPipelineDesc {
  vertexShader_ : Handle;
  fragmentShader_ : Handle;
  renderPass_ : Handle;
  pl_numSamples : Z;
  descriptorSetLayouts : list Handle;
  depthWrite_ : bool;
  depthTest_ : bool;
  cullFaces_ : bool;
  scissorTest_ : bool;
  blending_ : bool;
  pl_name : string
}.

#[global] Instance PipelineDesc_eq_dec : EqDecision PipelineDesc.
Proof. solve_decision. Defined.

(** [desc.renderPass(handle)] *)
Definition PipelineDesc_renderPass (h : Handle) (d : PipelineDesc) : PipelineDesc :=
  {| vertexShader_ := vertexShader_ d; fragmentShader_ := fragmentShader_ d;
     renderPass_ := h; pl_numSamples := pl_numSamples d;
     descriptorSetLayouts := descriptorSetLayouts d;
     depthWrite_ := depthWrite_ d; depthTest_ := depthTest_ d;
     cullFaces_ := cullFaces_ d; scissorTest_ := scissorTest_ d;
     blending_ := blending_ d; pl_name := pl_name d |}.

(** ** The back end as the graph sees it *)

(** Modelled from the spec: the Backend Interface (renderer/Renderer.h is
    not among the sources).  Object creation returns a valid, fresh handle;
    [waitForDeviceIdle] "waits for every slot to retire" and reports
    whether it did.  Every call is recorded, oldest first; [busyPolls] is
    the number of polls that still find the device busy. *)
Inductive BackendCall : Type :=
| CreateRenderTarget (d : RenderTargetDesc) (h : Handle)
| CreateRenderPass (d : RenderPassDesc) (h : Handle)
| CreateFramebuffer (d : FramebufferDesc) (h : Handle)
| CreatePipeline (d : PipelineDesc) (h : Handle)
| DeletePipeline (h : Handle)
| DeleteRenderTarget (h : Handle)
| DeleteRenderPass (h : Handle)
| DeleteFramebuffer (h : Handle)
| WaitForDeviceIdle (idle : bool)
| ProcessEvents.

Record Renderer : Type := mkBackend {
  calls : list BackendCall;
  handles : N;
  busyPolls : nat
}.

Module Backend.

Definition record (c : BackendCall) (r : Renderer) : Renderer :=
  mkBackend (calls r ++ [c]) (handles r) (busyPolls r).

Definition create (mk : Handle -> BackendCall) (r : Renderer) : Handle * Renderer :=
  let h := N.succ (handles r) in
  (h, mkBackend (calls r ++ [mk h]) h (busyPolls r)).

Definition createRenderTarget (d : RenderTargetDesc) := create (CreateRenderTarget d).
Definition createRenderPass (d : RenderPassDesc) := create (CreateRenderPass d).
Definition createFramebuffer (d : FramebufferDesc) := create (CreateFramebuffer d).
Definition createPipeline (d : PipelineDesc) := create (CreatePipeline d).

Definition deletePipeline (h : Handle) := record (DeletePipeline h).
Definition deleteRenderTarget (h : Handle) := record (DeleteRenderTarget h).
Definition deleteRenderPass (h : Handle) := record (DeleteRenderPass h).
Definition deleteFramebuffer (h : Handle) := record (DeleteFramebuffer h).

Definition waitForDeviceIdle (r : Renderer) : bool * Renderer :=
  match busyPolls r with
  | O => (true, mkBackend (calls r ++ [WaitForDeviceIdle true]) (handles r) O)
  | S n => (false, mkBackend (calls r ++ [WaitForDeviceIdle false]) (handles r) n)
  end.

End Backend.

(** ** [class RenderGraph] *)

Module RenderGraph.

Module PassDesc.

Record RTInfo : Type := mkRTInfo {
  id : Rendertargets.t;
  passBegin : PassBegin.t;
  clearValue : vec4
}.

Record t : Type := mk {
  depthStencil_ : Rendertargets.t;
  colorRTs_ : list RTInfo;
  inputRendertargets : gset Rendertargets.t;
  numSamples_ : Z;
  name_ : string;
  clearDepthAttachment : bool;
  depthClearValue : float
}.

(** [PassDesc::PassDesc()] *)
Definition new : t :=
  {| depthStencil_ := Rendertargets.Invalid;
     colorRTs_ := replicate MAX_COLOR_RENDERTARGETS
                    (mkRTInfo Rendertargets.Invalid PassBegin.DontCare (0, 0, 0, 0));
     inputRendertargets := ∅;
     numSamples_ := 1;
     name_ := "";
     clearDepthAttachment := false;
     depthClearValue := float_one |}.

(** [PassDesc::color(index, id, pb, clear)] *)
Definition color (index : nat) (rt : Rendertargets.t) (pb : PassBegin.t) (clear : vec4)
    (d : t) : Res t :=
  assert_ (bool_decide (index < MAX_COLOR_RENDERTARGETS)%nat);;
  assert_ (bool_decide (rt <> Rendertargets.Invalid));;
  old ← match colorRTs_ d !! index with Some o => Ret o | None => Undefined end;
  let info := mkRTInfo rt pb (if bool_decide (pb = PassBegin.Clear) then clear
                              else clearValue old) in
  Ret {| depthStencil_ := depthStencil_ d;
         colorRTs_ := <[index := info]> (colorRTs_ d);
         inputRendertargets := inputRendertargets d;
         numSamples_ := numSamples_ d;
         name_ := name_ d;
         clearDepthAttachment := clearDepthAttachment d;
         depthClearValue := depthClearValue d |}.

(** [PassDesc::inputRendertarget(id)] *)
Definition inputRendertarget (rt : Rendertargets.t) (d : t) : Res t :=
  assert_ (bool_decide (rt ∉ inputRendertargets d));;
  Ret {| depthStencil_ := depthStencil_ d;
         colorRTs_ := colorRTs_ d;
         inputRendertargets := {[ rt ]} ∪ inputRendertargets d;
         numSamples_ := numSamples_ d;
         name_ := name_ d;
         clearDepthAttachment := clearDepthAttachment d;
         depthClearValue := depthClearValue d |}.

End PassDesc.

Inductive State : Type := Invalid | Building | Ready | Rendering.

#[global] Instance State_eq_dec : EqDecision State.
Proof. solve_decision. Defined.

(** [struct RenderPass]; the callback [func] plays no part here. *)
Record RenderPass : Type := mkRenderPass {
  handle : Handle;
  fb : Handle;
  desc : PassDesc.t;
  rpDesc : RenderPassDesc
}.

Record InternalRT : Type := mkInternalRT {
  i_handle : Handle;
  i_desc : RenderTargetDesc
}.

Record ExternalRT : Type := mkExternalRT {
  e_format : Format.t;
  e_initialLayout : Layout.t;
  e_finalLayout : Layout.t;
  e_handle : Handle
}.

(** [boost::variant<ExternalRT, InternalRT>] *)
Inductive Rendertarget : Type :=
| External (e : ExternalRT)
| Internal (i : InternalRT).

Definition getFormat (rt : Rendertarget) : Format.t :=
  match rt with
  | External e => e_format e
  | Internal i => rt_format (i_desc i)
  end.

Definition getHandle (rt : Rendertarget) : Handle :=
  match rt with
  | External e => e_handle e
  | Internal i => i_handle i
  end.

Definition isExternal (rt : Rendertarget) : bool :=
  match rt with
  | External _ => true
  | Internal _ => false
  end.

Record Blit : Type := mkBlit {
  b_source : Rendertargets.t;
  b_dest : Rendertargets.t;
  b_finalLayout : Layout.t
}.

Record ResolveMSAA : Type := mkResolveMSAA {
  r_source : Rendertargets.t;
  r_dest : Rendertargets.t;
  r_finalLayout : Layout.t
}.

Record Pipeline : Type := mkPipeline {
  p_desc : PipelineDesc;
  p_handle : Handle
}.

(** [boost::variant<Blit, RenderPasses, ResolveMSAA>] *)
Inductive Operation : Type :=
| OpBlit (b : Blit)
| OpRenderPass (rp : RenderPasses.t)
| OpResolveMSAA (r : ResolveMSAA).

Record t : Type := mk {
  state : State;
  hasExternalRTs : bool;
  currentRP : RenderPasses.t;
  operations : list Operation;
  finalTarget : Rendertargets.t;
  rendertargets : gmap Rendertargets.t Rendertarget;
  pipelines : list Pipeline;
  renderPasses : gmap RenderPasses.t RenderPass;
  renderpassesWithExternalRTs : gset RenderPasses.t
}.

(** [RenderGraph::RenderGraph()].  [finalTarget] is not initialised by the
    constructor; it is given a value here. *)
Definition new : t :=
  {| state := Invalid; hasExternalRTs := false;
     currentRP := RenderPasses.Invalid; operations := [];
     finalTarget := Rendertargets.Invalid; rendertargets := ∅;
     pipelines := []; renderPasses := ∅;
     renderpassesWithExternalRTs := ∅ |}.

(** Assignments to single members. *)
Definition set_state (s : State) (g : t) : t :=
  mk s (hasExternalRTs g) (currentRP g) (operations g) (finalTarget g)
     (rendertargets g) (pipelines g) (renderPasses g) (renderpassesWithExternalRTs g).
Definition set_hasExternalRTs (b : bool) (g : t) : t :=
  mk (state g) b (currentRP g) (operations g) (finalTarget g)
     (rendertargets g) (pipelines g) (renderPasses g) (renderpassesWithExternalRTs g).
Definition set_operations (ops : list Operation) (g : t) : t :=
  mk (state g) (hasExternalRTs g) (currentRP g) ops (finalTarget g)
     (rendertargets g) (pipelines g) (renderPasses g) (renderpassesWithExternalRTs g).
Definition set_finalTarget (rt : Rendertargets.t) (g : t) : t :=
  mk (state g) (hasExternalRTs g) (currentRP g) (operations g) rt
     (rendertargets g) (pipelines g) (renderPasses g) (renderpassesWithExternalRTs g).
Definition set_rendertargets (m : gmap Rendertargets.t Rendertarget) (g : t) : t :=
  mk (state g) (hasExternalRTs g) (currentRP g) (operations g) (finalTarget g)
     m (pipelines g) (renderPasses g) (renderpassesWithExternalRTs g).
Definition set_pipelines (ps : list Pipeline) (g : t) : t :=
  mk (state g) (hasExternalRTs g) (currentRP g) (operations g) (finalTarget g)
     (rendertargets g) ps (renderPasses g) (renderpassesWithExternalRTs g).
Definition set_renderPasses (m : gmap RenderPasses.t RenderPass) (g : t) : t :=
  mk (state g) (hasExternalRTs g) (currentRP g) (operations g) (finalTarget g)
     (rendertargets g) (pipelines g) m (renderpassesWithExternalRTs g).
Definition set_renderpassesWithExternalRTs (s : gset RenderPasses.t) (g : t) : t :=
  mk (state g) (hasExternalRTs g) (currentRP g) (operations g) (finalTarget g)
     (rendertargets g) (pipelines g) (renderPasses g) s.

(** *** Declaring the graph *)

(** [RenderGraph::renderTarget] *)
Definition renderTarget (rt : Rendertargets.t) (d : RenderTargetDesc) (g : t) : Res t :=
  assert_ (bool_decide (state g = Building));;
  assert_ (bool_decide (rt <> Rendertargets.Invalid));;
  assert_ (bool_decide (rendertargets g !! rt = None));;
  Ret (set_rendertargets (<[rt := Internal (mkInternalRT 0%N d)]> (rendertargets g)) g).

(** [RenderGraph::externalRenderTarget] *)
Definition externalRenderTarget (rt : Rendertargets.t) (fmt : Format.t)
    (initial final : Layout.t) (g : t) : Res t :=
  assert_ (bool_decide (state g = Building));;
  assert_ (bool_decide (rt <> Rendertargets.Invalid));;
  assert_ (bool_decide (rendertargets g !! rt = None));;
  Ret (set_rendertargets
         (<[rt := External (mkExternalRT fmt initial final 0%N)]> (rendertargets g))
         (set_hasExternalRTs true g)).

(** [RenderGraph::renderPass] *)
Definition renderPass (rp : RenderPasses.t) (d : PassDesc.t) (g : t) : Res t :=
  assert_ (bool_decide (state g = Building));;
  assert_ (bool_decide (renderPasses g !! rp = None));;
  Ret (set_operations (operations g ++ [OpRenderPass rp])
         (set_renderPasses
            (<[rp := mkRenderPass 0%N 0%N d RenderPassDesc_new]> (renderPasses g)) g)).

(** [RenderGraph::resolveMSAA]; [finalLayout] of the new operation is not
    initialised by the code and is given a value here. *)
Definition resolveMSAA (source dest : Rendertargets.t) (g : t) : Res t :=
  assert_ (bool_decide (state g = Building));;
  Ret (set_operations
         (operations g ++ [OpResolveMSAA (mkResolveMSAA source dest Layout.Undefined)]) g).

(** [RenderGraph::blit] *)
Definition blit (source dest : Rendertargets.t) (g : t) : Res t :=
  assert_ (bool_decide (state g = Building));;
  Ret (set_operations (operations g ++ [OpBlit (mkBlit source dest Layout.Undefined)]) g).

(** [RenderGraph::presentRenderTarget] *)
Definition presentRenderTarget (rt : Rendertargets.t) (g : t) : Res t :=
  assert_ (bool_decide (state g = Building));;
  assert_ (bool_decide (rt <> Rendertargets.Invalid));;
  Ret (set_finalTarget rt g).

(** *** [RenderGraph::reset] *)

(** [rendertargets] and [renderPasses] are [std::unordered_map]s, whose
    iteration order the language leaves open.  The loops of [reset] and
    [build] over them walk the entries in the order of [map_to_list]; on
    a given graph the order of the back-end calls of one loop, and with it
    the numbers of the handles created, may be another in the program. *)

(** [for (auto &p : pipelines) renderer.deletePipeline(p.handle);] *)
Definition deletePipelines (ps : list Pipeline) (r : Renderer) : Renderer :=
  foldl (fun r p => Backend.deletePipeline (p_handle p) r) r ps.

(** The loop over [rendertargets]: internal targets are deleted. *)
Fixpoint deleteRendertargets (rts : list (Rendertargets.t * Rendertarget)) (r : Renderer)
  : Res Renderer :=
  match rts with
  | [] => Ret r
  | (k, rt) :: rest =>
      assert_ (bool_decide (k <> Rendertargets.Invalid));;
      r1 ← match rt with
           | External _ => Ret r
           | Internal i =>
               assert_ (bool_decide (i_handle i <> 0%N));;
               Ret (Backend.deleteRenderTarget (i_handle i) r)
           end;
      deleteRendertargets rest r1
  end.

(** The loop over [renderPasses]: passes and framebuffers are deleted. *)
Definition deleteRenderPasses (rps : list (RenderPasses.t * RenderPass)) (r : Renderer)
  : Renderer :=
  foldl (fun r p =>
           let rp := p.2 in
           let r1 := if bool_decide (handle rp <> 0%N)
                     then Backend.deleteRenderPass (handle rp) r else r in
           if bool_decide (fb rp <> 0%N)
           then Backend.deleteFramebuffer (fb rp) r1 else r1)
        r rps.

(** [while (!renderer.waitForDeviceIdle()) processEvents();] *)
Fixpoint waitIdle (fuel : nat) (r : Renderer) : Res Renderer :=
  let '(idle, r1) := Backend.waitForDeviceIdle r in
  if idle then Ret r1
  else match fuel with
       | O => Undefined
       | S fuel' => waitIdle fuel' (Backend.record ProcessEvents r1)
       end.

Definition reset (g : t) (r : Renderer) : Res (t * Renderer) :=
  assert_ (bool_decide (state g = Invalid) || bool_decide (state g = Ready));;
  let g := set_state Building g in
  let g := set_renderPasses ∅ g in
  let g := set_renderpassesWithExternalRTs ∅ g in
  let g := set_hasExternalRTs false g in
  let r := deletePipelines (pipelines g) r in
  let g := set_pipelines [] g in
  r ← deleteRendertargets (map_to_list (rendertargets g)) r;
  let g := set_rendertargets ∅ g in
  let r := deleteRenderPasses (map_to_list (renderPasses g)) r in
  let g := set_renderPasses ∅ g in
  let g := set_operations [] g in
  r ← waitIdle (busyPolls r) r;
  Ret (g, r).

(** *** [RenderGraph::createPipeline] *)

(** The handle is returned together with [desc], which the call modifies
    through its reference. *)
Definition createPipeline (rp : RenderPasses.t) (d : PipelineDesc) (g : t) (r : Renderer)
  : Res (Handle * PipelineDesc * t * Renderer) :=
  assert_ (bool_decide (state g = Ready) || bool_decide (state g = Rendering));;
  pass ← match renderPasses g !! rp with Some p => Ret p | None => AssertionFailed end;
  let d := PipelineDesc_renderPass (handle pass) d in
  match List.find (fun pipeline => bool_decide (p_desc pipeline = d)) (pipelines g) with
  | Some pipeline => Ret (p_handle pipeline, d, g, r)
  | None =>
      let '(h, r) := Backend.createPipeline d r in
      Ret (h, d, set_pipelines (pipelines g ++ [mkPipeline d h]) g, r)
  end.

(** *** [RenderGraph::build] *)

(** The first loop: internal render targets are created. *)
Fixpoint createRendertargets (rts : list (Rendertargets.t * Rendertarget))
    (acc : gmap Rendertargets.t Rendertarget) (r : Renderer)
  : Res (gmap Rendertargets.t Rendertarget * Renderer) :=
  match rts with
  | [] => Ret (acc, r)
  | (k, rt) :: rest =>
      assert_ (bool_decide (k <> Rendertargets.Invalid));;
      match rt with
      | External _ => createRendertargets rest acc r
      | Internal i =>
          let '(h, r1) := Backend.createRenderTarget (i_desc i) r in
          createRendertargets rest (<[k := Internal (mkInternalRT h (i_desc i))]> acc) r1
      end
  end.

(** The layout table, [std::unordered_map<Rendertargets, Layout>]. *)
Abbreviation Layouts := (gmap Rendertargets.t Layout.t) (only parsing).

(** "initialize final render target to transfer src", then
    "initialize external rendertargets final layouts". *)
Definition seedLayouts (g : t) : Layouts :=
  map_fold (fun k rt (cl : Layouts) =>
              match rt with
              | External e => <[k := e_finalLayout e]> cl
              | Internal _ => cl
              end)
           ({[ finalTarget g := Layout.TransferSrc ]} : Layouts)
           (rendertargets g).

(** [currentLayouts[k]] as an rvalue: a missing key is inserted with a
    value-initialised layout. *)
Definition subscript (k : Rendertargets.t) (cl : Layouts) : Layout.t * Layouts :=
  match cl !! k with
  | Some l => (l, cl)
  | None => (Layout.Undefined, <[k := Layout.Undefined]> cl)
  end.

(** [rpDesc.color(i, fmt, pb, initial, final, clearValue)] *)
Definition RenderPassDesc_color (i : nat) (c : RPColorDesc) (d : RenderPassDesc)
  : Res RenderPassDesc :=
  defined_ (bool_decide (i < length (rp_colorRTs d))%nat);;
  Ret {| rp_name := rp_name d; rp_numSamples := rp_numSamples d;
         depthStencilFormat_ := depthStencilFormat_ d;
         rp_clearDepthAttachment := rp_clearDepthAttachment d;
         rp_depthClearValue := rp_depthClearValue d;
         rp_colorRTs := <[i := c]> (rp_colorRTs d) |}.

(** The body of the loop over the colour attachments, for index [i]. *)
Definition visitColor (rts : gmap Rendertargets.t Rendertarget) (d : PassDesc.t) (i : nat)
    (st : Layouts * RenderPassDesc) : Res (Layouts * RenderPassDesc) :=
  let '(currentLayouts, rpd) := st in
  info ← match PassDesc.colorRTs_ d !! i with Some x => Ret x | None => Undefined end;
  let rtId := PassDesc.id info in
  if bool_decide (rtId <> Rendertargets.Invalid) then
    rt ← match rts !! rtId with Some x => Ret x | None => AssertionFailed end;
    let fmt := getFormat rt in
    assert_ (bool_decide (fmt <> Format.Invalid));;
    let pb := PassDesc.passBegin info in
    let initial := if bool_decide (pb = PassBegin.Keep)
                   then Layout.ColorAttachment else Layout.Undefined in
    let final := match currentLayouts !! rtId with
                 | None => Layout.ColorAttachment
                 | Some l => l
                 end in
    assert_ (bool_decide (final <> Layout.Undefined));;
    assert_ (bool_decide (final <> Layout.TransferDst));;
    rpd1 ← RenderPassDesc_color i
             (mkRPColorDesc fmt pb initial final (PassDesc.clearValue info)) rpd;
    Ret (<[rtId := initial]> currentLayouts, rpd1)
  else Ret st.

Fixpoint visitColors (rts : gmap Rendertargets.t Rendertarget) (d : PassDesc.t)
    (indices : list nat) (st : Layouts * RenderPassDesc) : Res (Layouts * RenderPassDesc) :=
  match indices with
  | [] => Ret st
  | i :: rest => st1 ← visitColor rts d i st; visitColors rts d rest st1
  end.

(** "mark input rt current layout as shader read" *)
Definition markInputs (inputs : gset Rendertargets.t) (cl : Layouts) : Layouts :=
  foldr (fun inputRT (cl : Layouts) => <[inputRT := Layout.ShaderRead]> cl) cl
        (elements inputs).

(** [LayoutVisitor::operator()(RenderPasses &)] *)
Definition visitRenderPass (rts : gmap Rendertargets.t Rendertarget) (rpId : RenderPasses.t)
    (st : Layouts * gmap RenderPasses.t RenderPass)
  : Res (Layouts * gmap RenderPasses.t RenderPass) :=
  let '(currentLayouts, passes) := st in
  rp ← match passes !! rpId with Some x => Ret x | None => AssertionFailed end;
  let d := desc rp in
  let rpd := rpDesc rp in
  let rpd := mkRenderPassDesc (PassDesc.name_ d) (PassDesc.numSamples_ d)
               (depthStencilFormat_ rpd) (rp_clearDepthAttachment rpd)
               (rp_depthClearValue rpd) (rp_colorRTs rpd) in
  rpd ← (if bool_decide (PassDesc.depthStencil_ d <> Rendertargets.Invalid) then
           rt ← match rts !! PassDesc.depthStencil_ d with
                | Some x => Ret x | None => AssertionFailed end;
           let fmt := getFormat rt in
           assert_ (bool_decide (fmt <> Format.Invalid));;
           Ret (mkRenderPassDesc (rp_name rpd) (rp_numSamples rpd) fmt
                  (if PassDesc.clearDepthAttachment d then true
                   else rp_clearDepthAttachment rpd)
                  (if PassDesc.clearDepthAttachment d then PassDesc.depthClearValue d
                   else rp_depthClearValue rpd)
                  (rp_colorRTs rpd))
         else Ret rpd);
  '(currentLayouts, rpd) ←
    visitColors rts d (seq 0 MAX_COLOR_RENDERTARGETS) (currentLayouts, rpd);
  let currentLayouts := markInputs (PassDesc.inputRendertargets d) currentLayouts in
  Ret (currentLayouts, <[rpId := mkRenderPass (handle rp) (fb rp) d rpd]> passes).

(** [LayoutVisitor] applied to one operation. *)
Definition visitOperation (rts : gmap Rendertargets.t Rendertarget) (op : Operation)
    (st : Layouts * gmap RenderPasses.t RenderPass)
  : Res (Operation * (Layouts * gmap RenderPasses.t RenderPass)) :=
  let '(currentLayouts, passes) := st in
  match op with
  | OpBlit b =>
      let '(l, cl) := subscript (b_dest b) currentLayouts in
      Ret (OpBlit (mkBlit (b_source b) (b_dest b) l),
           (<[b_source b := Layout.TransferSrc]> cl, passes))
  | OpRenderPass rpId =>
      st1 ← visitRenderPass rts rpId st; Ret (op, st1)
  | OpResolveMSAA res =>
      let '(l, cl) := subscript (r_dest res) currentLayouts in
      Ret (OpResolveMSAA (mkResolveMSAA (r_source res) (r_dest res) l),
           (<[r_source res := Layout.TransferSrc]> cl, passes))
  end.

(** [for (auto it = operations.rbegin(); it != operations.rend(); it++)]:
    the operations to the right are visited first. *)
Fixpoint layoutPass (rts : gmap Rendertargets.t Rendertarget) (ops : list Operation)
    (st : Layouts * gmap RenderPasses.t RenderPass)
  : Res (list Operation * (Layouts * gmap RenderPasses.t RenderPass)) :=
  match ops with
  | [] => Ret ([], st)
  | op :: rest =>
      '(rest1, st1) ← layoutPass rts rest st;
      '(op1, st2) ← visitOperation rts op st1;
      Ret (op1 :: rest1, st2)
  end.

(** The block "automatically decide layouts" of [build]. *)
Definition inferLayouts (g : t) : Res t :=
  '(ops, (_, passes)) ←
    layoutPass (rendertargets g) (operations g) (seedLayouts g, renderPasses g);
  Ret (set_renderPasses passes (set_operations ops g)).

(** [buildRenderPassFramebuffer] *)
Fixpoint framebufferColors (rts : gmap Rendertargets.t Rendertarget)
    (infos : list PassDesc.RTInfo) : Res (list Handle) :=
  match infos with
  | [] => Ret []
  | info :: rest =>
      h ← (if bool_decide (PassDesc.id info <> Rendertargets.Invalid) then
             match rts !! PassDesc.id info with
             | Some rt => Ret (getHandle rt)
             | None => AssertionFailed
             end
           else Ret 0%N);
      hs ← framebufferColors rts rest;
      Ret (h :: hs)
  end.

Definition buildRenderPassFramebuffer (rts : gmap Rendertargets.t Rendertarget)
    (rp : RenderPass) (r : Renderer) : Res (RenderPass * Renderer) :=
  let d := desc rp in
  ds ← (if bool_decide (PassDesc.depthStencil_ d <> Rendertargets.Invalid) then
          match rts !! PassDesc.depthStencil_ d with
          | Some rt => Ret (getHandle rt)
          | None => AssertionFailed
          end
        else Ret 0%N);
  colors ← framebufferColors rts (PassDesc.colorRTs_ d);
  let fbDesc := mkFramebufferDesc (PassDesc.name_ d) (handle rp) ds colors in
  let '(fbHandle, r1) := Backend.createFramebuffer fbDesc r in
  assert_ (bool_decide (fbHandle <> 0%N));;
  Ret (mkRenderPass (handle rp) fbHandle d (rpDesc rp), r1).

(** "if this renderpass has external RTs we defer its creation" *)
Fixpoint hasExternal (rts : gmap Rendertargets.t Rendertarget)
    (infos : list PassDesc.RTInfo) : Res bool :=
  match infos with
  | [] => Ret false
  | info :: rest =>
      if bool_decide (PassDesc.id info <> Rendertargets.Invalid) then
        match rts !! PassDesc.id info with
        | Some rt => if isExternal rt then Ret true else hasExternal rts rest
        | None => AssertionFailed
        end
      else hasExternal rts rest
  end.

(** The loop of [build] over [renderPasses]. *)
Fixpoint createRenderPasses (rts : gmap Rendertargets.t Rendertarget)
    (rps : list (RenderPasses.t * RenderPass))
    (acc : gmap RenderPasses.t RenderPass * gset RenderPasses.t) (r : Renderer)
  : Res (gmap RenderPasses.t RenderPass * gset RenderPasses.t * Renderer) :=
  match rps with
  | [] => Ret (acc, r)
  | (k, temp) :: rest =>
      let '(passes, withExternal) := acc in
      assert_ (bool_decide (handle temp = 0%N));;
      let '(rpHandle, r1) := Backend.createRenderPass (rpDesc temp) r in
      assert_ (bool_decide (rpHandle <> 0%N));;
      let temp := mkRenderPass rpHandle (fb temp) (desc temp) (rpDesc temp) in
      assert_ (bool_decide (fb temp = 0%N));;
      ext ← hasExternal rts (PassDesc.colorRTs_ (desc temp));
      if (ext : bool) then
        assert_ (bool_decide (k ∉ withExternal));;
        createRenderPasses rts rest (<[k := temp]> passes, {[ k ]} ∪ withExternal) r1
      else
        '(temp, r2) ← buildRenderPassFramebuffer rts temp r1;
        createRenderPasses rts rest (<[k := temp]> passes, withExternal) r2
  end.

Definition build (g : t) (r : Renderer) : Res (t * Renderer) :=
  assert_ (bool_decide (state g = Building));;
  let g := set_state Ready g in
  assert_ (bool_decide (finalTarget g <> Rendertargets.Invalid));;
  '(rts, r) ← createRendertargets (map_to_list (rendertargets g)) (rendertargets g) r;
  let g := set_rendertargets rts g in
  g ← inferLayouts g;
  '(passes, withExternal, r) ←
    createRenderPasses (rendertargets g) (map_to_list (renderPasses g))
      (renderPasses g, renderpassesWithExternalRTs g) r;
  Ret (set_renderpassesWithExternalRTs withExternal (set_renderPasses passes g), r).

(** ** Vocabulary of the statements about the graph *)

(** The colour attachment [i] that the pass [rp] of the graph declares. *)
Definition declaredColor (g : t) (rp : RenderPasses.t) (i : nat) : option PassDesc.RTInfo :=
  p ← renderPasses g !! rp; PassDesc.colorRTs_ (desc p) !! i.

(** The colour attachment [i] of the description inferred for [rp]. *)
Definition inferredColor (g : t) (rp : RenderPasses.t) (i : nat) : option RPColorDesc :=
  p ← renderPasses g !! rp; rp_colorRTs (rpDesc p) !! i.

(** A back-end object created and not deleted since. *)
Definition live (mk : Handle -> BackendCall -> Prop) (del : Handle -> BackendCall)
    (r : Renderer) (h : Handle) : Prop :=
  (exists c, c ∈ calls r /\ mk h c) /\ del h ∉ calls r.

Definition isCreateRenderPass (h : Handle) (c : BackendCall) : Prop :=
  exists d, c = CreateRenderPass d h.
Definition isCreateFramebuffer (h : Handle) (c : BackendCall) : Prop :=
  exists d, c = CreateFramebuffer d h.

(** The initial layout the layout pass gives an attachment. *)
Definition initialFor (pb : PassBegin.t) : Layout.t :=
  match pb with
  | PassBegin.Keep => Layout.ColorAttachment
  | _ => Layout.Undefined
  end.

(** The description inferred for a pass agrees with its declaration:
    every declared colour attachment has an entry with the declared begin
    behaviour and the initial layout [initialFor]. *)
Definition inferredFrom (d : PassDesc.t) (colors : list RPColorDesc) (i : nat) : Prop :=
  forall info,
    PassDesc.colorRTs_ d !! i = Some info ->
    PassDesc.id info <> Rendertargets.Invalid ->
    exists c, colors !! i = Some c /\
              passBegin c = PassDesc.passBegin info /\
              initialLayout c = initialFor (PassDesc.passBegin info).

(** The reading of "keep" under which the initial layout is whatever the
    layout table holds for the attachment when its pass is visited; for
    the first attachment of the only operation of a graph the table is
    still the seed. *)
Definition keepFollowsTable : Prop :=
  forall g g' rp info c,
    inferLayouts g = Ret g' ->
    operations g = [OpRenderPass rp] ->
    declaredColor g rp 0 = Some info ->
    PassDesc.passBegin info = PassBegin.Keep ->
    inferredColor g' rp 0 = Some c ->
    seedLayouts g !! PassDesc.id info = Some (initialLayout c).

(** The calls [reset] makes for the render targets: one deletion per
    internal target. *)
Definition rendertargetDeletes (rts : list (Rendertargets.t * Rendertarget))
  : list BackendCall :=
  omap (fun p => match p.2 with
                 | Internal i => Some (DeleteRenderTarget (i_handle i))
                 | External _ => None
                 end) rts.

(** The calls of the loop that waits for the device: a failed poll and an
    event pump per busy poll, then the poll that succeeds. *)
Fixpoint pumpCalls (busy : nat) : list BackendCall :=
  match busy with
  | O => [WaitForDeviceIdle true]
  | S n => WaitForDeviceIdle false :: ProcessEvents :: pumpCalls n
  end.

Definition isDelete (c : BackendCall) : Prop :=
  match c with
  | DeletePipeline _ | DeleteRenderTarget _ | DeleteRenderPass _
  | DeleteFramebuffer _ => True
  | _ => False
  end.

(** The reading of [reset] under which every render pass and framebuffer
    that the graph holds is deleted through the back end. *)
Definition resetDeletesPasses : Prop :=
  forall g r g' r' k rp,
    reset g r = Ret (g', r') ->
    renderPasses g !! k = Some rp ->
    (handle rp <> 0%N -> DeleteRenderPass (handle rp) ∈ calls r') /\
    (fb rp <> 0%N -> DeleteFramebuffer (fb rp) ∈ calls r').

(** The reading of [reset] under which the device is idle before anything
    is deleted. *)
Definition resetWaitsFirst : Prop :=
  forall g r g' r' before c after,
    reset g r = Ret (g', r') ->
    calls r' = calls r ++ before ++ c :: after ->
    isDelete c ->
    WaitForDeviceIdle true ∈ before.

(** What [reset] asserts about the graph it is given. *)
Definition resettable (g : t) : Prop :=
  (state g = Invalid \/ state g = Ready) /\
  forall k rt, rendertargets g !! k = Some rt ->
    k <> Rendertargets.Invalid /\
    forall i, rt = Internal i -> i_handle i <> 0%N.

(** A graph that has just been reset: nothing declared yet. *)
Definition freshGraph : t :=
  {| state := Building; hasExternalRTs := false;
     currentRP := RenderPasses.Invalid; operations := [];
     finalTarget := Rendertargets.Invalid; rendertargets := ∅;
     pipelines := []; renderPasses := ∅;
     renderpassesWithExternalRTs := ∅ |}.

(** *** The two-pass example graph *)

(** Target [A] written by pass [P1] and read by pass [P2], which writes
    the present target [B]; both attachments are cleared. *)
Definition noColor : PassDesc.RTInfo :=
  PassDesc.mkRTInfo Rendertargets.Invalid PassBegin.DontCare (0, 0, 0, 0).

Definition exampleP1 (A : Rendertargets.t) (clear : vec4) : PassDesc.t :=
  PassDesc.mk Rendertargets.Invalid
    [PassDesc.mkRTInfo A PassBegin.Clear clear; noColor] ∅ 1 "" false float_one.

Definition exampleP2 (A B : Rendertargets.t) (clear : vec4) : PassDesc.t :=
  PassDesc.mk Rendertargets.Invalid
    [PassDesc.mkRTInfo B PassBegin.Clear clear; noColor] {[ A ]} 1 "" false float_one.

Definition exampleGraph (A B : Rendertargets.t) (P1 P2 : RenderPasses.t)
    (dA dB : RenderTargetDesc) (clearA clearB : vec4) : t :=
  {| state := Building; hasExternalRTs := false;
     currentRP := RenderPasses.Invalid;
     operations := [OpRenderPass P1; OpRenderPass P2];
     finalTarget := B;
     rendertargets := <[B := Internal (mkInternalRT 0%N dB)]>
                        (<[A := Internal (mkInternalRT 0%N dA)]> ∅);
     pipelines := [];
     renderPasses := <[P2 := mkRenderPass 0%N 0%N (exampleP2 A B clearB) RenderPassDesc_new]>
                       (<[P1 := mkRenderPass 0%N 0%N (exampleP1 A clearA) RenderPassDesc_new]> ∅);
     renderpassesWithExternalRTs := ∅ |}.

(** The calls that declare it, on a graph that has just been reset. *)
Definition declareExample (A B : Rendertargets.t) (P1 P2 : RenderPasses.t)
    (dA dB : RenderTargetDesc) (clearA clearB : vec4) (g : t) : Res t :=
  g ← renderTarget A dA g;
  d1 ← PassDesc.color 0 A PassBegin.Clear clearA PassDesc.new;
  g ← renderPass P1 d1 g;
  g ← renderTarget B dB g;
  d2 ← PassDesc.color 0 B PassBegin.Clear clearB PassDesc.new;
  d2 ← PassDesc.inputRendertarget A d2;
  g ← renderPass P2 d2 g;
  presentRenderTarget B g.

(** *** A graph with one pass that keeps the contents of the present target *)

Definition keepDesc : PassDesc.t :=
  PassDesc.mk Rendertargets.Invalid
    [PassDesc.mkRTInfo Rendertargets.FinalRender PassBegin.Keep (0, 0, 0, 0); noColor]
    ∅ 1 "" false float_one.

Definition plainTarget : RenderTargetDesc :=
  mkRenderTargetDesc "" (Format.Pixel 1) Format.Invalid 1 640 480.

Definition keepGraph : t :=
  {| state := Building; hasExternalRTs := false;
     currentRP := RenderPasses.Invalid;
     operations := [OpRenderPass RenderPasses.GUI];
     finalTarget := Rendertargets.FinalRender;
     rendertargets := {[ Rendertargets.FinalRender := Internal (mkInternalRT 0%N plainTarget) ]};
     pipelines := [];
     renderPasses := {[ RenderPasses.GUI := mkRenderPass 0%N 0%N keepDesc RenderPassDesc_new ]};
     renderpassesWithExternalRTs := ∅ |}.

(** *** The example graph, built *)

(** [reset], the declaration calls and [build] on a back end that reports
    the device busy twice. *)
Definition buildExample : Res (t * Renderer) :=
  '(g0, r0) ← reset new (mkBackend [] 0%N 2);
  g1 ← declareExample Rendertargets.MainColor Rendertargets.FinalRender
         RenderPasses.Scene RenderPasses.Final plainTarget plainTarget
         (0, 0, 0, 0) (0, 0, 0, 0) g0;
  build g1 r0.

(** The graph and the back end that [buildExample] returns. *)
Definition builtExample : t * Renderer :=
  Eval vm_compute in
    match buildExample with
    | Ret x => x
    | _ => (new, mkBackend [] 0%N 0)
    end.

(** The layouts of the colour attachments in the description from which
    the back end created render pass [h]. *)
Definition createdWithLayouts (r : Renderer) (h : Handle)
  : option (list (Layout.t * Layout.t)) :=
  match List.find (fun c => match c with
                            | CreateRenderPass _ h' => bool_decide (h' = h)
                            | _ => false
                            end) (calls r) with
  | Some (CreateRenderPass d _) =>
      Some (map (fun c => (initialLayout c, finalLayout c)) (rp_colorRTs d))
  | _ => None
  end.

End RenderGraph.

(** * renderer/OpenGLRenderer.cpp *)

Module OpenGLRenderer.

(** ** OpenGL constants *)

Definition GL_ALREADY_SIGNALED : Z := 0x911A.
Definition GL_TIMEOUT_EXPIRED : Z := 0x911B.
Definition GL_CONDITION_SATISFIED : Z := 0x911C.
Definition GL_WAIT_FAILED : Z := 0x911D.
Definition GL_SYNC_FLUSH_COMMANDS_BIT : Z := 0x0001.

Definition GL_MAP_READ_BIT : Z := 0x0001.
Definition GL_MAP_WRITE_BIT : Z := 0x0002.
Definition GL_MAP_PERSISTENT_BIT : Z := 0x0040.
Definition GL_MAP_COHERENT_BIT : Z := 0x0080.
Definition GL_DYNAMIC_STORAGE_BIT : Z := 0x0100.

Definition GL_UNIFORM_BUFFER : Z := 0x8A11.
Definition GL_SHADER_STORAGE_BUFFER : Z := 0x90D2.
Definition GL_TRIANGLES : Z := 0x0004.

(** The OpenGL calls these functions make.  A [GLsync] is an integer. *)
Inductive GLCall : Type :=
| glClientWaitSync (sync : Z) (flags : Z) (timeout : Z)
| glDeleteSync (sync : Z)
| glDeleteBuffers (buffer : Z)
| glUnmapNamedBuffer (buffer : Z)
| glCreateBuffers (buffer : Z)
| glNamedBufferStorage (buffer : Z) (size : Z) (flags : Z)
| glMapNamedBufferRange (buffer : Z) (offset : Z) (length : Z) (access : Z)
| glBindBufferRange (target : Z) (index : nat) (buffer : Z) (offset : Z) (size : Z)
| glBindTextureUnit (unit_ : nat) (texture : Z)
| glBindSampler (unit_ : nat) (sampler : Z)
| glDrawArrays (mode : Z) (first : Z) (count : Z).

(** ** Resources *)

(** The structures of renderer/OpenGLRenderer.h, which is not among the
    sources: their members are the ones the functions below use. *)
Module BufferType.
Inductive t : Type := Invalid | Index | Uniform | Storage | Vertex | Everything.

#[global] Instance eq_dec : EqDecision t.
Proof. solve_decision. Defined.
End BufferType.

Record Buffer : Type := mkBuffer {
  buffer : Z;
  ringBufferAlloc : bool;
  offset : Z;
  size : Z;
  type : BufferType.t
}.

(** [Buffer::Buffer()] *)
Definition Buffer_new : Buffer :=
  {| buffer := 0; ringBufferAlloc := false; offset := 0; size := 0;
     type := BufferType.Invalid |}.

Record Sampler : Type := mkSampler { sampler : Z }.

Record Texture : Type := mkTexture { tex : Z }.

Module DescriptorType.
Inductive t : Type :=
| End_ | UniformBuffer | StorageBuffer | Sampler | Texture | CombinedSampler.

#[global] Instance eq_dec : EqDecision t.
Proof. solve_decision. Defined.
End DescriptorType.

(** [struct DescriptorLayout]: the type of a binding and the offset of its
    handle in the blob passed to [bindDescriptorSet]. *)
Record DescriptorLayout : Type := mkDescriptorLayout {
  dl_type : DescriptorType.t;
  dl_offset : Z
}.

Record DescriptorSetLayout : Type := mkDescriptorSetLayout {
  dsl_descriptors : list DescriptorLayout
}.

(** [boost::variant<BufferHandle, CSampler, SamplerHandle, TextureHandle>];
    [which()] is the position of the alternative. *)
Inductive Descriptor : Type :=
| DBuffer (h : Handle)
| DCombined (texture sampler : Handle)
| DSampler (h : Handle)
| DTexture (h : Handle).

Definition which (d : Descriptor) : Z :=
  match d with
  | DBuffer _ => 0
  | DCombined _ _ => 1
  | DSampler _ => 2
  | DTexture _ => 3
  end.

(** [struct ShaderResources]: for each binding point of the program the
    (set, binding) pair it takes its resource from. *)
Record ShaderResources : Type := mkShaderResources {
  ubos : list (nat * nat);
  uboSizes : list Z;
  ssbos : list (nat * nat);
  sr_textures : list (nat * nat);
  sr_samplers : list (nat * nat)
}.

Record Pipeline : Type := mkPipeline {
  desc_descriptorSetLayouts : list Handle;
  desc_scissorTest : bool;
  resources_ : ShaderResources
}.

Record Frame : Type := mkFrame {
  fence : option Z;
  ephemeralBuffers : list Handle;
  outstanding : bool;
  lastFrameNum : Z;
  usedRingBufPtr : Z
}.

(** The members of [RendererImpl] that the functions below read or write.
    [glcalls] is the sequence of OpenGL calls made so far, oldest first;
    [persistentMapping] is the name of the buffer whose storage is mapped,
    [None] for a null pointer.  The last five are the state kept for the
    assertions of a debug build. *)
Record RendererImpl : Type := mkRenderer {
  glcalls : list GLCall;
  ringBuffer : Z;
  ringBufSize : Z;
  ringBufPtr : Z;
  persistentMapInUse : bool;
  persistentMapping : option Z;
  tracing : bool;
  buffers : ResourceContainer Buffer;
  samplers : ResourceContainer Sampler;
  textures : ResourceContainer Texture;
  pipelines : ResourceContainer Pipeline;
  dsLayouts : ResourceContainer DescriptorSetLayout;
  frames : list Frame;
  currentFrameIdx : nat;
  frameNum : Z;
  lastSyncedFrame : Z;
  lastSyncedRingBufPtr : Z;
  currentPipeline : Handle;
  descriptors : gmap (nat * nat) Descriptor;
  decriptorSetsDirty : bool;
  inFrame : bool;
  inRenderPass : bool;
  validPipeline : bool;
  pipelineDrawn : bool;
  scissorSet : bool
}.

(** Assignments to single members. *)
Definition set_glcalls (v : list GLCall) (r : RendererImpl) : RendererImpl :=
  mkRenderer v (ringBuffer r) (ringBufSize r) (ringBufPtr r) (persistentMapInUse r) (persistentMapping r) (tracing r) (buffers r) (samplers r) (textures r) (pipelines r) (dsLayouts r) (frames r) (currentFrameIdx r) (frameNum r) (lastSyncedFrame r) (lastSyncedRingBufPtr r) (currentPipeline r) (descriptors r) (decriptorSetsDirty r) (inFrame r) (inRenderPass r) (validPipeline r) (pipelineDrawn r) (scissorSet r).
Definition set_ringBuffer (v : Z) (r : RendererImpl) : RendererImpl :=
  mkRenderer (glcalls r) v (ringBufSize r) (ringBufPtr r) (persistentMapInUse r) (persistentMapping r) (tracing r) (buffers r) (samplers r) (textures r) (pipelines r) (dsLayouts r) (frames r) (currentFrameIdx r) (frameNum r) (lastSyncedFrame r) (lastSyncedRingBufPtr r) (currentPipeline r) (descriptors r) (decriptorSetsDirty r) (inFrame r) (inRenderPass r) (validPipeline r) (pipelineDrawn r) (scissorSet r).
Definition set_ringBufSize (v : Z) (r : RendererImpl) : RendererImpl :=
  mkRenderer (glcalls r) (ringBuffer r) v (ringBufPtr r) (persistentMapInUse r) (persistentMapping r) (tracing r) (buffers r) (samplers r) (textures r) (pipelines r) (dsLayouts r) (frames r) (currentFrameIdx r) (frameNum r) (lastSyncedFrame r) (lastSyncedRingBufPtr r) (currentPipeline r) (descriptors r) (decriptorSetsDirty r) (inFrame r) (inRenderPass r) (validPipeline r) (pipelineDrawn r) (scissorSet r).
Definition set_ringBufPtr (v : Z) (r : RendererImpl) : RendererImpl :=
  mkRenderer (glcalls r) (ringBuffer r) (ringBufSize r) v (persistentMapInUse r) (persistentMapping r) (tracing r) (buffers r) (samplers r) (textures r) (pipelines r) (dsLayouts r) (frames r) (currentFrameIdx r) (frameNum r) (lastSyncedFrame r) (lastSyncedRingBufPtr r) (currentPipeline r) (descriptors r) (decriptorSetsDirty r) (inFrame r) (inRenderPass r) (validPipeline r) (pipelineDrawn r) (scissorSet r).
Definition set_persistentMapInUse (v : bool) (r : RendererImpl) : RendererImpl :=
  mkRenderer (glcalls r) (ringBuffer r) (ringBufSize r) (ringBufPtr r) v (persistentMapping r) (tracing r) (buffers r) (samplers r) (textures r) (pipelines r) (dsLayouts r) (frames r) (currentFrameIdx r) (frameNum r) (lastSyncedFrame r) (lastSyncedRingBufPtr r) (currentPipeline r) (descriptors r) (decriptorSetsDirty r) (inFrame r) (inRenderPass r) (validPipeline r) (pipelineDrawn r) (scissorSet r).
Definition set_persistentMapping (v : option Z) (r : RendererImpl) : RendererImpl :=
  mkRenderer (glcalls r) (ringBuffer r) (ringBufSize r) (ringBufPtr r) (persistentMapInUse r) v (tracing r) (buffers r) (samplers r) (textures r) (pipelines r) (dsLayouts r) (frames r) (currentFrameIdx r) (frameNum r) (lastSyncedFrame r) (lastSyncedRingBufPtr r) (currentPipeline r) (descriptors r) (decriptorSetsDirty r) (inFrame r) (inRenderPass r) (validPipeline r) (pipelineDrawn r) (scissorSet r).
Definition set_buffers (v : ResourceContainer Buffer) (r : RendererImpl) : RendererImpl :=
  mkRenderer (glcalls r) (ringBuffer r) (ringBufSize r) (ringBufPtr r) (persistentMapInUse r) (persistentMapping r) (tracing r) v (samplers r) (textures r) (pipelines r) (dsLayouts r) (frames r) (currentFrameIdx r) (frameNum r) (lastSyncedFrame r) (lastSyncedRingBufPtr r) (currentPipeline r) (descriptors r) (decriptorSetsDirty r) (inFrame r) (inRenderPass r) (validPipeline r) (pipelineDrawn r) (scissorSet r).
Definition set_frames (v : list Frame) (r : RendererImpl) : RendererImpl :=
  mkRenderer (glcalls r) (ringBuffer r) (ringBufSize r) (ringBufPtr r) (persistentMapInUse r) (persistentMapping r) (tracing r) (buffers r) (samplers r) (textures r) (pipelines r) (dsLayouts r) v (currentFrameIdx r) (frameNum r) (lastSyncedFrame r) (lastSyncedRingBufPtr r) (currentPipeline r) (descriptors r) (decriptorSetsDirty r) (inFrame r) (inRenderPass r) (validPipeline r) (pipelineDrawn r) (scissorSet r).
Definition set_lastSyncedFrame (v : Z) (r : RendererImpl) : RendererImpl :=
  mkRenderer (glcalls r) (ringBuffer r) (ringBufSize r) (ringBufPtr r) (persistentMapInUse r) (persistentMapping r) (tracing r) (buffers r) (samplers r) (textures r) (pipelines r) (dsLayouts r) (frames r) (currentFrameIdx r) (frameNum r) v (lastSyncedRingBufPtr r) (currentPipeline r) (descriptors r) (decriptorSetsDirty r) (inFrame r) (inRenderPass r) (validPipeline r) (pipelineDrawn r) (scissorSet r).
Definition set_lastSyncedRingBufPtr (v : Z) (r : RendererImpl) : RendererImpl :=
  mkRenderer (glcalls r) (ringBuffer r) (ringBufSize r) (ringBufPtr r) (persistentMapInUse r) (persistentMapping r) (tracing r) (buffers r) (samplers r) (textures r) (pipelines r) (dsLayouts r) (frames r) (currentFrameIdx r) (frameNum r) (lastSyncedFrame r) v (currentPipeline r) (descriptors r) (decriptorSetsDirty r) (inFrame r) (inRenderPass r) (validPipeline r) (pipelineDrawn r) (scissorSet r).
Definition set_descriptors (v : gmap (nat * nat) Descriptor) (r : RendererImpl) : RendererImpl :=
  mkRenderer (glcalls r) (ringBuffer r) (ringBufSize r) (ringBufPtr r) (persistentMapInUse r) (persistentMapping r) (tracing r) (buffers r) (samplers r) (textures r) (pipelines r) (dsLayouts r) (frames r) (currentFrameIdx r) (frameNum r) (lastSyncedFrame r) (lastSyncedRingBufPtr r) (currentPipeline r) v (decriptorSetsDirty r) (inFrame r) (inRenderPass r) (validPipeline r) (pipelineDrawn r) (scissorSet r).
Definition set_decriptorSetsDirty (v : bool) (r : RendererImpl) : RendererImpl :=
  mkRenderer (glcalls r) (ringBuffer r) (ringBufSize r) (ringBufPtr r) (persistentMapInUse r) (persistentMapping r) (tracing r) (buffers r) (samplers r) (textures r) (pipelines r) (dsLayouts r) (frames r) (currentFrameIdx r) (frameNum r) (lastSyncedFrame r) (lastSyncedRingBufPtr r) (currentPipeline r) (descriptors r) v (inFrame r) (inRenderPass r) (validPipeline r) (pipelineDrawn r) (scissorSet r).
Definition set_pipelineDrawn (v : bool) (r : RendererImpl) : RendererImpl :=
  mkRenderer (glcalls r) (ringBuffer r) (ringBufSize r) (ringBufPtr r) (persistentMapInUse r) (persistentMapping r) (tracing r) (buffers r) (samplers r) (textures r) (pipelines r) (dsLayouts r) (frames r) (currentFrameIdx r) (frameNum r) (lastSyncedFrame r) (lastSyncedRingBufPtr r) (currentPipeline r) (descriptors r) (decriptorSetsDirty r) (inFrame r) (inRenderPass r) (validPipeline r) v (scissorSet r).

(** ** Calls that change the renderer and may fail *)

(** A member function: from the renderer before to the outcome and the
    renderer after.  When a call fails the renderer is the one reached at
    the failure. *)
Record GL (A : Type) : Type := mkGL {
  runGL : RendererImpl -> Res A * RendererImpl
}.

Arguments mkGL {A} _.
Arguments runGL {A} _ _.

#[global] Instance GL_ret : MRet GL := fun A a => mkGL (fun r => (Ret a, r)).

#[global] Instance GL_bind : MBind GL := fun A B f m =>
  mkGL (fun r =>
          match runGL m r with
          | (Ret a, r1) => runGL (f a) r1
          | (AssertionFailed, r1) => (AssertionFailed, r1)
          | (Thrown w, r1) => (Thrown w, r1)
          | (Undefined, r1) => (Undefined, r1)
          end).

Definition this : GL RendererImpl := mkGL (fun r => (Ret r, r)).
Definition modify (f : RendererImpl -> RendererImpl) : GL unit :=
  mkGL (fun r => (Ret tt, f r)).
Definition lift {A} (x : Res A) : GL A := mkGL (fun r => (x, r)).
Definition assertGL (c : bool) : GL unit := lift (assert_ c).
Definition throw {A} (what : string) : GL A := lift (Thrown what).
Definition unreachable {A} : GL A := lift Undefined.

(** An OpenGL call, appended to the record. *)
Definition gl (c : GLCall) : GL unit :=
  modify (fun r => set_glcalls (glcalls r ++ [c]) r).

(** [container.get(handle)] *)
Definition getResource {T} (c : RendererImpl -> ResourceContainer T) (h : Handle) : GL T :=
  mkGL (fun r => (Container.get h (c r), r)).

(** [vector.at(i)] throws [std::out_of_range]. *)
Definition at_ {T} (l : list T) (i : nat) : GL T :=
  match l !! i with
  | Some x => mret x
  | None => throw "std::out_of_range"
  end.

(** ** [recreateRingBuffer] *)

(** [created] is the name that [glCreateBuffers] stores in [ringBuffer]. *)
Definition recreateRingBuffer (newSize : Z) (created : Z) : GL unit :=
  assertGL (0 <? newSize);;
  r ← this;
  (* if buffer already exists, free it after it's no longer in use *)
  (if negb (ringBuffer r =? 0) then
     assertGL (negb (ringBufSize r =? 0));;
     (if persistentMapInUse r then
        gl (glUnmapNamedBuffer (ringBuffer r));;
        modify (set_persistentMapping None)
      else mret tt);;
     r ← this;
     let '(h, bufs) := Container.add Buffer_new (buffers r) in
     modify (set_buffers bufs);;
     frame ← at_ (frames r) (currentFrameIdx r);
     modify (set_frames
               (<[currentFrameIdx r :=
                    mkFrame (fence frame) (ephemeralBuffers frame ++ [h])
                            (outstanding frame) (lastFrameNum frame)
                            (usedRingBufPtr frame)]> (frames r)));;
     modify (fun r1 =>
               set_buffers
                 (Container.set h {| buffer := ringBuffer r; ringBufferAlloc := false;
                                     offset := 0; size := ringBufSize r;
                                     type := BufferType.Everything |} (buffers r1)) r1);;
     modify (set_ringBuffer 0);;
     modify (set_ringBufSize 0);;
     modify (set_ringBufPtr 0)
   else mret tt);;
  (* set up ring buffer *)
  gl (glCreateBuffers created);;
  modify (set_ringBuffer created);;
  r ← this;
  assertGL (negb (ringBuffer r =? 0));;
  assertGL (ringBufSize r =? 0);;
  assertGL (ringBufPtr r =? 0);;
  assertGL (bool_decide (persistentMapping r = None));;
  let bufferFlags := 0 in
  modify (set_persistentMapInUse (negb (tracing r)));;
  modify (set_ringBufSize newSize);;
  r ← this;
  let bufferFlags :=
    if negb (persistentMapInUse r) then Z.lor bufferFlags GL_DYNAMIC_STORAGE_BIT
    else Z.lor (Z.lor (Z.lor bufferFlags GL_MAP_WRITE_BIT) GL_MAP_PERSISTENT_BIT)
               GL_MAP_COHERENT_BIT in
  let bufferFlags :=
    if tracing r then Z.lor bufferFlags GL_MAP_READ_BIT else bufferFlags in
  gl (glNamedBufferStorage (ringBuffer r) (ringBufSize r) bufferFlags);;
  (if persistentMapInUse r then
     gl (glMapNamedBufferRange (ringBuffer r) 0 (ringBufSize r) bufferFlags);;
     modify (set_persistentMapping (Some (ringBuffer r)))
   else mret tt).

(** ** [waitForFrame] *)

(** The loop over the ephemeral buffers of a retired frame. *)
Fixpoint reclaim (hs : list Handle) : GL unit :=
  match hs with
  | [] => mret tt
  | h :: rest =>
      b ← getResource buffers h;
      b1 ← (if ringBufferAlloc b then
              mret (mkBuffer 0 false (offset b) (size b) (type b))
            else
              gl (glDeleteBuffers (buffer b));;
              mret (mkBuffer 0 (ringBufferAlloc b) (offset b) (size b) (type b)));
      modify (fun r => set_buffers (Container.set h b1 (buffers r)) r);;
      assertGL (0 <? size b1);;
      let b2 := mkBuffer (buffer b1) (ringBufferAlloc b1) 0 0 (type b1) in
      modify (fun r => set_buffers (Container.set h b2 (buffers r)) r);;
      assertGL (bool_decide (type b2 <> BufferType.Invalid));;
      let b3 := mkBuffer (buffer b2) (ringBufferAlloc b2) (offset b2) (size b2)
                         BufferType.Invalid in
      modify (fun r => set_buffers (Container.set h b3 (buffers r)) r);;
      modify (fun r => set_buffers (Container.remove h (buffers r)) r);;
      reclaim rest
  end.

(** [result] is what [glClientWaitSync] returns. *)
Definition waitForFrame (frameIdx : nat) (result : Z) : GL bool :=
  r ← this;
  assertGL (bool_decide (frameIdx < length (frames r))%nat);;
  frame ← at_ (frames r) frameIdx;
  assertGL (outstanding frame);;
  (* wait for the fence *)
  sync ← match fence frame with
         | Some s => mret s
         | None => lift AssertionFailed
         end;
  gl (glClientWaitSync sync GL_SYNC_FLUSH_COMMANDS_BIT 0);;
  if (result =? GL_ALREADY_SIGNALED) || (result =? GL_CONDITION_SATISFIED) then
    gl (glDeleteSync sync);;
    modify (fun r => set_frames
                       (<[frameIdx := mkFrame None (ephemeralBuffers frame)
                                        (outstanding frame) (lastFrameNum frame)
                                        (usedRingBufPtr frame)]> (frames r)) r);;
    reclaim (ephemeralBuffers frame);;
    modify (fun r => set_frames
                       (<[frameIdx := mkFrame None [] false (lastFrameNum frame)
                                        (usedRingBufPtr frame)]> (frames r)) r);;
    modify (fun r => set_lastSyncedFrame
                       (Z.max (lastSyncedFrame r) (lastFrameNum frame)) r);;
    modify (fun r => set_lastSyncedRingBufPtr
                       (Z.max (lastSyncedRingBufPtr r) (usedRingBufPtr frame)) r);;
    mret true
  else if result =? GL_TIMEOUT_EXPIRED then
    mret false
  else
    throw "glClientWaitSync failed".

(** The four assignments to the current frame with which [presentFrame]
    ends ([fence], [usedRingBufPtr], [outstanding], [lastFrameNum]);
    [sync] is the fence that [glFenceSync] returns.  The assertions and
    OpenGL calls of [presentFrame] before them and the [frameNum++] after
    them are not part of it. *)
Definition submitFrame (sync : Z) : GL unit :=
  r ← this;
  frame ← at_ (frames r) (currentFrameIdx r);
  modify (set_frames
            (<[currentFrameIdx r := mkFrame (Some sync) (ephemeralBuffers frame) true
                                      (frameNum r) (ringBufPtr r)]> (frames r))).

(** ** Descriptor sets *)

(** The blob passed to [bindDescriptorSet]: the handle stored at each
    offset.  Reading a handle of one type where the blob holds another, or
    nothing, is undefined. *)
Abbreviation Blob := (gmap Z Descriptor) (only parsing).

Definition checkBuffer (expected : BufferType.t) (h : Handle) : GL unit :=
  b ← getResource buffers h;
  r ← this;
  assertGL (0 <? size b);;
  assertGL (bool_decide (type b = expected));;
  if ringBufferAlloc b then
    assertGL (buffer b =? ringBuffer r);;
    assertGL (U32.wrap (offset b + size b) <? ringBufSize r)
  else
    assertGL (negb (buffer b =? 0));;
    assertGL (offset b =? 0).

(** The body of the loop of [bindDescriptorSet] for the binding
    [descIndex] of set [index]. *)
Definition bindDescriptor (index descIndex : nat) (l : DescriptorLayout) (data : Blob)
  : GL unit :=
  let idx := (index, descIndex) in
  match dl_type l with
  | DescriptorType.End_ => unreachable
  | DescriptorType.UniformBuffer =>
      match data !! dl_offset l with
      | Some (DBuffer h) =>
          checkBuffer BufferType.Uniform h;;
          modify (fun r => set_descriptors (<[idx := DBuffer h]> (descriptors r)) r)
      | _ => unreachable
      end
  | DescriptorType.StorageBuffer =>
      match data !! dl_offset l with
      | Some (DBuffer h) =>
          checkBuffer BufferType.Storage h;;
          modify (fun r => set_descriptors (<[idx := DBuffer h]> (descriptors r)) r)
      | _ => unreachable
      end
  | DescriptorType.Sampler =>
      match data !! dl_offset l with
      | Some (DSampler h) =>
          s ← getResource samplers h;
          assertGL (negb (sampler s =? 0));;
          modify (fun r => set_descriptors (<[idx := DSampler h]> (descriptors r)) r)
      | _ => unreachable
      end
  | DescriptorType.Texture =>
      match data !! dl_offset l with
      | Some (DTexture h) =>
          modify (fun r => set_descriptors (<[idx := DTexture h]> (descriptors r)) r)
      | _ => unreachable
      end
  | DescriptorType.CombinedSampler =>
      match data !! dl_offset l with
      | Some (DCombined t s) =>
          texture ← getResource textures t;
          assertGL (negb (tex texture =? 0));;
          smp ← getResource samplers s;
          assertGL (negb (sampler smp =? 0));;
          modify (fun r => set_descriptors (<[idx := DCombined t s]> (descriptors r)) r)
      | _ => unreachable
      end
  end.

Fixpoint bindDescriptors (index descIndex : nat) (ls : list DescriptorLayout) (data : Blob)
  : GL unit :=
  match ls with
  | [] => mret tt
  | l :: rest =>
      bindDescriptor index descIndex l data;;
      bindDescriptors index (S descIndex) rest data
  end.

(** [RendererImpl::bindDescriptorSet] *)
Definition bindDescriptorSet (index : nat) (layoutHandle : Handle) (data : Blob) : GL unit :=
  r ← this;
  assertGL (validPipeline r);;
  p ← getResource pipelines (currentPipeline r);
  set ← match desc_descriptorSetLayouts p !! index with
        | Some h => mret h
        | None => unreachable
        end;
  assertGL (bool_decide (set = layoutHandle));;
  modify (set_decriptorSetsDirty true);;
  layout ← getResource dsLayouts layoutHandle;
  bindDescriptors index 0 (dsl_descriptors layout) data.

(** [descriptors.at(r)] *)
Definition descriptorAt (k : nat * nat) : GL Descriptor :=
  r ← this;
  match descriptors r !! k with
  | Some d => mret d
  | None => throw "std::out_of_range"
  end.

(** [boost::get<BufferHandle>(d)] *)
Definition getBufferHandle (d : Descriptor) : GL Handle :=
  match d with
  | DBuffer h => mret h
  | _ => throw "boost::bad_get"
  end.

Fixpoint rebindUbos (i : nat) (rs : list (nat * nat)) (sizes : list Z) : GL unit :=
  match rs with
  | [] => mret tt
  | k :: rest =>
      d ← descriptorAt k;
      h ← getBufferHandle d;
      b ← getResource buffers h;
      sz ← match sizes !! i with Some s => mret s | None => unreachable end;
      assertGL (sz <=? size b);;
      gl (glBindBufferRange GL_UNIFORM_BUFFER i (buffer b) (offset b) (size b));;
      rebindUbos (S i) rest sizes
  end.

Fixpoint rebindSsbos (i : nat) (rs : list (nat * nat)) : GL unit :=
  match rs with
  | [] => mret tt
  | k :: rest =>
      d ← descriptorAt k;
      h ← getBufferHandle d;
      b ← getResource buffers h;
      gl (glBindBufferRange GL_SHADER_STORAGE_BUFFER i (buffer b) (offset b) (size b));;
      rebindSsbos (S i) rest
  end.

Fixpoint rebindTextures (i : nat) (rs : list (nat * nat)) : GL unit :=
  match rs with
  | [] => mret tt
  | k :: rest =>
      d ← descriptorAt k;
      match d with
      | DCombined t _ | DTexture t =>
          texture ← getResource textures t;
          gl (glBindTextureUnit i (tex texture))
      | _ => unreachable
      end;;
      rebindTextures (S i) rest
  end.

Fixpoint rebindSamplers (i : nat) (rs : list (nat * nat)) : GL unit :=
  match rs with
  | [] => mret tt
  | k :: rest =>
      d ← descriptorAt k;
      match d with
      | DCombined _ s | DSampler s =>
          smp ← getResource samplers s;
          gl (glBindSampler i (sampler smp))
      | _ => unreachable
      end;;
      rebindSamplers (S i) rest
  end.

(** [RendererImpl::rebindDescriptorSets] *)
Definition rebindDescriptorSets : GL unit :=
  r ← this;
  assertGL (decriptorSetsDirty r);;
  pipeline ← getResource pipelines (currentPipeline r);
  let resources := resources_ pipeline in
  rebindUbos 0 (ubos resources) (uboSizes resources);;
  rebindSsbos 0 (ssbos resources);;
  rebindTextures 0 (sr_textures resources);;
  rebindSamplers 0 (sr_samplers resources);;
  modify (set_decriptorSetsDirty false).

(** [RendererImpl::draw] *)
Definition draw (firstVertex vertexCount : Z) : GL unit :=
  r ← this;
  assertGL (inRenderPass r);;
  assertGL (validPipeline r);;
  assertGL (0 <? vertexCount);;
  p ← getResource pipelines (currentPipeline r);
  assertGL (negb (desc_scissorTest p) || scissorSet r);;
  modify (set_pipelineDrawn true);;
  (if decriptorSetsDirty r then rebindDescriptorSets else mret tt);;
  r ← this;
  assertGL (negb (decriptorSetsDirty r));;
  gl (glDrawArrays GL_TRIANGLES firstVertex vertexCount).

(** ** The resources of a pipeline *)

(** [struct ResourceInfo]: the type of a (set, binding) pair of the
    descriptor set layouts and its OpenGL binding point. *)
Record ResourceInfo : Type := mkResourceInfo {
  ri_type : DescriptorType.t;
  ri_glIndex : Z
}.

(** [ResourceMap], [HashMap<DSIndex, ResourceInfo>]. *)
Abbreviation ResourceMap := (gmap (nat * nat) ResourceInfo) (only parsing).

(** What spirv-cross reports of one shader, as far as
    [processShaderResources] reads it: the (set, binding) decorations of
    the uniform buffers, each with the (offset, range) pairs of
    [get_active_buffer_ranges], of the storage buffers and of the sampled
    images, and for each combined image sampler that
    [build_combined_image_samplers] builds the decorations of its image
    and of its sampler. *)
Record ShaderReflection : Type := mkShaderReflection {
  uniform_buffers : list ((nat * nat) * list (Z * Z));
  storage_buffers : list (nat * nat);
  sampled_images : list (nat * nat);
  combined_image_samplers : list ((nat * nat) * (nat * nat))
}.

(** [createPipeline], the body of the loop over the bindings of the
    layout of set [i]: the [switch] on the type, then
    [dsResources.emplace(idx, ResourceInfo(type, glIndex))]. *)
Definition addResource (i binding : nat) (l : DescriptorLayout)
    (st : ShaderResources * gmap (nat * nat) ResourceInfo)
  : Res (ShaderResources * gmap (nat * nat) ResourceInfo) :=
  let '(sr, dsResources) := st in
  let idx := (i, binding) in
  '(glIndex, sr) ←
    match dl_type l with
    | DescriptorType.UniformBuffer =>
        Ret (U32.wrap (Z.of_nat (length (ubos sr))),
             mkShaderResources (ubos sr ++ [idx]) (uboSizes sr) (ssbos sr)
               (sr_textures sr) (sr_samplers sr))
    | DescriptorType.StorageBuffer =>
        Ret (U32.wrap (Z.of_nat (length (ssbos sr))),
             mkShaderResources (ubos sr) (uboSizes sr) (ssbos sr ++ [idx])
               (sr_textures sr) (sr_samplers sr))
    | DescriptorType.Sampler | DescriptorType.Texture =>
        Ret (0xFFFFFFFF, sr)
    | DescriptorType.CombinedSampler =>
        let glIndex := U32.wrap (Z.of_nat (length (sr_textures sr))) in
        assert_ (glIndex =? Z.of_nat (length (sr_samplers sr)));;
        Ret (glIndex,
             mkShaderResources (ubos sr) (uboSizes sr) (ssbos sr)
               (sr_textures sr ++ [idx]) (sr_samplers sr ++ [idx]))
    | DescriptorType.End_ => AssertionFailed
    end;
  Ret (sr, match dsResources !! idx with
           | Some _ => dsResources
           | None => <[idx := mkResourceInfo (dl_type l) glIndex]> dsResources
           end).

Fixpoint addResources (i binding : nat) (ls : list DescriptorLayout)
    (st : ShaderResources * gmap (nat * nat) ResourceInfo)
  : Res (ShaderResources * gmap (nat * nat) ResourceInfo) :=
  match ls with
  | [] => Ret st
  | l :: rest => st1 ← addResource i binding l st; addResources i (S binding) rest st1
  end.

(** [createPipeline], "construct map of descriptor set resources": the
    loop over [desc.descriptorSetLayouts], from set [i] on.  The array is
    the list [sets]; its length stands for [MAX_DESCRIPTOR_SETS]. *)
Fixpoint layoutResourcesFrom (layouts : ResourceContainer DescriptorSetLayout) (i : nat)
    (sets : list Handle) (st : ShaderResources * gmap (nat * nat) ResourceInfo)
  : Res (ShaderResources * gmap (nat * nat) ResourceInfo) :=
  match sets with
  | [] => Ret st
  | h :: rest =>
      st1 ← (if bool_decide (h <> 0%N) then
               layout ← Container.get h layouts;
               addResources i 0 (dsl_descriptors layout) st
             else Ret st);
      layoutResourcesFrom layouts (S i) rest st1
  end.

Definition layoutResources (layouts : ResourceContainer DescriptorSetLayout)
    (sets : list Handle) : Res (ShaderResources * gmap (nat * nat) ResourceInfo) :=
  layoutResourcesFrom layouts 0 sets (mkShaderResources [] [] [] [] [], ∅).

(** [maxOffset] of a uniform buffer: the largest [offset + range], as a
    32-bit value, of its active ranges. *)
Definition maxOffset (ranges : list (Z * Z)) : Z :=
  foldl (fun m r => Z.max m (U32.wrap (r.1 + r.2))) 0 ranges.

(** [processShaderResources], the loop over the uniform buffers of the
    shader; [bindings] is the set of the (set, binding) pairs met so far. *)
Fixpoint processUbos (dsResources : gmap (nat * nat) ResourceInfo)
    (us : list ((nat * nat) * list (Z * Z)))
    (st : ShaderResources * gset (nat * nat)) : Res (ShaderResources * gset (nat * nat)) :=
  match us with
  | [] => Ret st
  | (idx, ranges) :: rest =>
      let '(sr, bindings) := st in
      if bool_decide (idx ∈ bindings) then Thrown "Duplicate UBO binding" else
      match dsResources !! idx with
      | None => Thrown "UBO not in descriptor sets"
      | Some info =>
          assert_ (bool_decide (ri_type info = DescriptorType.UniformBuffer));;
          assert_ (ri_glIndex info <? Z.of_nat (length (ubos sr)));;
          let openglIDX := Z.to_nat (ri_glIndex info) in
          assert_ (bool_decide (ubos sr !! openglIDX = Some idx));;
          defined_ (bool_decide (openglIDX < length (uboSizes sr))%nat);;
          processUbos dsResources rest
            (mkShaderResources (ubos sr) (<[openglIDX := maxOffset ranges]> (uboSizes sr))
               (ssbos sr) (sr_textures sr) (sr_samplers sr),
             {[ idx ]} ∪ bindings)
      end
  end.

(** ... the loop over the storage buffers ... *)
Fixpoint processSsbos (dsResources : gmap (nat * nat) ResourceInfo)
    (ss : list (nat * nat))
    (st : ShaderResources * gset (nat * nat)) : Res (ShaderResources * gset (nat * nat)) :=
  match ss with
  | [] => Ret st
  | idx :: rest =>
      let '(sr, bindings) := st in
      if bool_decide (idx ∈ bindings) then Thrown "Duplicate SSBO binding" else
      match dsResources !! idx with
      | None => Thrown "SSBO not in descriptor sets"
      | Some info =>
          assert_ (bool_decide (ri_type info = DescriptorType.StorageBuffer));;
          assert_ (ri_glIndex info <? Z.of_nat (length (ssbos sr)));;
          let openglIDX := Z.to_nat (ri_glIndex info) in
          assert_ (bool_decide (ssbos sr !! openglIDX = Some idx));;
          processSsbos dsResources rest (sr, {[ idx ]} ∪ bindings)
      end
  end.

(** ... the loop over the sampled images ... *)
Fixpoint processImages (dsResources : gmap (nat * nat) ResourceInfo)
    (imgs : list (nat * nat))
    (st : ShaderResources * gset (nat * nat)) : Res (ShaderResources * gset (nat * nat)) :=
  match imgs with
  | [] => Ret st
  | idx :: rest =>
      let '(sr, bindings) := st in
      if bool_decide (idx ∈ bindings) then Thrown "Duplicate image binding" else
      match dsResources !! idx with
      | None => Thrown "Sampled image not in descriptor sets"
      | Some info =>
          assert_ (bool_decide (ri_type info = DescriptorType.CombinedSampler));;
          assert_ (ri_glIndex info <? Z.of_nat (length (sr_textures sr)));;
          assert_ (ri_glIndex info <? Z.of_nat (length (sr_samplers sr)));;
          let openglIDX := Z.to_nat (ri_glIndex info) in
          assert_ (bool_decide (sr_textures sr !! openglIDX = Some idx));;
          assert_ (bool_decide (sr_samplers sr !! openglIDX = Some idx));;
          processImages dsResources rest (sr, {[ idx ]} ∪ bindings)
      end
  end.

(** ... and the loop over the combined image samplers: the image goes to
    [textures], the sampler to [samplers], at the same new index. *)
Fixpoint processCombined (cs : list ((nat * nat) * (nat * nat))) (sr : ShaderResources)
  : Res ShaderResources :=
  match cs with
  | [] => Ret sr
  | (image, smp) :: rest =>
      assert_ (bool_decide (length (sr_textures sr) = length (sr_samplers sr)));;
      processCombined rest
        (mkShaderResources (ubos sr) (uboSizes sr) (ssbos sr)
           (sr_textures sr ++ [image]) (sr_samplers sr ++ [smp]))
  end.

(** [processShaderResources(shaderResources, dsResources, glsl)] *)
Definition processShaderResources (sr : ShaderResources)
    (dsResources : gmap (nat * nat) ResourceInfo) (glsl : ShaderReflection)
  : Res ShaderResources :=
  let sr := mkShaderResources (ubos sr) (resize (length (ubos sr)) 0 (uboSizes sr))
              (ssbos sr) (sr_textures sr) (sr_samplers sr) in
  st ← processUbos dsResources (uniform_buffers glsl) (sr, ∅);
  st ← processSsbos dsResources (storage_buffers glsl) st;
  st ← processImages dsResources (sampled_images glsl) st;
  processCombined (combined_image_samplers glsl) st.1.

(** [createPipeline], from "construct map of descriptor set resources" to
    the second call of [processShaderResources]: the value that is moved
    into [pipeline.resources].  [vert] and [frag] are what spirv-cross
    reports of the vertex and of the fragment shader. *)
Definition pipelineResources (layouts : ResourceContainer DescriptorSetLayout)
    (sets : list Handle) (vert frag : ShaderReflection) : Res ShaderResources :=
  '(sr, dsResources) ← layoutResources layouts sets;
  sr ← processShaderResources sr dsResources vert;
  processShaderResources sr dsResources frag.

(** ** Vocabulary of the statements about the OpenGL renderer *)

(** [RendererImpl::RendererImpl], before the ring buffer is created: no GL
    object yet, [frames] slots that are not outstanding. *)
Definition RendererImpl_new (numFrames : nat) (tracing_ : bool) : RendererImpl :=
  {| glcalls := []; ringBuffer := 0; ringBufSize := 0; ringBufPtr := 0;
     persistentMapInUse := false; persistentMapping := None; tracing := tracing_;
     buffers := Container.empty; samplers := Container.empty;
     textures := Container.empty; pipelines := Container.empty;
     dsLayouts := Container.empty;
     frames := replicate numFrames (mkFrame None [] false 0 0);
     currentFrameIdx := 0; frameNum := 0;
     lastSyncedFrame := 0; lastSyncedRingBufPtr := 0;
     currentPipeline := 0%N; descriptors := ∅; decriptorSetsDirty := true;
     inFrame := false; inRenderPass := false; validPipeline := false;
     pipelineDrawn := false; scissorSet := false |}.

(** The fence of a frame was observed signaled. *)
Definition signaled (result : Z) : bool :=
  (result =? GL_ALREADY_SIGNALED) || (result =? GL_CONDITION_SATISFIED).

(** The buffers on the list of a frame can be reclaimed: each handle
    occurs once and resolves to a buffer that passes the assertions. *)
Definition reclaimable (r : RendererImpl) (hs : list Handle) : Prop :=
  NoDup hs /\
  forall h, h ∈ hs ->
    exists b, resources (buffers r) !! h = Some b /\
              0 < size b /\ type b <> BufferType.Invalid.

(** The deletions through OpenGL that reclaiming [hs] makes: one for each
    buffer that is not a ring allocation. *)
Fixpoint ownedDeletes (bufs : gmap N Buffer) (hs : list Handle) : list GLCall :=
  match hs with
  | [] => []
  | h :: rest =>
      match bufs !! h with
      | Some b => if ringBufferAlloc b then ownedDeletes bufs rest
                  else glDeleteBuffers (buffer b) :: ownedDeletes bufs rest
      | None => ownedDeletes bufs rest
      end
  end.

(** The flags with which the new ring is created. *)
Definition ringFlags (tracing_ : bool) : Z :=
  if tracing_ then Z.lor (Z.lor 0 GL_DYNAMIC_STORAGE_BIT) GL_MAP_READ_BIT
  else Z.lor (Z.lor (Z.lor 0 GL_MAP_WRITE_BIT) GL_MAP_PERSISTENT_BIT) GL_MAP_COHERENT_BIT.

(** The calls of a resize: the old ring is unmapped if it was mapped, the
    new one is created, given storage and mapped unless tracing is on. *)
Definition resizeCalls (r : RendererImpl) (newSize created : Z) : list GLCall :=
  (if persistentMapInUse r then [glUnmapNamedBuffer (ringBuffer r)] else [])
  ++ [glCreateBuffers created;
      glNamedBufferStorage created newSize (ringFlags (tracing r))]
  ++ (if tracing r then []
      else [glMapNamedBufferRange created 0 newSize (ringFlags (tracing r))]).

(** The reading of [waitForFrame] under which a call on an outstanding
    frame returns, either true or false, whatever the wait reports. *)
Definition waitHasTwoOutcomes : Prop :=
  forall r idx frame sync result,
    frames r !! idx = Some frame ->
    outstanding frame = true -> fence frame = Some sync ->
    reclaimable r (ephemeralBuffers frame) ->
    exists b r', runGL (waitForFrame idx result) r = (Ret b, r').

(** The call that [rebindDescriptorSets] makes for binding point [i] of
    each kind, given the (set, binding) pair [k] it is fed from. *)
Definition uboCall (r : RendererImpl) (target : Z) (i : nat) (k : nat * nat)
  : option GLCall :=
  d ← descriptors r !! k;
  h ← match d with DBuffer h => Some h | _ => None end;
  b ← resources (buffers r) !! h;
  Some (glBindBufferRange target i (buffer b) (offset b) (size b)).

Definition textureCall (r : RendererImpl) (i : nat) (k : nat * nat) : option GLCall :=
  d ← descriptors r !! k;
  t ← match d with DCombined t _ | DTexture t => Some t | _ => None end;
  texture ← resources (textures r) !! t;
  Some (glBindTextureUnit i (tex texture)).

Definition samplerCall (r : RendererImpl) (i : nat) (k : nat * nat) : option GLCall :=
  d ← descriptors r !! k;
  s ← match d with DCombined _ s | DSampler s => Some s | _ => None end;
  smp ← resources (samplers r) !! s;
  Some (glBindSampler i (sampler smp)).

Fixpoint slotCalls (f : nat -> nat * nat -> option GLCall) (i : nat)
    (rs : list (nat * nat)) : option (list GLCall) :=
  match rs with
  | [] => Some []
  | k :: rest =>
      c ← f i k; cs ← slotCalls f (S i) rest; Some (c :: cs)
  end.

(** The batch of a flush: uniform buffers, storage buffers, textures and
    samplers of the pipeline, in this order. *)
Definition flushCalls (r : RendererImpl) (p : Pipeline) : option (list GLCall) :=
  us ← slotCalls (uboCall r GL_UNIFORM_BUFFER) 0 (ubos (resources_ p));
  ss ← slotCalls (uboCall r GL_SHADER_STORAGE_BUFFER) 0 (ssbos (resources_ p));
  ts ← slotCalls (textureCall r) 0 (sr_textures (resources_ p));
  sm ← slotCalls (samplerCall r) 0 (sr_samplers (resources_ p));
  Some (us ++ ss ++ ts ++ sm).

(** A call binds the resource behind a descriptor. *)
Definition bindsDescriptor (r : RendererImpl) (d : Descriptor) (c : GLCall) : Prop :=
  match d, c with
  | DBuffer h, glBindBufferRange _ _ name _ _ =>
      exists b, resources (buffers r) !! h = Some b /\ buffer b = name
  | DTexture t, glBindTextureUnit _ name =>
      exists x, resources (textures r) !! t = Some x /\ tex x = name
  | DSampler s, glBindSampler _ name =>
      exists x, resources (samplers r) !! s = Some x /\ sampler x = name
  | DCombined t s, glBindTextureUnit _ name =>
      exists x, resources (textures r) !! t = Some x /\ tex x = name
  | DCombined t s, glBindSampler _ name =>
      exists x, resources (samplers r) !! s = Some x /\ sampler x = name
  | _, _ => False
  end.

(** The resources of every pipeline of the renderer are those that
    [createPipeline] computes from the pipeline's descriptor set layouts
    and some pair of shaders. *)
Definition pipelinesCreated (r : RendererImpl) : Prop :=
  forall h p,
    resources (pipelines r) !! h = Some p ->
    exists vert frag,
      pipelineResources (dsLayouts r) (desc_descriptorSetLayouts p) vert frag
      = Ret (resources_ p).

(** The reading of [draw] under which a dirty draw binds every entry of
    the pending map, in a renderer whose pipelines [createPipeline] has
    made. *)
Definition drawFlushesWholeMap : Prop :=
  forall r firstVertex vertexCount r' k d,
    pipelinesCreated r ->
    decriptorSetsDirty r = true ->
    runGL (draw firstVertex vertexCount) r = (Ret tt, r') ->
    descriptors r !! k = Some d ->
    exists c, c ∈ drop (length (glcalls r)) (glcalls r') /\ bindsDescriptor r d c.

(** *** A renderer with two frame slots *)

(** Construction with a ring of 1024 bytes named 1, then a resize to 2048
    bytes, named 2. *)
Definition resized : Res unit * RendererImpl :=
  Eval vm_compute in
    runGL (recreateRingBuffer 1024 1;; recreateRingBuffer 2048 2)
          (RendererImpl_new 2 false).

(** The frame is then submitted with fence 77. *)
Definition submitted : Res unit * RendererImpl :=
  Eval vm_compute in runGL (submitFrame 77) resized.2.

(** The renderer right after construction with a ring of 1024 bytes. *)
Definition constructed : Res unit * RendererImpl :=
  Eval vm_compute in runGL (recreateRingBuffer 1024 1) (RendererImpl_new 2 false).

(** A relation between the renderer before and after holds for a call
    whatever its outcome. *)
Definition always {A} (P : RendererImpl -> RendererImpl -> Prop) (m : GL A) : Prop :=
  forall r, P r (runGL m r).2.

(** Two renderers differ at most in the pending descriptors and the dirty
    flag. *)
Definition sameButBindings (r r' : RendererImpl) : Prop :=
  r' = set_descriptors (descriptors r') (set_decriptorSetsDirty (decriptorSetsDirty r') r).

(** ... and, among the pending descriptors, at most in those of set
    [index]. *)
Definition onlySet (index : nat) (r r' : RendererImpl) : Prop :=
  sameButBindings r r' /\
  forall s b, s <> index -> descriptors r' !! (s, b) = descriptors r !! (s, b).

(** *** A renderer in the middle of a render pass *)

(** The shaders of the example: the vertex shader reads the uniform
    buffer at (0, 0), 64 bytes of it; neither shader samples a texture. *)
Definition plainVertex : ShaderReflection :=
  mkShaderReflection [((0, 0)%nat, [(0, 64)])] [] [] [].

Definition plainFragment : ShaderReflection :=
  mkShaderReflection [] [] [] [].

(** Uniform buffer 1 (OpenGL name 11), samplers 1 and 2 (OpenGL names 21
    and 22), a layout of the shape of the global descriptor set of the
    demo (a uniform buffer and two samplers), and a pipeline with this
    layout for set 0 and the shaders above.  The pending map is empty, as
    [beginFrame] leaves it. *)
Definition drawing : RendererImpl :=
  {| glcalls := []; ringBuffer := 1; ringBufSize := 1024; ringBufPtr := 0;
     persistentMapInUse := true; persistentMapping := Some 1; tracing := false;
     buffers := mkContainer {[ 1%N := mkBuffer 11 false 0 64 BufferType.Uniform ]} 1%N;
     samplers := mkContainer {[ 1%N := mkSampler 21; 2%N := mkSampler 22 ]} 2%N;
     textures := Container.empty;
     pipelines := mkContainer
                    {[ 1%N := mkPipeline [1%N] false
                                (mkShaderResources [(0, 0)%nat] [64] [] [] []) ]} 1%N;
     dsLayouts := mkContainer
                    {[ 1%N := mkDescriptorSetLayout
                                [mkDescriptorLayout DescriptorType.UniformBuffer 0;
                                 mkDescriptorLayout DescriptorType.Sampler 4;
                                 mkDescriptorLayout DescriptorType.Sampler 8] ]} 1%N;
     frames := [mkFrame None [] false 0 0];
     currentFrameIdx := 0; frameNum := 0;
     lastSyncedFrame := 0; lastSyncedRingBufPtr := 0;
     currentPipeline := 1%N; descriptors := ∅; decriptorSetsDirty := true;
     inFrame := true; inRenderPass := true; validPipeline := true;
     pipelineDrawn := false; scissorSet := false |}.

(** The blob: buffer 1 at offset 0, sampler 1 at offset 4, sampler 2 at
    offset 8. *)
Definition globalBlob : gmap Z Descriptor :=
  {[ 0 := DBuffer 1%N; 4 := DSampler 1%N; 8 := DSampler 2%N ]}.

Definition bound : Res unit * RendererImpl :=
  Eval vm_compute in runGL (bindDescriptorSet 0 1%N globalBlob) drawing.

Definition drawn : Res unit * RendererImpl :=
  Eval vm_compute in runGL (draw 0 3) bound.2.

End OpenGLRenderer.
(** * utils/Utils.h and the helpers of demo/smaaDemo.cpp *)

From Equations Require Import Equations.

Module Utils.

(** [static inline bool isPow2(unsigned int value)] *)
Definition isPow2 (value : Z) : bool :=
  Z.land value (U32.wrap (value - 1)) =? 0.

(** [v |= v >> n] *)
Definition smear (n : Z) (v : Z) : Z := Z.lor v (Z.shiftr v n).

(** [static inline uint32_t nextPow2(unsigned int v)] *)
Definition nextPow2 (v : Z) : Z :=
  let v := U32.wrap (v - 1) in
  let v := smear 1 v in
  let v := smear 2 v in
  let v := smear 4 v in
  let v := smear 8 v in
  let v := smear 16 v in
  U32.wrap (v + 1).

(** [static inline uint64_t gcd(uint64_t a, uint64_t b)]: the loop
    [while (a != 0) { c = a; a = b % a; b = c; } return b;].  The values
    are [uint64_t]s, naturals here; no operation of the loop leaves the
    range of its operands. *)
Equations? gcd (a b : N) : N by wf (N.to_nat a) lt :=
  gcd a b with N.eq_dec a 0%N := {
    | left _ := b;
    | right _ := gcd (b mod a)%N a }.
Proof.
  pose proof (N.mod_lt b a ltac:(assumption)). lia.
Qed.

End Utils.

(** ** [class RandomGen] *)

Module RandomGen.

(** [pcg32 rng] is not among the sources.  The generator is given by the
    values its next calls return, oldest first; each call takes one. *)
Definition t : Type := list Z.

(** [std::numeric_limits<uint32_t>::max()] *)
Definition UINT32_MAX : Z := 2 ^ 32 - 1.

(** [do { r = rng(); } while (r >= discard);] on the values at hand:
    [None] when all of them are discarded and the loop asks for more. *)
Fixpoint draw (discard : Z) (rng : t) : option (Z * t) :=
  match rng with
  | [] => None
  | r :: rest => if discard <=? r then draw discard rest else Some (r, rest)
  end.

(** [uint32_t range(uint32_t min, uint32_t max)]: "min inclusive, max
    exclusive".  The division by a zero [range] is undefined. *)
Definition range (min max : Z) (rng : t) : option (Res (Z * t)) :=
  let range := U32.wrap (max - min) in
  if range =? 0 then Some Undefined
  else
    let size := UINT32_MAX / range in
    let discard := U32.wrap (size * range) in
    match draw discard rng with
    | None => None
    | Some (r, rest) => Some (Ret (U32.wrap (min + r / size), rest))
    end.

(** The values of one call of [rng] that [range] accepts. *)
Definition accepted (min max r : Z) : Prop :=
  0 <= r < U32.wrap (UINT32_MAX / U32.wrap (max - min) * U32.wrap (max - min)).

End RandomGen.

(** ** The clock of [SMAADemo] *)

Module Clock.

(** [uint64_t] arithmetic. *)
Definition wrap64 (n : Z) : Z := n mod 2 ^ 64.

(** The lines of [SMAADemo::SMAADemo] that set [freqMult] and [freqDiv]
    from [freq = SDL_GetPerformanceFrequency()]:
    [freqMult = 1000000000ULL; freqDiv = freq; g = gcd(freqMult, freqDiv);
     freqMult /= g; freqDiv /= g;]. *)
Definition frequency (freq : N) : Res (N * N) :=
  let freqMult := 1000000000%N in
  let freqDiv := freq in
  let g := Utils.gcd freqMult freqDiv in
  defined_ (negb (g =? 0)%N);;
  Ret ((freqMult / g)%N, (freqDiv / g)%N).

(** [SMAADemo::getNanoseconds], [counter] being what
    [SDL_GetPerformanceCounter()] returns. *)
Definition getNanoseconds (counter tickBase : Z) (freqMult freqDiv : N) : Res Z :=
  defined_ (negb (freqDiv =? 0)%N);;
  Ret (wrap64 (wrap64 (counter - tickBase) * Z.of_N freqMult) / Z.of_N freqDiv).

End Clock.
(** * demo/NullRenderer.cpp: pipelines, render passes and draws *)

Module NullFrame.

Import NullRenderer.

(** The members of [RendererImpl] that the functions below touch beside
    those of the frame and buffer functions ([impl]). *)
Record State : Type := mkState {
  impl : RendererImpl;
  pipelines : ResourceContainer PipelineDesc;
  currentPipeline : PipelineDesc;
  scissorSet : bool
}.

(** [inFrame], [inRenderPass], [validPipeline] and [pipelineDrawn] are
    assigned one by one. *)
Definition set_inRenderPass (b : bool) (r : RendererImpl) : RendererImpl :=
  {| ringBufSize := ringBufSize r; ringBufPtr := ringBufPtr r;
     ringBuffer := ringBuffer r; buffers := buffers r;
     ephemeralBuffers := ephemeralBuffers r;
     inFrame := inFrame r; inRenderPass := b;
     validPipeline := validPipeline r; pipelineDrawn := pipelineDrawn r |}.

Definition set_validPipeline (b : bool) (r : RendererImpl) : RendererImpl :=
  {| ringBufSize := ringBufSize r; ringBufPtr := ringBufPtr r;
     ringBuffer := ringBuffer r; buffers := buffers r;
     ephemeralBuffers := ephemeralBuffers r;
     inFrame := inFrame r; inRenderPass := inRenderPass r;
     validPipeline := b; pipelineDrawn := pipelineDrawn r |}.

Definition set_pipelineDrawn (b : bool) (r : RendererImpl) : RendererImpl :=
  {| ringBufSize := ringBufSize r; ringBufPtr := ringBufPtr r;
     ringBuffer := ringBuffer r; buffers := buffers r;
     ephemeralBuffers := ephemeralBuffers r;
     inFrame := inFrame r; inRenderPass := inRenderPass r;
     validPipeline := validPipeline r; pipelineDrawn := b |}.

Definition with_impl (f : RendererImpl -> RendererImpl) (s : State) : State :=
  mkState (f (impl s)) (pipelines s) (currentPipeline s) (scissorSet s).

(** [RendererImpl::createPipeline] *)
Definition createPipeline (desc : PipelineDesc) (s : State) : Handle * State :=
  let '(h, ps) := Container.add desc (pipelines s) in
  (h, mkState (impl s) ps (currentPipeline s) (scissorSet s)).

(** [RendererImpl::beginFrame] and [RendererImpl::presentFrame] *)
Definition beginFrame (s : State) : Res State :=
  r ← NullRenderer.beginFrame (impl s);
  Ret (with_impl (fun _ => r) s).

Definition presentFrame (s : State) : Res State :=
  r ← NullRenderer.presentFrame (impl s);
  Ret (with_impl (fun _ => r) s).

(** [RendererImpl::createEphemeralBuffer] *)
Definition createEphemeralBuffer (sz : Z) (contents : option (list Z)) (s : State)
  : Res (Handle * State) :=
  '(h, r) ← NullRenderer.createEphemeralBuffer sz contents (impl s);
  Ret (h, with_impl (fun _ => r) s).

(** [RendererImpl::beginRenderPass] *)
Definition beginRenderPass (s : State) : Res State :=
  assert_ (inFrame (impl s));;
  assert_ (negb (inRenderPass (impl s)));;
  Ret (with_impl (fun r => set_validPipeline false (set_inRenderPass true r)) s).

(** [RendererImpl::endRenderPass] *)
Definition endRenderPass (s : State) : Res State :=
  assert_ (inFrame (impl s));;
  assert_ (inRenderPass (impl s));;
  Ret (with_impl (set_inRenderPass false) s).

(** [RendererImpl::bindPipeline] *)
Definition bindPipeline (pipeline : Handle) (s : State) : Res State :=
  assert_ (inFrame (impl s));;
  assert_ (negb (pipeline =? 0)%N);;
  assert_ (inRenderPass (impl s));;
  assert_ (pipelineDrawn (impl s));;
  let r := set_validPipeline true (set_pipelineDrawn false (impl s)) in
  p ← Container.get pipeline (pipelines s);
  Ret (mkState r (pipelines s) p false).

(** [RendererImpl::bindIndexBuffer] and [RendererImpl::bindVertexBuffer] *)
Definition bindIndexBuffer (s : State) : Res State :=
  assert_ (inFrame (impl s));;
  assert_ (validPipeline (impl s));;
  Ret s.

Definition bindVertexBuffer (s : State) : Res State :=
  assert_ (inFrame (impl s));;
  assert_ (validPipeline (impl s));;
  Ret s.

(** [RendererImpl::bindDescriptorSet] *)
Definition bindDescriptorSet (s : State) : Res State :=
  assert_ (validPipeline (impl s));;
  Ret s.

(** [RendererImpl::setViewport] *)
Definition setViewport (s : State) : Res State :=
  assert_ (inFrame (impl s));;
  Ret s.

(** [RendererImpl::setScissorRect] *)
Definition setScissorRect (s : State) : Res State :=
  assert_ (validPipeline (impl s));;
  assert_ (scissorTest_ (currentPipeline s));;
  Ret (mkState (impl s) (pipelines s) (currentPipeline s) true).

(** [RendererImpl::draw] *)
Definition draw (vertexCount : Z) (s : State) : Res State :=
  assert_ (inRenderPass (impl s));;
  assert_ (validPipeline (impl s));;
  assert_ (0 <? vertexCount);;
  assert_ (negb (scissorTest_ (currentPipeline s)) || scissorSet s);;
  Ret (with_impl (set_pipelineDrawn true) s).

(** [RendererImpl::drawIndexedInstanced] *)
Definition drawIndexedInstanced (vertexCount instanceCount : Z) (s : State) : Res State :=
  assert_ (inRenderPass (impl s));;
  assert_ (validPipeline (impl s));;
  assert_ (0 <? vertexCount);;
  assert_ (0 <? instanceCount);;
  assert_ (negb (scissorTest_ (currentPipeline s)) || scissorSet s);;
  Ret (with_impl (set_pipelineDrawn true) s).

(** [RendererImpl::drawIndexedOffset] *)
Definition drawIndexedOffset (vertexCount : Z) (s : State) : Res State :=
  assert_ (inRenderPass (impl s));;
  assert_ (validPipeline (impl s));;
  assert_ (0 <? vertexCount);;
  assert_ (negb (scissorTest_ (currentPipeline s)) || scissorSet s);;
  Ret (with_impl (set_pipelineDrawn true) s).

(** ** Sequences of calls *)

Inductive Call : Type :=
| CreatePipeline (desc : PipelineDesc)
| CreateEphemeralBuffer (sz : Z) (contents : option (list Z))
| BeginFrame
| PresentFrame
| BeginRenderPass
| EndRenderPass
| BindPipeline (pipeline : Handle)
| BindIndexBuffer
| BindVertexBuffer
| BindDescriptorSet
| SetViewport
| SetScissorRect
| Draw (vertexCount : Z)
| DrawIndexedInstanced (vertexCount instanceCount : Z)
| DrawIndexedOffset (vertexCount : Z).

(** One call; the handle a creation returns is dropped. *)
Definition call (c : Call) (s : State) : Res State :=
  match c with
  | CreatePipeline desc => Ret (createPipeline desc s).2
  | CreateEphemeralBuffer sz contents =>
      hs ← createEphemeralBuffer sz contents s; Ret hs.2
  | BeginFrame => beginFrame s
  | PresentFrame => presentFrame s
  | BeginRenderPass => beginRenderPass s
  | EndRenderPass => endRenderPass s
  | BindPipeline pipeline => bindPipeline pipeline s
  | BindIndexBuffer => bindIndexBuffer s
  | BindVertexBuffer => bindVertexBuffer s
  | BindDescriptorSet => bindDescriptorSet s
  | SetViewport => setViewport s
  | SetScissorRect => setScissorRect s
  | Draw n => draw n s
  | DrawIndexedInstanced n m => drawIndexedInstanced n m s
  | DrawIndexedOffset n => drawIndexedOffset n s
  end.

(** The calls of a list, oldest first; the run stops at the first call
    that does not return. *)
Fixpoint calls (cs : list Call) (s : State) : Res State :=
  match cs with
  | [] => Ret s
  | c :: rest => s1 ← call c s; calls rest s1
  end.

Definition isDraw (c : Call) : bool :=
  match c with
  | Draw _ | DrawIndexedInstanced _ _ | DrawIndexedOffset _ => true
  | _ => false
  end.

Definition isBeginFrame (c : Call) : bool :=
  match c with BeginFrame => true | _ => false end.

Definition isBeginRenderPass (c : Call) : bool :=
  match c with BeginRenderPass => true | _ => false end.

Definition isBindPipeline (c : Call) : bool :=
  match c with BindPipeline _ => true | _ => false end.

(** The state of a frame in which all ephemeral buffers are what
    [presentFrame] expects: live ring allocations of a positive size, each
    listed once, and nothing else in the container. *)
Record consistent (r : RendererImpl) : Prop := {
  consistent_container : Container.wf (buffers r);
  consistent_nodup : NoDup (ephemeralBuffers r);
  consistent_listed :
    forall h, is_Some (resources (buffers r) !! h) <-> h ∈ ephemeralBuffers r;
  consistent_ring :
    forall h b, resources (buffers r) !! h = Some b ->
                ringBufferAlloc b = true /\ 0 < size b
}.

(** A pipeline description, with or without scissor test. *)
Definition pipelineDesc (scissor : bool) : PipelineDesc :=
  mkPipelineDesc 1 2 3 1 [] true true false scissor false "p".

(** Inside a render pass of a frame, nothing bound yet ([bound = false]),
    or with pipeline 1 bound and not drawn with ([bound = true]). *)
Definition inPass (scissor bound : bool) : State :=
  mkState {| ringBufSize := 16; ringBufPtr := 0; ringBuffer := replicate 16 0;
             buffers := Container.empty; ephemeralBuffers := [];
             inFrame := true; inRenderPass := true;
             validPipeline := bound; pipelineDrawn := negb bound |}
          (mkContainer {[ 1%N := pipelineDesc scissor ]} 1%N)
          (pipelineDesc (scissor && bound)) false.

End NullFrame.
(** * renderer/OpenGLRenderer.cpp: buffers and the wait for the device *)

Module OpenGLBuffers.

Import OpenGLRenderer.

(** [RendererImpl::createBuffer].  [contents] is [None] for a null
    pointer; [created] is the name that [glCreateBuffers] stores in the
    new slot. *)
Definition createBuffer (type_ : BufferType.t) (sz : Z) (contents : option (list Z))
    (created : Z) : GL Handle :=
  assertGL (bool_decide (type_ <> BufferType.Invalid));;
  assertGL (negb (sz =? 0));;
  assertGL (match contents with Some _ => true | None => false end);;
  r ← this;
  let bufferFlags := if tracing r then Z.lor 0 GL_MAP_READ_BIT else 0 in
  let '(h, bufs) := Container.add Buffer_new (buffers r) in
  modify (set_buffers bufs);;
  gl (glCreateBuffers created);;
  modify (fun r => set_buffers
                     (Container.set h (mkBuffer created false 0 0 BufferType.Invalid)
                        (buffers r)) r);;
  gl (glNamedBufferStorage created sz bufferFlags);;
  modify (fun r => set_buffers
                     (Container.set h (mkBuffer created false 0 sz type_) (buffers r)) r);;
  mret h.

(** [RendererImpl::deleteBuffer].
    Modelled from the spec: [ResourceContainer::removeWith(handle, f)],
    "invokes a caller-supplied finalizer that must clear backend state
    before the slot is released", resolving the handle as [get] does.  The
    finalizer is the lambda of the source; its assignments are made in
    the slot one by one. *)
Definition deleteBuffer (handle : Handle) : GL unit :=
  b ← getResource buffers handle;
  assertGL (negb (buffer b =? 0));;
  gl (glDeleteBuffers (buffer b));;
  let b1 := mkBuffer 0 (ringBufferAlloc b) (offset b) (size b) (type b) in
  modify (fun r => set_buffers (Container.set handle b1 (buffers r)) r);;
  assertGL (negb (size b1 =? 0));;
  let b2 := mkBuffer (buffer b1) (ringBufferAlloc b1) (offset b1) 0 (type b1) in
  modify (fun r => set_buffers (Container.set handle b2 (buffers r)) r);;
  assertGL (negb (ringBufferAlloc b2));;
  assertGL (bool_decide (type b2 <> BufferType.Invalid));;
  let b3 := mkBuffer (buffer b2) (ringBufferAlloc b2) (offset b2) (size b2)
                     BufferType.Invalid in
  modify (fun r => set_buffers (Container.set handle b3 (buffers r)) r);;
  modify (fun r => set_buffers (Container.remove handle (buffers r)) r).

(** The loop of [RendererImpl::waitForDeviceIdle] over the frame indices
    [is]; [results i] is what [glClientWaitSync] returns for the fence of
    frame [i].  [f] is a reference to the frame, read again after the
    wait. *)
Fixpoint waitFrames (results : nat -> Z) (indices : list nat) : GL bool :=
  match indices with
  | [] => mret true
  | i :: rest =>
      r ← this;
      f ← at_ (frames r) i;
      if outstanding f then
        (* try to wait *)
        ok ← waitForFrame i (results i);
        r1 ← this;
        f1 ← at_ (frames r1) i;
        if (ok : bool) then
          assertGL (negb (outstanding f1));;
          waitFrames results rest
        else
          assertGL (outstanding f1);;
          mret false
      else waitFrames results rest
  end.

(** [RendererImpl::waitForDeviceIdle]: [i] runs from 0 to [frames.size()],
    which no iteration changes. *)
Definition waitForDeviceIdle (results : nat -> Z) : GL bool :=
  r ← this;
  waitFrames results (seq 0 (length (frames r))).

(** ** Vocabulary *)

(** No frame is pending on the GPU. *)
Definition idle (r : RendererImpl) : Prop :=
  Forall (fun f => outstanding f = false) (frames r).

(** Every outstanding frame has a fence and buffers that can be
    reclaimed, and no buffer is on the list of two frames. *)
Definition framesReclaimable (r : RendererImpl) : Prop :=
  (forall i f, frames r !! i = Some f -> outstanding f = true ->
     is_Some (fence f) /\ reclaimable r (ephemeralBuffers f)) /\
  (forall i j f g h, frames r !! i = Some f -> frames r !! j = Some g -> i <> j ->
     h ∈ ephemeralBuffers f -> h ∉ ephemeralBuffers g).

(** What [bindDescriptorSet] checks of a buffer before it accepts it. *)
Definition bindable (r : RendererImpl) (expected : BufferType.t) (b : Buffer) : Prop :=
  0 < size b /\ type b = expected /\
  if ringBufferAlloc b
  then buffer b = ringBuffer r /\ U32.wrap (offset b + size b) < ringBufSize r
  else buffer b <> 0 /\ offset b = 0.

(** The buffer type that goes with a descriptor type. *)
Definition bufferTypeOf (t : DescriptorType.t) : option BufferType.t :=
  match t with
  | DescriptorType.UniformBuffer => Some BufferType.Uniform
  | DescriptorType.StorageBuffer => Some BufferType.Storage
  | _ => None
  end.

(** ** Example states *)

(** Two frame slots, both submitted: frame 0 with fence 70 and the owned
    buffer 1 (OpenGL name 11), frame 1 with fence 71 and the ring
    allocation 2. *)
Definition twoPending : RendererImpl :=
  {| glcalls := []; ringBuffer := 1; ringBufSize := 1024; ringBufPtr := 512;
     persistentMapInUse := true; persistentMapping := Some 1; tracing := false;
     buffers := mkContainer {[ 1%N := mkBuffer 11 false 0 64 BufferType.Vertex;
                               2%N := mkBuffer 1 true 256 64 BufferType.Uniform ]} 2%N;
     samplers := Container.empty; textures := Container.empty;
     pipelines := Container.empty; dsLayouts := Container.empty;
     frames := [mkFrame (Some 70) [1%N] true 4 256; mkFrame (Some 71) [2%N] true 5 512];
     currentFrameIdx := 0; frameNum := 6;
     lastSyncedFrame := 3; lastSyncedRingBufPtr := 0;
     currentPipeline := 0%N; descriptors := ∅; decriptorSetsDirty := true;
     inFrame := false; inRenderPass := false; validPipeline := false;
     pipelineDrawn := false; scissorSet := false |}.

(** Every fence is found signaled. *)
Definition allSignaled (i : nat) : Z := GL_ALREADY_SIGNALED.

(** A renderer in a render pass whose set 0 has one uniform buffer, the
    ring allocation 1 of the ring named 1. *)
Definition ringBound : RendererImpl :=
  {| glcalls := []; ringBuffer := 1; ringBufSize := 1024; ringBufPtr := 64;
     persistentMapInUse := true; persistentMapping := Some 1; tracing := false;
     buffers := mkContainer {[ 1%N := mkBuffer 1 true 0 64 BufferType.Uniform ]} 1%N;
     samplers := Container.empty; textures := Container.empty;
     pipelines := mkContainer
                    {[ 1%N := mkPipeline [1%N] false
                                (mkShaderResources [(0, 0)%nat] [64] [] [] []) ]} 1%N;
     dsLayouts := mkContainer
                    {[ 1%N := mkDescriptorSetLayout
                                [mkDescriptorLayout DescriptorType.UniformBuffer 0] ]} 1%N;
     frames := [mkFrame None [1%N] false 0 0];
     currentFrameIdx := 0; frameNum := 0;
     lastSyncedFrame := 0; lastSyncedRingBufPtr := 0;
     currentPipeline := 1%N; descriptors := ∅; decriptorSetsDirty := true;
     inFrame := true; inRenderPass := true; validPipeline := true;
     pipelineDrawn := false; scissorSet := false |}.

Definition ringBlob : gmap Z Descriptor := {[ 0 := DBuffer 1%N ]}.

End OpenGLBuffers.
(** * demo/smaaDemo.cpp: the life of a render graph *)

Module RenderGraphLife.

Import RenderGraph.

(** [RenderGraph::bindExternalRT] *)
Definition bindExternalRT (rt : Rendertargets.t) (h : Handle) (g : t) : Res t :=
  assert_ (bool_decide (state g = Ready));;
  assert_ (bool_decide (h <> 0%N));;
  target ← match rendertargets g !! rt with
           | Some x => Ret x
           | None => AssertionFailed
           end;
  match target with
  | External e =>
      assert_ (bool_decide (e_handle e = 0%N));;
      Ret (set_rendertargets
             (<[rt := External (mkExternalRT (e_format e) (e_initialLayout e)
                                  (e_finalLayout e) h)]> (rendertargets g)) g)
  | Internal _ => Ret g
  end.

(** ** Sequences of declarations *)

(** The calls with which a graph is declared between [reset] and
    [build]. *)
Inductive Declaration : Type :=
| DeclRenderTarget (rt : Rendertargets.t) (d : RenderTargetDesc)
| DeclExternalRenderTarget (rt : Rendertargets.t) (fmt : Format.t)
                           (initial final : Layout.t)
| DeclRenderPass (rp : RenderPasses.t) (d : PassDesc.t)
| DeclResolveMSAA (source dest : Rendertargets.t)
| DeclBlit (source dest : Rendertargets.t)
| DeclPresentRenderTarget (rt : Rendertargets.t).

Definition declare (d : Declaration) (g : t) : Res t :=
  match d with
  | DeclRenderTarget rt d => renderTarget rt d g
  | DeclExternalRenderTarget rt fmt initial final =>
      externalRenderTarget rt fmt initial final g
  | DeclRenderPass rp d => renderPass rp d g
  | DeclResolveMSAA source dest => resolveMSAA source dest g
  | DeclBlit source dest => blit source dest g
  | DeclPresentRenderTarget rt => presentRenderTarget rt g
  end.

(** The declarations of a list, oldest first. *)
Fixpoint declareAll (ds : list Declaration) (g : t) : Res t :=
  match ds with
  | [] => Ret g
  | d :: rest => g1 ← declare d g; declareAll rest g1
  end.

(** The render passes among the operations, in order. *)
Definition passesOf (ops : list Operation) : list RenderPasses.t :=
  omap (fun op => match op with OpRenderPass rp => Some rp | _ => None end) ops.

(** What the declaration calls keep true of a graph under construction,
    and what [build] and [render] later assert of it. *)
Record declared (g : t) : Prop := {
  declared_state : state g = Building;
  declared_passes :
    forall rp, rp ∈ passesOf (operations g) <-> is_Some (renderPasses g !! rp);
  declared_once : NoDup (passesOf (operations g));
  declared_targets :
    forall k rt, rendertargets g !! k = Some rt ->
                 k <> Rendertargets.Invalid /\ getHandle rt = 0%N;
  declared_unbuilt :
    forall k rp, renderPasses g !! k = Some rp ->
                 handle rp = 0%N /\ fb rp = 0%N /\ rpDesc rp = RenderPassDesc_new;
  declared_external :
    hasExternalRTs g = true <->
    exists k rt, rendertargets g !! k = Some rt /\ isExternal rt = true;
  declared_pipelines : pipelines g = [];
  declared_deferred : renderpassesWithExternalRTs g = ∅
}.

(** ** Shapes of graphs *)

(** The colour attachments of a pass that writes [A] with begin
    behaviour [pb] in its first attachment and nothing in the other. *)
Definition writes (A : Rendertargets.t) (pb : PassBegin.t)
    (inputs : gset Rendertargets.t) : PassDesc.t :=
  PassDesc.mk Rendertargets.Invalid
    [PassDesc.mkRTInfo A pb (0, 0, 0, 0); noColor] inputs 1 "" false float_one.

(** Pass [P] writes [A], which is then blitted to [B]; [final] is the
    target presented. *)
Definition blitGraph (A B final : Rendertargets.t) (P : RenderPasses.t)
    (pb : PassBegin.t) (dA dB : RenderTargetDesc) : t :=
  {| state := Building; hasExternalRTs := false;
     currentRP := RenderPasses.Invalid;
     operations := [OpRenderPass P; OpBlit (mkBlit A B Layout.Undefined)];
     finalTarget := final;
     rendertargets := <[B := Internal (mkInternalRT 0%N dB)]>
                        (<[A := Internal (mkInternalRT 0%N dA)]> ∅);
     pipelines := [];
     renderPasses := {[ P := mkRenderPass 0%N 0%N (writes A pb ∅) RenderPassDesc_new ]};
     renderpassesWithExternalRTs := ∅ |}.

(** Two passes that clear and write the same target, one after the
    other. *)
Definition overwriteGraph : t :=
  {| state := Building; hasExternalRTs := false;
     currentRP := RenderPasses.Invalid;
     operations := [OpRenderPass RenderPasses.Scene; OpRenderPass RenderPasses.Final];
     finalTarget := Rendertargets.MainColor;
     rendertargets := {[ Rendertargets.MainColor := Internal (mkInternalRT 0%N plainTarget) ]};
     pipelines := [];
     renderPasses :=
       {[ RenderPasses.Scene :=
            mkRenderPass 0%N 0%N (writes Rendertargets.MainColor PassBegin.Clear ∅)
              RenderPassDesc_new;
          RenderPasses.Final :=
            mkRenderPass 0%N 0%N (writes Rendertargets.MainColor PassBegin.Clear ∅)
              RenderPassDesc_new ]};
     renderpassesWithExternalRTs := ∅ |}.

(** One pass that writes an external target, which is also the target
    presented. *)
Definition externalGraph : t :=
  {| state := Building; hasExternalRTs := true;
     currentRP := RenderPasses.Invalid;
     operations := [OpRenderPass RenderPasses.Final];
     finalTarget := Rendertargets.TemporalCurrent;
     rendertargets :=
       {[ Rendertargets.TemporalCurrent :=
            External (mkExternalRT (Format.Pixel 1) Layout.Undefined Layout.ShaderRead 0%N) ]};
     pipelines := [];
     renderPasses :=
       {[ RenderPasses.Final :=
            mkRenderPass 0%N 0%N (writes Rendertargets.TemporalCurrent PassBegin.Clear ∅)
              RenderPassDesc_new ]};
     renderpassesWithExternalRTs := ∅ |}.

(** The final layout that the layout pass has stored in the blit or
    resolve operation at position [i]. *)
Definition transferLayout (g : t) (i : nat) : option Layout.t :=
  match operations g !! i with
  | Some (OpBlit b) => Some (b_finalLayout b)
  | Some (OpResolveMSAA r) => Some (r_finalLayout r)
  | _ => None
  end.

(** The declarations of a graph with an internal colour target and an
    external one. *)
Definition temporalDeclarations : list Declaration :=
  [DeclRenderTarget Rendertargets.MainColor plainTarget;
   DeclExternalRenderTarget Rendertargets.TemporalCurrent (Format.Pixel 1)
     Layout.Undefined Layout.ShaderRead;
   DeclRenderPass RenderPasses.Scene (writes Rendertargets.MainColor PassBegin.Clear ∅);
   DeclRenderPass RenderPasses.Final
     (writes Rendertargets.TemporalCurrent PassBegin.Clear {[ Rendertargets.MainColor ]});
   DeclBlit Rendertargets.TemporalCurrent Rendertargets.MainColor;
   DeclPresentRenderTarget Rendertargets.MainColor].

End RenderGraphLife.
(** * Proofs *)

(** ** Successful runs, step by step *)

Lemma bind_Ret_inv {A B} (m : Res A) (f : A -> Res B) (b : B) :
  m ≫= f = Ret b -> exists a, m = Ret a /\ f a = Ret b.
Proof. destruct m; simpl; intros H; try discriminate; eauto. Qed.

Lemma assert_Ret_inv (c : bool) (u : unit) : assert_ c = Ret u -> c = true.
Proof. destruct c; simpl; congruence. Qed.

Lemma defined_Ret_inv (c : bool) (u : unit) : defined_ c = Ret u -> c = true.
Proof. destruct c; simpl; congruence. Qed.

(** Inversion of a successful run, one monadic step at a time: the value
    of the first step is named [a], the fact about it [Ha], and [H] is left
    with the rest of the run. *)
Tactic Notation "inv_ret" hyp(H) "as" ident(a) ident(Ha) :=
  apply bind_Ret_inv in H; destruct H as (a & Ha & H);
  first [ apply assert_Ret_inv in Ha
        | apply defined_Ret_inv in Ha
        | idtac ].

(** ** Facts of 32-bit arithmetic *)

Lemma U32_wrap_range z : 0 <= U32.wrap z < U32.modulus.
Proof. unfold U32.wrap, U32.modulus. apply Z.mod_pos_bound. lia. Qed.

Lemma U32_wrap_small z : 0 <= z < U32.modulus -> U32.wrap z = z.
Proof. intros. unfold U32.wrap. apply Z.mod_small. assumption. Qed.


(** * The ring allocator of the null renderer *)

Section NullRendererFacts.

Import NullRenderer.

Lemma add_value : add = 255.
Proof. reflexivity. Qed.

Lemma mask_value : mask = 2 ^ 32 - 256.
Proof. reflexivity. Qed.

(** [x & mask] clears the low eight bits of a 32-bit value. *)
Lemma land_mask (x : Z) :
  0 <= x < 2 ^ 32 -> Z.land x mask = 256 * (x / 256).
Proof.
  intros Hx.
  assert (Hm : mask = Z.land (Z.lnot (Z.ones 8)) (Z.ones 32)) by reflexivity.
  rewrite Hm, Z.land_assoc, (Z.land_comm x), <- Z.land_assoc.
  rewrite Z.land_ones by lia. rewrite (Z.mod_small x) by lia.
  rewrite Z.land_comm, <- Z.ldiff_land.
  rewrite Z.ldiff_ones_r by lia.
  rewrite Z.shiftl_mul_pow2, Z.shiftr_div_pow2 by lia.
  change (2 ^ 8) with 256. lia.
Qed.

Lemma land_notmask (x : Z) :
  0 <= x -> Z.land x (U32.wrap (Z.lnot mask)) = x mod 256.
Proof.
  intros Hx. change (U32.wrap (Z.lnot mask)) with (Z.ones 8).
  rewrite Z.land_ones by lia. reflexivity.
Qed.

Lemma alignUp_eq (p : Z) : alignUp p = 256 * (U32.wrap (p + 255) / 256).
Proof.
  unfold alignUp. rewrite add_value. apply land_mask.
  apply U32_wrap_range.
Qed.

Lemma alignUp_mod (p : Z) : alignUp p mod 256 = 0.
Proof.
  rewrite alignUp_eq, Z.mul_comm. apply Z.mod_mul. lia.
Qed.

Lemma alignUp_range (p : Z) : 0 <= alignUp p < 2 ^ 32.
Proof.
  rewrite alignUp_eq.
  pose proof (U32_wrap_range (p + 255)) as Hw. unfold U32.modulus in Hw.
  pose proof (Z.mul_div_le (U32.wrap (p + 255)) 256 ltac:(lia)).
  pose proof (Z.div_pos (U32.wrap (p + 255)) 256 ltac:(lia) ltac:(lia)).
  lia.
Qed.

(** Without 32-bit overflow the aligned cursor is the least multiple of 256
    that is not below the cursor. *)
Lemma alignUp_no_overflow (p : Z) :
  0 <= p -> p + 255 < 2 ^ 32 -> p <= alignUp p < p + 256.
Proof.
  intros Hp Ho. rewrite alignUp_eq, U32_wrap_small by (unfold U32.modulus; lia).
  pose proof (Z.div_mod (p + 255) 256 ltac:(lia)).
  pose proof (Z.mod_pos_bound (p + 255) 256 ltac:(lia)).
  lia.
Qed.

(** When [p + 255] overflows, the aligned value falls below [p]: the
    assertion [ringBufPtr <= alignedPtr] then fails. *)
Lemma alignUp_overflow (p : Z) :
  0 <= p < 2 ^ 32 -> 2 ^ 32 <= p + 255 -> alignUp p < p.
Proof.
  intros Hp Ho. rewrite alignUp_eq. unfold U32.wrap, U32.modulus.
  replace ((p + 255) mod 2 ^ 32) with (p + 255 - 2 ^ 32).
  2:{ apply Z.mod_unique with (q := 1); lia. }
  pose proof (Z.mul_div_le (p + 255 - 2 ^ 32) 256 ltac:(lia)). lia.
Qed.

Lemma alignUp_fixed (p : Z) :
  0 <= p -> p + 255 < 2 ^ 32 -> p mod 256 = 0 -> alignUp p = p.
Proof.
  intros Hp Ho Hm.
  pose proof (alignUp_no_overflow p Hp Ho) as Hr.
  pose proof (alignUp_mod p) as Ha.
  pose proof (Z.div_mod p 256 ltac:(lia)) as E1.
  pose proof (Z.div_mod (alignUp p) 256 ltac:(lia)) as E2.
  rewrite Hm in E1. rewrite Ha in E2. lia.
Qed.

(** What a successful call has done, read off the code. *)
Lemma createEphemeralBuffer_Ret sz contents r h r' :
  createEphemeralBuffer sz contents r = Ret (h, r') ->
  exists src aligned begin,
    contents = Some src /\ sz <> 0 /\ ringBufSize r <> 0 /\
    ringBufPtr r <= alignUp (ringBufPtr r) /\
    ((U32.wrap (alignUp (ringBufPtr r) mod ringBufSize r + sz) < ringBufSize r /\
      aligned = alignUp (ringBufPtr r) /\
      begin = aligned mod ringBufSize r)
     \/
     (ringBufSize r <= U32.wrap (alignUp (ringBufPtr r) mod ringBufSize r + sz) /\
      Z.land (nextBoundary r) (U32.wrap (Z.lnot mask)) = 0 /\
      aligned = alignUp (nextBoundary r) /\
      aligned mod ringBufSize r = 0 /\
      U32.wrap (0 + sz) < ringBufSize r /\
      begin = 0)) /\
    begin + sz <= Z.of_nat (length (ringBuffer r)) /\
    sz <= Z.of_nat (length src) /\
    h = N.succ (lastHandle (buffers r)) /\
    r' = {| ringBufSize := ringBufSize r;
            ringBufPtr := U32.wrap (aligned + sz);
            ringBuffer := memcpy (ringBuffer r) begin src sz;
            buffers := mkContainer
                         (<[h := {| ringBufferAlloc := true; beginOffs := begin; size := sz |}]>
                            (resources (buffers r))) h;
            ephemeralBuffers := ephemeralBuffers r ++ [h];
            inFrame := inFrame r;
            inRenderPass := inRenderPass r;
            validPipeline := validPipeline r;
            pipelineDrawn := pipelineDrawn r |}.
Proof.
  unfold createEphemeralBuffer. intros H.
  inv_ret H as u1 Hsz. inv_ret H as src Hsrc.
  destruct contents as [c|]; [|discriminate]. injection Hsrc as ->.
  inv_ret H as u2 Hle. inv_ret H as u3 Hnz. inv_ret H as ab Hbranch.
  destruct ab as [aligned begin].
  inv_ret H as u4 Hbound. inv_ret H as u5 Hsrc. simpl in H. injection H as <- <-.
  apply negb_true_iff, Z.eqb_neq in Hsz.
  apply negb_true_iff, Z.eqb_neq in Hnz.
  apply Z.leb_le in Hle, Hbound, Hsrc.
  exists src, aligned, begin.
  repeat split; try assumption; try reflexivity.
  destruct (ringBufSize r <=? U32.wrap (alignUp (ringBufPtr r) mod ringBufSize r + sz)) eqn:Hc.
  - right. apply Z.leb_le in Hc.
    inv_ret Hbranch as u6 Hlow. inv_ret Hbranch as u7 Hfit. inv_ret Hbranch as u8 Hzero.
    injection Hbranch as <- <-.
    apply Z.eqb_eq in Hlow, Hzero. apply Z.ltb_lt in Hfit.
    fold (nextBoundary r) in *. rewrite Hzero in *.
    repeat split; assumption.
  - left. apply Z.leb_gt in Hc. injection Hbranch as <- <-.
    repeat split; assumption.
Qed.

Lemma memcpy_length dst begin src n :
  0 <= begin -> 0 <= n ->
  begin + n <= Z.of_nat (length dst) -> n <= Z.of_nat (length src) ->
  length (memcpy dst begin src n) = length dst.
Proof.
  intros. unfold memcpy.
  rewrite !length_app, !length_take, length_drop. lia.
Qed.

(** A successful call on a well-formed state: the aligned cursor, and
    which of the two branches was taken, in exact arithmetic. *)
Lemma createEphemeralBuffer_cases sz contents r h r' :
  wf r -> 0 <= sz < 2 ^ 32 ->
  createEphemeralBuffer sz contents r = Ret (h, r') ->
  let aligned := alignUp (ringBufPtr r) in
  let begin := aligned mod ringBufSize r in
  0 < ringBufSize r /\
  ringBufPtr r <= aligned < ringBufPtr r + 256 /\
  ((begin + sz < ringBufSize r /\
    resources (buffers r') !! h = Some (mkBuffer true begin sz) /\
    ringBufPtr r' = U32.wrap (aligned + sz))
   \/
   (ringBufSize r <= begin + sz /\
    resources (buffers r') !! h = Some (mkBuffer true 0 sz) /\
    nextBoundary r mod 256 = 0 /\
    nextBoundary r mod ringBufSize r = 0 /\
    sz < ringBufSize r /\
    ringBufPtr r' = U32.wrap (nextBoundary r + sz))).
Proof.
  intros [Hs Hp Hr] Hsz H. cbv zeta.
  apply createEphemeralBuffer_Ret in H.
  destruct H as (src & aligned & begin & -> & Hnz & HS & Hle & Hbr & Hmem & Hsrc & -> & ->).
  assert (Ho : ringBufPtr r + 255 < 2 ^ 32).
  { destruct (Z_lt_dec (ringBufPtr r + 255) (2 ^ 32)) as [|Hge]; [assumption|].
    pose proof (alignUp_overflow (ringBufPtr r) Hp ltac:(lia)). lia. }
  pose proof (alignUp_no_overflow (ringBufPtr r) ltac:(lia) Ho) as Ha.
  assert (HSpos : 0 < ringBufSize r) by lia.
  pose proof (Z.mod_pos_bound (alignUp (ringBufPtr r)) (ringBufSize r) HSpos) as Hb.
  split; [assumption|]. split; [assumption|]. simpl.
  destruct Hbr as [(Hfit & -> & ->) | (Hover & Hlow & -> & Hz & Hfit & ->)].
  - left. rewrite Hr in Hmem.
    rewrite U32_wrap_small in Hfit by (unfold U32.modulus; lia).
    split; [assumption|]. split; [apply lookup_insert_eq | reflexivity].
  - right.
    pose proof (U32_wrap_range ((ringBufPtr r `div` ringBufSize r + 1) * ringBufSize r)) as Hnb.
    fold (nextBoundary r) in Hnb. unfold U32.modulus in Hnb.
    rewrite land_notmask in Hlow by lia.
    assert (Hnb' : nextBoundary r + 255 < 2 ^ 32).
    { pose proof (Z.div_mod (nextBoundary r) 256 ltac:(lia)) as E. rewrite Hlow in E.
      assert (nextBoundary r `div` 256 < 2 ^ 24) by (apply Z.div_lt_upper_bound; lia).
      lia. }
    rewrite (alignUp_fixed (nextBoundary r)) in * by lia.
    assert (Hwrap : ringBufSize r <= alignUp (ringBufPtr r) `mod` ringBufSize r + sz).
    { unfold U32.wrap, U32.modulus in Hover.
      pose proof (Z.mod_le (alignUp (ringBufPtr r) `mod` ringBufSize r + sz) (2 ^ 32)
                    ltac:(lia) ltac:(lia)). lia. }
    rewrite Z.add_0_l, U32_wrap_small in Hfit by (unfold U32.modulus; lia).
    repeat split; try assumption. apply lookup_insert_eq.
Qed.

Lemma assert_true (c : bool) : c = true -> assert_ c = Ret tt.
Proof. intros ->. reflexivity. Qed.

Lemma defined_true (c : bool) : c = true -> defined_ c = Ret tt.
Proof. intros ->. reflexivity. Qed.

Lemma multiple_mod (k s : Z) : s mod 256 = 0 -> (k * s) mod 256 = 0.
Proof.
  intros Hs. pose proof (Z.div_mod s 256 ltac:(lia)) as E. rewrite Hs in E.
  replace (k * s) with (k * (s / 256) * 256) by lia.
  apply Z.mod_mul. lia.
Qed.

(** The call returns whenever the ring size is a multiple of 256, the
    request is smaller than the ring and the cursor is far from the end of
    the 32-bit range. *)
Lemma createEphemeralBuffer_succeeds sz src r :
  wf r -> ringBufSize r mod 256 = 0 ->
  0 < sz < ringBufSize r -> sz <= Z.of_nat (length src) ->
  ringBufPtr r + ringBufSize r + 255 < 2 ^ 32 ->
  exists h r', createEphemeralBuffer sz (Some src) r = Ret (h, r') /\ wf r'.
Proof.
  intros [Hs Hp Hr] Hm Hsz Hsrc Ho.
  pose proof (alignUp_no_overflow (ringBufPtr r) ltac:(lia) ltac:(lia)) as Ha.
  assert (HS : 0 < ringBufSize r) by lia.
  pose proof (Z.mod_pos_bound (alignUp (ringBufPtr r)) (ringBufSize r) HS) as Hb.
  pose proof (Z.mod_le (alignUp (ringBufPtr r)) (ringBufSize r) ltac:(lia) HS) as Hb'.
  unfold createEphemeralBuffer.
  rewrite (assert_true (negb (sz =? 0))) by (apply negb_true_iff, Z.eqb_neq; lia).
  simpl.
  rewrite (assert_true (ringBufPtr r <=? _)) by (apply Z.leb_le; lia). simpl.
  rewrite (defined_true (negb (ringBufSize r =? 0))) by (apply negb_true_iff, Z.eqb_neq; lia).
  simpl.
  rewrite (U32_wrap_small (alignUp (ringBufPtr r) `mod` ringBufSize r + sz))
    by (unfold U32.modulus; lia).
  destruct (ringBufSize r <=? alignUp (ringBufPtr r) `mod` ringBufSize r + sz) eqn:Hc.
  - (* wrap *)
    set (q := ringBufPtr r `div` ringBufSize r).
    assert (Hq : 0 <= q) by (apply Z.div_pos; lia).
    assert (Hq' : q * ringBufSize r <= ringBufPtr r) by (rewrite Z.mul_comm; apply Z.mul_div_le; lia).
    rewrite (U32_wrap_small ((q + 1) * ringBufSize r)) by (unfold U32.modulus; nia).
    rewrite land_notmask by nia.
    rewrite multiple_mod by assumption. simpl.
    rewrite (alignUp_fixed ((q + 1) * ringBufSize r)) by (try apply multiple_mod; try assumption; nia).
    rewrite Z.mod_mul by lia. rewrite Z.add_0_l.
    rewrite (U32_wrap_small sz) by (unfold U32.modulus; lia).
    rewrite (assert_true (sz <? _)) by (apply Z.ltb_lt; lia). simpl.
    repeat (rewrite (defined_true (_ <=? _)) by (apply Z.leb_le; lia); simpl).
    eexists _, _. split; [reflexivity|].
    constructor; simpl; [assumption | apply U32_wrap_range |].
    rewrite memcpy_length; lia.
  - (* no wrap *)
    apply Z.leb_gt in Hc. simpl.
    repeat (rewrite (defined_true (_ <=? _)) by (apply Z.leb_le; lia); simpl).
    eexists _, _. split; [reflexivity|].
    constructor; simpl; [assumption | apply U32_wrap_range |].
    rewrite memcpy_length; lia.
Qed.

(** ** The two small runs *)

Lemma ring1024_run :
  beginFrame (RendererImpl_new 1024) = Ret ring1024_frame /\
  createEphemeralBuffer 600 (Some (replicate 600 0)) ring1024_frame = Ret (1%N, ring1024_one) /\
  createEphemeralBuffer 600 (Some (replicate 600 0)) ring1024_one = Ret (2%N, ring1024_two).
Proof. repeat split; vm_compute; reflexivity. Qed.

Lemma ring1024_small_run :
  createEphemeralBuffer 100 (Some (replicate 100 0)) ring1024_frame
    = Ret (1%N, ring1024_small_one) /\
  createEphemeralBuffer 100 (Some (replicate 100 0)) ring1024_small_one
    = Ret (2%N, ring1024_small_two).
Proof. repeat split; vm_compute; reflexivity. Qed.

Lemma ring1000_run :
  beginFrame (RendererImpl_new 1000) = Ret ring1000_frame /\
  createEphemeralBuffer 990 (Some (replicate 990 7)) ring1000_frame = Ret (1%N, ring1000_one) /\
  createEphemeralBuffer 10 (Some (replicate 10 9)) ring1000_one = Ret (2%N, ring1000_two).
Proof. repeat split; vm_compute; reflexivity. Qed.

Lemma ring1024_frame_wf : wf ring1024_frame.
Proof. constructor; vm_compute; intuition congruence. Qed.

Lemma ring1024_one_wf : wf ring1024_one.
Proof. constructor; vm_compute; intuition congruence. Qed.

Lemma ring1024_two_reachable : reachable ring1024_two.
Proof.
  destruct ring1024_run as (H0 & H1 & H2).
  eapply reach_alloc; [| | exact H2]; [|lia].
  eapply reach_alloc; [| | exact H1]; [|lia].
  eapply reach_beginFrame; [|exact H0].
  apply reach_new. lia.
Qed.

Lemma ring1000_one_reachable : reachable ring1000_one.
Proof.
  destruct ring1000_run as (H0 & H1 & _).
  eapply reach_alloc; [| | exact H1]; [|lia].
  eapply reach_beginFrame; [|exact H0].
  apply reach_new. lia.
Qed.

(** ** The allocation rule *)

(** C4. Every request rounds the cursor up to the next multiple of
    [1 << align]; when the aligned range reaches the end of the ring the
    cursor first moves to the next multiple of the ring size and the
    buffer starts at offset 0, otherwise it starts at the aligned cursor
    modulo the ring size.  The call returns under the stated conditions.
    With a ring of 1024 bytes two allocations of 600 bytes in one frame
    both get offset 0. *)
Theorem C4_allocation_rounds_then_wraps :
  (forall r sz contents h r',
      wf r -> 0 <= sz < 2 ^ 32 ->
      createEphemeralBuffer sz contents r = Ret (h, r') ->
      let aligned := alignUp (ringBufPtr r) in
      let begin := aligned mod ringBufSize r in
      (ringBufPtr r <= aligned < ringBufPtr r + 2 ^ align /\ aligned mod 2 ^ align = 0) /\
      (ringBufSize r <= begin + sz ->
         resources (buffers r') !! h = Some (mkBuffer true 0 sz) /\
         nextBoundary r mod ringBufSize r = 0 /\
         ringBufPtr r' = U32.wrap (nextBoundary r + sz)) /\
      (begin + sz < ringBufSize r ->
         resources (buffers r') !! h = Some (mkBuffer true begin sz) /\
         ringBufPtr r' = U32.wrap (aligned + sz)))
  /\
  (forall r sz src,
      wf r -> ringBufSize r mod 256 = 0 ->
      0 < sz < ringBufSize r -> sz <= Z.of_nat (length src) ->
      ringBufPtr r + ringBufSize r + 255 < 2 ^ 32 ->
      exists h r', createEphemeralBuffer sz (Some src) r = Ret (h, r'))
  /\
  (exists r0 h1 r1 h2 r2,
      beginFrame (RendererImpl_new 1024) = Ret r0 /\
      createEphemeralBuffer 600 (Some (replicate 600 0)) r0 = Ret (h1, r1) /\
      createEphemeralBuffer 600 (Some (replicate 600 0)) r1 = Ret (h2, r2) /\
      offsetOf h1 r1 = Some 0 /\ offsetOf h2 r2 = Some 0 /\
      ephemeralBuffers r2 = [h1; h2]).
Proof.
  split; [|split].
  - intros r sz contents h r' Hwf Hsz H. cbv zeta.
    pose proof (createEphemeralBuffer_cases _ _ _ _ _ Hwf Hsz H) as (HS & Ha & Hc).
    cbv zeta in Hc. change (2 ^ align) with 256.
    split; [split; [assumption | apply alignUp_mod]|].
    split; intros Hcmp.
    + destruct Hc as [(Hlt & _) | (_ & Hb & _ & Hnb & _ & Hp)]; [lia|].
      repeat split; assumption.
    + destruct Hc as [(_ & Hb & Hp) | (Hge & _)]; [|lia].
      split; assumption.
  - intros r sz src Hwf Hm Hsz Hsrc Ho.
    destruct (createEphemeralBuffer_succeeds sz src r Hwf Hm Hsz Hsrc Ho) as (h & r' & H & _).
    eauto.
  - destruct ring1024_run as (H0 & H1 & H2).
    exists ring1024_frame, 1%N, ring1024_one, 2%N, ring1024_two.
    split; [exact H0|]. split; [exact H1|]. split; [exact H2|].
    repeat split; vm_compute; reflexivity.
Qed.

(** The second allocation of the example, through the general rule: the
    cursor is 600, the aligned cursor 768, and 768 + 600 reaches 1024. *)
Lemma C4_allocation_witness :
  resources (buffers ring1024_two) !! 2%N = Some (mkBuffer true 0 600) /\
  ringBufPtr ring1024_two = U32.wrap (nextBoundary ring1024_one + 600).
Proof.
  destruct C4_allocation_rounds_then_wraps as (Hrule & _ & _).
  destruct (Hrule ring1024_one 600 (Some (replicate 600 0)) 2%N ring1024_two
              ring1024_one_wf ltac:(lia) (proj2 (proj2 ring1024_run)))
    as (_ & Hwrap & _).
  destruct Hwrap as (Hb & _ & Hp); [vm_compute; discriminate|].
  split; assumption.
Defined.

(** ** Alignment of the offsets *)

(** C10, as stated, fails: in a ring of 1000 bytes, after 990 bytes the
    aligned cursor is 1024, which is offset 24 of the ring, and 10 more
    bytes fit there. *)
Lemma C10_counterexample :
  ~ (forall r sz contents h r' b,
        reachable r ->
        createEphemeralBuffer sz contents r = Ret (h, r') ->
        resources (buffers r') !! h = Some b ->
        beginOffs b mod 256 = 0).
Proof.
  intros Hall.
  assert (Hb : resources (buffers ring1000_two) !! 2%N = Some (mkBuffer true 24 10))
    by (vm_compute; reflexivity).
  specialize (Hall _ _ _ _ _ _ ring1000_one_reachable (proj2 (proj2 ring1000_run)) Hb).
  vm_compute in Hall. discriminate Hall.
Qed.

(** C10, amended. The rounding mask is [(1 << 8) - 1 = 255], so the cursor
    is rounded to a multiple of 256 whatever alignment the caller has in
    mind; when the ring size is a multiple of 256 the offset of every
    buffer returned is a multiple of 256 too. *)
Theorem C10_offsets_multiple_of_256 r sz contents h r' :
  ringBufSize r mod 256 = 0 ->
  createEphemeralBuffer sz contents r = Ret (h, r') ->
  add = 255 /\ mask = 2 ^ 32 - 256 /\
  alignUp (ringBufPtr r) mod 256 = 0 /\
  exists off, offsetOf h r' = Some off /\ off mod 256 = 0.
Proof.
  intros Hm H.
  split; [reflexivity|]. split; [reflexivity|]. split; [apply alignUp_mod|].
  apply createEphemeralBuffer_Ret in H.
  destruct H as (src & aligned & begin & _ & _ & HS & _ & Hbr & _ & _ & -> & ->).
  exists begin. split.
  - unfold offsetOf. simpl. rewrite lookup_insert_eq. reflexivity.
  - destruct Hbr as [(_ & -> & ->) | (_ & _ & _ & _ & _ & ->)]; [|reflexivity].
    pose proof (Z.div_mod (ringBufSize r) 256 ltac:(lia)) as E. rewrite Hm in E.
    rewrite alignUp_eq.
    replace (ringBufSize r) with (256 * (ringBufSize r / 256)) by lia.
    rewrite Z.mul_mod_distr_l by lia.
    rewrite Z.mul_comm. apply Z.mod_mul. lia.
Qed.

Lemma C10_offsets_witness :
  exists off, offsetOf 2%N ring1024_small_two = Some off /\ off mod 256 = 0.
Proof.
  apply (C10_offsets_multiple_of_256 ring1024_small_one 100 (Some (replicate 100 0))
           2%N ring1024_small_two).
  - vm_compute. reflexivity.
  - exact (proj2 ring1024_small_run).
Defined.

(** ** Overlap of live allocations *)

(** C5, as stated, fails: after two allocations of 600 bytes in one frame
    of a 1024-byte ring both buffers are live and both occupy
    [[0, 600)]. *)
Lemma C5_counterexample : ~ (forall r, reachable r -> noAlias r).
Proof.
  intros Hall.
  pose proof (Hall _ ring1024_two_reachable 1%N 2%N
                (mkBuffer true 0 600) (mkBuffer true 0 600)) as H.
  destruct H as [H | H].
  - discriminate.
  - split; [apply list_elem_of_In; simpl; tauto | vm_compute; reflexivity].
  - split; [apply list_elem_of_In; simpl; tauto | vm_compute; reflexivity].
  - simpl in H. lia.
  - simpl in H. lia.
Qed.

(** One allocation that ends before the end of lap [q] of the ring. *)
Lemma linear_step q r sz contents h r1 :
  wf r ->
  q * ringBufSize r <= ringBufPtr r ->
  (q + 1) * ringBufSize r <= 2 ^ 32 ->
  0 < sz ->
  alignUp (ringBufPtr r) + sz < (q + 1) * ringBufSize r ->
  createEphemeralBuffer sz contents r = Ret (h, r1) ->
  wf r1 /\ ringBufSize r1 = ringBufSize r /\
  ringBufPtr r <= alignUp (ringBufPtr r) /\
  ringBufPtr r1 = alignUp (ringBufPtr r) + sz /\
  h = N.succ (lastHandle (buffers r)) /\
  lastHandle (buffers r1) = h /\
  resources (buffers r1) =
    <[h := mkBuffer true (alignUp (ringBufPtr r) - q * ringBufSize r) sz]>
      (resources (buffers r)).
Proof.
  intros [Hs Hp Hr] Hq Hlim Hsz Hend H.
  apply createEphemeralBuffer_Ret in H.
  destruct H as (src & aligned & begin & _ & _ & HS & Hle & Hbr & Hmem & Hsrc & -> & ->).
  set (A := alignUp (ringBufPtr r)) in *.
  assert (Hmod : A mod ringBufSize r = A - q * ringBufSize r).
  { symmetry. apply Z.mod_unique with (q := q); lia. }
  rewrite Hmod in Hbr.
  rewrite U32_wrap_small in Hbr by (unfold U32.modulus; lia).
  destruct Hbr as [(Hfit & -> & ->) | (Hover & _)]; [|lia].
  simpl. rewrite U32_wrap_small by (unfold U32.modulus; lia).
  repeat split; simpl; try lia; try reflexivity.
  - rewrite memcpy_length; lia.
  - rewrite Hmod. reflexivity.
Qed.

(** Along a run inside lap [q] the cursor grows, the handles grow, and
    each buffer lies between the cursor before and the cursor after. *)
Lemma linearRun_inv q limit r hs r' :
  linearRun limit r hs r' ->
  limit = (q + 1) * ringBufSize r ->
  wf r -> q * ringBufSize r <= ringBufPtr r -> limit <= 2 ^ 32 ->
  ringBufSize r' = ringBufSize r /\
  ringBufPtr r <= ringBufPtr r' /\
  (forall k, (k <= lastHandle (buffers r))%N ->
             resources (buffers r') !! k = resources (buffers r) !! k) /\
  (forall h, h ∈ hs ->
     (lastHandle (buffers r) < h)%N /\
     exists b, resources (buffers r') !! h = Some b /\
               ringBufPtr r - q * ringBufSize r <= beginOffs b /\
               0 < size b /\
               beginOffs b + size b <= ringBufPtr r' - q * ringBufSize r) /\
  (forall i j h1 h2 b1 b2,
     (i < j)%nat -> hs !! i = Some h1 -> hs !! j = Some h2 ->
     resources (buffers r') !! h1 = Some b1 ->
     resources (buffers r') !! h2 = Some b2 ->
     beginOffs b1 + size b1 <= beginOffs b2).
Proof.
  induction 1 as [r | r sz contents h r1 hs r2 Hsz Hend Halloc Hrun IH];
    intros Hlimit Hwf Hq Hlim.
  - split_and!; try lia; try reflexivity.
    + intros h Hh. inversion Hh.
    + intros i j h1 h2 b1 b2 _ Hi. rewrite lookup_nil in Hi. discriminate.
  - subst limit.
    destruct (linear_step q r sz contents h r1 Hwf Hq Hlim Hsz Hend Halloc)
      as (Hwf1 & HS1 & HA & Hp1 & Hh & Hlast1 & Hres1).
    destruct IH as (HS2 & Hp2 & Hkeep & Hin & Hord);
      [rewrite HS1; reflexivity | assumption | rewrite HS1; lia | assumption |].
    rewrite HS1 in *.
    assert (Hlookup : resources (buffers r2) !! h =
                      Some (mkBuffer true (alignUp (ringBufPtr r) - q * ringBufSize r) sz)).
    { rewrite Hkeep by lia. rewrite Hres1. apply lookup_insert_eq. }
    assert (Hmem : forall h', h' ∈ h :: hs ->
      (lastHandle (buffers r) < h')%N /\
      exists b, resources (buffers r2) !! h' = Some b /\
                ringBufPtr r - q * ringBufSize r <= beginOffs b /\
                0 < size b /\
                beginOffs b + size b <= ringBufPtr r2 - q * ringBufSize r).
    { intros h' Hh'. apply elem_of_cons in Hh'. destruct Hh' as [-> | Hh'].
      - split; [lia|]. eexists. split; [exact Hlookup|]. simpl. lia.
      - destruct (Hin h' Hh') as (Hlt & b & Hb & Hlo & Hpos & Hhi).
        split; [lia|]. exists b. repeat split; try assumption; lia. }
    split_and!.
    + assumption.
    + lia.
    + intros k Hk. rewrite Hkeep by lia. rewrite Hres1.
      apply lookup_insert_ne. lia.
    + exact Hmem.
    + intros i j h1 h2 b1 b2 Hij Hi Hj Hb1 Hb2.
      destruct j as [|j]; [lia|]. simpl in Hj.
      destruct i as [|i].
      * simpl in Hi. injection Hi as <-.
        rewrite Hlookup in Hb1. injection Hb1 as <-. simpl.
        assert (Hj' : h2 ∈ hs) by (apply list_elem_of_lookup; eauto).
        destruct (Hin h2 Hj') as (_ & b & Hb & Hlo & _).
        rewrite Hb2 in Hb. injection Hb as <-. lia.
      * simpl in Hi. apply (Hord i j h1 h2 b1 b2); try assumption. lia.
Qed.

(** C5, amended. Allocations made one after another, each ending before
    the end of the lap of the ring in which the run started, occupy
    disjoint ranges in increasing order.  (Nothing is promised once the
    cursor passes the end of the ring: the allocator then restarts at
    offset 0 without looking at the buffers that are still live.) *)
Theorem C5_no_overlap_before_the_ring_end r hs r' :
  wf r ->
  (ringBufPtr r / ringBufSize r + 1) * ringBufSize r <= 2 ^ 32 ->
  linearRun ((ringBufPtr r / ringBufSize r + 1) * ringBufSize r) r hs r' ->
  forall i j h1 h2 b1 b2,
    (i < j)%nat -> hs !! i = Some h1 -> hs !! j = Some h2 ->
    resources (buffers r') !! h1 = Some b1 ->
    resources (buffers r') !! h2 = Some b2 ->
    h1 <> h2 /\ beginOffs b1 + size b1 <= beginOffs b2 /\ disjointRanges b1 b2.
Proof.
  intros Hwf Hlim Hrun i j h1 h2 b1 b2 Hij Hi Hj Hb1 Hb2.
  set (q := ringBufPtr r / ringBufSize r) in *.
  assert (Hq : q * ringBufSize r <= ringBufPtr r).
  { destruct Hwf as [Hs Hp _].
    destruct (Z.eq_dec (ringBufSize r) 0) as [E | E]; [rewrite E; lia|].
    unfold q. rewrite Z.mul_comm. apply Z.mul_div_le. lia. }
  destruct (linearRun_inv q _ r hs r' Hrun eq_refl Hwf Hq Hlim)
    as (_ & _ & _ & Hin & Hord).
  pose proof (Hord i j h1 h2 b1 b2 Hij Hi Hj Hb1 Hb2) as Hle.
  assert (Hpos : 0 < size b1).
  { assert (Hm : h1 ∈ hs) by (apply list_elem_of_lookup; eauto).
    destruct (Hin h1 Hm) as (_ & b & Hb & _ & Hpos & _).
    rewrite Hb1 in Hb. injection Hb as <-. assumption. }
  split; [|split; [assumption | left; assumption]].
  intros ->. rewrite Hb1 in Hb2. injection Hb2 as <-. lia.
Qed.

Lemma C5_no_overlap_witness :
  disjointRanges (mkBuffer true 0 100) (mkBuffer true 256 100).
Proof.
  assert (Hlim : (ringBufPtr ring1024_frame / ringBufSize ring1024_frame + 1)
                 * ringBufSize ring1024_frame <= 2 ^ 32)
    by (vm_compute; discriminate).
  assert (Hrun : linearRun ((ringBufPtr ring1024_frame / ringBufSize ring1024_frame + 1)
                            * ringBufSize ring1024_frame)
                   ring1024_frame [1%N; 2%N] ring1024_small_two).
  { apply (linear_cons _ ring1024_frame 100 (Some (replicate 100 0)) 1%N ring1024_small_one);
      [lia | vm_compute; reflexivity | exact (proj1 ring1024_small_run) |].
    apply (linear_cons _ ring1024_small_one 100 (Some (replicate 100 0)) 2%N ring1024_small_two);
      [lia | vm_compute; reflexivity | exact (proj2 ring1024_small_run) |].
    apply linear_nil. }
  assert (H1 : resources (buffers ring1024_small_two) !! 1%N = Some (mkBuffer true 0 100))
    by (vm_compute; reflexivity).
  assert (H2 : resources (buffers ring1024_small_two) !! 2%N = Some (mkBuffer true 256 100))
    by (vm_compute; reflexivity).
  exact (proj2 (proj2 (C5_no_overlap_before_the_ring_end
                         ring1024_frame [1%N; 2%N] ring1024_small_two
                         ring1024_frame_wf Hlim Hrun 0%nat 1%nat 1%N 2%N _ _
                         ltac:(lia) eq_refl eq_refl H1 H2))).
Defined.

End NullRendererFacts.

(** * The render graph *)

Section RenderGraphFacts.

Import RenderGraph.

Lemma bool_decide_true_Ret (P : Prop) `{Decision P} :
  P -> assert_ (bool_decide P) = Ret tt.
Proof. intros HP. rewrite bool_decide_eq_true_2 by assumption. reflexivity. Qed.

(** ** The seed of the layout table *)

Lemma seedLayouts_internal g :
  (forall k rt, rendertargets g !! k = Some rt -> isExternal rt = false) ->
  seedLayouts g = {[ finalTarget g := Layout.TransferSrc ]}.
Proof.
  unfold seedLayouts.
  apply (map_fold_weak_ind
           (fun (r : gmap Rendertargets.t Layout.t) (m : gmap Rendertargets.t Rendertarget) =>
              (forall k rt, m !! k = Some rt -> isExternal rt = false) ->
              r = {[ finalTarget g := Layout.TransferSrc ]})).
  - reflexivity.
  - intros k rt m r Hfresh IH Hall.
    assert (Hrt : isExternal rt = false) by (apply (Hall k); apply lookup_insert_eq).
    destruct rt as [e | i]; [discriminate|].
    apply IH. intros k' rt' Hk'. apply (Hall k').
    rewrite lookup_insert_ne; [assumption|]. intros ->. congruence.
Qed.

Lemma markInputs_lookup (inputs : gset Rendertargets.t)
    (cl : gmap Rendertargets.t Layout.t) (k : Rendertargets.t) :
  markInputs inputs cl !! k =
    if decide (k ∈ inputs) then Some Layout.ShaderRead else cl !! k.
Proof.
  unfold markInputs.
  assert (Hel : forall x, x ∈ elements inputs <-> x ∈ inputs) by (intros; apply elem_of_elements).
  revert Hel. generalize (elements inputs). intros l.
  revert inputs. induction l as [|x l IH]; intros inputs Hel; simpl.
  - destruct (decide (k ∈ inputs)) as [Hin|]; [|reflexivity].
    apply Hel in Hin. inversion Hin.
  - destruct (decide (x = k)) as [-> | Hne].
    + rewrite lookup_insert_eq.
      destruct (decide (k ∈ inputs)) as [|Hn]; [reflexivity|].
      exfalso. apply Hn, Hel. left.
    + rewrite lookup_insert_ne by assumption.
      rewrite (IH (list_to_set l)).
      * destruct (decide (k ∈ inputs)) as [Hin | Hn];
          destruct (decide (k ∈ (list_to_set l : gset _))) as [Hin' | Hn'];
          try reflexivity.
        -- exfalso. apply Hn', elem_of_list_to_set.
           apply Hel in Hin. apply elem_of_cons in Hin. destruct Hin; [congruence|assumption].
        -- exfalso. apply Hn, Hel. right. apply elem_of_list_to_set in Hin'. assumption.
      * intros y. rewrite elem_of_list_to_set. reflexivity.
Qed.

(** ** The two-pass example *)

(** Evaluation of a run whose tests are decided by the hypotheses at hand. *)
Ltac decide_tests :=
  repeat (first
    [ rewrite bool_decide_eq_true_2 by (simpl; first [assumption | congruence | done])
    | rewrite bool_decide_eq_false_2 by (simpl; first [congruence | done])
    | rewrite lookup_insert_eq
    | rewrite lookup_insert_ne by congruence
    | rewrite lookup_singleton_eq
    | rewrite lookup_singleton_ne by congruence
    | rewrite lookup_empty ];
    simpl).

Lemma declareExample_graph A B P1 P2 dA dB clearA clearB :
  A <> Rendertargets.Invalid -> B <> Rendertargets.Invalid ->
  A <> B -> P1 <> P2 ->
  declareExample A B P1 P2 dA dB clearA clearB freshGraph
    = Ret (exampleGraph A B P1 P2 dA dB clearA clearB).
Proof.
  intros HA HB HAB HP.
  unfold declareExample, renderTarget, renderPass, presentRenderTarget,
    PassDesc.color, PassDesc.inputRendertarget. simpl.
  decide_tests.
  unfold exampleGraph, exampleP2, exampleP1, noColor, set_finalTarget, set_operations,
    set_renderPasses, set_rendertargets. simpl.
  rewrite (right_id_L ∅ (∪)). reflexivity.
Qed.

Lemma exampleGraph_internal A B P1 P2 dA dB clearA clearB k rt :
  rendertargets (exampleGraph A B P1 P2 dA dB clearA clearB) !! k = Some rt ->
  isExternal rt = false.
Proof.
  simpl. intros H.
  destruct (decide (B = k)) as [-> | HB].
  - rewrite lookup_insert_eq in H. injection H as <-. reflexivity.
  - rewrite lookup_insert_ne in H by assumption.
    destruct (decide (A = k)) as [-> | HA].
    + rewrite lookup_insert_eq in H. injection H as <-. reflexivity.
    + rewrite lookup_insert_ne, lookup_empty in H by assumption. discriminate.
Qed.

(** The layout pass on the example, in full. *)
Lemma inferLayouts_example A B P1 P2 dA dB clearA clearB :
  A <> Rendertargets.Invalid -> B <> Rendertargets.Invalid ->
  A <> B -> P1 <> P2 ->
  rt_format dA <> Format.Invalid -> rt_format dB <> Format.Invalid ->
  exists g',
    inferLayouts (exampleGraph A B P1 P2 dA dB clearA clearB) = Ret g' /\
    inferredColor g' P1 0 =
      Some (mkRPColorDesc (rt_format dA) PassBegin.Clear
              Layout.Undefined Layout.ShaderRead clearA) /\
    inferredColor g' P2 0 =
      Some (mkRPColorDesc (rt_format dB) PassBegin.Clear
              Layout.Undefined Layout.TransferSrc clearB).
Proof.
  intros HA HB HAB HP HfA HfB.
  unfold inferLayouts.
  rewrite seedLayouts_internal by apply exampleGraph_internal.
  unfold exampleGraph at 1 2 3. simpl. decide_tests.
  rewrite !markInputs_lookup. rewrite !decide_True by set_solver. simpl.
  decide_tests.
  eexists. split; [reflexivity|].
  unfold inferredColor. simpl. decide_tests. split; reflexivity.
Qed.

(** C1. Declaring the two-pass graph and running the layout pass of
    [build] gives pass [P1] the final layout shader-read for [A] and pass
    [P2] the final layout transfer-source for the present target [B]. *)
Theorem C1_example_final_layouts A B P1 P2 dA dB clearA clearB :
  A <> Rendertargets.Invalid -> B <> Rendertargets.Invalid ->
  A <> B -> P1 <> P2 ->
  rt_format dA <> Format.Invalid -> rt_format dB <> Format.Invalid ->
  exists g g',
    declareExample A B P1 P2 dA dB clearA clearB freshGraph = Ret g /\
    finalTarget g = B /\
    operations g = [OpRenderPass P1; OpRenderPass P2] /\
    inferLayouts g = Ret g' /\
    finalLayout <$> inferredColor g' P1 0 = Some Layout.ShaderRead /\
    finalLayout <$> inferredColor g' P2 0 = Some Layout.TransferSrc.
Proof.
  intros HA HB HAB HP HfA HfB.
  destruct (inferLayouts_example A B P1 P2 dA dB clearA clearB HA HB HAB HP HfA HfB)
    as (g' & Hrun & H1 & H2).
  exists (exampleGraph A B P1 P2 dA dB clearA clearB), g'.
  split; [apply declareExample_graph; assumption|].
  split; [reflexivity|]. split; [reflexivity|]. split; [assumption|].
  rewrite H1, H2. split; reflexivity.
Qed.

Lemma C1_example_witness :
  exists g g',
    declareExample Rendertargets.MainColor Rendertargets.FinalRender
      RenderPasses.Scene RenderPasses.Final plainTarget plainTarget
      (0, 0, 0, 0) (0, 0, 0, 0) freshGraph = Ret g /\
    finalTarget g = Rendertargets.FinalRender /\
    operations g = [OpRenderPass RenderPasses.Scene; OpRenderPass RenderPasses.Final] /\
    inferLayouts g = Ret g' /\
    finalLayout <$> inferredColor g' RenderPasses.Scene 0 = Some Layout.ShaderRead /\
    finalLayout <$> inferredColor g' RenderPasses.Final 0 = Some Layout.TransferSrc.
Proof.
  apply C1_example_final_layouts; discriminate.
Defined.

(** The same graph through [reset], the declaration calls and the whole of
    [build]: the descriptions handed to the back end carry these layouts. *)
Lemma buildExample_layouts :
  buildExample = Ret builtExample /\
  state builtExample.1 = Ready /\
  (handle <$> renderPasses builtExample.1 !! RenderPasses.Scene) = Some 5%N /\
  (handle <$> renderPasses builtExample.1 !! RenderPasses.Final) = Some 3%N /\
  createdWithLayouts builtExample.2 5%N
    = Some [(Layout.Undefined, Layout.ShaderRead); (Layout.Undefined, Layout.Undefined)] /\
  createdWithLayouts builtExample.2 3%N
    = Some [(Layout.Undefined, Layout.TransferSrc); (Layout.Undefined, Layout.Undefined)].
Proof. repeat split; vm_compute; reflexivity. Qed.

(** ** Initial layouts *)

(** What one step of the loop over the colour attachments has done. *)
Lemma visitColor_Ret rts d i cl rpd cl' rpd' :
  visitColor rts d i (cl, rpd) = Ret (cl', rpd') ->
  exists info,
    PassDesc.colorRTs_ d !! i = Some info /\
    ((PassDesc.id info = Rendertargets.Invalid /\ cl' = cl /\ rpd' = rpd)
     \/
     (PassDesc.id info <> Rendertargets.Invalid /\
      exists rt final,
        rts !! PassDesc.id info = Some rt /\
        getFormat rt <> Format.Invalid /\
        final = match cl !! PassDesc.id info with
                | Some l => l
                | None => Layout.ColorAttachment
                end /\
        final <> Layout.Undefined /\ final <> Layout.TransferDst /\
        (i < length (rp_colorRTs rpd))%nat /\
        cl' = <[PassDesc.id info := initialFor (PassDesc.passBegin info)]> cl /\
        rp_colorRTs rpd' =
          <[i := mkRPColorDesc (getFormat rt) (PassDesc.passBegin info)
                   (initialFor (PassDesc.passBegin info)) final
                   (PassDesc.clearValue info)]> (rp_colorRTs rpd))).
Proof.
  unfold visitColor. intros H.
  inv_ret H as info Hinfo.
  destruct (PassDesc.colorRTs_ d !! i) as [info'|]; [|discriminate].
  injection Hinfo as ->. exists info. split; [reflexivity|].
  case_bool_decide as Hid.
  - right. split; [assumption|].
    inv_ret H as rt Hrt.
    destruct (rts !! PassDesc.id info) as [rt'|]; [|discriminate].
    injection Hrt as ->.
    inv_ret H as u1 Hfmt. inv_ret H as u2 Hf1. inv_ret H as u3 Hf2.
    inv_ret H as rpd1 Hcolor. injection H as <- <-.
    apply bool_decide_eq_true_1 in Hfmt, Hf1, Hf2.
    unfold RenderPassDesc_color in Hcolor.
    inv_ret Hcolor as u4 Hlen. injection Hcolor as <-.
    apply bool_decide_eq_true_1 in Hlen.
    assert (Hinit : (if bool_decide (PassDesc.passBegin info = PassBegin.Keep)
                     then Layout.ColorAttachment else Layout.Undefined)
                    = initialFor (PassDesc.passBegin info)).
    { destruct (PassDesc.passBegin info); reflexivity. }
    rewrite Hinit.
    exists rt, (match cl !! PassDesc.id info with
                | Some l => l
                | None => Layout.ColorAttachment
                end).
    split_and!; try assumption; reflexivity.
  - left. injection H as <- <-.
    split; [|split; reflexivity].
    destruct (decide (PassDesc.id info = Rendertargets.Invalid)); [assumption|contradiction].
Qed.

Lemma visitColors_other rts d idxs cl rpd cl' rpd' i :
  visitColors rts d idxs (cl, rpd) = Ret (cl', rpd') ->
  i ∉ idxs ->
  rp_colorRTs rpd' !! i = rp_colorRTs rpd !! i.
Proof.
  revert cl rpd. induction idxs as [|j idxs IH]; intros cl rpd H Hi; simpl in H.
  - injection H as <- <-. reflexivity.
  - inv_ret H as st1 Hstep. destruct st1 as [cl1 rpd1].
    apply not_elem_of_cons in Hi. destruct Hi as [Hij Hi].
    rewrite (IH _ _ H Hi).
    apply visitColor_Ret in Hstep.
    destruct Hstep as (info & _ & [(_ & _ & ->) | (_ & rt & final & _ & _ & _ & _ & _ & _ & _ & ->)]).
    + reflexivity.
    + apply list_lookup_insert_ne. congruence.
Qed.

Lemma visitColors_inferred rts d idxs cl rpd cl' rpd' i :
  visitColors rts d idxs (cl, rpd) = Ret (cl', rpd') ->
  NoDup idxs -> i ∈ idxs ->
  inferredFrom d (rp_colorRTs rpd') i.
Proof.
  revert cl rpd. induction idxs as [|j idxs IH]; intros cl rpd H Hnd Hi; simpl in H.
  - inversion Hi.
  - inv_ret H as st1 Hstep. destruct st1 as [cl1 rpd1].
    apply NoDup_cons in Hnd. destruct Hnd as [Hj Hnd].
    apply elem_of_cons in Hi. destruct Hi as [-> | Hi].
    + intros info Hinfo Hid.
      rewrite (visitColors_other _ _ _ _ _ _ _ _ H Hj).
      apply visitColor_Ret in Hstep.
      destruct Hstep as (info' & Hinfo' & Hcase).
      rewrite Hinfo in Hinfo'. injection Hinfo' as <-.
      destruct Hcase as [(Hinv & _) | (_ & rt & final & _ & _ & _ & _ & _ & Hlen & _ & ->)];
        [contradiction|].
      eexists. split; [apply list_lookup_insert_eq; assumption|].
      split; reflexivity.
    + apply (IH _ _ H Hnd Hi).
Qed.

Lemma visitRenderPass_Ret rts rpId cl passes cl' passes' :
  visitRenderPass rts rpId (cl, passes) = Ret (cl', passes') ->
  exists rp rpd',
    passes !! rpId = Some rp /\
    passes' = <[rpId := mkRenderPass (handle rp) (fb rp) (desc rp) rpd']> passes /\
    forall i, (i < MAX_COLOR_RENDERTARGETS)%nat ->
              inferredFrom (desc rp) (rp_colorRTs rpd') i.
Proof.
  unfold visitRenderPass. intros H.
  inv_ret H as rp Hrp.
  destruct (passes !! rpId) as [rp'|]; [|discriminate]. injection Hrp as ->.
  inv_ret H as rpd1 Hdepth. inv_ret H as st Hcolors. destruct st as [cl2 rpd2].
  injection H as <- <-.
  exists rp, rpd2. split; [reflexivity|]. split; [reflexivity|].
  intros i Hi.
  apply (visitColors_inferred _ _ _ _ _ _ _ _ Hcolors).
  - apply NoDup_seq.
  - apply elem_of_seq. lia.
Qed.

(** After the backward pass every pass among the operations carries an
    inferred description, and no declaration has changed. *)
Lemma layoutPass_inferred rts ops cl passes ops' cl' passes' :
  layoutPass rts ops (cl, passes) = Ret (ops', (cl', passes')) ->
  (forall k rp, passes !! k = Some rp ->
     exists rp', passes' !! k = Some rp' /\ desc rp' = desc rp) /\
  (forall rpId, OpRenderPass rpId ∈ ops ->
     exists rp', passes' !! rpId = Some rp' /\
       forall i, (i < MAX_COLOR_RENDERTARGETS)%nat ->
                 inferredFrom (desc rp') (rp_colorRTs (rpDesc rp')) i).
Proof.
  revert ops' cl' passes'.
  induction ops as [|op rest IH]; intros ops' cl' passes' H; simpl in H.
  - injection H as <- <- <-. split.
    + intros k rp Hk. eauto.
    + intros rpId Hin. inversion Hin.
  - inv_ret H as r1 Hrest. destruct r1 as [rest1 [cl1 passes1]].
    inv_ret H as r2 Hop. destruct r2 as [op1 [cl2 passes2]].
    injection H as <- <- <-.
    destruct (IH _ _ _ Hrest) as (Hkeep & Hinf).
    destruct op as [b | rpId | res]; simpl in Hop.
    + destruct (subscript (b_dest b) cl1) as [l cl1'].
      injection Hop as <- <- <-. split; [assumption|].
      intros rpId Hin. apply elem_of_cons in Hin.
      destruct Hin as [Hin | Hin]; [discriminate | apply Hinf; assumption].
    + inv_ret Hop as st1 Hvisit. destruct st1 as [cl3 passes3].
      injection Hop as <- <- <-.
      apply visitRenderPass_Ret in Hvisit.
      destruct Hvisit as (rp & rpd' & Hrp & -> & Hnew).
      split.
      * intros k rp0 Hk.
        destruct (Hkeep k rp0 Hk) as (rp1 & Hk1 & Hd1).
        destruct (decide (rpId = k)) as [-> | Hne].
        -- rewrite lookup_insert_eq. eexists. split; [reflexivity|]. simpl. congruence.
        -- rewrite lookup_insert_ne by assumption. eauto.
      * intros k Hin.
        destruct (decide (rpId = k)) as [-> | Hne].
        -- rewrite lookup_insert_eq. eexists. split; [reflexivity|]. exact Hnew.
        -- rewrite lookup_insert_ne by assumption.
           apply elem_of_cons in Hin.
           destruct Hin as [Hin | Hin]; [congruence | apply Hinf; assumption].
    + destruct (subscript (r_dest res) cl1) as [l cl1'].
      injection Hop as <- <- <-. split; [assumption|].
      intros rpId Hin. apply elem_of_cons in Hin.
      destruct Hin as [Hin | Hin]; [discriminate | apply Hinf; assumption].
Qed.

(** C2, as stated, fails: the pass of [keepGraph] keeps the contents of
    the present target, the table holds transfer-source for it when the
    pass is visited, and the initial layout inferred is
    colour-attachment. *)
Lemma C2_counterexample : ~ keepFollowsTable.
Proof.
  intros Hclaim.
  destruct (inferLayouts keepGraph) as [g'| | |] eqn:Hrun;
    [| vm_compute in Hrun; discriminate Hrun ..].
  assert (Hc : inferredColor g' RenderPasses.GUI 0
               = Some (mkRPColorDesc (Format.Pixel 1) PassBegin.Keep
                         Layout.ColorAttachment Layout.TransferSrc (0, 0, 0, 0))).
  { vm_compute in Hrun. injection Hrun as <-. vm_compute. reflexivity. }
  specialize (Hclaim keepGraph g' RenderPasses.GUI
                (PassDesc.mkRTInfo Rendertargets.FinalRender PassBegin.Keep (0, 0, 0, 0))
                _ Hrun eq_refl eq_refl eq_refl Hc).
  vm_compute in Hclaim. discriminate Hclaim.
Qed.

(** C2, amended. For every colour attachment of every render pass among
    the operations the layout pass records the declared begin behaviour;
    the initial layout is undefined for clear and don't-care, and the
    constant colour-attachment for keep.  In each case the entry of the
    layout table for the attachment is then set to that initial layout. *)
Theorem C2_initial_layouts :
  (forall g g' rp i info,
      inferLayouts g = Ret g' ->
      OpRenderPass rp ∈ operations g ->
      (i < MAX_COLOR_RENDERTARGETS)%nat ->
      declaredColor g rp i = Some info ->
      PassDesc.id info <> Rendertargets.Invalid ->
      exists c,
        inferredColor g' rp i = Some c /\
        passBegin c = PassDesc.passBegin info /\
        (PassDesc.passBegin info = PassBegin.Clear \/
         PassDesc.passBegin info = PassBegin.DontCare ->
         initialLayout c = Layout.Undefined) /\
        (PassDesc.passBegin info = PassBegin.Keep ->
         initialLayout c = Layout.ColorAttachment))
  /\
  (forall rts d i cl rpd cl' rpd' info,
      visitColor rts d i (cl, rpd) = Ret (cl', rpd') ->
      PassDesc.colorRTs_ d !! i = Some info ->
      PassDesc.id info <> Rendertargets.Invalid ->
      cl' !! PassDesc.id info = Some (initialFor (PassDesc.passBegin info))).
Proof.
  split.
  - intros g g' rp i info Hrun Hop Hi Hdecl Hid.
    unfold inferLayouts in Hrun.
    inv_ret Hrun as res Hpass. destruct res as [ops [cl passes]].
    injection Hrun as <-.
    destruct (layoutPass_inferred _ _ _ _ _ _ _ Hpass) as (Hkeep & Hinf).
    destruct (Hinf rp Hop) as (rp' & Hrp' & Hall).
    unfold declaredColor in Hdecl.
    destruct (renderPasses g !! rp) as [rp0|] eqn:Hrp0; [|discriminate]. simpl in Hdecl.
    destruct (Hkeep rp rp0 Hrp0) as (rp1 & Hrp1 & Hdesc).
    rewrite Hrp' in Hrp1. injection Hrp1 as <-.
    rewrite <- Hdesc in Hdecl.
    destruct (Hall i Hi info Hdecl Hid) as (c & Hc & Hpb & Hinit).
    exists c. unfold inferredColor. simpl. rewrite Hrp'. simpl.
    split; [assumption|]. split; [assumption|].
    rewrite Hinit. split.
    + intros [-> | ->]; reflexivity.
    + intros ->. reflexivity.
  - intros rts d i cl rpd cl' rpd' info Hstep Hinfo Hid.
    apply visitColor_Ret in Hstep.
    destruct Hstep as (info' & Hinfo' & Hcase).
    rewrite Hinfo in Hinfo'. injection Hinfo' as <-.
    destruct Hcase as [(Hinv & _) | (_ & rt & final & _ & _ & _ & _ & _ & _ & -> & _)];
      [contradiction|].
    apply lookup_insert_eq.
Qed.

(** On [keepGraph]: the pass keeps the present target and gets the
    initial layout colour-attachment. *)
Lemma C2_initial_layouts_witness :
  exists g' c,
    inferLayouts keepGraph = Ret g' /\
    inferredColor g' RenderPasses.GUI 0 = Some c /\
    initialLayout c = Layout.ColorAttachment.
Proof.
  destruct (inferLayouts keepGraph) as [g'| | |] eqn:Hrun;
    [| vm_compute in Hrun; discriminate Hrun ..].
  destruct (proj1 C2_initial_layouts keepGraph g' RenderPasses.GUI 0%nat
              (PassDesc.mkRTInfo Rendertargets.FinalRender PassBegin.Keep (0, 0, 0, 0))
              Hrun) as (c & Hc & _ & _ & Hkeep).
  - apply list_elem_of_In. simpl. tauto.
  - unfold MAX_COLOR_RENDERTARGETS. lia.
  - reflexivity.
  - discriminate.
  - exists g', c. split; [reflexivity|]. split; [assumption|].
    apply Hkeep. reflexivity.
Defined.

(** ** [reset] *)

Lemma deletePipelines_calls ps r :
  calls (deletePipelines ps r)
    = calls r ++ map (fun p => DeletePipeline (p_handle p)) ps /\
  handles (deletePipelines ps r) = handles r /\
  busyPolls (deletePipelines ps r) = busyPolls r.
Proof.
  unfold deletePipelines. revert r.
  induction ps as [|p ps IH]; intros r; simpl.
  - rewrite app_nil_r. auto.
  - destruct (IH (Backend.deletePipeline (p_handle p) r)) as (Hc & Hh & Hb).
    rewrite Hc, Hh, Hb. simpl. rewrite <- app_assoc. auto.
Qed.

Lemma deleteRendertargets_calls rts r :
  Forall (fun p => p.1 <> Rendertargets.Invalid /\
                   forall i, p.2 = Internal i -> i_handle i <> 0%N) rts ->
  exists r', deleteRendertargets rts r = Ret r' /\
             calls r' = calls r ++ rendertargetDeletes rts /\
             handles r' = handles r /\ busyPolls r' = busyPolls r.
Proof.
  revert r. induction rts as [|[k rt] rts IH]; intros r Hall; simpl.
  - exists r. rewrite app_nil_r. auto.
  - apply Forall_cons in Hall. destruct Hall as [[Hk Hrt] Hall]. simpl in Hk, Hrt.
    rewrite bool_decide_true_Ret by assumption. simpl.
    destruct rt as [e | i]; simpl.
    + apply IH. assumption.
    + rewrite bool_decide_true_Ret by (apply Hrt; reflexivity). simpl.
      destruct (IH (Backend.deleteRenderTarget (i_handle i) r) Hall)
        as (r' & Hrun & Hc & Hh & Hb).
      exists r'. split; [assumption|]. rewrite Hc, Hh, Hb. simpl.
      rewrite <- app_assoc. auto.
Qed.

Lemma waitIdle_calls n r :
  busyPolls r = n ->
  exists r', waitIdle n r = Ret r' /\
             calls r' = calls r ++ pumpCalls n /\
             handles r' = handles r /\ busyPolls r' = O.
Proof.
  revert r. induction n as [|n IH]; intros r Hn.
  - simpl. unfold Backend.waitForDeviceIdle. rewrite Hn.
    eexists. split; [reflexivity|]. simpl. auto.
  - simpl. unfold Backend.waitForDeviceIdle. rewrite Hn.
    destruct (IH (Backend.record ProcessEvents
                    (mkBackend (calls r ++ [WaitForDeviceIdle false]) (handles r) n))
                 eq_refl) as (r' & Hrun & Hc & Hh & Hb).
    exists r'. split; [assumption|]. rewrite Hc, Hh. simpl.
    rewrite <- !app_assoc. auto.
Qed.

(** [reset] in full, on a graph that passes its assertions. *)
Lemma reset_calls g r :
  resettable g ->
  exists g' r',
    reset g r = Ret (g', r') /\
    g' = mk Building false (currentRP g) [] (finalTarget g) ∅ [] ∅ ∅ /\
    calls r' = calls r
               ++ map (fun p => DeletePipeline (p_handle p)) (pipelines g)
               ++ rendertargetDeletes (map_to_list (rendertargets g))
               ++ pumpCalls (busyPolls r) /\
    busyPolls r' = O.
Proof.
  intros [Hstate Hrts]. unfold reset.
  rewrite (assert_true (_ || _)).
  2:{ destruct Hstate as [-> | ->]; reflexivity. }
  simpl.
  destruct (deletePipelines_calls (pipelines g) r) as (Hc1 & Hh1 & Hb1).
  destruct (deleteRendertargets_calls (map_to_list (rendertargets g))
              (deletePipelines (pipelines g) r)) as (r2 & Hrun2 & Hc2 & Hh2 & Hb2).
  { apply Forall_forall. intros [k rt] Hin. apply elem_of_map_to_list in Hin.
    simpl. apply (Hrts k rt Hin). }
  rewrite Hrun2. simpl. rewrite map_to_list_empty. simpl.
  destruct (waitIdle_calls (busyPolls r2) r2 eq_refl) as (r3 & Hrun3 & Hc3 & Hh3 & Hb3).
  rewrite Hrun3. simpl.
  eexists _, r3. split; [reflexivity|]. split; [reflexivity|].
  rewrite Hc3, Hc2, Hc1, Hb2, Hb1, <- !app_assoc. auto.
Qed.

(** The built example, reset: the two render targets are deleted, then
    the device is polled. *)
Lemma reset_builtExample :
  exists g',
    reset builtExample.1 builtExample.2
      = Ret (g', mkBackend (calls builtExample.2
                            ++ [] ++ DeleteRenderTarget 1%N
                                  :: [DeleteRenderTarget 2%N; WaitForDeviceIdle true])
                           6%N 0) /\
    renderPasses builtExample.1 !! RenderPasses.Scene
      = Some (mkRenderPass 5%N 6%N (exampleP1 Rendertargets.MainColor (0, 0, 0, 0))
                (mkRenderPassDesc "" 1 Format.Invalid false 0
                   [mkRPColorDesc (Format.Pixel 1) PassBegin.Clear
                      Layout.Undefined Layout.ShaderRead (0, 0, 0, 0);
                    mkRPColorDesc Format.Invalid PassBegin.DontCare
                      Layout.Undefined Layout.Undefined (0, 0, 0, 0)])).
Proof.
  eexists (mk Building false RenderPasses.Invalid [] Rendertargets.FinalRender ∅ [] ∅ ∅).
  split; vm_compute; reflexivity.
Qed.

(** C3, as stated, fails on the graph built from the example: the render
    pass 5 and the framebuffer 6 that [build] created are never deleted,
    and the render targets are deleted before the device is polled. *)
Lemma C3_counterexample : ~ resetDeletesPasses /\ ~ resetWaitsFirst.
Proof.
  destruct reset_builtExample as (g' & Hreset & Hpass).
  split.
  - intros Hclaim.
    destruct (Hclaim _ _ _ _ _ _ Hreset Hpass) as (Hdel & _).
    specialize (Hdel ltac:(discriminate)).
    vm_compute in Hdel.
    repeat (apply elem_of_cons in Hdel; destruct Hdel as [Hdel | Hdel]; [discriminate Hdel|]).
    inversion Hdel.
  - intros Hclaim.
    specialize (Hclaim _ _ _ _ [] (DeleteRenderTarget 1%N)
                  [DeleteRenderTarget 2%N; WaitForDeviceIdle true] Hreset eq_refl I).
    inversion Hclaim.
Qed.

(** C3, amended. [reset] returns on every graph that passes its
    assertions; it deletes every cached pipeline and every internal
    render target through the back end, leaves the graph empty and in
    state Building, and after these deletions polls the device until it
    is idle, pumping host events after each poll that finds it busy. *)
Theorem C3_reset_deletes_then_waits g r :
  resettable g ->
  exists g' r' deletions,
    reset g r = Ret (g', r') /\
    (state g' = Building /\ operations g' = [] /\ rendertargets g' = ∅ /\
     pipelines g' = [] /\ renderPasses g' = ∅) /\
    calls r' = calls r ++ deletions ++ pumpCalls (busyPolls r) /\
    Forall isDelete deletions /\
    (forall p, p ∈ pipelines g -> DeletePipeline (p_handle p) ∈ deletions) /\
    (forall k i, rendertargets g !! k = Some (Internal i) ->
                 DeleteRenderTarget (i_handle i) ∈ deletions) /\
    busyPolls r' = O.
Proof.
  intros Hg.
  destruct (reset_calls g r Hg) as (g' & r' & Hrun & -> & Hcalls & Hbusy).
  eexists _, r', (map (fun p => DeletePipeline (p_handle p)) (pipelines g)
                  ++ rendertargetDeletes (map_to_list (rendertargets g))).
  split; [exact Hrun|]. split; [simpl; auto|].
  split; [rewrite Hcalls, <- !app_assoc; reflexivity|].
  split; [|split; [|split; [|assumption]]].
  - apply Forall_app. split.
    + apply Forall_forall. intros c Hc. apply list_elem_of_fmap in Hc.
      destruct Hc as (p & -> & _). exact I.
    + apply Forall_forall. intros c Hc. unfold rendertargetDeletes in Hc.
      apply list_elem_of_omap in Hc. destruct Hc as ([k rt] & _ & Hc).
      destruct rt as [e | i]; simpl in Hc; [discriminate|].
      injection Hc as <-. exact I.
  - intros p Hp. apply elem_of_app. left.
    apply list_elem_of_fmap. exists p. auto.
  - intros k i Hk. apply elem_of_app. right.
    unfold rendertargetDeletes. apply list_elem_of_omap.
    exists (k, Internal i). split; [apply elem_of_map_to_list; assumption | reflexivity].
Qed.

Lemma C3_reset_witness :
  exists g' r' deletions,
    reset builtExample.1 builtExample.2 = Ret (g', r') /\
    (state g' = Building /\ operations g' = [] /\ rendertargets g' = ∅ /\
     pipelines g' = [] /\ renderPasses g' = ∅) /\
    calls r' = calls builtExample.2 ++ deletions ++ pumpCalls (busyPolls builtExample.2) /\
    Forall isDelete deletions /\
    (forall p, p ∈ pipelines builtExample.1 -> DeletePipeline (p_handle p) ∈ deletions) /\
    (forall k i, rendertargets builtExample.1 !! k = Some (Internal i) ->
                 DeleteRenderTarget (i_handle i) ∈ deletions) /\
    busyPolls r' = O.
Proof.
  apply C3_reset_deletes_then_waits.
  split.
  - right. reflexivity.
  - intros k rt H.
    destruct k; vm_compute in H; try discriminate H;
      injection H as <-; (split; [discriminate | intros i [= <-]; discriminate]).
Defined.

(** ** [createPipeline] *)

Lemma find_app_new {A} (f : A -> bool) (l : list A) (x : A) :
  List.find f l = None -> f x = true -> List.find f (l ++ [x]) = Some x.
Proof.
  induction l as [|y l IH]; simpl; intros Hnone Hx.
  - rewrite Hx. reflexivity.
  - destruct (f y); [discriminate|]. apply IH; assumption.
Qed.

(** C8. A pipeline is looked up by its whole description, the render pass
    of the graph pass included, in a scan of the cache from the front.
    A call returns; a second call with an equal description for the same
    graph pass returns the same handle and leaves the cache and the back
    end as they were, so no further pipeline is created. *)
Theorem C8_createPipeline_deduplicates g r rp pass d :
  (state g = Ready \/ state g = Rendering) ->
  renderPasses g !! rp = Some pass ->
  exists h g1 r1,
    let d1 := PipelineDesc_renderPass (handle pass) d in
    createPipeline rp d g r = Ret (h, d1, g1, r1) /\
    (exists front back,
        pipelines g1 = front ++ mkPipeline d1 h :: back /\
        Forall (fun p => p_desc p <> d1) front) /\
    (calls r1 = calls r \/ calls r1 = calls r ++ [CreatePipeline d1 h]) /\
    (forall d', PipelineDesc_renderPass (handle pass) d' = d1 ->
                createPipeline rp d' g1 r1 = Ret (h, d1, g1, r1)).
Proof.
  intros Hstate Hpass. cbv zeta.
  set (d1 := PipelineDesc_renderPass (handle pass) d).
  assert (Hassert : assert_ (bool_decide (state g = Ready)
                             || bool_decide (state g = Rendering)) = Ret tt).
  { apply assert_true. destruct Hstate as [-> | ->]; reflexivity. }
  unfold createPipeline. rewrite Hassert, Hpass. simpl. fold d1.
  destruct (List.find (fun pipeline => bool_decide (p_desc pipeline = d1)) (pipelines g))
    as [pl|] eqn:Hfind.
  - (* found in the cache *)
    exists (p_handle pl), g, r. split; [reflexivity|].
    split; [|split; [left; reflexivity|]].
    + clear Hassert. revert Hfind. generalize (pipelines g) as l.
      induction l as [|p l IH]; simpl; [discriminate|].
      case_bool_decide as Hp; intros Hfind.
      * injection Hfind as ->. exists [], l. split; [|constructor].
        destruct pl as [dp hp]. simpl in *. subst dp. reflexivity.
      * destruct (IH Hfind) as (front & back & -> & Hfront).
        exists (p :: front), back. split; [reflexivity|].
        constructor; assumption.
    + intros d' Hd'. rewrite Hassert, Hpass. simpl. rewrite Hd', Hfind. reflexivity.
  - (* created *)
    eexists _, _, _. split; [reflexivity|].
    split; [|split; [right; reflexivity|]].
    + exists (pipelines g), []. split; [reflexivity|].
      apply Forall_forall. intros p Hp Heq.
      apply list_elem_of_In in Hp.
      pose proof (find_none _ _ Hfind p Hp) as Hnone. simpl in Hnone.
      apply bool_decide_eq_false_1 in Hnone. contradiction.
    + intros d' Hd'. simpl. rewrite Hassert, Hpass. simpl. rewrite Hd'.
      rewrite (find_app_new _ _ (mkPipeline d1 (N.succ (handles r))) Hfind).
      * reflexivity.
      * simpl. apply bool_decide_eq_true_2. reflexivity.
Qed.

Lemma C8_createPipeline_witness :
  exists h g1 r1,
    createPipeline RenderPasses.Scene
      (mkPipelineDesc 1%N 2%N 0%N 1 [] true true true false false "cube")
      builtExample.1 builtExample.2
      = Ret (h, mkPipelineDesc 1%N 2%N 5%N 1 [] true true true false false "cube", g1, r1) /\
    createPipeline RenderPasses.Scene
      (mkPipelineDesc 1%N 2%N 5%N 1 [] true true true false false "cube") g1 r1
      = Ret (h, mkPipelineDesc 1%N 2%N 5%N 1 [] true true true false false "cube", g1, r1).
Proof.
  destruct reset_builtExample as (_ & _ & Hpass).
  destruct (C8_createPipeline_deduplicates builtExample.1 builtExample.2
              RenderPasses.Scene _
              (mkPipelineDesc 1%N 2%N 0%N 1 [] true true true false false "cube")
              (or_introl eq_refl) Hpass)
    as (h & g1 & r1 & Hfirst & _ & _ & Hsecond).
  exists h, g1, r1. split; [exact Hfirst|].
  apply Hsecond. reflexivity.
Defined.

End RenderGraphFacts.

(** * The OpenGL renderer *)

Section OpenGLRendererFacts.

Import OpenGLRenderer.

(** ** Runs of member functions *)

Lemma runGL_bind_Ret {A B} (m : GL A) (f : A -> GL B) r a r1 :
  runGL m r = (Ret a, r1) -> runGL (m ≫= f) r = runGL (f a) r1.
Proof. intros H. simpl. rewrite H. reflexivity. Qed.

Lemma runGL_bind_inv {A B} (m : GL A) (f : A -> GL B) r b r' :
  runGL (m ≫= f) r = (Ret b, r') ->
  exists a r1, runGL m r = (Ret a, r1) /\ runGL (f a) r1 = (Ret b, r').
Proof.
  simpl. destruct (runGL m r) as [[a| | |] r1]; intros H; try discriminate H.
  eauto.
Qed.

(** One step of a run whose first call returns. *)
Tactic Notation "gl_run" "by" tactic(tac) :=
  erewrite runGL_bind_Ret by tac; cbv beta.

Lemma runGL_assertGL_true c r : c = true -> runGL (assertGL c) r = (Ret tt, r).
Proof. intros ->. reflexivity. Qed.

Lemma runGL_assertGL_inv c r u r' :
  runGL (assertGL c) r = (Ret u, r') -> c = true /\ r' = r.
Proof. destruct c; simpl; intros H; [injection H as _ <-; auto | discriminate H]. Qed.

Lemma runGL_getResource {T} (c : RendererImpl -> ResourceContainer T) h r v :
  resources (c r) !! h = Some v -> runGL (getResource c h) r = (Ret v, r).
Proof. intros H. simpl. unfold Container.get. rewrite H. reflexivity. Qed.

Lemma runGL_getResource_inv {T} (c : RendererImpl -> ResourceContainer T) h r v r' :
  runGL (getResource c h) r = (Ret v, r') ->
  resources (c r) !! h = Some v /\ r' = r.
Proof.
  simpl. unfold Container.get. destruct (resources (c r) !! h); intros H;
    [injection H as <- <-; auto | discriminate H].
Qed.

Lemma always_bind {A B} (P : RendererImpl -> RendererImpl -> Prop)
    (m : GL A) (f : A -> GL B) :
  (forall r1 r2 r3, P r1 r2 -> P r2 r3 -> P r1 r3) ->
  always P m -> (forall a, always P (f a)) -> always P (m ≫= f).
Proof.
  intros Htrans Hm Hf r. simpl.
  specialize (Hm r). destruct (runGL m r) as [[a| | |] r1]; simpl in *; try assumption.
  apply (Htrans r r1); [assumption | apply Hf].
Qed.

Lemma always_pure {A} (P : RendererImpl -> RendererImpl -> Prop) (x : Res A) :
  (forall r, P r r) -> always P (lift x).
Proof. intros Hrefl r. apply Hrefl. Qed.

Lemma always_mret {A} (P : RendererImpl -> RendererImpl -> Prop) (a : A) :
  (forall r, P r r) -> always P (mret a).
Proof. intros Hrefl r. apply Hrefl. Qed.

Lemma always_this (P : RendererImpl -> RendererImpl -> Prop) :
  (forall r, P r r) -> always P this.
Proof. intros Hrefl r. apply Hrefl. Qed.

Lemma always_getResource {T} (P : RendererImpl -> RendererImpl -> Prop)
    (c : RendererImpl -> ResourceContainer T) h :
  (forall r, P r r) -> always P (getResource c h).
Proof. intros Hrefl r. apply Hrefl. Qed.

(** ** Reclaiming the buffers of a frame *)

Lemma ownedDeletes_delete bufs h hs :
  h ∉ hs -> ownedDeletes (delete h bufs) hs = ownedDeletes bufs hs.
Proof.
  induction hs as [|k hs IH]; intros Hh; simpl; [reflexivity|].
  apply not_elem_of_cons in Hh. destruct Hh as [Hne Hh].
  rewrite lookup_delete_ne by congruence. rewrite (IH Hh). reflexivity.
Qed.

Lemma ownedDeletes_owned bufs hs h b :
  h ∈ hs -> bufs !! h = Some b -> ringBufferAlloc b = false ->
  glDeleteBuffers (buffer b) ∈ ownedDeletes bufs hs.
Proof.
  induction hs as [|k hs IH]; intros Hin Hb Hown; [inversion Hin|].
  simpl. apply elem_of_cons in Hin. destruct Hin as [<- | Hin].
  - rewrite Hb, Hown. left.
  - destruct (bufs !! k) as [b'|]; [destruct (ringBufferAlloc b')|]; try right; auto.
Qed.

Lemma ownedDeletes_only bufs hs c :
  c ∈ ownedDeletes bufs hs ->
  exists h b, h ∈ hs /\ bufs !! h = Some b /\ ringBufferAlloc b = false /\
              c = glDeleteBuffers (buffer b).
Proof.
  induction hs as [|k hs IH]; simpl; intros Hc; [inversion Hc|].
  destruct (bufs !! k) as [b|] eqn:Hk.
  - destruct (ringBufferAlloc b) eqn:Hring.
    + destruct (IH Hc) as (h & b' & Hh & Hb' & Hr & ->).
      exists h, b'. split_and!; auto. right. assumption.
    + apply elem_of_cons in Hc. destruct Hc as [-> | Hc].
      * exists k, b. split_and!; auto. left.
      * destruct (IH Hc) as (h & b' & Hh & Hb' & Hr & ->).
        exists h, b'. split_and!; auto. right. assumption.
  - destruct (IH Hc) as (h & b' & Hh & Hb' & Hr & ->).
    exists h, b'. split_and!; auto. right. assumption.
Qed.

(** The loop returns on a reclaimable list; it deletes the owned buffers
    through OpenGL, removes every handle of the list from the container
    and changes nothing else. *)
Lemma reclaim_run hs r :
  reclaimable r hs ->
  exists bufs,
    runGL (reclaim hs) r
      = (Ret tt, set_buffers (mkContainer bufs (lastHandle (buffers r)))
                   (set_glcalls (glcalls r ++ ownedDeletes (resources (buffers r)) hs) r)) /\
    (forall h, h ∈ hs -> bufs !! h = None) /\
    (forall h, h ∉ hs -> bufs !! h = resources (buffers r) !! h).
Proof.
  revert r. induction hs as [|h hs IH]; intros r [Hnd Hvalid].
  - exists (resources (buffers r)). simpl.
    split; [|split; [intros h Hh; inversion Hh | reflexivity]].
    rewrite app_nil_r. destruct r as [? ? ? ? ? ? ? [? ?] ? ? ? ? ? ? ? ? ? ? ? ? ? ? ? ? ?].
    reflexivity.
  - apply NoDup_cons in Hnd. destruct Hnd as [Hh Hnd].
    destruct (Hvalid h ltac:(left)) as (b & Hb & Hsize & Htype).
    set (r0 := if ringBufferAlloc b then r
               else set_glcalls (glcalls r ++ [glDeleteBuffers (buffer b)]) r).
    set (r1 := set_buffers (Container.remove h (buffers r)) r0).
    assert (Hstep : runGL (reclaim (h :: hs)) r = runGL (reclaim hs) r1).
    { cbn [reclaim]. rewrite (runGL_bind_Ret _ _ r b r (runGL_getResource buffers h r b Hb)).
      unfold r1, r0. destruct (ringBufferAlloc b); simpl.
      - rewrite (proj2 (Z.ltb_lt 0 (size b)) Hsize). simpl.
        rewrite bool_decide_eq_true_2 by assumption. simpl.
        unfold Container.remove, Container.set. simpl.
        rewrite !delete_insert_eq. reflexivity.
      - rewrite (proj2 (Z.ltb_lt 0 (size b)) Hsize). simpl.
        rewrite bool_decide_eq_true_2 by assumption. simpl.
        unfold Container.remove, Container.set. simpl.
        rewrite !delete_insert_eq. reflexivity. }
    assert (Hbufs1 : resources (buffers r1) = delete h (resources (buffers r))).
    { unfold r1, r0. destruct (ringBufferAlloc b); reflexivity. }
    assert (Hlast1 : lastHandle (buffers r1) = lastHandle (buffers r)).
    { unfold r1, r0. destruct (ringBufferAlloc b); reflexivity. }
    destruct (IH r1) as (bufs & Hrun & Hgone & Hkept).
    { split; [assumption|]. intros k Hk. rewrite Hbufs1.
      destruct (Hvalid k ltac:(right; assumption)) as (bk & Hbk & Hk2).
      exists bk. split; [|assumption].
      rewrite lookup_delete_ne; [assumption|]. intros ->. contradiction. }
    exists bufs. rewrite Hstep, Hrun. split; [|split].
    + rewrite Hlast1, Hbufs1, (ownedDeletes_delete _ _ _ Hh).
      simpl. rewrite Hb. unfold r1, r0.
      destruct (ringBufferAlloc b); simpl; [reflexivity|].
      rewrite <- app_assoc. reflexivity.
    + intros k Hk. apply elem_of_cons in Hk. destruct Hk as [-> | Hk].
      * rewrite (Hkept h Hh), Hbufs1. apply lookup_delete_eq.
      * apply Hgone. assumption.
    + intros k Hk. apply not_elem_of_cons in Hk. destruct Hk as [Hne Hk].
      rewrite (Hkept k Hk), Hbufs1. apply lookup_delete_ne. congruence.
Qed.

(** ** [waitForFrame] *)

(** The part of [waitForFrame] up to the [switch]. *)
Lemma waitForFrame_unfold r idx frame sync result :
  frames r !! idx = Some frame ->
  outstanding frame = true -> fence frame = Some sync ->
  runGL (waitForFrame idx result) r =
    let r1 := set_glcalls (glcalls r ++ [glClientWaitSync sync GL_SYNC_FLUSH_COMMANDS_BIT 0]) r in
    if signaled result then
      runGL (gl (glDeleteSync sync);;
             modify (fun r => set_frames
                       (<[idx := mkFrame None (ephemeralBuffers frame)
                                   (outstanding frame) (lastFrameNum frame)
                                   (usedRingBufPtr frame)]> (frames r)) r);;
             reclaim (ephemeralBuffers frame);;
             modify (fun r => set_frames
                       (<[idx := mkFrame None [] false (lastFrameNum frame)
                                   (usedRingBufPtr frame)]> (frames r)) r);;
             modify (fun r => set_lastSyncedFrame
                       (Z.max (lastSyncedFrame r) (lastFrameNum frame)) r);;
             modify (fun r => set_lastSyncedRingBufPtr
                       (Z.max (lastSyncedRingBufPtr r) (usedRingBufPtr frame)) r);;
             mret true) r1
    else if result =? GL_TIMEOUT_EXPIRED then (Ret false, r1)
    else (Thrown "glClientWaitSync failed", r1).
Proof.
  intros Hframe Hout Hfence. unfold waitForFrame.
  assert (Hlt : (idx < length (frames r))%nat) by (eapply lookup_lt_Some; eassumption).
  gl_run by reflexivity.
  gl_run by (apply runGL_assertGL_true, bool_decide_eq_true_2; assumption).
  unfold at_. rewrite Hframe.
  gl_run by reflexivity.
  gl_run by (apply runGL_assertGL_true; assumption).
  rewrite Hfence.
  gl_run by reflexivity.
  gl_run by reflexivity.
  cbv zeta. unfold signaled.
  destruct ((result =? GL_ALREADY_SIGNALED) || (result =? GL_CONDITION_SATISFIED)).
  - reflexivity.
  - destruct (result =? GL_TIMEOUT_EXPIRED); reflexivity.
Qed.

Lemma waitForFrame_signaled r idx frame sync result :
  frames r !! idx = Some frame ->
  outstanding frame = true -> fence frame = Some sync ->
  reclaimable r (ephemeralBuffers frame) ->
  signaled result = true ->
  exists r',
    runGL (waitForFrame idx result) r = (Ret true, r') /\
    frames r' = <[idx := mkFrame None [] false (lastFrameNum frame)
                           (usedRingBufPtr frame)]> (frames r) /\
    glcalls r' = glcalls r
                 ++ [glClientWaitSync sync GL_SYNC_FLUSH_COMMANDS_BIT 0; glDeleteSync sync]
                 ++ ownedDeletes (resources (buffers r)) (ephemeralBuffers frame) /\
    (forall h, h ∈ ephemeralBuffers frame -> resources (buffers r') !! h = None) /\
    (forall h, h ∉ ephemeralBuffers frame ->
               resources (buffers r') !! h = resources (buffers r) !! h) /\
    ringBuffer r' = ringBuffer r /\ ringBufSize r' = ringBufSize r /\
    ringBufPtr r' = ringBufPtr r.
Proof.
  intros Hframe Hout Hfence Hrec Hsig.
  rewrite (waitForFrame_unfold r idx frame sync result Hframe Hout Hfence).
  cbv zeta. rewrite Hsig.
  set (r2 := set_frames
               (<[idx := mkFrame None (ephemeralBuffers frame) (outstanding frame)
                           (lastFrameNum frame) (usedRingBufPtr frame)]> (frames r))
               (set_glcalls
                  ((glcalls r ++ [glClientWaitSync sync GL_SYNC_FLUSH_COMMANDS_BIT 0])
                   ++ [glDeleteSync sync]) r)).
  destruct (reclaim_run (ephemeralBuffers frame) r2 Hrec) as (bufs & Hrun & Hgone & Hkept).
  gl_run by reflexivity. gl_run by reflexivity.
  gl_run by (exact Hrun).
  gl_run by reflexivity. gl_run by reflexivity. gl_run by reflexivity.
  eexists. split; [reflexivity|]. cbn.
  split_and!; try reflexivity.
  - apply list_insert_insert_eq.
  - rewrite <- !app_assoc. reflexivity.
  - exact Hgone.
  - exact Hkept.
Qed.

Lemma submitted_frame :
  frames submitted.2 !! 0%nat = Some (mkFrame (Some 77) [1%N] true 0 0) /\
  reclaimable submitted.2 [1%N].
Proof.
  split; [reflexivity|]. split.
  - apply NoDup_singleton.
  - intros h Hh. apply list_elem_of_singleton in Hh. subst h.
    exists (mkBuffer 1 false 0 1024 BufferType.Everything).
    split; [vm_compute; reflexivity|]. split; [reflexivity | discriminate].
Qed.

(** C6, as stated, fails: when the wait reports GL_WAIT_FAILED the call
    does not return; it throws. *)
Lemma C6_counterexample : ~ waitHasTwoOutcomes.
Proof.
  intros Hclaim.
  destruct submitted_frame as (Hframe & Hrec).
  destruct (Hclaim submitted.2 0%nat _ 77 GL_WAIT_FAILED Hframe eq_refl eq_refl Hrec)
    as (b & r' & Hrun).
  vm_compute in Hrun. discriminate Hrun.
Qed.

(** C6, amended. On an outstanding frame whose buffers can be reclaimed
    [waitForFrame] has three outcomes, decided by what the wait reports.
    Signaled: it returns true; the fence is deleted, every buffer of the
    frame is removed from the container, exactly the owned ones are
    deleted through OpenGL, the list is emptied and the frame is no longer
    outstanding.  Timeout: it returns false.  Anything else: it throws.
    In the last two cases the frames and the buffers are as before. *)
Theorem C6_waitForFrame_outcomes r idx frame sync result :
  frames r !! idx = Some frame ->
  outstanding frame = true -> fence frame = Some sync ->
  reclaimable r (ephemeralBuffers frame) ->
  exists r',
    (signaled result = true /\
     runGL (waitForFrame idx result) r = (Ret true, r') /\
     frames r' !! idx = Some (mkFrame None [] false (lastFrameNum frame)
                                (usedRingBufPtr frame)) /\
     (forall h, h ∈ ephemeralBuffers frame -> resources (buffers r') !! h = None) /\
     (exists deletions,
        glcalls r' = glcalls r
                     ++ [glClientWaitSync sync GL_SYNC_FLUSH_COMMANDS_BIT 0;
                         glDeleteSync sync] ++ deletions /\
        (forall h b, h ∈ ephemeralBuffers frame ->
                     resources (buffers r) !! h = Some b ->
                     ringBufferAlloc b = false ->
                     glDeleteBuffers (buffer b) ∈ deletions) /\
        (forall c, c ∈ deletions ->
                   exists h b, h ∈ ephemeralBuffers frame /\
                               resources (buffers r) !! h = Some b /\
                               ringBufferAlloc b = false /\
                               c = glDeleteBuffers (buffer b))))
    \/
    (result = GL_TIMEOUT_EXPIRED /\
     runGL (waitForFrame idx result) r = (Ret false, r') /\
     frames r' = frames r /\ buffers r' = buffers r)
    \/
    (signaled result = false /\ result <> GL_TIMEOUT_EXPIRED /\
     runGL (waitForFrame idx result) r = (Thrown "glClientWaitSync failed", r') /\
     frames r' = frames r /\ buffers r' = buffers r).
Proof.
  intros Hframe Hout Hfence Hrec.
  destruct (signaled result) eqn:Hsig.
  - destruct (waitForFrame_signaled r idx frame sync result Hframe Hout Hfence Hrec Hsig)
      as (r' & Hrun & Hframes & Hcalls & Hgone & _).
    exists r'. left. split_and!; try assumption; try reflexivity.
    + rewrite Hframes. apply list_lookup_insert_eq.
      eapply lookup_lt_Some. eassumption.
    + exists (ownedDeletes (resources (buffers r)) (ephemeralBuffers frame)).
      split; [assumption|]. split.
      * intros h b. apply ownedDeletes_owned.
      * apply ownedDeletes_only.
  - rewrite (waitForFrame_unfold r idx frame sync result Hframe Hout Hfence).
    cbv zeta. rewrite Hsig.
    destruct (result =? GL_TIMEOUT_EXPIRED) eqn:Htime.
    + apply Z.eqb_eq in Htime. eexists. right. left.
      split_and!; try reflexivity. assumption.
    + apply Z.eqb_neq in Htime. eexists. right. right.
      split_and!; try reflexivity. assumption.
Qed.

(** The retired ring of the resized renderer is deleted when its frame
    is observed signaled. *)
Lemma C6_waitForFrame_witness :
  exists r',
    runGL (waitForFrame 0 GL_ALREADY_SIGNALED) submitted.2 = (Ret true, r') /\
    frames r' !! 0%nat = Some (mkFrame None [] false 0 0) /\
    resources (buffers r') !! 1%N = None.
Proof.
  destruct submitted_frame as (Hframe & Hrec).
  destruct (C6_waitForFrame_outcomes submitted.2 0%nat _ 77 GL_ALREADY_SIGNALED
              Hframe eq_refl eq_refl Hrec) as (r' & [Hok | [Hto | Hthrow]]).
  - destruct Hok as (_ & Hrun & Hf & Hgone & _).
    exists r'. split; [exact Hrun|]. split; [exact Hf|].
    apply Hgone. left.
  - destruct Hto as (Hto & _). discriminate Hto.
  - destruct Hthrow as (Hsig & _). discriminate Hsig.
Defined.

(** ** [recreateRingBuffer] *)

Lemma recreateRingBuffer_run r newSize created frame :
  ringBuffer r <> 0 -> 0 < ringBufSize r -> 0 < newSize -> created <> 0 ->
  frames r !! currentFrameIdx r = Some frame ->
  (persistentMapInUse r = false -> persistentMapping r = None) ->
  exists r',
    runGL (recreateRingBuffer newSize created) r = (Ret tt, r') /\
    resources (buffers r') =
      <[N.succ (lastHandle (buffers r)) :=
          mkBuffer (ringBuffer r) false 0 (ringBufSize r) BufferType.Everything]>
        (resources (buffers r)) /\
    lastHandle (buffers r') = N.succ (lastHandle (buffers r)) /\
    frames r' =
      <[currentFrameIdx r :=
          mkFrame (fence frame)
                  (ephemeralBuffers frame ++ [N.succ (lastHandle (buffers r))])
                  (outstanding frame) (lastFrameNum frame) (usedRingBufPtr frame)]>
        (frames r) /\
    currentFrameIdx r' = currentFrameIdx r /\
    ringBuffer r' = created /\ ringBufSize r' = newSize /\ ringBufPtr r' = 0 /\
    glcalls r' = glcalls r ++ resizeCalls r newSize created.
Proof.
  intros Hring Hsize Hnew Hcreated Hframe Hmap.
  unfold recreateRingBuffer.
  gl_run by (apply runGL_assertGL_true, Z.ltb_lt; assumption).
  gl_run by reflexivity.
  rewrite (proj2 (Z.eqb_neq (ringBuffer r) 0) Hring). cbn [negb].
  set (r1 := if persistentMapInUse r
             then set_persistentMapping None
                    (set_glcalls (glcalls r ++ [glUnmapNamedBuffer (ringBuffer r)]) r)
             else r).
  assert (Hr1 : ringBuffer r1 = ringBuffer r /\ ringBufSize r1 = ringBufSize r /\
                buffers r1 = buffers r /\ frames r1 = frames r /\
                currentFrameIdx r1 = currentFrameIdx r /\ tracing r1 = tracing r /\
                persistentMapping r1 = None /\
                glcalls r1 = glcalls r ++ (if persistentMapInUse r
                                           then [glUnmapNamedBuffer (ringBuffer r)] else [])).
  { unfold r1. destruct (persistentMapInUse r) eqn:Hp; simpl.
    - split_and!; reflexivity.
    - rewrite app_nil_r. split_and!; try reflexivity. apply Hmap. reflexivity. }
  destruct Hr1 as (Hrb1 & Hrs1 & Hbufs1 & Hfr1 & Hidx1 & Htr1 & Hpm1 & Hcalls1).
  set (h := N.succ (lastHandle (buffers r))).
  set (retired := mkBuffer (ringBuffer r) false 0 (ringBufSize r) BufferType.Everything).
  set (r2 := set_ringBufPtr 0 (set_ringBufSize 0 (set_ringBuffer 0
               (set_buffers (mkContainer (<[h := retired]> (resources (buffers r))) h)
                  (set_frames
                     (<[currentFrameIdx r :=
                          mkFrame (fence frame) (ephemeralBuffers frame ++ [h])
                                  (outstanding frame) (lastFrameNum frame)
                                  (usedRingBufPtr frame)]> (frames r)) r1))))).
  assert (Hblock :
    runGL (assertGL (negb (ringBufSize r =? 0));;
           (if persistentMapInUse r
            then gl (glUnmapNamedBuffer (ringBuffer r));;
                 modify (set_persistentMapping None)
            else mret tt);;
           r ← this;
           let '(h, bufs) := Container.add Buffer_new (buffers r) in
           modify (set_buffers bufs);;
           frame ← at_ (frames r) (currentFrameIdx r);
           modify (set_frames
                     (<[currentFrameIdx r :=
                          mkFrame (fence frame) (ephemeralBuffers frame ++ [h])
                                  (outstanding frame) (lastFrameNum frame)
                                  (usedRingBufPtr frame)]> (frames r)));;
           modify (fun r1 =>
                     set_buffers
                       (Container.set h {| buffer := ringBuffer r; ringBufferAlloc := false;
                                           offset := 0; size := ringBufSize r;
                                           type := BufferType.Everything |} (buffers r1)) r1);;
           modify (set_ringBuffer 0);;
           modify (set_ringBufSize 0);;
           modify (set_ringBufPtr 0)) r = (Ret tt, r2)).
  { gl_run by (apply runGL_assertGL_true, negb_true_iff, Z.eqb_neq; lia).
    assert (Hunmap : runGL (if persistentMapInUse r
                            then gl (glUnmapNamedBuffer (ringBuffer r));;
                                 modify (set_persistentMapping None)
                            else mret tt) r = (Ret tt, r1)).
    { unfold r1. destruct (persistentMapInUse r); reflexivity. }
    gl_run by (exact Hunmap).
    gl_run by reflexivity.
    unfold Container.add. cbv zeta.
    gl_run by reflexivity.
    unfold at_. rewrite Hfr1, Hidx1, Hframe.
    gl_run by reflexivity.
    gl_run by reflexivity.
    gl_run by reflexivity.
    gl_run by reflexivity.
    gl_run by reflexivity.
    unfold r2, Container.set. cbn. rewrite Hrb1, Hrs1, Hbufs1.
    rewrite insert_insert_eq. reflexivity. }
  gl_run by (exact Hblock).
  gl_run by reflexivity. gl_run by reflexivity. gl_run by reflexivity.
  gl_run by (apply runGL_assertGL_true, negb_true_iff, Z.eqb_neq; exact Hcreated).
  gl_run by reflexivity. gl_run by reflexivity.
  gl_run by (apply runGL_assertGL_true, bool_decide_eq_true_2; cbn; exact Hpm1).
  gl_run by reflexivity. gl_run by reflexivity. gl_run by reflexivity.
  cbn [persistentMapInUse set_ringBufSize set_persistentMapInUse tracing negb].
  cbn. rewrite Htr1, Hcalls1. unfold resizeCalls, ringFlags.
  destruct (tracing r); cbn.
  - eexists. split; [reflexivity|]. cbn.
    split_and!; try reflexivity; try assumption.
    rewrite <- !app_assoc. reflexivity.
  - eexists. split; [reflexivity|]. cbn.
    split_and!; try reflexivity; try assumption.
    rewrite <- !app_assoc. reflexivity.
Qed.

Lemma submitFrame_run r sync frame :
  frames r !! currentFrameIdx r = Some frame ->
  runGL (submitFrame sync) r
    = (Ret tt, set_frames
                 (<[currentFrameIdx r := mkFrame (Some sync) (ephemeralBuffers frame) true
                                           (frameNum r) (ringBufPtr r)]> (frames r)) r).
Proof.
  intros Hframe. unfold submitFrame.
  gl_run by reflexivity. unfold at_. rewrite Hframe.
  gl_run by reflexivity. reflexivity.
Qed.

Lemma resizeCalls_no_delete r newSize created c :
  c ∈ resizeCalls r newSize created -> forall name, c <> glDeleteBuffers name.
Proof.
  unfold resizeCalls. intros Hc name ->.
  destruct (persistentMapInUse r), (tracing r); simpl in Hc;
    repeat (apply elem_of_cons in Hc; destruct Hc as [Hc | Hc]; [discriminate Hc|]);
    inversion Hc.
Qed.

(** C7. A resize while a ring exists returns; the old ring becomes an
    owned buffer (not a ring allocation) under a fresh handle, appended to
    the list of the current frame; the cursor is 0 and a ring of the new
    size is created.  The resize itself deletes nothing and leaves every
    buffer that existed as it was; the old ring is deleted through OpenGL
    when the current frame, once submitted, is observed signaled. *)
Theorem C7_resize_retires_old_ring r newSize created frame sync :
  ringBuffer r <> 0 -> 0 < ringBufSize r -> 0 < newSize -> created <> 0 ->
  frames r !! currentFrameIdx r = Some frame ->
  (persistentMapInUse r = false -> persistentMapping r = None) ->
  Container.wf (buffers r) ->
  reclaimable r (ephemeralBuffers frame) ->
  exists r' h,
    runGL (recreateRingBuffer newSize created) r = (Ret tt, r') /\
    resources (buffers r) !! h = None /\
    resources (buffers r') !! h
      = Some (mkBuffer (ringBuffer r) false 0 (ringBufSize r) BufferType.Everything) /\
    ephemeralBuffers <$> frames r' !! currentFrameIdx r
      = Some (ephemeralBuffers frame ++ [h]) /\
    (ringBufPtr r' = 0 /\ ringBufSize r' = newSize /\ ringBuffer r' = created) /\
    glcalls r' = glcalls r ++ resizeCalls r newSize created /\
    (forall c, c ∈ resizeCalls r newSize created ->
               forall name, c <> glDeleteBuffers name) /\
    (forall k b, resources (buffers r) !! k = Some b ->
                 resources (buffers r') !! k = Some b) /\
    exists r2 r3 deletions,
      runGL (submitFrame sync) r' = (Ret tt, r2) /\
      runGL (waitForFrame (currentFrameIdx r) GL_ALREADY_SIGNALED) r2 = (Ret true, r3) /\
      glcalls r3 = glcalls r'
                   ++ [glClientWaitSync sync GL_SYNC_FLUSH_COMMANDS_BIT 0;
                       glDeleteSync sync] ++ deletions /\
      glDeleteBuffers (ringBuffer r) ∈ deletions /\
      resources (buffers r3) !! h = None.
Proof.
  intros Hring Hsize Hnew Hcreated Hframe Hmap Hwf [Hnd Hvalid].
  destruct (recreateRingBuffer_run r newSize created frame
              Hring Hsize Hnew Hcreated Hframe Hmap)
    as (r' & Hrun & Hbufs & Hlast & Hframes & Hidx & Hrb & Hrs & Hrp & Hcalls).
  set (h := N.succ (lastHandle (buffers r))) in *.
  set (retired := mkBuffer (ringBuffer r) false 0 (ringBufSize r) BufferType.Everything) in *.
  assert (Hfresh : resources (buffers r) !! h = None).
  { destruct (resources (buffers r) !! h) as [b|] eqn:Hb; [|reflexivity].
    destruct (Hwf h ltac:(eauto)) as [_ Hle]. unfold h in Hle. lia. }
  assert (Hlen : (currentFrameIdx r < length (frames r))%nat)
    by (eapply lookup_lt_Some; eassumption).
  assert (Hframe' : frames r' !! currentFrameIdx r' =
                    Some (mkFrame (fence frame) (ephemeralBuffers frame ++ [h])
                            (outstanding frame) (lastFrameNum frame)
                            (usedRingBufPtr frame))).
  { rewrite Hidx, Hframes. apply list_lookup_insert_eq. assumption. }
  exists r', h. split; [exact Hrun|]. split; [exact Hfresh|].
  split; [rewrite Hbufs; apply lookup_insert_eq|].
  split; [rewrite <- Hidx, Hframe'; reflexivity|].
  split; [auto|]. split; [exact Hcalls|].
  split; [apply resizeCalls_no_delete|].
  split.
  { intros k b Hk. rewrite Hbufs, lookup_insert_ne; [assumption|].
    intros <-. congruence. }
  pose proof (submitFrame_run r' sync _ Hframe') as Hsubmit.
  set (r2 := set_frames _ r') in Hsubmit.
  assert (Hf2 : frames r2 !! currentFrameIdx r =
                Some (mkFrame (Some sync) (ephemeralBuffers frame ++ [h]) true
                        (frameNum r') (ringBufPtr r'))).
  { unfold r2. cbn. rewrite Hidx. apply list_lookup_insert_eq.
    rewrite Hframes, length_insert. assumption. }
  assert (Hnotin : h ∉ ephemeralBuffers frame).
  { intros Hin. destruct (Hvalid h Hin) as (b & Hb & _). congruence. }
  assert (Hrec2 : reclaimable r2 (ephemeralBuffers frame ++ [h])).
  { split.
    - apply NoDup_app. split; [assumption|]. split; [|apply NoDup_singleton].
      intros k Hk Hk'. apply list_elem_of_singleton in Hk'. subst k. contradiction.
    - intros k Hk. unfold r2. cbn. rewrite Hbufs.
      apply elem_of_app in Hk. destruct Hk as [Hk | Hk].
      + destruct (Hvalid k Hk) as (b & Hb & Hb').
        exists b. split; [|assumption].
        rewrite lookup_insert_ne; [assumption|]. intros <-. contradiction.
      + apply list_elem_of_singleton in Hk. subst k.
        exists retired. rewrite lookup_insert_eq.
        split; [reflexivity|]. split; [assumption | discriminate]. }
  destruct (waitForFrame_signaled r2 (currentFrameIdx r) _ sync GL_ALREADY_SIGNALED
              Hf2 eq_refl eq_refl Hrec2 eq_refl)
    as (r3 & Hwait & _ & Hcalls3 & Hgone & _).
  exists r2, r3, (ownedDeletes (resources (buffers r2)) (ephemeralBuffers frame ++ [h])).
  split; [exact Hsubmit|]. split; [exact Hwait|].
  split; [exact Hcalls3|]. split.
  - apply (ownedDeletes_owned _ _ h retired).
    + apply elem_of_app. right. left.
    + unfold r2. cbn. rewrite Hbufs. apply lookup_insert_eq.
    + reflexivity.
  - apply Hgone. apply elem_of_app. right. left.
Qed.

Lemma C7_resize_witness :
  exists r' h r2 r3,
    runGL (recreateRingBuffer 2048 2) constructed.2 = (Ret tt, r') /\
    resources (buffers r') !! h
      = Some (mkBuffer 1 false 0 1024 BufferType.Everything) /\
    ringBufPtr r' = 0 /\ ringBufSize r' = 2048 /\
    runGL (submitFrame 77) r' = (Ret tt, r2) /\
    runGL (waitForFrame 0 GL_ALREADY_SIGNALED) r2 = (Ret true, r3) /\
    resources (buffers r3) !! h = None.
Proof.
  destruct (C7_resize_retires_old_ring constructed.2 2048 2
              (mkFrame None [] false 0 0) 77)
    as (r' & h & Hrun & _ & Hretired & _ & (Hp & Hs & _) & _ & _ & _
        & r2 & r3 & dels & Hsubmit & Hwait & _ & _ & Hgone).
  - vm_compute. discriminate.
  - vm_compute. reflexivity.
  - lia.
  - discriminate.
  - reflexivity.
  - intros H. vm_compute in H. discriminate H.
  - intros k [b Hb]. vm_compute in Hb. discriminate Hb.
  - split; [apply NoDup_nil_2 | intros k Hk; inversion Hk].
  - exists r', h, r2, r3. split_and!; assumption.
Defined.

(** ** Descriptor sets *)

Lemma always_assertGL (P : RendererImpl -> RendererImpl -> Prop) c :
  (forall r, P r r) -> always P (assertGL c).
Proof. intros Hrefl. apply always_pure. assumption. Qed.

Lemma always_modify (P : RendererImpl -> RendererImpl -> Prop) f :
  (forall r, P r (f r)) -> always P (modify f).
Proof. intros Hf r. apply Hf. Qed.

Lemma always_Ret_eq {A} (m : GL A) r a r' :
  always (fun r r' => r' = r) m -> runGL m r = (Ret a, r') -> r' = r.
Proof. intros Hm Hrun. specialize (Hm r). rewrite Hrun in Hm. exact Hm. Qed.

Ltac pure_call :=
  repeat first
    [ apply always_bind; [intros ? ? ? -> ->; reflexivity | | intros ?]
    | apply always_this; reflexivity
    | apply always_getResource; reflexivity
    | apply always_assertGL; reflexivity
    | apply always_mret; reflexivity
    | apply always_pure; reflexivity ].

Lemma checkBuffer_pure expected h : always (fun r r' => r' = r) (checkBuffer expected h).
Proof.
  unfold checkBuffer. pure_call.
  match goal with |- context [ringBufferAlloc ?b] => destruct (ringBufferAlloc b) end;
    pure_call.
Qed.

Lemma sameButBindings_refl r : sameButBindings r r.
Proof. unfold sameButBindings. destruct r. reflexivity. Qed.

Lemma sameButBindings_trans r1 r2 r3 :
  sameButBindings r1 r2 -> sameButBindings r2 r3 -> sameButBindings r1 r3.
Proof.
  unfold sameButBindings. intros H12 H23. rewrite H23 at 1. rewrite H12 at 1.
  destruct r1. reflexivity.
Qed.

Lemma onlySet_refl index r : onlySet index r r.
Proof. split; [apply sameButBindings_refl | reflexivity]. Qed.

Lemma onlySet_trans index r1 r2 r3 :
  onlySet index r1 r2 -> onlySet index r2 r3 -> onlySet index r1 r3.
Proof.
  intros [Hs12 Hk12] [Hs23 Hk23]. split.
  - eapply sameButBindings_trans; eassumption.
  - intros s b Hs. rewrite (Hk23 s b Hs). apply Hk12. assumption.
Qed.

Lemma onlySet_of_eq index r r' : r' = r -> onlySet index r r'.
Proof. intros ->. apply onlySet_refl. Qed.

Lemma onlySet_insert index j d r :
  onlySet index r (set_descriptors (<[(index, j) := d]> (descriptors r)) r).
Proof.
  split.
  - unfold sameButBindings. destruct r. reflexivity.
  - intros s b Hs. cbn. apply lookup_insert_ne. congruence.
Qed.

(** One binding, when it succeeds, stores the handle found in the blob. *)
Lemma bindDescriptor_Ret index j l data r r' :
  runGL (bindDescriptor index j l data) r = (Ret tt, r') ->
  exists d, data !! dl_offset l = Some d /\
            r' = set_descriptors (<[(index, j) := d]> (descriptors r)) r.
Proof.
  unfold bindDescriptor. intros H.
  destruct (dl_type l); [discriminate H | | | | |];
    destruct (data !! dl_offset l) as [[h | t s | h | h]|]; try discriminate H.
  - apply runGL_bind_inv in H. destruct H as (u & r1 & Hcheck & H).
    apply (always_Ret_eq _ _ _ _ (checkBuffer_pure _ _)) in Hcheck. subst r1.
    injection H as <-. eauto.
  - apply runGL_bind_inv in H. destruct H as (u & r1 & Hcheck & H).
    apply (always_Ret_eq _ _ _ _ (checkBuffer_pure _ _)) in Hcheck. subst r1.
    injection H as <-. eauto.
  - apply runGL_bind_inv in H. destruct H as (smp & r1 & Hget & H).
    apply runGL_getResource_inv in Hget. destruct Hget as [_ ->].
    apply runGL_bind_inv in H. destruct H as (u & r1 & Hassert & H).
    apply runGL_assertGL_inv in Hassert. destruct Hassert as [_ ->].
    injection H as <-. eauto.
  - injection H as <-. eauto.
  - apply runGL_bind_inv in H. destruct H as (x & r1 & Hget & H).
    apply runGL_getResource_inv in Hget. destruct Hget as [_ ->].
    apply runGL_bind_inv in H. destruct H as (u & r1 & Hassert & H).
    apply runGL_assertGL_inv in Hassert. destruct Hassert as [_ ->].
    apply runGL_bind_inv in H. destruct H as (smp & r1 & Hget & H).
    apply runGL_getResource_inv in Hget. destruct Hget as [_ ->].
    apply runGL_bind_inv in H. destruct H as (u' & r1 & Hassert & H).
    apply runGL_assertGL_inv in Hassert. destruct Hassert as [_ ->].
    injection H as <-. eauto.
Qed.

(** Whatever its outcome, one binding touches at most its own entry. *)
Lemma bindDescriptor_onlySet index j l data :
  always (onlySet index) (bindDescriptor index j l data).
Proof.
  assert (Hstep : forall A B (m : GL A) (f : A -> GL B),
            always (fun r r' => r' = r) m ->
            (forall a, always (onlySet index) (f a)) ->
            always (onlySet index) (m ≫= f)).
  { intros A B m f Hm Hf. apply always_bind; [apply onlySet_trans | | assumption].
    intros r. apply onlySet_of_eq. apply Hm. }
  assert (Hstore : forall d,
            always (onlySet index)
              (modify (fun r => set_descriptors (<[(index, j) := d]> (descriptors r)) r))).
  { intros d. apply always_modify. intros r. apply onlySet_insert. }
  assert (Hfail : forall A, always (onlySet index) (@unreachable A)).
  { intros A. apply always_pure. apply onlySet_refl. }
  unfold bindDescriptor.
  destruct (dl_type l); [apply Hfail | | | | |];
    destruct (data !! dl_offset l) as [[h | t s | h | h]|]; try apply Hfail.
  - apply Hstep; [apply checkBuffer_pure | intros _; apply Hstore].
  - apply Hstep; [apply checkBuffer_pure | intros _; apply Hstore].
  - apply Hstep; [pure_call | intros smp].
    apply Hstep; [pure_call | intros _; apply Hstore].
  - apply Hstore.
  - apply Hstep; [pure_call | intros x].
    apply Hstep; [pure_call | intros _].
    apply Hstep; [pure_call | intros smp].
    apply Hstep; [pure_call | intros _; apply Hstore].
Qed.

Lemma bindDescriptors_onlySet index j ls data :
  always (onlySet index) (bindDescriptors index j ls data).
Proof.
  revert j. induction ls as [|l ls IH]; intros j; simpl.
  - apply always_mret. apply onlySet_refl.
  - apply always_bind; [apply onlySet_trans | apply bindDescriptor_onlySet | intros _; apply IH].
Qed.

(** When the loop succeeds, binding [j + i] of the set holds what the
    blob holds at the offset of layout entry [i]; the bindings below [j]
    and the dirty flag are as before. *)
Lemma bindDescriptors_Ret index j ls data r r' :
  runGL (bindDescriptors index j ls data) r = (Ret tt, r') ->
  decriptorSetsDirty r' = decriptorSetsDirty r /\
  (forall b, (b < j)%nat -> descriptors r' !! (index, b) = descriptors r !! (index, b)) /\
  (forall i l, ls !! i = Some l ->
     is_Some (data !! dl_offset l) /\
     descriptors r' !! (index, (j + i)%nat) = data !! dl_offset l).
Proof.
  revert j r. induction ls as [|l ls IH]; intros j r H; simpl in H.
  - injection H as <-. split_and!; try reflexivity.
    intros i l Hl. rewrite lookup_nil in Hl. discriminate Hl.
  - destruct (runGL (bindDescriptor index j l data) r) as [[[]| | |] r1] eqn:Hone;
      try discriminate H.
    apply bindDescriptor_Ret in Hone. destruct Hone as (d & Hd & ->).
    destruct (IH _ _ H) as (Hdirty & Hbelow & Hwritten).
    split_and!.
    + rewrite Hdirty. reflexivity.
    + intros b Hb. rewrite (Hbelow b ltac:(lia)). cbn.
      apply lookup_insert_ne. intros [= ->]. lia.
    + intros [|i] l' Hl'; simpl in Hl'.
      * injection Hl' as <-. split; [eauto|].
        rewrite Nat.add_0_r, (Hbelow j ltac:(lia)). cbn.
        rewrite lookup_insert_eq. symmetry. assumption.
      * replace (j + S i)%nat with (S j + i)%nat by lia.
        apply Hwritten. assumption.
Qed.

Lemma bindDescriptorSet_onlySet index layoutHandle data :
  always (onlySet index) (bindDescriptorSet index layoutHandle data).
Proof.
  assert (Hstep : forall A B (m : GL A) (f : A -> GL B),
            always (fun r r' => r' = r) m ->
            (forall a, always (onlySet index) (f a)) ->
            always (onlySet index) (m ≫= f)).
  { intros A B m f Hm Hf. apply always_bind; [apply onlySet_trans | | assumption].
    intros r. apply onlySet_of_eq. apply Hm. }
  unfold bindDescriptorSet.
  apply Hstep; [pure_call | intros r].
  apply Hstep; [pure_call | intros _].
  apply Hstep; [pure_call | intros p].
  apply Hstep; [destruct (desc_descriptorSetLayouts p !! index); pure_call | intros set].
  apply Hstep; [pure_call | intros _].
  apply always_bind; [apply onlySet_trans | | intros _].
  { apply always_modify. intros r0. split.
    - unfold sameButBindings. destruct r0. reflexivity.
    - reflexivity. }
  apply Hstep; [pure_call | intros layout].
  apply bindDescriptors_onlySet.
Qed.

Lemma bindDescriptorSet_Ret index layoutHandle data r r' :
  runGL (bindDescriptorSet index layoutHandle data) r = (Ret tt, r') ->
  exists layout,
    resources (dsLayouts r) !! layoutHandle = Some layout /\
    decriptorSetsDirty r' = true /\
    forall i l, dsl_descriptors layout !! i = Some l ->
      is_Some (data !! dl_offset l) /\
      descriptors r' !! (index, i) = data !! dl_offset l.
Proof.
  unfold bindDescriptorSet. intros H.
  apply runGL_bind_inv in H. destruct H as (r0 & r1 & Hthis & H).
  injection Hthis as <- <-.
  apply runGL_bind_inv in H. destruct H as (u1 & r1 & Ha & H).
  apply runGL_assertGL_inv in Ha. destruct Ha as [_ ->].
  apply runGL_bind_inv in H. destruct H as (p & r1 & Hp & H).
  apply runGL_getResource_inv in Hp. destruct Hp as [_ ->].
  apply runGL_bind_inv in H. destruct H as (set & r1 & Hset & H).
  assert (r1 = r) as ->.
  { destruct (desc_descriptorSetLayouts p !! index);
      [injection Hset as _ <-; reflexivity | discriminate Hset]. }
  apply runGL_bind_inv in H. destruct H as (u2 & r1 & Ha & H).
  apply runGL_assertGL_inv in Ha. destruct Ha as [_ ->].
  apply runGL_bind_inv in H. destruct H as (u3 & r1 & Hdirty & H).
  injection Hdirty as _ <-.
  apply runGL_bind_inv in H. destruct H as (layout & r1 & Hl & H).
  apply runGL_getResource_inv in Hl. destruct Hl as [Hl ->].
  destruct (bindDescriptors_Ret _ _ _ _ _ _ H) as (Hd & _ & Hwritten).
  exists layout. split; [exact Hl|]. split; [exact Hd|].
  intros i l Hil. apply (Hwritten i l Hil).
Qed.

(** ** Flushing the bindings *)

Lemma rebindUbos_Ret i rs sizes r r' :
  runGL (rebindUbos i rs sizes) r = (Ret tt, r') ->
  exists cs, slotCalls (uboCall r GL_UNIFORM_BUFFER) i rs = Some cs /\
             r' = set_glcalls (glcalls r ++ cs) r.
Proof.
  revert i r. induction rs as [|k rs IH]; intros i r H; simpl in H.
  - injection H as <-. exists []. split; [reflexivity|].
    rewrite app_nil_r. destruct r. reflexivity.
  - destruct (descriptors r !! k) as [d|] eqn:Hd; [|discriminate H].
    destruct d as [h | | |]; try discriminate H. simpl in H.
    unfold Container.get in H.
    destruct (resources (buffers r) !! h) as [b|] eqn:Hb; [|discriminate H].
    destruct (sizes !! i) as [sz|]; [|discriminate H]. simpl in H.
    destruct (sz <=? size b); [|discriminate H]. simpl in H.
    apply IH in H. destruct H as (cs & Hcs & ->).
    exists (glBindBufferRange GL_UNIFORM_BUFFER i (buffer b) (offset b) (size b) :: cs).
    split.
    + simpl.
      change (slotCalls (uboCall r GL_UNIFORM_BUFFER) (S i) rs) with
        (slotCalls (uboCall
                      (set_glcalls
                         (glcalls r ++ [glBindBufferRange GL_UNIFORM_BUFFER i (buffer b)
                                          (offset b) (size b)]) r)
                      GL_UNIFORM_BUFFER) (S i) rs).
      rewrite Hcs. simpl.
      unfold uboCall. rewrite Hd. simpl. rewrite Hb. simpl. reflexivity.
    + cbn. rewrite <- app_assoc. reflexivity.
Qed.

Lemma rebindSsbos_Ret i rs r r' :
  runGL (rebindSsbos i rs) r = (Ret tt, r') ->
  exists cs, slotCalls (uboCall r GL_SHADER_STORAGE_BUFFER) i rs = Some cs /\
             r' = set_glcalls (glcalls r ++ cs) r.
Proof.
  revert i r. induction rs as [|k rs IH]; intros i r H; simpl in H.
  - injection H as <-. exists []. split; [reflexivity|].
    rewrite app_nil_r. destruct r. reflexivity.
  - destruct (descriptors r !! k) as [d|] eqn:Hd; [|discriminate H].
    destruct d as [h | | |]; try discriminate H. simpl in H.
    unfold Container.get in H.
    destruct (resources (buffers r) !! h) as [b|] eqn:Hb; [|discriminate H].
    simpl in H.
    apply IH in H. destruct H as (cs & Hcs & ->).
    exists (glBindBufferRange GL_SHADER_STORAGE_BUFFER i (buffer b) (offset b) (size b) :: cs).
    split.
    + simpl.
      change (slotCalls (uboCall r GL_SHADER_STORAGE_BUFFER) (S i) rs) with
        (slotCalls (uboCall
                      (set_glcalls
                         (glcalls r ++ [glBindBufferRange GL_SHADER_STORAGE_BUFFER i
                                          (buffer b) (offset b) (size b)]) r)
                      GL_SHADER_STORAGE_BUFFER) (S i) rs).
      rewrite Hcs. simpl.
      unfold uboCall. rewrite Hd. simpl. rewrite Hb. simpl. reflexivity.
    + cbn. rewrite <- app_assoc. reflexivity.
Qed.

Lemma rebindTextures_Ret i rs r r' :
  runGL (rebindTextures i rs) r = (Ret tt, r') ->
  exists cs, slotCalls (textureCall r) i rs = Some cs /\
             r' = set_glcalls (glcalls r ++ cs) r.
Proof.
  revert i r. induction rs as [|k rs IH]; intros i r H; simpl in H.
  - injection H as <-. exists []. split; [reflexivity|].
    rewrite app_nil_r. destruct r. reflexivity.
  - destruct (descriptors r !! k) as [d|] eqn:Hd; [|discriminate H].
    assert (Hcase : exists t, match d with
                              | DCombined t _ | DTexture t => Some t
                              | _ => None
                              end = Some t).
    { destruct d; try discriminate H; eauto. }
    destruct Hcase as (t & Ht).
    assert (Hrun : exists x, resources (textures r) !! t = Some x /\
                     runGL (rebindTextures (S i) rs)
                       (set_glcalls (glcalls r ++ [glBindTextureUnit i (tex x)]) r)
                     = (Ret tt, r')).
    { destruct d; try discriminate Ht; injection Ht as ->; simpl in H;
        unfold Container.get in H.
      - destruct (resources (textures r) !! t) as [x|]; [|discriminate H].
        exists x. split; [reflexivity | exact H].
      - destruct (resources (textures r) !! t) as [x|]; [|discriminate H].
        exists x. split; [reflexivity | exact H]. }
    destruct Hrun as (x & Hx & Hrest).
    apply IH in Hrest. destruct Hrest as (cs & Hcs & ->).
    exists (glBindTextureUnit i (tex x) :: cs). split.
    + simpl.
      change (slotCalls (textureCall r) (S i) rs) with
        (slotCalls (textureCall
                      (set_glcalls (glcalls r ++ [glBindTextureUnit i (tex x)]) r))
                   (S i) rs).
      rewrite Hcs. simpl.
      unfold textureCall. rewrite Hd. simpl. rewrite Ht. simpl. rewrite Hx. simpl. reflexivity.
    + cbn. rewrite <- app_assoc. reflexivity.
Qed.

Lemma rebindSamplers_Ret i rs r r' :
  runGL (rebindSamplers i rs) r = (Ret tt, r') ->
  exists cs, slotCalls (samplerCall r) i rs = Some cs /\
             r' = set_glcalls (glcalls r ++ cs) r.
Proof.
  revert i r. induction rs as [|k rs IH]; intros i r H; simpl in H.
  - injection H as <-. exists []. split; [reflexivity|].
    rewrite app_nil_r. destruct r. reflexivity.
  - destruct (descriptors r !! k) as [d|] eqn:Hd; [|discriminate H].
    assert (Hcase : exists s, match d with
                              | DCombined _ s | DSampler s => Some s
                              | _ => None
                              end = Some s).
    { destruct d; try discriminate H; eauto. }
    destruct Hcase as (s & Hs).
    assert (Hrun : exists x, resources (samplers r) !! s = Some x /\
                     runGL (rebindSamplers (S i) rs)
                       (set_glcalls (glcalls r ++ [glBindSampler i (sampler x)]) r)
                     = (Ret tt, r')).
    { destruct d; try discriminate Hs; injection Hs as ->; simpl in H;
        unfold Container.get in H.
      - destruct (resources (samplers r) !! s) as [x|]; [|discriminate H].
        exists x. split; [reflexivity | exact H].
      - destruct (resources (samplers r) !! s) as [x|]; [|discriminate H].
        exists x. split; [reflexivity | exact H]. }
    destruct Hrun as (x & Hx & Hrest).
    apply IH in Hrest. destruct Hrest as (cs & Hcs & ->).
    exists (glBindSampler i (sampler x) :: cs). split.
    + simpl.
      change (slotCalls (samplerCall r) (S i) rs) with
        (slotCalls (samplerCall
                      (set_glcalls (glcalls r ++ [glBindSampler i (sampler x)]) r))
                   (S i) rs).
      rewrite Hcs. simpl.
      unfold samplerCall. rewrite Hd. simpl. rewrite Hs. simpl. rewrite Hx. simpl. reflexivity.
    + cbn. rewrite <- app_assoc. reflexivity.
Qed.

Lemma rebindDescriptorSets_Ret r r' :
  runGL rebindDescriptorSets r = (Ret tt, r') ->
  exists p binds,
    resources (pipelines r) !! currentPipeline r = Some p /\
    flushCalls r p = Some binds /\
    r' = set_decriptorSetsDirty false (set_glcalls (glcalls r ++ binds) r).
Proof.
  unfold rebindDescriptorSets. intros H.
  apply runGL_bind_inv in H. destruct H as (r0 & r1 & Hthis & H).
  injection Hthis as <- <-.
  apply runGL_bind_inv in H. destruct H as (u1 & r1 & Ha & H).
  apply runGL_assertGL_inv in Ha. destruct Ha as [_ ->].
  apply runGL_bind_inv in H. destruct H as (p & r1 & Hp & H).
  apply runGL_getResource_inv in Hp. destruct Hp as [Hp ->].
  apply runGL_bind_inv in H. destruct H as ([] & r1 & Hu & H).
  apply rebindUbos_Ret in Hu. destruct Hu as (us & Hus & ->).
  apply runGL_bind_inv in H. destruct H as ([] & r2 & Hs & H).
  apply rebindSsbos_Ret in Hs. destruct Hs as (ss & Hss & ->).
  apply runGL_bind_inv in H. destruct H as ([] & r3 & Ht & H).
  apply rebindTextures_Ret in Ht. destruct Ht as (ts & Hts & ->).
  apply runGL_bind_inv in H. destruct H as ([] & r4 & Hm & H).
  apply rebindSamplers_Ret in Hm. destruct Hm as (sm & Hsm & ->).
  injection H as <-.
  exists p, (us ++ ss ++ ts ++ sm). split; [exact Hp|]. split.
  - unfold flushCalls. rewrite Hus. simpl.
    change (slotCalls (uboCall r GL_SHADER_STORAGE_BUFFER) 0 (ssbos (resources_ p)))
      with (slotCalls (uboCall (set_glcalls (glcalls r ++ us) r) GL_SHADER_STORAGE_BUFFER)
              0 (ssbos (resources_ p))).
    rewrite Hss. simpl.
    change (slotCalls (textureCall r) 0 (sr_textures (resources_ p)))
      with (slotCalls (textureCall
                         (set_glcalls
                            (glcalls (set_glcalls (glcalls r ++ us) r) ++ ss)
                            (set_glcalls (glcalls r ++ us) r)))
              0 (sr_textures (resources_ p))).
    rewrite Hts. simpl.
    change (slotCalls (samplerCall r) 0 (sr_samplers (resources_ p)))
      with (slotCalls (samplerCall
                         (set_glcalls
                            (glcalls (set_glcalls
                                        (glcalls (set_glcalls (glcalls r ++ us) r) ++ ss)
                                        (set_glcalls (glcalls r ++ us) r)) ++ ts)
                            (set_glcalls
                               (glcalls (set_glcalls (glcalls r ++ us) r) ++ ss)
                               (set_glcalls (glcalls r ++ us) r))))
              0 (sr_samplers (resources_ p))).
    rewrite Hsm. reflexivity.
  - cbn. rewrite <- !app_assoc. reflexivity.
Qed.

(** A draw with the flag set, when it returns, has made the calls of the
    flush and then the draw call, and has cleared the flag. *)
Lemma draw_dirty_Ret firstVertex vertexCount r r' :
  decriptorSetsDirty r = true ->
  runGL (draw firstVertex vertexCount) r = (Ret tt, r') ->
  exists p binds,
    resources (pipelines r) !! currentPipeline r = Some p /\
    flushCalls r p = Some binds /\
    r' = set_glcalls (glcalls r ++ binds ++ [glDrawArrays GL_TRIANGLES firstVertex vertexCount])
           (set_decriptorSetsDirty false (set_pipelineDrawn true r)).
Proof.
  intros Hdirty. unfold draw. intros H.
  apply runGL_bind_inv in H. destruct H as (r0 & r1 & Hthis & H).
  injection Hthis as <- <-.
  apply runGL_bind_inv in H. destruct H as (u1 & r1 & Ha & H).
  apply runGL_assertGL_inv in Ha. destruct Ha as [_ ->].
  apply runGL_bind_inv in H. destruct H as (u2 & r1 & Ha & H).
  apply runGL_assertGL_inv in Ha. destruct Ha as [_ ->].
  apply runGL_bind_inv in H. destruct H as (u3 & r1 & Ha & H).
  apply runGL_assertGL_inv in Ha. destruct Ha as [_ ->].
  apply runGL_bind_inv in H. destruct H as (p & r1 & Hp & H).
  apply runGL_getResource_inv in Hp. destruct Hp as [Hp ->].
  apply runGL_bind_inv in H. destruct H as (u4 & r1 & Ha & H).
  apply runGL_assertGL_inv in Ha. destruct Ha as [_ ->].
  apply runGL_bind_inv in H. destruct H as (u5 & r1 & Hm & H).
  injection Hm as _ <-.
  rewrite Hdirty in H.
  apply runGL_bind_inv in H. destruct H as ([] & r1 & Hflush & H).
  apply rebindDescriptorSets_Ret in Hflush.
  destruct Hflush as (p' & binds & Hp' & Hbinds & ->).
  cbn in Hp'. rewrite Hp in Hp'. injection Hp' as <-.
  apply runGL_bind_inv in H. destruct H as (r0 & r1 & Hthis & H).
  injection Hthis as <- <-.
  apply runGL_bind_inv in H. destruct H as (u6 & r1 & Ha & H).
  apply runGL_assertGL_inv in Ha. destruct Ha as [_ ->].
  injection H as <-.
  exists p, binds. split; [exact Hp|]. split; [exact Hbinds|].
  cbn. rewrite <- !app_assoc. reflexivity.
Qed.

(** A draw with the flag clear returns and makes the draw call only. *)
Lemma draw_clean_run firstVertex vertexCount r p :
  inRenderPass r = true -> validPipeline r = true -> 0 < vertexCount ->
  resources (pipelines r) !! currentPipeline r = Some p ->
  (desc_scissorTest p = false \/ scissorSet r = true) ->
  decriptorSetsDirty r = false ->
  runGL (draw firstVertex vertexCount) r
    = (Ret tt, set_glcalls (glcalls r ++ [glDrawArrays GL_TRIANGLES firstVertex vertexCount])
                 (set_pipelineDrawn true r)).
Proof.
  intros Hpass Hvalid Hcount Hp Hscissor Hclean. unfold draw.
  gl_run by reflexivity.
  gl_run by (apply runGL_assertGL_true; assumption).
  gl_run by (apply runGL_assertGL_true; assumption).
  gl_run by (apply runGL_assertGL_true, Z.ltb_lt; assumption).
  gl_run by (apply runGL_getResource; exact Hp).
  gl_run by (apply runGL_assertGL_true; destruct Hscissor as [-> | ->];
             [reflexivity | apply orb_true_r]).
  gl_run by reflexivity.
  rewrite Hclean.
  gl_run by reflexivity. gl_run by reflexivity.
  gl_run by (apply runGL_assertGL_true; cbn; rewrite Hclean; reflexivity).
  reflexivity.
Qed.

Lemma bound_run : runGL (bindDescriptorSet 0 1%N globalBlob) drawing = (Ret tt, bound.2).
Proof. vm_compute. reflexivity. Qed.

Lemma drawn_run : runGL (draw 0 3) bound.2 = (Ret tt, drawn.2).
Proof. vm_compute. reflexivity. Qed.

(** The pipeline of the example is the one [createPipeline] makes for its
    layout and the two shaders. *)
Lemma bound_created : pipelinesCreated bound.2.
Proof.
  intros h p Hp.
  change (resources (pipelines bound.2))
    with ({[ 1%N := mkPipeline [1%N] false
                      (mkShaderResources [(0, 0)%nat] [64] [] [] []) ]}
          : gmap N Pipeline) in Hp.
  apply lookup_singleton_Some in Hp. destruct Hp as [<- <-].
  exists plainVertex, plainFragment. vm_compute. reflexivity.
Qed.

(** C9, as stated, fails: after [bindDescriptorSet] the pending map of
    the example holds sampler 1 under (0, 1); the pipeline, made for the
    layout by [createPipeline], has the uniform buffer (0, 0) as its only
    resource, and the dirty draw binds buffer 1 (OpenGL name 11) and no
    sampler. *)
Lemma C9_counterexample : ~ drawFlushesWholeMap.
Proof.
  intros H.
  destruct (H bound.2 0 3 drawn.2 (0, 1)%nat (DSampler 1%N)) as (c & Hin & Hbinds).
  - exact bound_created.
  - reflexivity.
  - exact drawn_run.
  - vm_compute. reflexivity.
  - change (drop (length (glcalls bound.2)) (glcalls drawn.2))
      with [glBindBufferRange GL_UNIFORM_BUFFER 0 11 0 64; glDrawArrays GL_TRIANGLES 0 3]
      in Hin.
    apply elem_of_cons in Hin. destruct Hin as [-> | Hin].
    + exact Hbinds.
    + apply list_elem_of_singleton in Hin. subst c. exact Hbinds.
Qed.

(** C9, amended. [bindDescriptorSet], whatever its outcome, changes at most
    the pending descriptors of its own set and the dirty flag, so it makes
    no OpenGL call; when it returns, the flag is set and each binding of
    the layout holds, under (set index, binding index), the descriptor
    read from the blob.  A draw that finds the flag set and returns has
    made, in one batch before the draw call, the binding calls for the
    resources of the current pipeline (uniform buffers, storage buffers,
    textures, samplers), each looked up in the pending map, and has
    cleared the flag; the pending map itself is left as it was.  A draw
    that finds the flag clear makes the draw call only. *)
Theorem C9_bindings_flushed_per_pipeline :
  (forall index layoutHandle data r,
     let r' := (runGL (bindDescriptorSet index layoutHandle data) r).2 in
     onlySet index r r' /\ glcalls r' = glcalls r) /\
  (forall index layoutHandle data r r',
     runGL (bindDescriptorSet index layoutHandle data) r = (Ret tt, r') ->
     decriptorSetsDirty r' = true /\
     exists layout,
       resources (dsLayouts r) !! layoutHandle = Some layout /\
       forall i l, dsl_descriptors layout !! i = Some l ->
         is_Some (data !! dl_offset l) /\
         descriptors r' !! (index, i) = data !! dl_offset l) /\
  (forall firstVertex vertexCount r r',
     decriptorSetsDirty r = true ->
     runGL (draw firstVertex vertexCount) r = (Ret tt, r') ->
     exists p binds,
       resources (pipelines r) !! currentPipeline r = Some p /\
       flushCalls r p = Some binds /\
       glcalls r' = glcalls r ++ binds ++ [glDrawArrays GL_TRIANGLES firstVertex vertexCount] /\
       decriptorSetsDirty r' = false /\
       descriptors r' = descriptors r) /\
  (forall firstVertex vertexCount r p,
     inRenderPass r = true -> validPipeline r = true -> 0 < vertexCount ->
     resources (pipelines r) !! currentPipeline r = Some p ->
     (desc_scissorTest p = false \/ scissorSet r = true) ->
     decriptorSetsDirty r = false ->
     exists r',
       runGL (draw firstVertex vertexCount) r = (Ret tt, r') /\
       glcalls r' = glcalls r ++ [glDrawArrays GL_TRIANGLES firstVertex vertexCount] /\
       decriptorSetsDirty r' = false /\
       descriptors r' = descriptors r).
Proof.
  split_and!.
  - intros index layoutHandle data r r'.
    pose proof (bindDescriptorSet_onlySet index layoutHandle data r) as Honly.
    fold r' in Honly. split; [exact Honly|].
    destruct Honly as [Hsame _]. rewrite Hsame. reflexivity.
  - intros index layoutHandle data r r' Hrun.
    destruct (bindDescriptorSet_Ret _ _ _ _ _ Hrun) as (layout & Hlayout & Hdirty & Hall).
    split; [exact Hdirty|]. exists layout. split; assumption.
  - intros firstVertex vertexCount r r' Hdirty Hrun.
    destruct (draw_dirty_Ret _ _ _ _ Hdirty Hrun) as (p & binds & Hp & Hbinds & ->).
    exists p, binds. split_and!; try assumption; reflexivity.
  - intros firstVertex vertexCount r p Hpass Hvalid Hcount Hp Hscissor Hclean.
    eexists. split; [apply (draw_clean_run _ _ _ p); assumption|].
    split_and!; try reflexivity. exact Hclean.
Qed.

Lemma C9_bindings_witness :
  glcalls bound.2 = glcalls drawing /\
  descriptors bound.2 !! (0, 1)%nat = Some (DSampler 1%N) /\
  glcalls drawn.2
    = [glBindBufferRange GL_UNIFORM_BUFFER 0 11 0 64; glDrawArrays GL_TRIANGLES 0 3] /\
  exists r',
    runGL (draw 0 3) drawn.2 = (Ret tt, r') /\
    glcalls r' = glcalls drawn.2 ++ [glDrawArrays GL_TRIANGLES 0 3].
Proof.
  destruct C9_bindings_flushed_per_pipeline as (Hbind & Hbound & Hdirty & Hclean).
  split; [exact (proj2 (Hbind 0%nat 1%N globalBlob drawing))|].
  split.
  { destruct (Hbound 0%nat 1%N globalBlob drawing bound.2 bound_run)
      as (_ & layout & Hlayout & Hall).
    vm_compute in Hlayout. injection Hlayout as <-.
    destruct (Hall 1%nat (mkDescriptorLayout DescriptorType.Sampler 4) eq_refl)
      as [_ ->].
    reflexivity. }
  split.
  { destruct (Hdirty 0 3 bound.2 drawn.2 eq_refl drawn_run)
      as (p & binds & Hp & Hbinds & Hcalls & _).
    vm_compute in Hp. injection Hp as <-.
    vm_compute in Hbinds. injection Hbinds as <-.
    exact Hcalls. }
  destruct (Hclean 0 3 drawn.2
              (mkPipeline [1%N] false (mkShaderResources [(0, 0)%nat] [64] [] [] [])))
    as (r' & Hrun & Hcalls & _).
  - reflexivity.
  - reflexivity.
  - lia.
  - vm_compute. reflexivity.
  - left. reflexivity.
  - reflexivity.
  - exists r'. split; assumption.
Defined.

End OpenGLRendererFacts.
(** * utils/Utils.h, [RandomGen] and the clock: proofs *)

Section UtilsFacts.

Import Utils.

(** ** [isPow2] *)

Lemma land_pred_pow2 k : 0 <= k -> Z.land (2 ^ k) (2 ^ k - 1) = 0.
Proof.
  intros Hk. replace (2 ^ k - 1) with (Z.ones k) by (rewrite Z.ones_equiv; lia).
  rewrite Z.land_ones by assumption. apply Z.mod_same. lia.
Qed.

Lemma land_pred_not_pow2 v :
  0 < v -> v <> 2 ^ Z.log2 v -> Z.land v (v - 1) <> 0.
Proof.
  intros Hv Hne Hzero.
  pose proof (Z.log2_spec v Hv) as [Hlo Hhi].
  pose proof (Z.log2_nonneg v) as Hk.
  assert (Hlog : Z.log2 (v - 1) = Z.log2 v).
  { apply Z.log2_unique; [assumption|]. lia. }
  assert (Hbit : Z.testbit (Z.land v (v - 1)) (Z.log2 v) = true).
  { rewrite Z.land_spec, Z.bit_log2 by assumption.
    rewrite <- Hlog. rewrite Z.bit_log2 by lia. reflexivity. }
  rewrite Hzero, Z.bits_0 in Hbit. discriminate Hbit.
Qed.

(** ** [nextPow2] *)

Lemma smear_testbit n v i :
  0 <= n -> 0 <= i ->
  Z.testbit (smear n v) i = Z.testbit v i || Z.testbit v (i + n).
Proof.
  intros Hn Hi. unfold smear. rewrite Z.lor_spec, Z.shiftr_spec by assumption.
  reflexivity.
Qed.

(** After the bits of [x] were smeared over [m] places, smearing by
    [n <= m] more covers [m + n] places. *)
Lemma smear_window x v m n :
  0 <= n <= m ->
  (forall i, 0 <= i ->
     Z.testbit v i = true <-> exists j, 0 <= j < m /\ Z.testbit x (i + j) = true) ->
  forall i, 0 <= i ->
    Z.testbit (smear n v) i = true <->
    exists j, 0 <= j < m + n /\ Z.testbit x (i + j) = true.
Proof.
  intros Hnm Hv i Hi. rewrite smear_testbit by lia. rewrite orb_true_iff.
  rewrite !Hv by lia. split.
  - intros [(j & Hj & Hb) | (j & Hj & Hb)].
    + exists j. split; [lia | assumption].
    + exists (n + j). split; [lia|]. rewrite Z.add_assoc. assumption.
  - intros (j & Hj & Hb). destruct (Z.lt_ge_cases j m) as [Hlt | Hge].
    + left. exists j. split; [lia | assumption].
    + right. exists (j - n). split; [lia|].
      replace (i + n + (j - n)) with (i + j) by lia. assumption.
Qed.

Lemma smear_all x :
  0 < x < 2 ^ 32 ->
  smear 16 (smear 8 (smear 4 (smear 2 (smear 1 x)))) = Z.ones (Z.log2 x + 1).
Proof.
  intros Hx.
  pose proof (Z.log2_nonneg x) as Hk.
  assert (Hk32 : Z.log2 x < 32) by (apply Z.log2_lt_pow2; lia).
  assert (H1 : forall i, 0 <= i ->
             Z.testbit x i = true <-> exists j, 0 <= j < 1 /\ Z.testbit x (i + j) = true).
  { intros i Hi. split.
    - intros Hb. exists 0. rewrite Z.add_0_r. split; [lia | assumption].
    - intros (j & Hj & Hb). replace j with 0 in Hb by lia.
      rewrite Z.add_0_r in Hb. assumption. }
  pose proof (smear_window x _ 1 1 ltac:(lia) H1) as H2.
  pose proof (smear_window x _ 2 2 ltac:(lia) H2) as H4.
  pose proof (smear_window x _ 4 4 ltac:(lia) H4) as H8.
  pose proof (smear_window x _ 8 8 ltac:(lia) H8) as H16.
  pose proof (smear_window x _ 16 16 ltac:(lia) H16) as H32.
  apply Z.bits_inj'. intros i Hi. apply eq_true_iff_eq.
  rewrite (H32 i Hi). destruct (Z.lt_ge_cases i (Z.log2 x + 1)) as [Hlt | Hge].
  - rewrite Z.ones_spec_low by lia. split; [reflexivity | intros _].
    exists (Z.log2 x - i). split; [lia|].
    replace (i + (Z.log2 x - i)) with (Z.log2 x) by lia.
    apply Z.bit_log2. lia.
  - rewrite Z.ones_spec_high by lia. split; [|discriminate].
    intros (j & Hj & Hb). rewrite Z.bits_above_log2 in Hb by lia. discriminate Hb.
Qed.

Lemma nextPow2_pred x :
  0 < x < 2 ^ 32 -> nextPow2 (x + 1) = U32.wrap (2 ^ (Z.log2 x + 1)).
Proof.
  intros Hx. unfold nextPow2.
  replace (x + 1 - 1) with x by lia.
  rewrite (U32_wrap_small x) by (unfold U32.modulus; lia).
  rewrite smear_all by assumption.
  rewrite Z.ones_equiv. f_equal. lia.
Qed.

(** X1. On 32-bit values [isPow2] accepts exactly zero and the powers of
    two. *)
Theorem X1_isPow2_zero_or_power v :
  0 <= v < 2 ^ 32 ->
  isPow2 v = true <-> v = 0 \/ exists k, 0 <= k < 32 /\ v = 2 ^ k.
Proof.
  intros Hv. unfold isPow2. rewrite Z.eqb_eq.
  destruct (Z.eq_dec v 0) as [-> | Hnz].
  - split; [left; reflexivity | intros _; apply Z.land_0_l].
  - rewrite (U32_wrap_small (v - 1)) by (unfold U32.modulus; lia).
    pose proof (Z.log2_nonneg v) as Hk.
    split.
    + intros Hland. right. exists (Z.log2 v).
      destruct (Z.eq_dec v (2 ^ Z.log2 v)) as [Heq | Hne].
      * split; [|exact Heq]. split; [assumption|]. apply Z.log2_lt_pow2; lia.
      * exfalso. apply (land_pred_not_pow2 v); [lia | assumption | assumption].
    + intros [-> | (k & Hk' & ->)]; [congruence|].
      apply land_pred_pow2. lia.
Qed.

Lemma X1_isPow2_witness :
  isPow2 64 = true <-> 64 = 0 \/ exists k, 0 <= k < 32 /\ 64 = 2 ^ k.
Proof. apply (X1_isPow2_zero_or_power 64). lia. Defined.

(** X2. For [1 <= v <= 2^31], [nextPow2 v] is the least power of two that
    is at least [v] (so a power of two is returned as it is); for [v = 0]
    and for [v > 2^31] the result wraps to 0. *)
Theorem X2_nextPow2_least_power v :
  0 <= v < 2 ^ 32 ->
  (v = 0 \/ 2 ^ 31 < v -> nextPow2 v = 0) /\
  (1 <= v <= 2 ^ 31 ->
   exists k, 0 <= k <= 31 /\ nextPow2 v = 2 ^ k /\ v <= 2 ^ k /\
             forall j, 0 <= j -> v <= 2 ^ j -> 2 ^ k <= 2 ^ j).
Proof.
  intros Hv. split.
  - intros [-> | Hbig]; [vm_compute; reflexivity|].
    replace v with (v - 1 + 1) by lia.
    rewrite nextPow2_pred by lia.
    assert (Hlog : Z.log2 (v - 1) = 31).
    { apply Z.log2_unique; [lia|]. change (Z.succ 31) with 32. lia. }
    rewrite Hlog. vm_compute. reflexivity.
  - intros Hrange. destruct (Z.eq_dec v 1) as [-> | Hne].
    + exists 0. split; [lia|]. split; [vm_compute; reflexivity|]. split; [simpl; lia|].
      intros j Hj _. apply Z.pow_le_mono_r; lia.
    + pose proof (Z.log2_nonneg (v - 1)) as Hk.
      pose proof (Z.log2_spec (v - 1) ltac:(lia)) as [Hlo Hhi].
      assert (Hk31 : Z.log2 (v - 1) < 31) by (apply Z.log2_lt_pow2; lia).
      exists (Z.log2 (v - 1) + 1). split; [lia|].
      assert (Hpow : 2 ^ (Z.log2 (v - 1) + 1) <= 2 ^ 31)
        by (apply Z.pow_le_mono_r; lia).
      split.
      { replace v with (v - 1 + 1) at 1 by lia.
        rewrite nextPow2_pred by lia.
        apply U32_wrap_small. unfold U32.modulus. lia. }
      rewrite <- Z.add_1_r in Hhi.
      split; [lia|].
      intros j Hj Hle.
      apply Z.pow_le_mono_r; [lia|].
      destruct (Z.lt_ge_cases j (Z.log2 (v - 1) + 1)) as [Hlt | Hge]; [|assumption].
      exfalso.
      assert (2 ^ j <= 2 ^ Z.log2 (v - 1)) by (apply Z.pow_le_mono_r; lia).
      lia.
Qed.

Lemma X2_nextPow2_witness :
  nextPow2 0 = 0 /\
  exists k, 0 <= k <= 31 /\ nextPow2 5 = 2 ^ k /\ 5 <= 2 ^ k /\
            forall j, 0 <= j -> 5 <= 2 ^ j -> 2 ^ k <= 2 ^ j.
Proof.
  destruct (X2_nextPow2_least_power 0 ltac:(lia)) as [Hzero _].
  destruct (X2_nextPow2_least_power 5 ltac:(lia)) as [_ Hfive].
  split; [apply Hzero; left; reflexivity | apply Hfive; lia].
Defined.

(** ** [gcd] *)

Lemma gcd_N_gcd (a b : N) : gcd a b = N.gcd a b.
Proof.
  funelim (gcd a b).
  - subst. rewrite N.gcd_0_l. reflexivity.
  - match goal with IH : gcd _ _ = N.gcd _ _ |- _ => rewrite IH end.
    apply N.Lcm0.gcd_mod.
Qed.

(** X3. The loop of [gcd] computes the greatest common divisor; with a
    zero first argument it returns the second, with a zero second argument
    the first. *)
Theorem X3_gcd_is_greatest_common_divisor (a b : N) :
  gcd a b = N.gcd a b /\ gcd 0 b = b /\ gcd a 0 = a.
Proof.
  split; [apply gcd_N_gcd|]. split.
  - rewrite gcd_N_gcd. apply N.gcd_0_l.
  - rewrite gcd_N_gcd. apply N.gcd_0_r.
Qed.

(** ** The clock *)

Import Clock.

Lemma frequency_parts (freq : N) :
  let g := N.gcd 1000000000 freq in
  g <> 0%N /\ (1000000000 = 1000000000 / g * g)%N /\ (freq = freq / g * g)%N.
Proof.
  intros g.
  assert (Hg : g <> 0%N).
  { unfold g. intros H. apply N.gcd_eq_0_l in H. discriminate H. }
  split; [assumption|]. split.
  - destruct (N.gcd_divide_l 1000000000 freq) as [q Hq]. fold g in Hq.
    rewrite Hq at 2. rewrite N.div_mul by assumption. exact Hq.
  - destruct (N.gcd_divide_r 1000000000 freq) as [q Hq]. fold g in Hq.
    rewrite Hq at 2. rewrite N.div_mul by assumption. exact Hq.
Qed.

(** X4. The constructor reduces the fraction 10^9 / freq with [gcd]; it
    never divides by zero.  For a non-zero frequency the reduced terms are
    coprime and [getNanoseconds] returns exactly the elapsed ticks times
    10^9 / freq, rounded down, as long as ticks times the reduced
    multiplier fits 64 bits.  For a zero frequency the divisor stays zero
    and [getNanoseconds] divides by zero. *)
Theorem X4_clock_reduced_fraction (freq : N) :
  exists m d,
    frequency freq = Ret (m, d) /\
    (m * freq = 1000000000 * d)%N /\
    ((0 < freq)%N ->
       N.gcd m d = 1%N /\
       forall counter tickBase,
         0 <= tickBase <= counter -> counter < 2 ^ 64 ->
         (counter - tickBase) * Z.of_N m < 2 ^ 64 ->
         getNanoseconds counter tickBase m d
           = Ret ((counter - tickBase) * 1000000000 / Z.of_N freq)) /\
    (freq = 0%N ->
       forall counter tickBase, getNanoseconds counter tickBase m d = Undefined).
Proof.
  destruct (frequency_parts freq) as (Hg & Hm & Hd).
  set (g := N.gcd 1000000000 freq) in *.
  exists (1000000000 / g)%N, (freq / g)%N.
  split.
  { unfold frequency. rewrite gcd_N_gcd. fold g.
    destruct (N.eqb_spec g 0) as [Hz | _]; [contradiction | reflexivity]. }
  split.
  { rewrite Hd at 1. rewrite Hm at 2. lia. }
  split.
  - intros Hfreq. split.
    { apply N.gcd_div_gcd; [assumption | reflexivity]. }
    intros counter tickBase Hticks Hcounter Hfits.
    assert (Hdpos : (freq / g <> 0)%N).
    { intros Hz. rewrite Hz in Hd. lia. }
    unfold getNanoseconds.
    destruct (N.eqb_spec (freq / g) 0) as [Hz | _]; [contradiction|]. simpl.
    f_equal. unfold wrap64.
    rewrite (Z.mod_small (counter - tickBase)) by lia.
    rewrite Z.mod_small by (split; [apply Z.mul_nonneg_nonneg; lia | assumption]).
    rewrite <- (Z.div_mul_cancel_r _ (Z.of_N (freq / g)) (Z.of_N g)) by lia.
    rewrite <- Z.mul_assoc, <- !N2Z.inj_mul, <- Hm, <- Hd. reflexivity.
  - intros ->. intros counter tickBase. unfold getNanoseconds.
    rewrite N.Div0.div_0_l. reflexivity.
Qed.

Lemma X4_clock_witness :
  exists m d,
    frequency 3000000 = Ret (m, d) /\ N.gcd m d = 1%N /\
    getNanoseconds 7000 1000 m d = Ret 2000000.
Proof.
  destruct (X4_clock_reduced_fraction 3000000) as (m & d & Hrun & _ & Hpos & _).
  destruct (Hpos ltac:(reflexivity)) as [Hcoprime Hexact].
  exists m, d. split; [exact Hrun|]. split; [exact Hcoprime|].
  rewrite (Hexact 7000 1000).
  - reflexivity.
  - lia.
  - lia.
  - assert (Hm : frequency 3000000 = Ret (1000%N, 3%N)).
    { unfold frequency. rewrite gcd_N_gcd. reflexivity. }
    rewrite Hm in Hrun. injection Hrun as <- _. reflexivity.
Defined.

(** ** [RandomGen::range] *)

Import RandomGen.

Lemma draw_Some discard rng r rest :
  draw discard rng = Some (r, rest) ->
  exists skipped,
    rng = skipped ++ r :: rest /\ Forall (fun x => discard <= x) skipped /\ r < discard.
Proof.
  revert r rest. induction rng as [|x rng IH]; intros r rest H; simpl in H.
  - discriminate H.
  - destruct (Z.leb_spec discard x) as [Hle | Hlt].
    + destruct (IH _ _ H) as (skipped & -> & Hall & Hr).
      exists (x :: skipped). split; [reflexivity|]. split; [|assumption].
      constructor; assumption.
    + injection H as <- <-. exists []. split; [reflexivity|]. split; [constructor | assumption].
Qed.

Lemma draw_accepts discard rng :
  Exists (fun x => x < discard) rng -> is_Some (draw discard rng).
Proof.
  induction 1 as [x rng Hx | x rng _ IH]; simpl.
  - destruct (Z.leb_spec discard x); [lia | eauto].
  - destruct (Z.leb_spec discard x); [assumption | eauto].
Qed.

(** The constants of a call with [min < max]. *)
Lemma range_constants min max :
  0 <= min -> min < max -> max < 2 ^ 32 ->
  let n := max - min in
  let size := UINT32_MAX / n in
  U32.wrap (max - min) = n /\ 1 <= size /\
  U32.wrap (size * n) = size * n /\ size * n <= UINT32_MAX.
Proof.
  intros Hmin Hlt Hmax n size.
  assert (Hn : 0 < n < 2 ^ 32) by (unfold n; lia).
  assert (Hsize : 1 <= size).
  { unfold size. apply Z.div_le_lower_bound; unfold UINT32_MAX; lia. }
  assert (Hprod : size * n <= UINT32_MAX).
  { unfold size. rewrite Z.mul_comm. apply Z.mul_div_le. lia. }
  split; [apply U32_wrap_small; unfold U32.modulus; lia|].
  split; [assumption|]. split; [|assumption].
  apply U32_wrap_small. unfold U32.modulus, UINT32_MAX in *. nia.
Qed.

(** X5. With [min < max], [range] returns a value in [[min, max)]: it
    skips the draws that are not below [discard], takes the first one that
    is, and returns as soon as such a draw comes.  With [min = max] it
    divides by zero. *)
Theorem X5_range_within_bounds min max rng :
  0 <= min -> min < max -> max < 2 ^ 32 ->
  Forall (fun x => 0 <= x < 2 ^ 32) rng ->
  (forall v rest,
     range min max rng = Some (Ret (v, rest)) ->
     min <= v < max /\
     exists skipped r,
       rng = skipped ++ r :: rest /\
       Forall (fun x => ~ accepted min max x) skipped /\ accepted min max r /\
       v = min + r / (UINT32_MAX / (max - min))) /\
  (Exists (accepted min max) rng -> exists v rest, range min max rng = Some (Ret (v, rest))) /\
  range min min rng = Some Undefined.
Proof.
  intros Hmin Hlt Hmax Hrng.
  destruct (range_constants min max Hmin Hlt Hmax) as (Hn & Hsize & Hwrap & Hprod).
  set (n := max - min) in *. set (size := UINT32_MAX / n) in *.
  assert (Hnpos : 0 < n) by (unfold n; lia).
  assert (Hrun : range min max rng =
                 match draw (size * n) rng with
                 | None => None
                 | Some (r, rest) => Some (Ret (U32.wrap (min + r / size), rest))
                 end).
  { unfold range. fold n. rewrite Hn.
    destruct (Z.eqb_spec n 0) as [Hz | _]; [lia|].
    fold size. rewrite Hwrap. reflexivity. }
  assert (Hacc : forall x, accepted min max x <-> 0 <= x < size * n).
  { intros x. unfold accepted. fold n. rewrite Hn. fold size. rewrite Hwrap. reflexivity. }
  split_and!.
  - intros v rest H. rewrite Hrun in H.
    destruct (draw (size * n) rng) as [[r rest']|] eqn:Hdraw; [|discriminate H].
    injection H as <- <-.
    destruct (draw_Some _ _ _ _ Hdraw) as (skipped & -> & Hskipped & Hr).
    apply Forall_app in Hrng. destruct Hrng as [_ Hrng].
    apply Forall_cons in Hrng. destruct Hrng as [Hr32 _].
    assert (Hq : 0 <= r / size < n).
    { split; [apply Z.div_pos; lia|].
      apply Z.div_lt_upper_bound; [lia | assumption]. }
    rewrite U32_wrap_small by (unfold U32.modulus, n in *; lia).
    split; [unfold n in Hq; lia|].
    exists skipped, r. split; [reflexivity|]. split.
    + eapply Forall_impl; [exact Hskipped|].
      intros x Hx Hax. cbv beta in Hx. apply Hacc in Hax. lia.
    + split; [apply Hacc; lia | reflexivity].
  - intros Hex. rewrite Hrun.
    destruct (draw_accepts (size * n) rng) as [[r rest] ->].
    + eapply Exists_impl; [exact Hex|]. intros x Hx. apply Hacc in Hx. lia.
    + eauto.
  - unfold range. rewrite Z.sub_diag. reflexivity.
Qed.

Lemma X5_range_witness :
  exists v rest,
    range 10 16 [4294967295; 1431655764; 5] = Some (Ret (v, rest)) /\ 10 <= v < 16.
Proof.
  destruct (X5_range_within_bounds 10 16 [4294967295; 1431655764; 5])
    as (Hbounds & Hreturns & _).
  - lia.
  - lia.
  - lia.
  - repeat constructor; lia.
  - destruct Hreturns as (v & rest & Hrun).
    + apply Exists_cons_tl, Exists_cons_hd. vm_compute. split; [discriminate | reflexivity].
    + exists v, rest. split; [exact Hrun|]. apply (Hbounds v rest Hrun).
Defined.

(** X6. [range] is unbiased: an accepted draw [r] gives [min + k] exactly
    when [size * k <= r < size * (k + 1)], so each of the [max - min]
    results has the same number, [size = UINT32_MAX / (max - min)], of
    draws that lead to it. *)
Theorem X6_range_unbiased min max k r :
  0 <= min -> min < max -> max < 2 ^ 32 ->
  0 <= k < max - min -> 0 <= r < 2 ^ 32 ->
  let size := UINT32_MAX / (max - min) in
  range min max [r] = Some (Ret (min + k, [])) <-> size * k <= r < size * (k + 1).
Proof.
  intros Hmin Hlt Hmax Hk Hr size.
  destruct (range_constants min max Hmin Hlt Hmax) as (Hn & Hsize & Hwrap & Hprod).
  fold size in Hsize, Hwrap, Hprod.
  unfold range. rewrite Hn.
  destruct (Z.eqb_spec (max - min) 0) as [Hz | _]; [lia|].
  fold size. rewrite Hwrap. simpl.
  destruct (Z.leb_spec (size * (max - min)) r) as [Hdiscard | Haccept].
  - split; [discriminate | nia].
  - assert (Hq : 0 <= r / size < max - min).
    { split; [apply Z.div_pos; lia|].
      apply Z.div_lt_upper_bound; [lia | assumption]. }
    rewrite U32_wrap_small by (unfold U32.modulus; lia).
    split.
    + intros H. injection H as H. assert (Hk' : r / size = k) by lia.
      rewrite <- Hk'.
      pose proof (Z.mul_div_le r size ltac:(lia)).
      pose proof (Z.mul_succ_div_gt r size ltac:(lia)). lia.
    + intros Hbucket.
      assert (r / size = k) as ->
        by (symmetry; apply (Z.div_unique r size k (r - size * k)); lia).
      reflexivity.
Qed.

Lemma X6_range_unbiased_witness :
  range 10 16 [1431655764] = Some (Ret (12, [])) <->
  715827882 * 2 <= 1431655764 < 715827882 * (2 + 1).
Proof.
  apply (X6_range_unbiased 10 16 2 1431655764); lia.
Defined.

End UtilsFacts.
(** * demo/NullRenderer.cpp: further proofs *)

Section NullFrameFacts.

Import NullRenderer.

(** ** Bounds of an allocation *)

Lemma createEphemeralBuffer_wf sz contents r h r' :
  wf r -> 0 <= sz < 2 ^ 32 ->
  createEphemeralBuffer sz contents r = Ret (h, r') ->
  exists off src,
    contents = Some src /\
    resources (buffers r') !! h = Some (mkBuffer true off sz) /\
    ringBuffer r' = memcpy (ringBuffer r) off src sz /\
    0 < sz /\ 0 <= off /\ off + sz < ringBufSize r /\
    sz <= Z.of_nat (length src) /\
    ringBufSize r' = ringBufSize r /\ wf r'.
Proof.
  intros Hwf Hsz H.
  pose proof (createEphemeralBuffer_cases _ _ _ _ _ Hwf Hsz H) as Hcases.
  cbv zeta in Hcases. destruct Hcases as (HS & Ha & Hcases).
  apply createEphemeralBuffer_Ret in H.
  destruct H as (src & aligned & begin & -> & Hnz & _ & _ & _ & Hmem & Hsrc & Hh & Hr').
  destruct Hwf as [Hs Hp Hr].
  pose proof (Z.mod_pos_bound (alignUp (ringBufPtr r)) (ringBufSize r) HS) as Hb.
  assert (Hlookup : resources (buffers r') !! h = Some (mkBuffer true begin sz)).
  { rewrite Hr'. simpl. apply lookup_insert_eq. }
  assert (Hoff : 0 <= begin /\ begin + sz < ringBufSize r).
  { destruct Hcases as [(Hfit & Hl & _) | (_ & Hl & _ & _ & Hfit & _)];
      rewrite Hlookup in Hl; injection Hl as ->; lia. }
  destruct Hoff as (Hoff0 & Hoff1).
  exists begin, src. split; [reflexivity|]. split; [exact Hlookup|].
  rewrite Hr'. simpl.
  split; [reflexivity|]. split; [lia|]. split; [assumption|]. split; [assumption|].
  split; [assumption|]. split; [reflexivity|].
  constructor; simpl; [assumption | apply U32_wrap_range |].
  rewrite memcpy_length; lia.
Qed.

(** X7. A buffer that [createEphemeralBuffer] returns lies inside the ring
    and ends before its last byte: [0 <= offset] and
    [offset + size < ringBufSize].  A request of size 0 or with a null
    pointer fails an assertion, and a request of the size of the ring or
    more never returns. *)
Theorem X7_ephemeral_buffer_inside_ring r sz :
  wf r -> 0 <= sz < 2 ^ 32 ->
  (forall contents h r',
     createEphemeralBuffer sz contents r = Ret (h, r') ->
     exists off,
       resources (buffers r') !! h = Some (mkBuffer true off sz) /\
       0 < sz /\ 0 <= off /\ off + sz < ringBufSize r /\ wf r') /\
  (forall contents, sz = 0 \/ contents = None ->
     createEphemeralBuffer sz contents r = AssertionFailed) /\
  (ringBufSize r <= sz ->
     forall contents h r', createEphemeralBuffer sz contents r <> Ret (h, r')).
Proof.
  intros Hwf Hsz. split_and!.
  - intros contents h r' H.
    destruct (createEphemeralBuffer_wf _ _ _ _ _ Hwf Hsz H)
      as (off & src & _ & Hb & _ & Hpos & Hoff & Hend & _ & _ & Hwf').
    exists off. split_and!; assumption.
  - intros contents [-> | ->].
    + reflexivity.
    + unfold createEphemeralBuffer. destruct (negb (sz =? 0)); reflexivity.
  - intros Hbig contents h r' H.
    destruct (createEphemeralBuffer_wf _ _ _ _ _ Hwf Hsz H)
      as (off & src & _ & _ & _ & _ & Hoff & Hend & _).
    lia.
Qed.

Lemma X7_ephemeral_buffer_witness :
  exists off,
    resources (buffers ring1024_two) !! 2%N = Some (mkBuffer true off 600) /\
    0 <= off /\ off + 600 < 1024.
Proof.
  destruct (X7_ephemeral_buffer_inside_ring ring1024_one 600 ring1024_one_wf ltac:(lia))
    as (Hinside & _ & _).
  destruct (Hinside (Some (replicate 600 0)) 2%N ring1024_two (proj2 (proj2 ring1024_run)))
    as (off & Hb & _ & Hoff & Hend & _).
  exists off. split_and!; assumption.
Defined.

(** ** The bytes written *)

Lemma memcpy_lookup_inside dst begin src n i :
  0 <= begin -> begin + n <= Z.of_nat (length dst) -> n <= Z.of_nat (length src) ->
  0 <= i < n ->
  memcpy dst begin src n !! Z.to_nat (begin + i) = src !! Z.to_nat i.
Proof.
  intros Hb Hdst Hsrc Hi. unfold memcpy.
  rewrite lookup_app_r by (rewrite length_take; lia).
  rewrite length_take_le by lia.
  replace (Z.to_nat (begin + i) - Z.to_nat begin)%nat with (Z.to_nat i) by lia.
  rewrite lookup_app_l by (rewrite length_take; lia).
  apply lookup_take_lt. lia.
Qed.

Lemma memcpy_lookup_outside dst begin src n (j : nat) :
  0 <= begin -> 0 <= n ->
  begin + n <= Z.of_nat (length dst) -> n <= Z.of_nat (length src) ->
  Z.of_nat j < begin \/ begin + n <= Z.of_nat j ->
  memcpy dst begin src n !! j = dst !! j.
Proof.
  intros Hb Hn Hdst Hsrc Hj. unfold memcpy. destruct Hj as [Hlow | Hhigh].
  - rewrite lookup_app_l by (rewrite length_take; lia).
    apply lookup_take_lt. lia.
  - rewrite lookup_app_r by (rewrite length_take; lia).
    rewrite lookup_app_r by (rewrite !length_take; lia).
    rewrite lookup_drop. f_equal. rewrite !length_take_le by lia. lia.
Qed.

(** X8. After [createEphemeralBuffer] has returned, the ring holds the
    bytes of [contents] at the offset of the buffer, every byte outside
    [[offset, offset + size)] is as before, and the ring has kept its
    length. *)
Theorem X8_ephemeral_contents_round_trip r sz src h r' :
  wf r -> 0 <= sz < 2 ^ 32 ->
  createEphemeralBuffer sz (Some src) r = Ret (h, r') ->
  exists off,
    offsetOf h r' = Some off /\ sizeOf h r' = Some sz /\
    (forall i, 0 <= i < sz ->
       is_Some (src !! Z.to_nat i) /\
       ringBuffer r' !! Z.to_nat (off + i) = src !! Z.to_nat i) /\
    (forall j : nat, Z.of_nat j < off \/ off + sz <= Z.of_nat j ->
       ringBuffer r' !! j = ringBuffer r !! j) /\
    length (ringBuffer r') = length (ringBuffer r).
Proof.
  intros Hwf Hsz H.
  destruct (createEphemeralBuffer_wf _ _ _ _ _ Hwf Hsz H)
    as (off & src' & Hsrc & Hb & Hring & Hpos & Hoff & Hend & Hlen & HS & Hwf').
  injection Hsrc as <-.
  pose proof (wf_ring r Hwf) as Hr.
  exists off. unfold offsetOf, sizeOf. rewrite Hb. split; [reflexivity|].
  split; [reflexivity|]. rewrite Hring. split_and!.
  - intros i Hi. split.
    + apply lookup_lt_is_Some. lia.
    + apply memcpy_lookup_inside; lia.
  - intros j Hj. apply memcpy_lookup_outside; lia.
  - apply memcpy_length; lia.
Qed.

Lemma X8_ephemeral_contents_witness :
  exists off,
    offsetOf 2%N ring1000_two = Some off /\
    ringBuffer ring1000_two !! Z.to_nat (off + 3) = Some 9 /\
    ringBuffer ring1000_two !! 500%nat = Some 7.
Proof.
  destruct (X8_ephemeral_contents_round_trip ring1000_one 10 (replicate 10 9) 2%N ring1000_two)
    as (off & Hoff & _ & Hinside & Houtside & _).
  - constructor; vm_compute; try reflexivity; split; congruence.
  - lia.
  - exact (proj2 (proj2 ring1000_run)).
  - exists off. split; [exact Hoff|]. split.
    + destruct (Hinside 3 ltac:(lia)) as [_ ->]. reflexivity.
    + rewrite (Houtside 500%nat).
      * reflexivity.
      * right. vm_compute in Hoff. injection Hoff as <-. lia.
Defined.

(** ** The buffers of a frame *)

Import NullFrame.

Lemma consistent_new n : consistent (RendererImpl_new n).
Proof.
  assert (Hres : resources (buffers (RendererImpl_new n)) = ∅) by reflexivity.
  constructor.
  - intros h [b Hb]. rewrite Hres, lookup_empty in Hb. discriminate Hb.
  - constructor.
  - intros h. rewrite Hres, lookup_empty. split.
    + intros [b Hb]. discriminate Hb.
    + intros Hin. inversion Hin.
  - intros h b Hb. rewrite Hres, lookup_empty in Hb. discriminate Hb.
Qed.

Lemma consistent_beginFrame r r' :
  consistent r -> NullRenderer.beginFrame r = Ret r' -> consistent r'.
Proof.
  intros [Hc Hn Hl Hr] H. unfold NullRenderer.beginFrame in H.
  inv_ret H as u Hu. injection H as <-. constructor; assumption.
Qed.

Lemma consistent_alloc r sz contents h r' :
  consistent r -> 0 <= sz ->
  NullRenderer.createEphemeralBuffer sz contents r = Ret (h, r') -> consistent r'.
Proof.
  intros [Hc Hn Hl Hr] Hsz H.
  apply createEphemeralBuffer_Ret in H.
  destruct H as (src & aligned & begin & _ & Hnz & _ & _ & _ & _ & _ & -> & ->).
  set (h := N.succ (lastHandle (buffers r))).
  assert (Hfresh : resources (buffers r) !! h = None).
  { destruct (resources (buffers r) !! h) as [b|] eqn:Hb; [|reflexivity].
    destruct (Hc h ltac:(eauto)) as [_ Hle]. unfold h in Hle. lia. }
  constructor; simpl.
  - intros k Hk. simpl in *.
    apply lookup_insert_is_Some in Hk. destruct Hk as [<- | [_ Hk]].
    + unfold h. lia.
    + specialize (Hc k Hk). unfold h. lia.
  - apply NoDup_app. split; [assumption|]. split; [|apply NoDup_singleton].
    intros k Hk Hkh. apply list_elem_of_singleton in Hkh. subst k.
    apply Hl in Hk. rewrite Hfresh in Hk. destruct Hk as [b Hb]. discriminate Hb.
  - intros k. rewrite lookup_insert_is_Some, elem_of_app, list_elem_of_singleton.
    rewrite <- Hl. split.
    + intros [<- | [_ Hk]]; [right; reflexivity | left; assumption].
    + intros [Hk | ->]; [|left; reflexivity].
      destruct (decide (h = k)) as [<- | Hne]; [left; reflexivity | right; split; assumption].
  - intros k b Hb. destruct (decide (h = k)) as [<- | Hne].
    + rewrite lookup_insert_eq in Hb. injection Hb as <-. simpl. split; [reflexivity | lia].
    + rewrite lookup_insert_ne in Hb by assumption. eapply Hr; eassumption.
Qed.

(** The loop of [presentFrame] on handles that are listed once and are
    ring allocations of a positive size. *)
Lemma removeEphemeral_run hs bufs :
  NoDup hs ->
  (forall h, h ∈ hs ->
     exists b, resources bufs !! h = Some b /\ ringBufferAlloc b = true /\ 0 < size b) ->
  exists bufs',
    removeEphemeral hs bufs = Ret bufs' /\
    lastHandle bufs' = lastHandle bufs /\
    forall k, resources bufs' !! k = if decide (k ∈ hs) then None else resources bufs !! k.
Proof.
  revert bufs. induction hs as [|h hs IH]; intros bufs Hnd Hall; simpl.
  - exists bufs. split; [reflexivity|]. split; [reflexivity|].
    intros k. destruct (decide (k ∈ [])) as [Hin | _]; [inversion Hin | reflexivity].
  - apply NoDup_cons in Hnd. destruct Hnd as [Hnotin Hnd].
    destruct (Hall h ltac:(left)) as (b & Hb & Hring & Hsize).
    unfold Container.get. rewrite Hb. simpl. rewrite Hring. simpl.
    rewrite (proj2 (Z.ltb_lt 0 (size b)) Hsize). simpl.
    destruct (IH (Container.remove h bufs) Hnd) as (bufs' & Hrun & Hlast & Hres).
    { intros k Hk. destruct (Hall k ltac:(right; assumption)) as (bk & Hbk & Hk').
      exists bk. split; [|assumption]. simpl.
      rewrite lookup_delete_ne; [assumption|]. intros ->. contradiction. }
    exists bufs'. split; [exact Hrun|]. split; [rewrite Hlast; reflexivity|].
    intros k. rewrite Hres. simpl.
    destruct (decide (k ∈ hs)) as [Hin | Hnin].
    + rewrite decide_True by (right; assumption). reflexivity.
    + destruct (decide (k = h)) as [-> | Hne].
      * rewrite decide_True by left. apply lookup_delete_eq.
      * rewrite decide_False.
        -- apply lookup_delete_ne. congruence.
        -- intros Hin. apply elem_of_cons in Hin. destruct Hin; contradiction.
Qed.

Lemma consistent_presentFrame r :
  consistent r -> inFrame r = true ->
  exists r',
    NullRenderer.presentFrame r = Ret r' /\
    resources (buffers r') = ∅ /\ ephemeralBuffers r' = [] /\ inFrame r' = false /\
    ringBufPtr r' = ringBufPtr r /\ ringBuffer r' = ringBuffer r /\
    consistent r'.
Proof.
  intros [Hc Hn Hl Hr] Hin.
  destruct (removeEphemeral_run (ephemeralBuffers r) (buffers r) Hn)
    as (bufs' & Hrun & Hlast & Hres).
  { intros h Hh. apply Hl in Hh. destruct Hh as [b Hb].
    exists b. split; [assumption|]. eapply Hr; eassumption. }
  assert (Hempty : resources bufs' = ∅).
  { apply map_empty. intros k. rewrite Hres.
    destruct (decide (k ∈ ephemeralBuffers r)) as [_ | Hnin]; [reflexivity|].
    destruct (resources (buffers r) !! k) as [b|] eqn:Hb; [|reflexivity].
    exfalso. apply Hnin, Hl. eauto. }
  unfold NullRenderer.presentFrame. rewrite Hin. simpl. rewrite Hrun. simpl.
  eexists. split; [reflexivity|]. simpl.
  split; [assumption|]. do 4 (split; [reflexivity|]).
  constructor; simpl.
  - intros h [b Hb]. rewrite Hempty, lookup_empty in Hb. discriminate Hb.
  - constructor.
  - intros h. rewrite Hempty, lookup_empty. split.
    + intros [b Hb]. discriminate Hb.
    + intros Hh. inversion Hh.
  - intros h b Hb. rewrite Hempty, lookup_empty in Hb. discriminate Hb.
Qed.

Lemma reachable_consistent r : reachable r -> consistent r.
Proof.
  induction 1 as [n Hn | r r' _ IH Hb | r sz contents h r' _ IH Hsz Ha | r r' _ IH Hp].
  - apply consistent_new.
  - eapply consistent_beginFrame; eassumption.
  - apply (consistent_alloc r sz contents h r' IH ltac:(lia) Ha).
  - assert (Hin : inFrame r = true).
    { unfold NullRenderer.presentFrame in Hp. inv_ret Hp as u Hu. exact Hu. }
    destruct (consistent_presentFrame r IH Hin) as (r2 & Hrun & _ & _ & _ & _ & _ & Hc).
    rewrite Hrun in Hp. injection Hp as <-. exact Hc.
Qed.

(** X9. In every state that the renderer reaches through [beginFrame],
    [createEphemeralBuffer] and [presentFrame], a [presentFrame] inside a
    frame returns: none of its assertions about the ephemeral buffers
    fails.  It removes every buffer, empties the list and ends the frame;
    it does not rewind the cursor of the ring and does not touch its
    bytes.  Outside a frame it fails its first assertion. *)
Theorem X9_presentFrame_releases_every_buffer r :
  reachable r ->
  (inFrame r = true ->
   exists r',
     NullRenderer.presentFrame r = Ret r' /\
     resources (buffers r') = ∅ /\ ephemeralBuffers r' = [] /\ inFrame r' = false /\
     ringBufPtr r' = ringBufPtr r /\ ringBuffer r' = ringBuffer r) /\
  (inFrame r = false -> NullRenderer.presentFrame r = AssertionFailed).
Proof.
  intros Hreach. split.
  - intros Hin.
    destruct (consistent_presentFrame r (reachable_consistent r Hreach) Hin)
      as (r' & Hrun & Hempty & Hlist & Hframe & Hptr & Hring & _).
    exists r'. split_and!; assumption.
  - intros Hout. unfold NullRenderer.presentFrame. rewrite Hout. reflexivity.
Qed.

Lemma X9_presentFrame_witness :
  exists r',
    NullRenderer.presentFrame ring1024_two = Ret r' /\
    resources (buffers r') = ∅ /\ ringBufPtr r' = 1624.
Proof.
  destruct (X9_presentFrame_releases_every_buffer ring1024_two ring1024_two_reachable)
    as [Hin _].
  destruct (Hin eq_refl) as (r' & Hrun & Hempty & _ & _ & Hptr & _).
  exists r'. split_and!; assumption.
Defined.

(** ** Pipelines, passes and draws *)

Lemma calls_app cs1 cs2 s s' :
  calls (cs1 ++ cs2) s = Ret s' ->
  exists s1, calls cs1 s = Ret s1 /\ calls cs2 s1 = Ret s'.
Proof.
  revert s. induction cs1 as [|c cs1 IH]; intros s H; simpl in *.
  - eauto.
  - inv_ret H as s1 Hs1. destruct (IH _ H) as (s2 & H1 & H2).
    exists s2. rewrite Hs1. simpl. split; assumption.
Qed.

(** What a call that returns does to the flags [validPipeline] and
    [pipelineDrawn]. *)
Lemma call_flags c s s' :
  call c s = Ret s' ->
  match c with
  | BindPipeline _ =>
      pipelineDrawn (impl s) = true /\
      validPipeline (impl s') = true /\ pipelineDrawn (impl s') = false
  | BeginFrame =>
      validPipeline (impl s') = false /\ pipelineDrawn (impl s') = true
  | BeginRenderPass =>
      validPipeline (impl s') = false /\ pipelineDrawn (impl s') = pipelineDrawn (impl s)
  | Draw _ | DrawIndexedInstanced _ _ | DrawIndexedOffset _ =>
      validPipeline (impl s) = true /\
      validPipeline (impl s') = true /\ pipelineDrawn (impl s') = true
  | _ =>
      validPipeline (impl s') = validPipeline (impl s) /\
      pipelineDrawn (impl s') = pipelineDrawn (impl s)
  end.
Proof.
  destruct c; simpl; intros H.
  - injection H as <-. split; reflexivity.
  - inv_ret H as hs Hhs. injection H as <-.
    unfold NullFrame.createEphemeralBuffer in Hhs.
    inv_ret Hhs as hr Hhr. destruct hr as [h r]. injection Hhs as <-.
    apply createEphemeralBuffer_Ret in Hhr.
    destruct Hhr as (src & aligned & begin & _ & _ & _ & _ & _ & _ & _ & _ & ->).
    split; reflexivity.
  - unfold NullFrame.beginFrame in H. inv_ret H as r Hr. injection H as <-.
    unfold NullRenderer.beginFrame in Hr. inv_ret Hr as u Hu. injection Hr as <-.
    split; reflexivity.
  - unfold NullFrame.presentFrame in H. inv_ret H as r Hr. injection H as <-.
    unfold NullRenderer.presentFrame in Hr. inv_ret Hr as u Hu. inv_ret Hr as bufs Hbufs.
    injection Hr as <-. split; reflexivity.
  - unfold beginRenderPass in H. inv_ret H as u1 H1. inv_ret H as u2 H2.
    injection H as <-. split; reflexivity.
  - unfold endRenderPass in H. inv_ret H as u1 H1. inv_ret H as u2 H2.
    injection H as <-. split; reflexivity.
  - unfold bindPipeline in H. inv_ret H as u1 H1. inv_ret H as u2 H2.
    inv_ret H as u3 H3. inv_ret H as u4 H4. inv_ret H as p Hp. injection H as <-.
    split_and!; [assumption | reflexivity | reflexivity].
  - unfold bindIndexBuffer in H. inv_ret H as u1 H1. inv_ret H as u2 H2.
    injection H as <-. split; reflexivity.
  - unfold bindVertexBuffer in H. inv_ret H as u1 H1. inv_ret H as u2 H2.
    injection H as <-. split; reflexivity.
  - unfold bindDescriptorSet in H. inv_ret H as u1 H1.
    injection H as <-. split; reflexivity.
  - unfold setViewport in H. inv_ret H as u1 H1.
    injection H as <-. split; reflexivity.
  - unfold setScissorRect in H. inv_ret H as u1 H1. inv_ret H as u2 H2.
    injection H as <-. split; reflexivity.
  - unfold draw in H. inv_ret H as u1 H1. inv_ret H as u2 H2.
    inv_ret H as u3 H3. inv_ret H as u4 H4. injection H as <-.
    split_and!; [assumption | simpl; assumption | reflexivity].
  - unfold drawIndexedInstanced in H. inv_ret H as u1 H1. inv_ret H as u2 H2.
    inv_ret H as u3 H3. inv_ret H as u4 H4. inv_ret H as u5 H5. injection H as <-.
    split_and!; [assumption | simpl; assumption | reflexivity].
  - unfold drawIndexedOffset in H. inv_ret H as u1 H1. inv_ret H as u2 H2.
    inv_ret H as u3 H3. inv_ret H as u4 H4. injection H as <-.
    split_and!; [assumption | simpl; assumption | reflexivity].
Qed.

Lemma undrawn_until_draw cs s s' :
  pipelineDrawn (impl s) = false ->
  calls cs s = Ret s' ->
  pipelineDrawn (impl s') = false \/
  Exists (fun c => isDraw c = true \/ isBeginFrame c = true) cs.
Proof.
  revert s. induction cs as [|c cs IH]; intros s Hundrawn H; simpl in H.
  - injection H as <-. left. assumption.
  - inv_ret H as s1 Hs1. pose proof (call_flags _ _ _ Hs1) as Hflags.
    assert (Hcase : (isDraw c = true \/ isBeginFrame c = true) \/
                    pipelineDrawn (impl s1) = false).
    { destruct c; simpl in *;
        try (left; left; reflexivity); try (left; right; reflexivity);
        right; destruct Hflags as [Hf1 Hf2]; congruence. }
    destruct Hcase as [Hc | Hstill].
    + right. apply Exists_cons_hd. assumption.
    + destruct (IH _ Hstill H) as [Hend | Hex]; [left; assumption|].
      right. apply Exists_cons_tl. assumption.
Qed.

(** X10. A pipeline that was bound must be drawn with before another one
    is bound: in a sequence of calls that all return, between two
    [bindPipeline] calls there is a draw call or a [beginFrame]. *)
Theorem X10_draw_between_two_binds s p cs q s' :
  calls (BindPipeline p :: cs ++ [BindPipeline q]) s = Ret s' ->
  Exists (fun c => isDraw c = true \/ isBeginFrame c = true) cs.
Proof.
  intros H. simpl in H. inv_ret H as s1 Hs1.
  pose proof (call_flags (BindPipeline p) _ _ Hs1) as (_ & _ & Hundrawn).
  apply calls_app in H. destruct H as (s2 & Hcs & Hlast).
  simpl in Hlast. inv_ret Hlast as s3 Hs3.
  pose proof (call_flags (BindPipeline q) _ _ Hs3) as (Hdrawn & _).
  destruct (undrawn_until_draw _ _ _ Hundrawn Hcs) as [Hstill | Hex]; [congruence | exact Hex].
Qed.

Lemma X10_draw_between_witness :
  Exists (fun c => isDraw c = true \/ isBeginFrame c = true) [SetViewport; Draw 3].
Proof.
  apply (X10_draw_between_two_binds (inPass false false) 1%N [SetViewport; Draw 3] 1%N
           (inPass false true)).
  vm_compute. reflexivity.
Defined.

Lemma valid_since_bind cs s s' :
  calls cs s = Ret s' ->
  validPipeline (impl s') = true ->
  (validPipeline (impl s) = true /\
   Forall (fun c => isBeginRenderPass c = false /\ isBeginFrame c = false) cs) \/
  exists pre p post,
    cs = pre ++ BindPipeline p :: post /\
    Forall (fun c => isBeginRenderPass c = false /\ isBeginFrame c = false) post.
Proof.
  revert s. induction cs as [|c cs IH]; intros s H Hvalid; simpl in H.
  - injection H as <-. left. split; [assumption | constructor].
  - inv_ret H as s1 Hs1. pose proof (call_flags _ _ _ Hs1) as Hflags.
    destruct (IH _ H Hvalid) as [[Hvalid1 Hcs] | (pre & p & post & -> & Hpost)].
    + destruct c; simpl in Hflags;
        try (left; split;
             [destruct Hflags as [Hf1 Hf2]; congruence
             | constructor; [split; reflexivity | assumption]]).
      * destruct Hflags as [Hf1 _]. congruence.
      * destruct Hflags as [Hf1 _]. congruence.
      * right. exists [], pipeline, cs. split; [reflexivity | assumption].
    + right. exists (c :: pre), p, post. split; [reflexivity | assumption].
Qed.

(** X11. A draw uses a pipeline that was bound in the same render pass of
    the same frame: in a sequence of calls that all return, started with
    no valid pipeline, every draw call comes after a [bindPipeline] with
    no [beginRenderPass] and no [beginFrame] between the two. *)
Theorem X11_draw_follows_bind_in_pass s cs c s' :
  validPipeline (impl s) = false -> isDraw c = true ->
  calls (cs ++ [c]) s = Ret s' ->
  exists pre p post,
    cs = pre ++ BindPipeline p :: post /\
    Forall (fun c => isBeginRenderPass c = false /\ isBeginFrame c = false) post.
Proof.
  intros Hinvalid Hdraw H.
  apply calls_app in H. destruct H as (s1 & Hcs & Hlast).
  simpl in Hlast. inv_ret Hlast as s2 Hs2.
  pose proof (call_flags _ _ _ Hs2) as Hflags.
  assert (Hvalid : validPipeline (impl s1) = true).
  { destruct c; try discriminate Hdraw; apply Hflags. }
  destruct (valid_since_bind _ _ _ Hcs Hvalid) as [[Hcontra _] | Hfound].
  - congruence.
  - exact Hfound.
Qed.

Lemma X11_draw_follows_bind_witness :
  exists pre p post,
    [BindPipeline 1%N; SetViewport] = pre ++ BindPipeline p :: post /\
    Forall (fun c => isBeginRenderPass c = false /\ isBeginFrame c = false) post.
Proof.
  apply (X11_draw_follows_bind_in_pass (inPass false false)
           [BindPipeline 1%N; SetViewport] (Draw 3)
           (with_impl (set_pipelineDrawn true) (inPass false true))).
  - reflexivity.
  - reflexivity.
  - vm_compute. reflexivity.
Defined.

(** X12. [bindPipeline] forgets the scissor rectangle.  After it, with a
    pipeline that has the scissor test, a draw fails its assertion until
    [setScissorRect] has been called; with a pipeline that has no scissor
    test the draw returns at once and [setScissorRect] fails its
    assertion. *)
Theorem X12_scissor_rect_before_draw s p s1 n :
  bindPipeline p s = Ret s1 -> 0 < n ->
  Container.get p (pipelines s) = Ret (currentPipeline s1) /\
  (scissorTest_ (currentPipeline s1) = true ->
     draw n s1 = AssertionFailed /\
     exists s2 s3, setScissorRect s1 = Ret s2 /\ draw n s2 = Ret s3) /\
  (scissorTest_ (currentPipeline s1) = false ->
     setScissorRect s1 = AssertionFailed /\ exists s3, draw n s1 = Ret s3).
Proof.
  intros H Hn. unfold bindPipeline in H.
  inv_ret H as u1 H1. inv_ret H as u2 H2. inv_ret H as u3 H3. inv_ret H as u4 H4.
  inv_ret H as d Hd. injection H as <-. simpl.
  apply Z.ltb_lt in Hn.
  split; [exact Hd|]. split.
  - intros Hscissor. unfold draw, setScissorRect. cbn -[Z.ltb].
    rewrite H3, Hn, Hscissor. cbn -[Z.ltb]. split; [reflexivity|].
    eexists _, _. split; [reflexivity|]. cbn -[Z.ltb].
    rewrite H3, orb_true_r. reflexivity.
  - intros Hscissor. unfold draw, setScissorRect. cbn -[Z.ltb].
    rewrite H3, Hn, Hscissor. cbn -[Z.ltb]. split; [reflexivity|].
    eexists. reflexivity.
Qed.

Lemma X12_scissor_rect_witness :
  draw 3 (inPass true true) = AssertionFailed /\
  exists s2 s3, setScissorRect (inPass true true) = Ret s2 /\ draw 3 s2 = Ret s3.
Proof.
  destruct (X12_scissor_rect_before_draw (inPass true false) 1%N (inPass true true) 3)
    as (_ & Hscissor & _).
  - vm_compute. reflexivity.
  - lia.
  - apply Hscissor. reflexivity.
Defined.

End NullFrameFacts.
(** * renderer/OpenGLRenderer.cpp: further proofs *)

Section OpenGLBuffersFacts.

Import OpenGLRenderer OpenGLBuffers.

(** One step of a run whose first call returns. *)
Tactic Notation "gl_run" "by" tactic(tac) :=
  erewrite runGL_bind_Ret by tac; cbv beta.

(** ** [waitForFrame], whatever the buffers *)

Lemma reclaim_frames hs : always (fun r r' => frames r' = frames r) (reclaim hs).
Proof.
  induction hs as [|h hs IH]; simpl.
  - apply always_mret. reflexivity.
  - apply always_bind; [intros ? ? ? H1 H2; congruence | | intros b].
    { apply always_getResource. reflexivity. }
    apply always_bind; [intros ? ? ? H1 H2; congruence | | intros b1].
    { destruct (ringBufferAlloc b).
      - apply always_mret. reflexivity.
      - apply always_bind; [intros ? ? ? H1 H2; congruence | | intros ?].
        + apply always_modify. reflexivity.
        + apply always_mret. reflexivity. }
    repeat (apply always_bind;
            [intros ? ? ? H1 H2; congruence
            | first [apply always_modify; reflexivity | apply always_assertGL; reflexivity]
            | intros ?]).
    exact IH.
Qed.

Lemma waitForFrame_Ret r idx result b r' :
  runGL (waitForFrame idx result) r = (Ret b, r') ->
  exists frame sync,
    frames r !! idx = Some frame /\ outstanding frame = true /\ fence frame = Some sync /\
    ((b = true /\ signaled result = true /\
      frames r' = <[idx := mkFrame None [] false (lastFrameNum frame)
                             (usedRingBufPtr frame)]> (frames r))
     \/
     (b = false /\ result = GL_TIMEOUT_EXPIRED /\
      r' = set_glcalls
             (glcalls r ++ [glClientWaitSync sync GL_SYNC_FLUSH_COMMANDS_BIT 0]) r)).
Proof.
  intros H. pose proof H as H0. unfold waitForFrame in H0.
  apply runGL_bind_inv in H0. destruct H0 as (r0 & r1 & Hthis & H0).
  injection Hthis as <- <-.
  apply runGL_bind_inv in H0. destruct H0 as (u1 & r1 & Ha & H0).
  apply runGL_assertGL_inv in Ha. destruct Ha as [_ ->].
  apply runGL_bind_inv in H0. destruct H0 as (frame & r1 & Hat & H0).
  unfold at_ in Hat. destruct (frames r !! idx) as [frame'|] eqn:Hframe; [|discriminate Hat].
  injection Hat as <- <-.
  apply runGL_bind_inv in H0. destruct H0 as (u2 & r1 & Ha & H0).
  apply runGL_assertGL_inv in Ha. destruct Ha as [Hout ->].
  apply runGL_bind_inv in H0. destruct H0 as (sync & r1 & Hsync & _).
  destruct (fence frame') as [sync'|] eqn:Hfence; [|discriminate Hsync].
  injection Hsync as <- <-.
  exists frame', sync'. split; [reflexivity|]. split; [exact Hout|]. split; [exact Hfence|].
  rewrite (waitForFrame_unfold r idx frame' sync' result Hframe Hout Hfence) in H.
  cbv zeta in H. destruct (signaled result) eqn:Hsig.
  - left.
    apply runGL_bind_inv in H. destruct H as (u3 & r1 & Hstep & H).
    injection Hstep as _ <-.
    apply runGL_bind_inv in H. destruct H as (u4 & r1 & Hstep & H).
    injection Hstep as _ <-.
    apply runGL_bind_inv in H. destruct H as (u5 & r1 & Hreclaim & H).
    match type of Hreclaim with
    | runGL _ ?r0 = _ =>
        pose proof (reclaim_frames (ephemeralBuffers frame') r0) as Hframes
    end.
    rewrite Hreclaim in Hframes. simpl in Hframes.
    apply runGL_bind_inv in H. destruct H as (u6 & r2 & Hstep & H).
    injection Hstep as _ <-.
    apply runGL_bind_inv in H. destruct H as (u7 & r2 & Hstep & H).
    injection Hstep as _ <-.
    apply runGL_bind_inv in H. destruct H as (u8 & r2 & Hstep & H).
    injection Hstep as _ <-.
    injection H as <- <-.
    split; [reflexivity|]. split; [reflexivity|].
    cbn. rewrite Hframes. apply list_insert_insert_eq.
  - right. destruct (result =? GL_TIMEOUT_EXPIRED) eqn:Htimeout; [|discriminate H].
    injection H as <- <-. apply Z.eqb_eq in Htimeout.
    split; [reflexivity|]. split; [assumption | reflexivity].
Qed.

(** ** [waitForDeviceIdle] *)

Lemma runGL_at {T} (l : list T) i x r : l !! i = Some x -> runGL (at_ l i) r = (Ret x, r).
Proof. intros H. unfold at_. rewrite H. reflexivity. Qed.

Lemma runGL_at_inv {T} (l : list T) i x r r' :
  runGL (at_ l i) r = (Ret x, r') -> l !! i = Some x /\ r' = r.
Proof.
  unfold at_. destruct (l !! i); intros H; [injection H as <- <-; auto | discriminate H].
Qed.

Lemma waitFrames_Ret results indices r b r' :
  NoDup indices ->
  runGL (waitFrames results indices) r = (Ret b, r') ->
  length (frames r') = length (frames r) /\
  (forall j, j ∉ indices -> frames r' !! j = frames r !! j) /\
  (b = true ->
     forall i f, i ∈ indices -> frames r' !! i = Some f -> outstanding f = false) /\
  (b = false ->
     exists pre i post f,
       indices = pre ++ i :: post /\
       frames r' !! i = Some f /\ outstanding f = true /\
       results i = GL_TIMEOUT_EXPIRED /\
       forall j g, j ∈ pre -> frames r' !! j = Some g -> outstanding g = false).
Proof.
  revert r. induction indices as [|i rest IH]; intros r Hnd H; cbn [waitFrames] in H.
  - injection H as <- <-. split_and!; try reflexivity.
    + intros _ i f Hi. inversion Hi.
    + discriminate.
  - apply NoDup_cons in Hnd. destruct Hnd as [Hi Hnd].
    apply runGL_bind_inv in H. destruct H as (r0 & r1 & Hthis & H).
    injection Hthis as <- <-.
    apply runGL_bind_inv in H. destruct H as (f & r1 & Hat & H).
    apply runGL_at_inv in Hat. destruct Hat as [Hf ->].
    destruct (outstanding f) eqn:Hout.
    + apply runGL_bind_inv in H. destruct H as (ok & r1 & Hwait & H).
      apply runGL_bind_inv in H. destruct H as (r0 & r2 & Hthis & H).
      injection Hthis as <- <-.
      apply runGL_bind_inv in H. destruct H as (f1 & r2 & Hat & H).
      apply runGL_at_inv in Hat. destruct Hat as [Hf1 ->].
      apply waitForFrame_Ret in Hwait.
      destruct Hwait as (frame & sync & Hframe & _ & _ & Hcases).
      destruct Hcases as [(-> & Hsig & Hframes) | (-> & Htimeout & ->)].
      * apply runGL_bind_inv in H. destruct H as (u & r2 & Ha & H).
        apply runGL_assertGL_inv in Ha. destruct Ha as [Hdone ->].
        apply negb_true_iff in Hdone.
        destruct (IH _ Hnd H) as (Hlen & Hother & Htrue & Hfalse).
        assert (Hi' : frames r' !! i = Some f1).
        { rewrite (Hother i Hi). exact Hf1. }
        split_and!.
        -- rewrite Hlen, Hframes. apply length_insert.
        -- intros j Hj. rewrite not_elem_of_cons in Hj. destruct Hj as [Hji Hj].
           rewrite (Hother j Hj), Hframes. apply list_lookup_insert_ne. congruence.
        -- intros -> j g Hj Hg. apply elem_of_cons in Hj. destruct Hj as [-> | Hj].
           ++ rewrite Hi' in Hg. injection Hg as <-. exact Hdone.
           ++ eapply Htrue; [reflexivity | exact Hj | exact Hg].
        -- intros ->. destruct (Hfalse eq_refl) as (pre & k & post & g & -> & Hk & Hg & Hres & Hpre).
           exists (i :: pre), k, post, g. split; [reflexivity|]. split_and!; try assumption.
           intros j g' Hj Hg'. apply elem_of_cons in Hj. destruct Hj as [-> | Hj].
           ++ rewrite Hi' in Hg'. injection Hg' as <-. exact Hdone.
           ++ eapply Hpre; eassumption.
      * apply runGL_bind_inv in H. destruct H as (u & r2 & Ha & H).
        apply runGL_assertGL_inv in Ha. destruct Ha as [Hstill ->].
        injection H as <- <-.
        split_and!; try reflexivity.
        -- discriminate.
        -- intros _. exists [], i, rest, f1. split; [reflexivity|].
           split_and!; try assumption.
           intros j g Hj. inversion Hj.
    + destruct (IH _ Hnd H) as (Hlen & Hother & Htrue & Hfalse).
      assert (Hi' : frames r' !! i = Some f).
      { rewrite (Hother i Hi). exact Hf. }
      split_and!.
      * exact Hlen.
      * intros j Hj. rewrite not_elem_of_cons in Hj. apply Hother, Hj.
      * intros -> j g Hj Hg. apply elem_of_cons in Hj. destruct Hj as [-> | Hj].
        -- rewrite Hi' in Hg. injection Hg as <-. exact Hout.
        -- eapply Htrue; [reflexivity | exact Hj | exact Hg].
      * intros ->. destruct (Hfalse eq_refl) as (pre & k & post & g & -> & Hk & Hg & Hres & Hpre).
        exists (i :: pre), k, post, g. split; [reflexivity|]. split_and!; try assumption.
        intros j g' Hj Hg'. apply elem_of_cons in Hj. destruct Hj as [-> | Hj].
        -- rewrite Hi' in Hg'. injection Hg' as <-. exact Hout.
        -- eapply Hpre; eassumption.
Qed.

Lemma waitFrames_idle results indices r :
  idle r -> (forall i, i ∈ indices -> (i < length (frames r))%nat) ->
  runGL (waitFrames results indices) r = (Ret true, r).
Proof.
  intros Hidle. induction indices as [|i rest IH]; intros Hlt; cbn [waitFrames].
  - reflexivity.
  - destruct (lookup_lt_is_Some_2 (frames r) i (Hlt i ltac:(left))) as [f Hf].
    gl_run by reflexivity. gl_run by (apply runGL_at; exact Hf).
    assert (Hout : outstanding f = false).
    { unfold idle in Hidle. rewrite Forall_lookup in Hidle. eapply Hidle. exact Hf. }
    rewrite Hout. apply IH. intros j Hj. apply Hlt. right. assumption.
Qed.

Lemma framesReclaimable_retired r r1 i f :
  framesReclaimable r ->
  frames r !! i = Some f ->
  frames r1 = <[i := mkFrame None [] false (lastFrameNum f) (usedRingBufPtr f)]> (frames r) ->
  (forall h, h ∉ ephemeralBuffers f ->
             resources (buffers r1) !! h = resources (buffers r) !! h) ->
  framesReclaimable r1.
Proof.
  intros [Hrec Hdisj] Hf Hframes Hkept.
  assert (Hlt : (i < length (frames r))%nat) by (eapply lookup_lt_Some; eassumption).
  assert (Hold : forall j g, frames r1 !! j = Some g -> j <> i -> frames r !! j = Some g).
  { intros j g Hg Hji. rewrite Hframes, list_lookup_insert_ne in Hg by congruence.
    exact Hg. }
  assert (Hnew : forall g, frames r1 !! i = Some g -> ephemeralBuffers g = [] /\ outstanding g = false).
  { intros g Hg. rewrite Hframes, list_lookup_insert_eq in Hg by assumption.
    injection Hg as <-. split; reflexivity. }
  split.
  - intros j g Hg Hout. destruct (decide (j = i)) as [-> | Hji].
    + destruct (Hnew g Hg) as [_ Hdone]. congruence.
    + pose proof (Hold j g Hg Hji) as Hg'.
      destruct (Hrec j g Hg' Hout) as (Hfence & Hnd & Hvalid).
      split; [exact Hfence|]. split; [exact Hnd|].
      intros h Hh. destruct (Hvalid h Hh) as (b & Hb & Hsize & Htype).
      exists b. split; [|split; assumption].
      rewrite Hkept; [exact Hb|].
      intros Hhf. exact (Hdisj i j f g h Hf Hg' ltac:(congruence) Hhf Hh).
  - intros j k g g' h Hg Hg' Hjk Hh.
    destruct (decide (j = i)) as [-> | Hji].
    + destruct (Hnew g Hg) as [Hempty _]. rewrite Hempty in Hh. inversion Hh.
    + destruct (decide (k = i)) as [-> | Hki].
      * destruct (Hnew g' Hg') as [Hempty _]. rewrite Hempty. intros Hin. inversion Hin.
      * eapply Hdisj; [exact (Hold j g Hg Hji) | exact (Hold k g' Hg' Hki) | exact Hjk | exact Hh].
Qed.

Lemma waitFrames_returns results indices r :
  (forall i, i ∈ indices -> (i < length (frames r))%nat) ->
  framesReclaimable r ->
  (forall i, signaled (results i) = true \/ results i = GL_TIMEOUT_EXPIRED) ->
  exists b r', runGL (waitFrames results indices) r = (Ret b, r').
Proof.
  intros Hlt Hrec Hres. revert r Hlt Hrec.
  induction indices as [|i rest IH]; intros r Hlt Hrec; cbn [waitFrames].
  - eexists _, _. reflexivity.
  - destruct (lookup_lt_is_Some_2 (frames r) i (Hlt i ltac:(left))) as [f Hf].
    gl_run by reflexivity. gl_run by (apply runGL_at; exact Hf).
    destruct (outstanding f) eqn:Hout.
    + destruct (proj1 Hrec i f Hf Hout) as [[sync Hfence] Hreclaim].
      destruct (Hres i) as [Hsig | Htimeout].
      * destruct (waitForFrame_signaled r i f sync (results i) Hf Hout Hfence Hreclaim Hsig)
          as (r1 & Hrun & Hframes & _ & _ & Hkept & _).
        gl_run by (exact Hrun). gl_run by reflexivity.
        gl_run by (apply runGL_at; rewrite Hframes; apply list_lookup_insert_eq;
                   eapply lookup_lt_Some; exact Hf).
        gl_run by (apply runGL_assertGL_true; reflexivity).
        apply IH.
        -- intros j Hj. rewrite Hframes, length_insert. apply Hlt. right. assumption.
        -- eapply framesReclaimable_retired; eassumption.
      * gl_run by (rewrite (waitForFrame_unfold r i f sync (results i) Hf Hout Hfence),
                     Htimeout; reflexivity).
        gl_run by reflexivity.
        gl_run by (apply runGL_at; exact Hf).
        gl_run by (apply runGL_assertGL_true; exact Hout).
        eexists _, _. reflexivity.
    + apply IH; [|assumption]. intros j Hj. apply Hlt. right. assumption.
Qed.

(** X13. [waitForDeviceIdle] waits for the outstanding frames in the order
    of their slots.  When it returns true no frame is outstanding; when it
    returns false it has stopped at a frame whose wait timed out, which is
    still outstanding, and every frame before it is retired.  It returns
    whenever every outstanding frame has a fence and reclaimable buffers
    and each wait reports signaled or timeout; on an idle renderer it
    returns true and changes nothing. *)
Theorem X13_waitForDeviceIdle_retires_in_order results r :
  (forall r',
     runGL (waitForDeviceIdle results) r = (Ret true, r') ->
     idle r' /\ length (frames r') = length (frames r)) /\
  (forall r',
     runGL (waitForDeviceIdle results) r = (Ret false, r') ->
     exists i f,
       frames r' !! i = Some f /\ outstanding f = true /\
       results i = GL_TIMEOUT_EXPIRED /\
       forall j g, (j < i)%nat -> frames r' !! j = Some g -> outstanding g = false) /\
  (framesReclaimable r ->
   (forall i, signaled (results i) = true \/ results i = GL_TIMEOUT_EXPIRED) ->
   exists b r', runGL (waitForDeviceIdle results) r = (Ret b, r')) /\
  (idle r -> runGL (waitForDeviceIdle results) r = (Ret true, r)).
Proof.
  assert (Hseq : forall i, i ∈ seq 0 (length (frames r)) -> (i < length (frames r))%nat).
  { intros i Hi. apply elem_of_seq in Hi. lia. }
  unfold waitForDeviceIdle. split_and!.
  - intros r' H.
    apply runGL_bind_inv in H. destruct H as (r0 & r1 & Hthis & H).
    injection Hthis as <- <-.
    destruct (waitFrames_Ret _ _ _ _ _ (NoDup_seq 0 _) H) as (Hlen & _ & Htrue & _).
    split; [|exact Hlen].
    unfold idle. rewrite Forall_lookup. intros i f Hf.
    apply (Htrue eq_refl i f); [|exact Hf].
    apply elem_of_seq. apply lookup_lt_Some in Hf. lia.
  - intros r' H.
    apply runGL_bind_inv in H. destruct H as (r0 & r1 & Hthis & H).
    injection Hthis as <- <-.
    destruct (waitFrames_Ret _ _ _ _ _ (NoDup_seq 0 _) H) as (_ & _ & _ & Hfalse).
    destruct (Hfalse eq_refl) as (pre & i & post & f & Hsplit & Hf & Hout & Hres & Hpre).
    exists i, f. split_and!; try assumption.
    intros j g Hj Hg. apply (Hpre j g); [|exact Hg].
    assert (Hi : seq 0 (length (frames r)) !! length pre = Some i).
    { rewrite Hsplit. apply list_lookup_middle. reflexivity. }
    apply lookup_seq in Hi. destruct Hi as [Hi _]. simpl in Hi. subst i.
    assert (Hjl : seq 0 (length (frames r)) !! j = Some j).
    { apply (lookup_seq_lt 0). apply lookup_lt_Some in Hg.
      rewrite (proj1 (waitFrames_Ret _ _ _ _ _ (NoDup_seq 0 _) H)) in Hg. exact Hg. }
    rewrite Hsplit, lookup_app_l in Hjl by exact Hj.
    eapply list_elem_of_lookup_2. exact Hjl.
  - intros Hrec Hres.
    destruct (waitFrames_returns results (seq 0 (length (frames r))) r Hseq Hrec Hres)
      as (b & r' & Hrun).
    exists b, r'. gl_run by reflexivity. exact Hrun.
  - intros Hidle. gl_run by reflexivity. apply waitFrames_idle; assumption.
Qed.

Lemma twoPending_reclaimable : framesReclaimable twoPending.
Proof.
  split.
  - intros [|[|i]] f Hf Hout; simpl in Hf; try discriminate Hf; injection Hf as <-.
    + split; [eauto|]. split; [apply NoDup_singleton|].
      intros h Hh. apply list_elem_of_singleton in Hh. subst h.
      eexists. split; [vm_compute; reflexivity|]. split; [reflexivity | discriminate].
    + split; [eauto|]. split; [apply NoDup_singleton|].
      intros h Hh. apply list_elem_of_singleton in Hh. subst h.
      eexists. split; [vm_compute; reflexivity|]. split; [reflexivity | discriminate].
  - intros [|[|i]] [|[|j]] f g h Hf Hg Hij Hh; simpl in Hf, Hg;
      try discriminate Hf; try discriminate Hg; try congruence;
      injection Hf as <-; injection Hg as <-; simpl in *;
      apply list_elem_of_singleton in Hh; subst h;
      intros Hin; apply list_elem_of_singleton in Hin; discriminate Hin.
Qed.

Lemma X13_waitForDeviceIdle_witness :
  exists b r',
    runGL (waitForDeviceIdle allSignaled) twoPending = (Ret b, r') /\
    (b = true -> idle r').
Proof.
  destruct (X13_waitForDeviceIdle_retires_in_order allSignaled twoPending)
    as (Htrue & _ & Hreturns & _).
  destruct Hreturns as (b & r' & Hrun).
  - exact twoPending_reclaimable.
  - intros i. left. reflexivity.
  - exists b, r'. split; [exact Hrun|].
    intros ->. apply (Htrue r' Hrun).
Defined.

(** ** [createBuffer] and [deleteBuffer] *)

Lemma createBuffer_run r type_ sz src created :
  type_ <> BufferType.Invalid -> sz <> 0 ->
  let h := N.succ (lastHandle (buffers r)) in
  let flags := if tracing r then Z.lor 0 GL_MAP_READ_BIT else 0 in
  runGL (createBuffer type_ sz (Some src) created) r
    = (Ret h,
       set_buffers (mkContainer (<[h := mkBuffer created false 0 sz type_]>
                                   (resources (buffers r))) h)
         (set_glcalls (glcalls r ++ [glCreateBuffers created;
                                     glNamedBufferStorage created sz flags]) r)).
Proof.
  intros Htype Hsz h flags. unfold createBuffer.
  gl_run by (apply runGL_assertGL_true, bool_decide_eq_true_2; assumption).
  gl_run by (apply runGL_assertGL_true, negb_true_iff, Z.eqb_neq; assumption).
  gl_run by reflexivity. gl_run by reflexivity.
  unfold Container.add. fold h. fold flags.
  gl_run by reflexivity. gl_run by reflexivity. gl_run by reflexivity.
  gl_run by reflexivity. gl_run by reflexivity.
  cbn. unfold Container.set. cbn. rewrite !insert_insert_eq, <- app_assoc. reflexivity.
Qed.

Lemma deleteBuffer_run r h b :
  resources (buffers r) !! h = Some b ->
  buffer b <> 0 -> size b <> 0 -> ringBufferAlloc b = false -> type b <> BufferType.Invalid ->
  runGL (deleteBuffer h) r
    = (Ret tt,
       set_buffers (mkContainer (delete h (resources (buffers r))) (lastHandle (buffers r)))
         (set_glcalls (glcalls r ++ [glDeleteBuffers (buffer b)]) r)).
Proof.
  intros Hb Hname Hsize Hring Htype. unfold deleteBuffer.
  gl_run by (apply runGL_getResource; exact Hb).
  gl_run by (apply runGL_assertGL_true, negb_true_iff, Z.eqb_neq; assumption).
  gl_run by reflexivity. gl_run by reflexivity.
  gl_run by (apply runGL_assertGL_true, negb_true_iff, Z.eqb_neq; assumption).
  gl_run by reflexivity.
  gl_run by (apply runGL_assertGL_true; cbn; rewrite Hring; reflexivity).
  gl_run by (apply runGL_assertGL_true, bool_decide_eq_true_2; assumption).
  gl_run by reflexivity.
  cbn. unfold Container.remove, Container.set. cbn.
  rewrite !insert_insert_eq, delete_insert_eq. reflexivity.
Qed.

(** X14. [createBuffer] hands out a handle that was not live, stores the
    new buffer under it and leaves every other buffer alone; a
    [deleteBuffer] of that handle then returns, deletes exactly the OpenGL
    buffer that was created and leaves the container as it was before the
    two calls.  Deleting the same handle once more fails fatally. *)
Theorem X14_createBuffer_deleteBuffer_round_trip r type_ sz src created :
  type_ <> BufferType.Invalid -> sz <> 0 -> created <> 0 ->
  Container.wf (buffers r) ->
  exists h r1 r2 flags,
    runGL (createBuffer type_ sz (Some src) created) r = (Ret h, r1) /\
    h <> 0%N /\ resources (buffers r) !! h = None /\
    resources (buffers r1) !! h = Some (mkBuffer created false 0 sz type_) /\
    (forall k, k <> h -> resources (buffers r1) !! k = resources (buffers r) !! k) /\
    runGL (deleteBuffer h) r1 = (Ret tt, r2) /\
    resources (buffers r2) = resources (buffers r) /\
    glcalls r2 = glcalls r ++ [glCreateBuffers created;
                               glNamedBufferStorage created sz flags;
                               glDeleteBuffers created] /\
    runGL (deleteBuffer h) r2 = (AssertionFailed, r2).
Proof.
  intros Htype Hsz Hcreated Hwf.
  pose proof (createBuffer_run r type_ sz src created Htype Hsz) as Hcreate.
  cbv zeta in Hcreate.
  set (h := N.succ (lastHandle (buffers r))) in *.
  set (flags := if tracing r then Z.lor 0 GL_MAP_READ_BIT else 0) in *.
  assert (Hfresh : resources (buffers r) !! h = None).
  { destruct (resources (buffers r) !! h) as [b|] eqn:Hb; [|reflexivity].
    destruct (Hwf h ltac:(eauto)) as [_ Hle]. unfold h in Hle. lia. }
  eexists h, _, _, flags. split; [exact Hcreate|].
  split; [unfold h; lia|]. split; [exact Hfresh|].
  split; [cbn; apply lookup_insert_eq|].
  split; [intros k Hk; cbn; apply lookup_insert_ne; congruence|].
  split.
  { apply (deleteBuffer_run _ h (mkBuffer created false 0 sz type_));
      [cbn; apply lookup_insert_eq | assumption | assumption | reflexivity | assumption]. }
  split; [cbn; rewrite delete_insert_eq; apply delete_id; exact Hfresh|].
  split; [cbn; rewrite <- app_assoc; reflexivity|].
  unfold deleteBuffer. simpl. unfold Container.get. cbn.
  rewrite lookup_delete_eq. reflexivity.
Qed.

Lemma X14_createBuffer_deleteBuffer_witness :
  exists h r1 r2,
    runGL (createBuffer BufferType.Vertex 64 (Some []) 5) constructed.2 = (Ret h, r1) /\
    runGL (deleteBuffer h) r1 = (Ret tt, r2) /\
    resources (buffers r2) = resources (buffers constructed.2).
Proof.
  destruct (X14_createBuffer_deleteBuffer_round_trip constructed.2 BufferType.Vertex 64 [] 5)
    as (h & r1 & r2 & flags & Hcreate & _ & _ & _ & _ & Hdelete & Hsame & _).
  - discriminate.
  - lia.
  - lia.
  - intros k [b Hb]. vm_compute in Hb. discriminate Hb.
  - exists h, r1, r2. split_and!; assumption.
Defined.

(** X15. [deleteBuffer] called on a ring allocation does not return: it
    calls [glDeleteBuffers] on the name of the buffer, which is the name
    of the ring, and then fails the assertion that the buffer is not a
    ring allocation, with the handle still in the container. *)
Theorem X15_deleteBuffer_rejects_ring_allocation r h b :
  resources (buffers r) !! h = Some b ->
  ringBufferAlloc b = true -> buffer b <> 0 -> size b <> 0 ->
  exists r',
    runGL (deleteBuffer h) r = (AssertionFailed, r') /\
    glcalls r' = glcalls r ++ [glDeleteBuffers (buffer b)] /\
    is_Some (resources (buffers r') !! h).
Proof.
  intros Hb Hring Hname Hsize. unfold deleteBuffer.
  gl_run by (apply runGL_getResource; exact Hb).
  gl_run by (apply runGL_assertGL_true, negb_true_iff, Z.eqb_neq; assumption).
  gl_run by reflexivity. gl_run by reflexivity.
  gl_run by (apply runGL_assertGL_true, negb_true_iff, Z.eqb_neq; assumption).
  gl_run by reflexivity.
  cbn. rewrite Hring. cbn.
  eexists. split; [reflexivity|]. cbn. split; [reflexivity|].
  rewrite lookup_insert_eq. eauto.
Qed.

Lemma X15_deleteBuffer_witness :
  exists r',
    runGL (deleteBuffer 1%N) ringBound = (AssertionFailed, r') /\
    glcalls r' = [glDeleteBuffers 1].
Proof.
  destruct (X15_deleteBuffer_rejects_ring_allocation ringBound 1%N
              (mkBuffer 1 true 0 64 BufferType.Uniform))
    as (r' & Hrun & Hcalls & _).
  - vm_compute. reflexivity.
  - reflexivity.
  - discriminate.
  - discriminate.
  - exists r'. split; assumption.
Defined.

(** ** The first ring *)

(** X16. [recreateRingBuffer] on a renderer without a ring creates one of
    the requested size: it retires nothing, so buffers and frames are as
    before; the ring is mapped persistently unless tracing is on.  A
    size of 0 fails the first assertion before any OpenGL call, and so
    does, after [glCreateBuffers], a ring name of 0. *)
Theorem X16_first_ring_retires_nothing r newSize created :
  ringBuffer r = 0 ->
  (0 < newSize -> created <> 0 ->
   ringBufSize r = 0 -> ringBufPtr r = 0 -> persistentMapping r = None ->
   exists r',
     runGL (recreateRingBuffer newSize created) r = (Ret tt, r') /\
     buffers r' = buffers r /\ frames r' = frames r /\
     ringBuffer r' = created /\ ringBufSize r' = newSize /\ ringBufPtr r' = 0 /\
     persistentMapInUse r' = negb (tracing r) /\
     persistentMapping r' = (if tracing r then None else Some created) /\
     glcalls r' = glcalls r
                  ++ [glCreateBuffers created;
                      glNamedBufferStorage created newSize (ringFlags (tracing r))]
                  ++ (if tracing r then []
                      else [glMapNamedBufferRange created 0 newSize (ringFlags (tracing r))])) /\
  (newSize <= 0 -> runGL (recreateRingBuffer newSize created) r = (AssertionFailed, r)) /\
  (0 < newSize -> created = 0 ->
   (runGL (recreateRingBuffer newSize created) r).1 = AssertionFailed).
Proof.
  intros Hnone. split_and!.
  - intros Hnew Hcreated Hsize Hptr Hmap. unfold recreateRingBuffer.
    gl_run by (apply runGL_assertGL_true, Z.ltb_lt; assumption).
    gl_run by reflexivity.
    rewrite Hnone. cbn [Z.eqb negb].
    gl_run by reflexivity. gl_run by reflexivity. gl_run by reflexivity.
    gl_run by reflexivity.
    gl_run by (apply runGL_assertGL_true, negb_true_iff, Z.eqb_neq; exact Hcreated).
    gl_run by (apply runGL_assertGL_true, Z.eqb_eq; exact Hsize).
    gl_run by (apply runGL_assertGL_true, Z.eqb_eq; exact Hptr).
    gl_run by (apply runGL_assertGL_true, bool_decide_eq_true_2; exact Hmap).
    gl_run by reflexivity. gl_run by reflexivity. gl_run by reflexivity.
    cbn [persistentMapInUse set_ringBufSize set_persistentMapInUse tracing negb].
    cbn. unfold ringFlags.
    destruct (tracing r); cbn.
    + eexists. split; [reflexivity|]. cbn.
      split_and!; try reflexivity; try assumption.
      rewrite <- !app_assoc. reflexivity.
    + eexists. split; [reflexivity|]. cbn.
      split_and!; try reflexivity; try assumption.
      rewrite <- !app_assoc. reflexivity.
  - intros Hnew. unfold recreateRingBuffer. simpl.
    rewrite (proj2 (Z.ltb_ge 0 newSize) Hnew). reflexivity.
  - intros Hnew ->. unfold recreateRingBuffer.
    gl_run by (apply runGL_assertGL_true, Z.ltb_lt; assumption).
    gl_run by reflexivity.
    rewrite Hnone. cbn [Z.eqb negb].
    gl_run by reflexivity. gl_run by reflexivity. gl_run by reflexivity.
    gl_run by reflexivity.
    reflexivity.
Qed.

Lemma X16_first_ring_witness :
  exists r',
    runGL (recreateRingBuffer 1024 1) (RendererImpl_new 2 false) = (Ret tt, r') /\
    frames r' = frames (RendererImpl_new 2 false) /\ ringBufSize r' = 1024.
Proof.
  destruct (X16_first_ring_retires_nothing (RendererImpl_new 2 false) 1024 1 eq_refl)
    as (Hfirst & _ & _).
  destruct Hfirst as (r' & Hrun & _ & Hframes & _ & Hsize & _).
  - lia.
  - discriminate.
  - reflexivity.
  - reflexivity.
  - reflexivity.
  - exists r'. split_and!; assumption.
Defined.

(** ** What [bindDescriptorSet] accepts *)

Lemma checkBuffer_Ret expected h r r' :
  runGL (checkBuffer expected h) r = (Ret tt, r') ->
  exists b, resources (buffers r) !! h = Some b /\ bindable r expected b.
Proof.
  unfold checkBuffer. intros H.
  apply runGL_bind_inv in H. destruct H as (b & r1 & Hget & H).
  apply runGL_getResource_inv in Hget. destruct Hget as [Hb ->].
  apply runGL_bind_inv in H. destruct H as (r0 & r1 & Hthis & H).
  injection Hthis as <- <-.
  apply runGL_bind_inv in H. destruct H as (u1 & r1 & Ha & H).
  apply runGL_assertGL_inv in Ha. destruct Ha as [Hsize ->].
  apply runGL_bind_inv in H. destruct H as (u2 & r1 & Ha & H).
  apply runGL_assertGL_inv in Ha. destruct Ha as [Htype ->].
  apply Z.ltb_lt in Hsize. apply bool_decide_eq_true_1 in Htype.
  exists b. split; [exact Hb|]. unfold bindable.
  split; [exact Hsize|]. split; [exact Htype|].
  destruct (ringBufferAlloc b).
  - apply runGL_bind_inv in H. destruct H as (u3 & r1 & Ha & H).
    apply runGL_assertGL_inv in Ha. destruct Ha as [Hname ->].
    apply runGL_assertGL_inv in H. destruct H as [Hend _].
    apply Z.eqb_eq in Hname. apply Z.ltb_lt in Hend. split; assumption.
  - apply runGL_bind_inv in H. destruct H as (u3 & r1 & Ha & H).
    apply runGL_assertGL_inv in Ha. destruct Ha as [Hname ->].
    apply runGL_assertGL_inv in H. destruct H as [Hoff _].
    apply negb_true_iff, Z.eqb_neq in Hname. apply Z.eqb_eq in Hoff. split; assumption.
Qed.

Lemma bindDescriptor_checked index j l data r r' expected :
  runGL (bindDescriptor index j l data) r = (Ret tt, r') ->
  bufferTypeOf (dl_type l) = Some expected ->
  exists h b,
    data !! dl_offset l = Some (DBuffer h) /\
    resources (buffers r) !! h = Some b /\ bindable r expected b.
Proof.
  unfold bindDescriptor. intros H Hexpected.
  destruct (dl_type l); try discriminate Hexpected;
    injection Hexpected as <-;
    destruct (data !! dl_offset l) as [[h | t s | h | h]|]; try discriminate H;
    apply runGL_bind_inv in H; destruct H as ([] & r1 & Hcheck & _);
    apply checkBuffer_Ret in Hcheck; destruct Hcheck as (b & Hb & Hbindable);
    exists h, b; (split; [reflexivity|]); split; assumption.
Qed.

Lemma bindable_same r r' expected b :
  sameButBindings r r' -> bindable r expected b -> bindable r' expected b.
Proof. intros Hsame H. rewrite Hsame. exact H. Qed.

Lemma bindDescriptors_checked index j ls data r r' :
  runGL (bindDescriptors index j ls data) r = (Ret tt, r') ->
  forall i l expected,
    ls !! i = Some l -> bufferTypeOf (dl_type l) = Some expected ->
    exists h b,
      data !! dl_offset l = Some (DBuffer h) /\
      resources (buffers r) !! h = Some b /\ bindable r expected b.
Proof.
  revert j r. induction ls as [|l0 ls IH]; intros j r H i l expected Hl Hexpected.
  - rewrite lookup_nil in Hl. discriminate Hl.
  - cbn [bindDescriptors] in H.
    apply runGL_bind_inv in H. destruct H as ([] & r1 & Hone & H).
    destruct i as [|i]; simpl in Hl.
    + injection Hl as ->. eapply bindDescriptor_checked; eassumption.
    + pose proof (bindDescriptor_onlySet index j l0 data r) as [Hsame _].
      rewrite Hone in Hsame. simpl in Hsame.
      destruct (IH _ _ H i l expected Hl Hexpected) as (h & b & Hd & Hb & Hbindable).
      exists h, b. split; [exact Hd|].
      assert (Hback : sameButBindings r1 r).
      { unfold sameButBindings in *. rewrite Hsame. destruct r. reflexivity. }
      split.
      * rewrite Hsame in Hb. exact Hb.
      * eapply bindable_same; eassumption.
Qed.

(** X17. A [bindDescriptorSet] that returns has validated every buffer of
    the layout: the blob holds a buffer handle for it, the handle is live,
    the buffer has a positive size and the type that goes with the
    descriptor, and a ring allocation belongs to the current ring and ends
    before its end, while an owned buffer has a name and offset 0.  Hence
    once [recreateRingBuffer] has replaced the ring, an allocation from
    the old ring is still in the container but a descriptor set that
    refers to it can no longer be bound. *)
Theorem X17_bindDescriptorSet_validates_buffers :
  (forall index layoutHandle data r r',
     runGL (bindDescriptorSet index layoutHandle data) r = (Ret tt, r') ->
     exists layout,
       resources (dsLayouts r) !! layoutHandle = Some layout /\
       forall i l expected,
         dsl_descriptors layout !! i = Some l ->
         bufferTypeOf (dl_type l) = Some expected ->
         exists h b,
           data !! dl_offset l = Some (DBuffer h) /\
           resources (buffers r) !! h = Some b /\ bindable r expected b) /\
  (forall r newSize created frame h b,
     ringBuffer r <> 0 -> 0 < ringBufSize r -> 0 < newSize ->
     created <> 0 -> created <> ringBuffer r ->
     frames r !! currentFrameIdx r = Some frame ->
     (persistentMapInUse r = false -> persistentMapping r = None) ->
     Container.wf (buffers r) ->
     resources (buffers r) !! h = Some b ->
     ringBufferAlloc b = true -> buffer b = ringBuffer r ->
     exists r2,
       runGL (recreateRingBuffer newSize created) r = (Ret tt, r2) /\
       resources (buffers r2) !! h = Some b /\
       forall index layoutHandle data layout i l expected r3,
         resources (dsLayouts r2) !! layoutHandle = Some layout ->
         dsl_descriptors layout !! i = Some l ->
         bufferTypeOf (dl_type l) = Some expected ->
         data !! dl_offset l = Some (DBuffer h) ->
         runGL (bindDescriptorSet index layoutHandle data) r2 <> (Ret tt, r3)).
Proof.
  assert (Hfirst : forall index layoutHandle data r r',
     runGL (bindDescriptorSet index layoutHandle data) r = (Ret tt, r') ->
     exists layout,
       resources (dsLayouts r) !! layoutHandle = Some layout /\
       forall i l expected,
         dsl_descriptors layout !! i = Some l ->
         bufferTypeOf (dl_type l) = Some expected ->
         exists h b,
           data !! dl_offset l = Some (DBuffer h) /\
           resources (buffers r) !! h = Some b /\ bindable r expected b).
  { intros index layoutHandle data r r' H. unfold bindDescriptorSet in H.
    apply runGL_bind_inv in H. destruct H as (r0 & r1 & Hthis & H).
    injection Hthis as <- <-.
    apply runGL_bind_inv in H. destruct H as (u1 & r1 & Ha & H).
    apply runGL_assertGL_inv in Ha. destruct Ha as [_ ->].
    apply runGL_bind_inv in H. destruct H as (p & r1 & Hp & H).
    apply runGL_getResource_inv in Hp. destruct Hp as [_ ->].
    apply runGL_bind_inv in H. destruct H as (set & r1 & Hset & H).
    assert (r1 = r) as ->.
    { destruct (desc_descriptorSetLayouts p !! index);
        [injection Hset as _ <-; reflexivity | discriminate Hset]. }
    apply runGL_bind_inv in H. destruct H as (u2 & r1 & Ha & H).
    apply runGL_assertGL_inv in Ha. destruct Ha as [_ ->].
    apply runGL_bind_inv in H. destruct H as (u3 & r1 & Hdirty & H).
    injection Hdirty as _ <-.
    apply runGL_bind_inv in H. destruct H as (layout & r1 & Hlayout & H).
    apply runGL_getResource_inv in Hlayout. destruct Hlayout as [Hlayout ->].
    exists layout. split; [exact Hlayout|].
    intros i l expected Hl Hexpected.
    destruct (bindDescriptors_checked _ _ _ _ _ _ H i l expected Hl Hexpected)
      as (h & b & Hd & Hb & Hbindable).
    exists h, b. split; [exact Hd|]. split; [exact Hb|].
    eapply bindable_same; [|exact Hbindable].
    unfold sameButBindings. destruct r. reflexivity. }
  split; [exact Hfirst|].
  intros r newSize created frame h b Hring Hsize Hnew Hcreated Hother Hframe Hmap Hwf
         Hb Halloc Hname.
  destruct (recreateRingBuffer_run r newSize created frame
              Hring Hsize Hnew Hcreated Hframe Hmap)
    as (r2 & Hrun & Hbufs & _ & _ & _ & Hring2 & _).
  assert (Hkept : resources (buffers r2) !! h = Some b).
  { rewrite Hbufs, lookup_insert_ne; [exact Hb|].
    intros <-. destruct (Hwf _ ltac:(eauto)) as [_ Hle]. lia. }
  exists r2. split; [exact Hrun|]. split; [exact Hkept|].
  intros index layoutHandle data layout i l expected r3 Hlayout Hl Hexpected Hd Hbind.
  destruct (Hfirst _ _ _ _ _ Hbind) as (layout' & Hlayout' & Hall).
  rewrite Hlayout in Hlayout'. injection Hlayout' as <-.
  destruct (Hall i l expected Hl Hexpected) as (h' & b' & Hd' & Hb' & Hbindable).
  rewrite Hd in Hd'. injection Hd' as <-.
  rewrite Hkept in Hb'. injection Hb' as <-.
  destruct Hbindable as (_ & _ & Hcase). rewrite Halloc in Hcase.
  destruct Hcase as [Hcurrent _]. congruence.
Qed.

Lemma ringBound_bind :
  runGL (bindDescriptorSet 0 1%N ringBlob) ringBound
    = (Ret tt, set_descriptors {[ (0, 0)%nat := DBuffer 1%N ]} ringBound).
Proof. vm_compute. reflexivity. Qed.

Lemma X17_bindDescriptorSet_witness :
  (exists h b,
     ringBlob !! 0 = Some (DBuffer h) /\
     resources (buffers ringBound) !! h = Some b /\
     bindable ringBound BufferType.Uniform b) /\
  exists r2,
    runGL (recreateRingBuffer 2048 2) ringBound = (Ret tt, r2) /\
    forall r3, runGL (bindDescriptorSet 0 1%N ringBlob) r2 <> (Ret tt, r3).
Proof.
  destruct X17_bindDescriptorSet_validates_buffers as [Hvalid Hresize].
  split.
  - destruct (Hvalid 0%nat 1%N ringBlob ringBound _ ringBound_bind)
      as (layout & Hlayout & Hall).
    vm_compute in Hlayout. injection Hlayout as <-.
    apply (Hall 0%nat (mkDescriptorLayout DescriptorType.UniformBuffer 0)
             BufferType.Uniform); reflexivity.
  - destruct (Hresize ringBound 2048 2 (mkFrame None [1%N] false 0 0) 1%N
                (mkBuffer 1 true 0 64 BufferType.Uniform))
      as (r2 & Hrun & _ & Hnever).
    + discriminate.
    + reflexivity.
    + reflexivity.
    + discriminate.
    + discriminate.
    + reflexivity.
    + intros H. discriminate H.
    + intros k [b Hb]. destruct (decide (k = 1%N)) as [-> | Hne].
      * vm_compute. split; [reflexivity | discriminate].
      * exfalso. change (resources (buffers ringBound))
          with ({[ 1%N := mkBuffer 1 true 0 64 BufferType.Uniform ]} : gmap N Buffer) in Hb.
        rewrite lookup_singleton_ne in Hb by congruence. discriminate Hb.
    + vm_compute. reflexivity.
    + reflexivity.
    + reflexivity.
    + exists r2. split; [exact Hrun|].
      intros r3.
      apply (Hnever 0%nat 1%N ringBlob
               (mkDescriptorSetLayout [mkDescriptorLayout DescriptorType.UniformBuffer 0])
               0%nat (mkDescriptorLayout DescriptorType.UniformBuffer 0)
               BufferType.Uniform r3).
      * assert (Hsame : dsLayouts r2 = dsLayouts ringBound).
        { assert (Hall : (runGL (recreateRingBuffer 2048 2) ringBound).2
                         = r2) by (rewrite Hrun; reflexivity).
          rewrite <- Hall. vm_compute. reflexivity. }
        rewrite Hsame. vm_compute. reflexivity.
      * reflexivity.
      * reflexivity.
      * reflexivity.
Defined.

End OpenGLBuffersFacts.
(** * demo/smaaDemo.cpp: further proofs about the render graph *)

Section RenderGraphLifeFacts.

Import RenderGraph RenderGraphLife.

(** ** Declarations *)

Lemma passesOf_app ops1 ops2 : passesOf (ops1 ++ ops2) = passesOf ops1 ++ passesOf ops2.
Proof. unfold passesOf. apply omap_app. Qed.

(** The graph that [reset] returns is blank. *)
Lemma reset_blank g r g' r' :
  reset g r = Ret (g', r') ->
  state g' = Building /\ operations g' = [] /\ rendertargets g' = ∅ /\
  renderPasses g' = ∅ /\ pipelines g' = [] /\
  renderpassesWithExternalRTs g' = ∅ /\ hasExternalRTs g' = false.
Proof.
  unfold reset. intros H.
  inv_ret H as u Hstate. inv_ret H as r1 Hrts. inv_ret H as r2 Hidle.
  injection H as <- <-. split_and!; reflexivity.
Qed.

Lemma blank_declared g :
  state g = Building -> operations g = [] -> rendertargets g = ∅ ->
  renderPasses g = ∅ -> pipelines g = [] ->
  renderpassesWithExternalRTs g = ∅ -> hasExternalRTs g = false ->
  declared g.
Proof.
  intros Hstate Hops Hrts Hrps Hpipes Hdeferred Hext.
  constructor; try assumption.
  - intros rp. rewrite Hops, Hrps, lookup_empty. simpl. split.
    + intros Hin. inversion Hin.
    + intros [x Hx]. discriminate Hx.
  - rewrite Hops. constructor.
  - intros k rt Hk. rewrite Hrts, lookup_empty in Hk. discriminate Hk.
  - intros k rp Hk. rewrite Hrps, lookup_empty in Hk. discriminate Hk.
  - rewrite Hext, Hrts. split; [discriminate|].
    intros (k & rt & Hk & _). rewrite lookup_empty in Hk. discriminate Hk.
Qed.

Lemma declare_declared d g g1 :
  declared g -> declare d g = Ret g1 -> declared g1.
Proof.
  intros [Hstate Hpasses Honce Htargets Hunbuilt Hext Hpipes Hdeferred] H.
  destruct d as [rt d | rt fmt initial final | rp d | source dest | source dest | rt];
    simpl in H.
  - unfold renderTarget in H.
    inv_ret H as u1 H1. inv_ret H as u2 H2. inv_ret H as u3 H3. injection H as <-.
    apply bool_decide_eq_true_1 in H2, H3.
    constructor; simpl; try assumption.
    + intros k x Hk. destruct (decide (rt = k)) as [<- | Hne].
      * rewrite lookup_insert_eq in Hk. injection Hk as <-. split; [assumption | reflexivity].
      * rewrite lookup_insert_ne in Hk by assumption. eapply Htargets; eassumption.
    + rewrite Hext. split.
      * intros (k & x & Hk & Hx). exists k, x. split; [|assumption].
        rewrite lookup_insert_ne; [assumption|]. intros <-. congruence.
      * intros (k & x & Hk & Hx). destruct (decide (rt = k)) as [<- | Hne].
        -- rewrite lookup_insert_eq in Hk. injection Hk as <-. discriminate Hx.
        -- rewrite lookup_insert_ne in Hk by assumption. eauto.
  - unfold externalRenderTarget in H.
    inv_ret H as u1 H1. inv_ret H as u2 H2. inv_ret H as u3 H3. injection H as <-.
    apply bool_decide_eq_true_1 in H2, H3.
    constructor; simpl; try assumption.
    + intros k x Hk. destruct (decide (rt = k)) as [<- | Hne].
      * rewrite lookup_insert_eq in Hk. injection Hk as <-. split; [assumption | reflexivity].
      * rewrite lookup_insert_ne in Hk by assumption. eapply Htargets; eassumption.
    + split; [|reflexivity]. intros _.
      eexists rt, _. rewrite lookup_insert_eq. split; reflexivity.
  - unfold renderPass in H.
    inv_ret H as u1 H1. inv_ret H as u2 H2. injection H as <-.
    apply bool_decide_eq_true_1 in H2.
    assert (Hnew : rp ∉ passesOf (operations g)).
    { intros Hin. apply Hpasses in Hin. rewrite H2 in Hin.
      destruct Hin as [x Hx]. discriminate Hx. }
    constructor; simpl; try assumption.
    + intros k. rewrite passesOf_app, elem_of_app, lookup_insert_is_Some, Hpasses.
      simpl. rewrite list_elem_of_singleton. split.
      * intros [Hk | ->]; [|left; reflexivity].
        destruct (decide (rp = k)) as [<- | Hne]; [left; reflexivity | right; auto].
      * intros [<- | [_ Hk]]; [right; reflexivity | left; assumption].
    + rewrite passesOf_app. apply NoDup_app. split; [assumption|].
      split; [|apply NoDup_singleton].
      intros k Hk Hin. apply list_elem_of_singleton in Hin. subst k. contradiction.
    + intros k x Hk. destruct (decide (rp = k)) as [<- | Hne].
      * rewrite lookup_insert_eq in Hk. injection Hk as <-. split_and!; reflexivity.
      * rewrite lookup_insert_ne in Hk by assumption. eapply Hunbuilt; eassumption.
  - unfold resolveMSAA in H. inv_ret H as u1 H1. injection H as <-.
    constructor; simpl; try assumption.
    + intros k. rewrite passesOf_app. simpl. rewrite app_nil_r. apply Hpasses.
    + rewrite passesOf_app. simpl. rewrite app_nil_r. assumption.
  - unfold blit in H. inv_ret H as u1 H1. injection H as <-.
    constructor; simpl; try assumption.
    + intros k. rewrite passesOf_app. simpl. rewrite app_nil_r. apply Hpasses.
    + rewrite passesOf_app. simpl. rewrite app_nil_r. assumption.
  - unfold presentRenderTarget in H.
    inv_ret H as u1 H1. inv_ret H as u2 H2. injection H as <-.
    constructor; simpl; assumption.
Qed.

Lemma declareAll_declared ds g g1 :
  declared g -> declareAll ds g = Ret g1 -> declared g1.
Proof.
  revert g. induction ds as [|d ds IH]; intros g Hg H; simpl in H.
  - injection H as <-. assumption.
  - inv_ret H as g0 Hd. eapply IH; [|exact H]. eapply declare_declared; eassumption.
Qed.

(** X18. After [reset], whatever declaration calls follow and return, the
    graph is still being built and is consistent: the render passes among
    the operations are exactly the declared ones, each occurs once, no
    target has the invalid id, no target or pass has a back-end object
    yet, the flag [hasExternalRTs] is set exactly when an external target
    is declared, and no pipeline is cached.  A target or a pass declared a
    second time makes the call fail. *)
Theorem X18_declarations_keep_graph_consistent g r g0 r0 ds g1 :
  reset g r = Ret (g0, r0) ->
  declareAll ds g0 = Ret g1 ->
  declared g1 /\
  (forall rt d fmt initial final,
     is_Some (rendertargets g1 !! rt) ->
     renderTarget rt d g1 = AssertionFailed /\
     externalRenderTarget rt fmt initial final g1 = AssertionFailed) /\
  (forall rp d, is_Some (renderPasses g1 !! rp) -> renderPass rp d g1 = AssertionFailed).
Proof.
  intros Hreset Hdecl.
  destruct (reset_blank _ _ _ _ Hreset) as (H1 & H2 & H3 & H4 & H5 & H6 & H7).
  pose proof (declareAll_declared ds g0 g1
                (blank_declared g0 H1 H2 H3 H4 H5 H6 H7) Hdecl) as Hg1.
  split; [exact Hg1|]. split.
  - intros rt d fmt initial final [x Hx].
    unfold renderTarget, externalRenderTarget.
    rewrite (declared_state g1 Hg1), Hx. simpl.
    destruct (bool_decide (rt <> Rendertargets.Invalid)); split; reflexivity.
  - intros rp d [x Hx]. unfold renderPass.
    rewrite (declared_state g1 Hg1), Hx. reflexivity.
Qed.

Lemma X18_declarations_witness :
  exists g1,
    declareAll temporalDeclarations freshGraph = Ret g1 /\
    declared g1 /\ hasExternalRTs g1 = true.
Proof.
  assert (Hreset : reset new (mkBackend [] 0%N 0) = Ret (freshGraph, mkBackend [WaitForDeviceIdle true] 0%N 0))
    by (vm_compute; reflexivity).
  destruct (declareAll temporalDeclarations freshGraph) as [g1| | |] eqn:Hdecl;
    try (vm_compute in Hdecl; discriminate Hdecl).
  destruct (X18_declarations_keep_graph_consistent _ _ _ _ _ _ Hreset Hdecl) as (Hg1 & _).
  exists g1. split; [reflexivity|]. split; [exact Hg1|].
  vm_compute in Hdecl. injection Hdecl as <-. reflexivity.
Defined.

(** ** The layout pass, operation by operation *)

Lemma layoutPass_app rts ops1 ops2 st ops' st' :
  layoutPass rts (ops1 ++ ops2) st = Ret (ops', st') ->
  exists ops1' ops2' st2,
    layoutPass rts ops2 st = Ret (ops2', st2) /\
    layoutPass rts ops1 st2 = Ret (ops1', st') /\
    ops' = ops1' ++ ops2' /\ length ops1' = length ops1.
Proof.
  revert ops' st'. induction ops1 as [|op ops1 IH]; intros ops' st' H; simpl in H.
  - exists [], ops', st'. split; [exact H|]. split; [reflexivity|]. split; reflexivity.
  - inv_ret H as r1 Hrest. destruct r1 as [rest1 st1].
    inv_ret H as r2 Hop. destruct r2 as [op1 st3]. injection H as <- <-.
    destruct (IH _ _ Hrest) as (ops1' & ops2' & st2 & H2 & H1 & -> & Hlen).
    exists (op1 :: ops1'), ops2', st2. split; [exact H2|]. split.
    + simpl. rewrite H1. simpl. rewrite Hop. reflexivity.
    + split; [reflexivity | simpl; rewrite Hlen; reflexivity].
Qed.

Lemma layoutPass_cons_Ret rts op rest st ops' st' :
  layoutPass rts (op :: rest) st = Ret (ops', st') ->
  exists rest1 st1 op1,
    layoutPass rts rest st = Ret (rest1, st1) /\
    visitOperation rts op st1 = Ret (op1, st') /\ ops' = op1 :: rest1.
Proof.
  intros H. simpl in H.
  inv_ret H as r1 Hrest. destruct r1 as [rest1 st1].
  inv_ret H as r2 Hop. destruct r2 as [op1 st2]. injection H as <- <-.
  exists rest1, st1, op1. split; [exact Hrest|]. split; [exact Hop | reflexivity].
Qed.

Lemma visitOperation_pass_Ret rts rp st op1 st' :
  visitOperation rts (OpRenderPass rp) st = Ret (op1, st') ->
  visitRenderPass rts rp st = Ret st' /\ op1 = OpRenderPass rp.
Proof.
  destruct st as [cl passes]. intros H. cbn [visitOperation] in H.
  inv_ret H as st1 Hvisit. injection H as <- <-. split; [exact Hvisit | reflexivity].
Qed.

Lemma visitColors_app rts d idxs1 idxs2 st st' :
  visitColors rts d (idxs1 ++ idxs2) st = Ret st' ->
  exists st1, visitColors rts d idxs1 st = Ret st1 /\ visitColors rts d idxs2 st1 = Ret st'.
Proof.
  revert st. induction idxs1 as [|i idxs1 IH]; intros st H; simpl in H.
  - exists st. split; [reflexivity | exact H].
  - inv_ret H as st0 Hstep. destruct (IH _ H) as (st1 & H1 & H2).
    exists st1. split; [|exact H2]. simpl. rewrite Hstep. exact H1.
Qed.

(** Attachments that are not [A] leave the entry of [A] alone. *)
Lemma visitColors_untouched rts d idxs cl rpd cl' rpd' A :
  visitColors rts d idxs (cl, rpd) = Ret (cl', rpd') ->
  (forall k info, k ∈ idxs -> PassDesc.colorRTs_ d !! k = Some info ->
                  PassDesc.id info <> A) ->
  cl' !! A = cl !! A.
Proof.
  revert cl rpd. induction idxs as [|i idxs IH]; intros cl rpd H Hother; simpl in H.
  - injection H as <- <-. reflexivity.
  - inv_ret H as st1 Hstep. destruct st1 as [cl1 rpd1].
    rewrite (IH _ _ H) by (intros k info Hk; apply Hother; right; assumption).
    apply visitColor_Ret in Hstep.
    destruct Hstep as (info & Hinfo & [(_ & -> & _) | (_ & rt & final & _ & _ & _ & _ & _ & _ & -> & _)]).
    + reflexivity.
    + apply lookup_insert_ne. apply (Hother i info); [left | exact Hinfo].
Qed.

Lemma seq_split (j n : nat) :
  (j < n)%nat -> seq 0 n = seq 0 j ++ j :: seq (S j) (n - S j).
Proof.
  intros Hj. replace n with (j + S (n - S j))%nat at 1 by lia.
  rewrite seq_app. reflexivity.
Qed.

(** What a visit of a render pass that returns has done to the table. *)
Lemma visitRenderPass_table rts rpId cl passes cl' passes' :
  visitRenderPass rts rpId (cl, passes) = Ret (cl', passes') ->
  exists rp rpd rpd' cl1,
    passes !! rpId = Some rp /\
    visitColors rts (desc rp) (seq 0 MAX_COLOR_RENDERTARGETS) (cl, rpd) = Ret (cl1, rpd') /\
    cl' = markInputs (PassDesc.inputRendertargets (desc rp)) cl1.
Proof.
  unfold visitRenderPass. intros H.
  inv_ret H as rp Hrp.
  destruct (passes !! rpId) as [rp'|]; [|discriminate]. injection Hrp as ->.
  inv_ret H as rpd1 Hdepth. inv_ret H as st Hcolors. destruct st as [cl2 rpd2].
  injection H as <- <-.
  exists rp, rpd1, rpd2, cl2. split; [reflexivity|]. split; [exact Hcolors | reflexivity].
Qed.

(** After a pass has written [A] without keeping it and without reading
    it, the table holds undefined for [A]. *)
Lemma visitRenderPass_overwrites rts rpId cl passes cl' passes' rp j info A :
  visitRenderPass rts rpId (cl, passes) = Ret (cl', passes') ->
  passes !! rpId = Some rp ->
  (j < MAX_COLOR_RENDERTARGETS)%nat ->
  PassDesc.colorRTs_ (desc rp) !! j = Some info ->
  PassDesc.id info = A -> A <> Rendertargets.Invalid ->
  PassDesc.passBegin info <> PassBegin.Keep ->
  (forall k info', (j < k)%nat -> PassDesc.colorRTs_ (desc rp) !! k = Some info' ->
                   PassDesc.id info' <> A) ->
  A ∉ PassDesc.inputRendertargets (desc rp) ->
  cl' !! A = Some Layout.Undefined.
Proof.
  intros H Hrp Hj Hinfo HA Hvalid Hpb Hlast Hinput.
  apply visitRenderPass_table in H.
  destruct H as (rp' & rpd & rpd' & cl1 & Hrp' & Hcolors & ->).
  rewrite Hrp in Hrp'. injection Hrp' as <-.
  rewrite markInputs_lookup, decide_False by assumption.
  rewrite (seq_split j) in Hcolors by assumption.
  apply visitColors_app in Hcolors. destruct Hcolors as ([cl2 rpd2] & _ & Hcolors).
  simpl in Hcolors. inv_ret Hcolors as st3 Hstep. destruct st3 as [cl3 rpd3].
  rewrite (visitColors_untouched _ _ _ _ _ _ _ A Hcolors).
  - apply visitColor_Ret in Hstep.
    destruct Hstep as (info' & Hinfo' & Hcase).
    rewrite Hinfo in Hinfo'. injection Hinfo' as <-.
    destruct Hcase as [(Hinv & _) | (_ & rt & final & _ & _ & _ & _ & _ & _ & -> & _)].
    + congruence.
    + rewrite HA, lookup_insert_eq.
      destruct (PassDesc.passBegin info) eqn:E; [reflexivity | congruence | reflexivity].
  - intros k info' Hk Hinfo'. apply elem_of_seq in Hk. apply (Hlast k info'); [lia | exact Hinfo'].
Qed.

(** A pass cannot write [A] when the table holds undefined for it. *)
Lemma visitRenderPass_needs_layout rts rpId cl passes rp i info A :
  passes !! rpId = Some rp ->
  (i < MAX_COLOR_RENDERTARGETS)%nat ->
  PassDesc.colorRTs_ (desc rp) !! i = Some info ->
  PassDesc.id info = A -> A <> Rendertargets.Invalid ->
  (forall k info', (k < i)%nat -> PassDesc.colorRTs_ (desc rp) !! k = Some info' ->
                   PassDesc.id info' <> A) ->
  cl !! A = Some Layout.Undefined ->
  forall st', visitRenderPass rts rpId (cl, passes) <> Ret st'.
Proof.
  intros Hrp Hi Hinfo HA Hvalid Hfirst Hcl [cl' passes'] H.
  apply visitRenderPass_table in H.
  destruct H as (rp' & rpd & rpd' & cl1 & Hrp' & Hcolors & _).
  rewrite Hrp in Hrp'. injection Hrp' as <-.
  rewrite (seq_split i) in Hcolors by assumption.
  apply visitColors_app in Hcolors. destruct Hcolors as ([cl2 rpd2] & Hbefore & Hcolors).
  simpl in Hcolors. inv_ret Hcolors as st3 Hstep. destruct st3 as [cl3 rpd3].
  assert (Hcl2 : cl2 !! A = Some Layout.Undefined).
  { rewrite (visitColors_untouched _ _ _ _ _ _ _ A Hbefore); [exact Hcl|].
    intros k info' Hk Hinfo'. apply elem_of_seq in Hk.
    apply (Hfirst k info'); [lia | exact Hinfo']. }
  apply visitColor_Ret in Hstep.
  destruct Hstep as (info' & Hinfo' & Hcase).
  rewrite Hinfo in Hinfo'. injection Hinfo' as <-.
  destruct Hcase as [(Hinv & _) | (_ & rt & final & _ & _ & Hfinal & Hdefined & _)].
  - congruence.
  - rewrite HA, Hcl2 in Hfinal. congruence.
Qed.

(** X19. The layout pass of [build] rejects a write that nothing reads:
    when a pass writes a target and the next operation is a pass that
    writes the same target without keeping its contents and does not read
    it, the final layout of the first write would be undefined, and the
    assertion [final != Layout::Undefined] fails; [build] does not
    return. *)
Theorem X19_overwritten_write_fails_the_layout_pass
    g before P1 P2 after rp1 rp2 i j info1 info2 A :
  operations g = before ++ OpRenderPass P1 :: OpRenderPass P2 :: after ->
  renderPasses g !! P1 = Some rp1 -> renderPasses g !! P2 = Some rp2 ->
  A <> Rendertargets.Invalid ->
  (i < MAX_COLOR_RENDERTARGETS)%nat ->
  PassDesc.colorRTs_ (desc rp1) !! i = Some info1 -> PassDesc.id info1 = A ->
  (forall k info, (k < i)%nat -> PassDesc.colorRTs_ (desc rp1) !! k = Some info ->
                  PassDesc.id info <> A) ->
  (j < MAX_COLOR_RENDERTARGETS)%nat ->
  PassDesc.colorRTs_ (desc rp2) !! j = Some info2 -> PassDesc.id info2 = A ->
  (forall k info, (j < k)%nat -> PassDesc.colorRTs_ (desc rp2) !! k = Some info ->
                  PassDesc.id info <> A) ->
  PassDesc.passBegin info2 <> PassBegin.Keep ->
  A ∉ PassDesc.inputRendertargets (desc rp2) ->
  (forall g', inferLayouts g <> Ret g') /\
  (forall r g' r', build g r <> Ret (g', r')).
Proof.
  intros Hops Hrp1 Hrp2 Hvalid Hi Hinfo1 HA1 Hfirst Hj Hinfo2 HA2 Hlast Hpb Hinput.
  assert (Hpass : forall rts cl res,
            layoutPass rts (operations g) (cl, renderPasses g) <> Ret res).
  { intros rts cl [ops' [cl' passes']] H. rewrite Hops in H.
    apply layoutPass_app in H.
    destruct H as (ops1' & ops2' & [cl2 passes2] & Htail & _).
    apply layoutPass_cons_Ret in Htail.
    destruct Htail as (rest1 & [cl4 passes4] & op1 & Hrest & Hvisit1 & _).
    apply layoutPass_cons_Ret in Hrest.
    destruct Hrest as (after' & [cl0 passes0] & op2 & Hafter & Hvisit2 & _).
    apply visitOperation_pass_Ret in Hvisit1. destruct Hvisit1 as [Hv1 _].
    apply visitOperation_pass_Ret in Hvisit2. destruct Hvisit2 as [Hv2 _].
    destruct (layoutPass_inferred _ _ _ _ _ _ _ Hafter) as [Hkeep _].
    destruct (Hkeep P2 rp2 Hrp2) as (rp2' & Hrp2' & Hdesc2).
    destruct (Hkeep P1 rp1 Hrp1) as (rp1' & Hrp1' & Hdesc1).
    assert (Hcl4 : cl4 !! A = Some Layout.Undefined).
    { eapply (visitRenderPass_overwrites _ _ _ _ _ _ rp2' j info2 A Hv2 Hrp2' Hj);
        rewrite ?Hdesc2; assumption. }
    pose proof Hv2 as Hv2'. apply visitRenderPass_Ret in Hv2'.
    destruct Hv2' as (rp & rpd' & Hrp & -> & _).
    assert (Hrp1'' : exists rp1'', <[P2 := mkRenderPass (handle rp) (fb rp) (desc rp) rpd']>
                                     passes0 !! P1 = Some rp1'' /\ desc rp1'' = desc rp1).
    { destruct (decide (P2 = P1)) as [-> | Hne].
      - rewrite lookup_insert_eq. eexists. split; [reflexivity|]. simpl. congruence.
      - rewrite lookup_insert_ne by assumption. eauto. }
    destruct Hrp1'' as (rp1'' & Hlook & Hdesc1').
    eapply (visitRenderPass_needs_layout _ _ _ _ rp1'' i info1 A Hlook Hi);
      rewrite ?Hdesc1'; eassumption. }
  split.
  - intros g' H. unfold inferLayouts in H. inv_ret H as res Hrun.
    exact (Hpass _ _ _ Hrun).
  - intros r g' r' H. unfold build in H.
    inv_ret H as u1 H1. inv_ret H as u2 H2.
    inv_ret H as created Hcreated. destruct created as [rts r1].
    inv_ret H as g2 Hinfer. unfold inferLayouts in Hinfer. simpl in Hinfer.
    inv_ret Hinfer as res Hrun. exact (Hpass _ _ _ Hrun).
Qed.

Lemma writes_only_first A pb inputs k info :
  A <> Rendertargets.Invalid ->
  (0 < k)%nat ->
  PassDesc.colorRTs_ (writes A pb inputs) !! k = Some info ->
  PassDesc.id info <> A.
Proof.
  intros HA Hk Hinfo. destruct k as [|[|k]]; [lia | | discriminate Hinfo].
  injection Hinfo as <-. simpl. congruence.
Qed.

Lemma X19_overwritten_write_witness :
  (forall g', inferLayouts overwriteGraph <> Ret g') /\
  (forall r g' r', build overwriteGraph r <> Ret (g', r')).
Proof.
  apply (X19_overwritten_write_fails_the_layout_pass overwriteGraph []
           RenderPasses.Scene RenderPasses.Final []
           (mkRenderPass 0%N 0%N (writes Rendertargets.MainColor PassBegin.Clear ∅)
              RenderPassDesc_new)
           (mkRenderPass 0%N 0%N (writes Rendertargets.MainColor PassBegin.Clear ∅)
              RenderPassDesc_new)
           0%nat 0%nat
           (PassDesc.mkRTInfo Rendertargets.MainColor PassBegin.Clear (0, 0, 0, 0))
           (PassDesc.mkRTInfo Rendertargets.MainColor PassBegin.Clear (0, 0, 0, 0))
           Rendertargets.MainColor).
  - reflexivity.
  - vm_compute. reflexivity.
  - vm_compute. reflexivity.
  - discriminate.
  - unfold MAX_COLOR_RENDERTARGETS. lia.
  - reflexivity.
  - reflexivity.
  - intros k info Hk. lia.
  - unfold MAX_COLOR_RENDERTARGETS. lia.
  - reflexivity.
  - reflexivity.
  - intros k info Hk. apply writes_only_first; [discriminate | exact Hk].
  - discriminate.
  - apply not_elem_of_empty.
Defined.

(** ** Transfers *)

Lemma layoutPass_other rts ops cl passes ops' cl' passes' P :
  layoutPass rts ops (cl, passes) = Ret (ops', (cl', passes')) ->
  P ∉ passesOf ops ->
  passes' !! P = passes !! P.
Proof.
  revert ops' cl' passes'.
  induction ops as [|op rest IH]; intros ops' cl' passes' H HP.
  - simpl in H. injection H as <- <- <-. reflexivity.
  - apply layoutPass_cons_Ret in H.
    destruct H as (rest1 & [cl1 passes1] & op1 & Hrest & Hop & _).
    destruct op as [b | rpId | res].
    + simpl in Hop. destruct (subscript (b_dest b) cl1) as [l cl1'].
      injection Hop as _ _ <-. apply (IH _ _ _ Hrest). exact HP.
    + apply visitOperation_pass_Ret in Hop. destruct Hop as [Hvisit _].
      apply visitRenderPass_Ret in Hvisit.
      destruct Hvisit as (rp & rpd' & _ & -> & _).
      simpl in HP. apply not_elem_of_cons in HP. destruct HP as [Hne HP].
      rewrite lookup_insert_ne by congruence. apply (IH _ _ _ Hrest). exact HP.
    + simpl in Hop. destruct (subscript (r_dest res) cl1) as [l cl1'].
      injection Hop as _ _ <-. apply (IH _ _ _ Hrest). exact HP.
Qed.

(** The final layout that a visit gives the attachment [i] of a pass is
    what the table holds for its target. *)
Lemma visitRenderPass_final rts P cl passes cl' passes' rp i info A :
  visitRenderPass rts P (cl, passes) = Ret (cl', passes') ->
  passes !! P = Some rp ->
  (i < MAX_COLOR_RENDERTARGETS)%nat ->
  PassDesc.colorRTs_ (desc rp) !! i = Some info ->
  PassDesc.id info = A -> A <> Rendertargets.Invalid ->
  (forall k info', (k < i)%nat -> PassDesc.colorRTs_ (desc rp) !! k = Some info' ->
                   PassDesc.id info' <> A) ->
  exists rp',
    passes' !! P = Some rp' /\
    finalLayout <$> rp_colorRTs (rpDesc rp') !! i
      = Some (match cl !! A with Some l => l | None => Layout.ColorAttachment end).
Proof.
  intros H Hrp Hi Hinfo HA Hvalid Hfirst.
  pose proof H as H'. apply visitRenderPass_Ret in H'.
  destruct H' as (rp0 & rpd0 & Hrp0 & -> & _).
  rewrite Hrp in Hrp0. injection Hrp0 as <-.
  unfold visitRenderPass in H.
  inv_ret H as rp1 Hrp1. rewrite Hrp in Hrp1. injection Hrp1 as <-.
  inv_ret H as rpd1 Hdepth. inv_ret H as st Hcolors. destruct st as [cl2 rpd2].
  injection H as _ Hpasses.
  assert (Hrpd : rpd0 = rpd2).
  { apply (f_equal (fun m => rpDesc <$> m !! P)) in Hpasses.
    rewrite !lookup_insert_eq in Hpasses. simpl in Hpasses. congruence. }
  subst rpd0.
  exists (mkRenderPass (handle rp) (fb rp) (desc rp) rpd2).
  split; [apply lookup_insert_eq|]. simpl.
  rewrite (seq_split i) in Hcolors by assumption.
  apply visitColors_app in Hcolors. destruct Hcolors as ([cl3 rpd3] & Hbefore & Hcolors).
  simpl in Hcolors. inv_ret Hcolors as st4 Hstep. destruct st4 as [cl4 rpd4].
  rewrite (visitColors_other _ _ _ _ _ _ _ i Hcolors)
    by (intros Hin; apply elem_of_seq in Hin; lia).
  assert (Hcl3 : cl3 !! A = cl !! A).
  { apply (visitColors_untouched _ _ _ _ _ _ _ A Hbefore).
    intros k info' Hk Hinfo'. apply elem_of_seq in Hk.
    apply (Hfirst k info'); [lia | exact Hinfo']. }
  apply visitColor_Ret in Hstep.
  destruct Hstep as (info' & Hinfo' & Hcase).
  rewrite Hinfo in Hinfo'. injection Hinfo' as <-.
  destruct Hcase as [(Hinv & _) | (_ & rt & final & _ & _ & Hfinal & _ & _ & Hlen & _ & ->)].
  - congruence.
  - rewrite list_lookup_insert_eq by assumption. simpl.
    rewrite Hfinal, HA, Hcl3. reflexivity.
Qed.

(** X20. A blit at the end of the operations gets as its final layout
    what the table holds for its destination: transfer-source when the
    destination is the target presented, undefined otherwise (all targets
    being internal).  The blit marks its source as transfer-source, so the
    pass right before it that writes the source gets transfer-source as
    the final layout of that attachment. *)
Theorem X20_blit_layouts g ops0 P b rp i info g' :
  operations g = ops0 ++ [OpRenderPass P; OpBlit b] ->
  (forall k rt, rendertargets g !! k = Some rt -> isExternal rt = false) ->
  P ∉ passesOf ops0 -> renderPasses g !! P = Some rp ->
  (i < MAX_COLOR_RENDERTARGETS)%nat ->
  PassDesc.colorRTs_ (desc rp) !! i = Some info ->
  PassDesc.id info = b_source b -> b_source b <> Rendertargets.Invalid ->
  (forall k info', (k < i)%nat -> PassDesc.colorRTs_ (desc rp) !! k = Some info' ->
                   PassDesc.id info' <> b_source b) ->
  inferLayouts g = Ret g' ->
  transferLayout g' (S (length ops0))
    = Some (if decide (b_dest b = finalTarget g)
            then Layout.TransferSrc else Layout.Undefined) /\
  finalLayout <$> inferredColor g' P i = Some Layout.TransferSrc.
Proof.
  intros Hops Hinternal HP Hrp Hi Hinfo HA Hvalid Hfirst H.
  unfold inferLayouts in H. inv_ret H as res Hrun.
  destruct res as [ops' [cl' passes']]. injection H as <-.
  rewrite Hops, (seedLayouts_internal g Hinternal) in Hrun.
  apply layoutPass_app in Hrun.
  destruct Hrun as (ops1' & ops2' & [cl2 passes2] & Htail & Hhead & -> & Hlen).
  apply layoutPass_cons_Ret in Htail.
  destruct Htail as (rest1 & [cl1 passes1] & op1 & Hrest & Hvisit & ->).
  apply visitOperation_pass_Ret in Hvisit. destruct Hvisit as [Hvisit ->].
  apply layoutPass_cons_Ret in Hrest.
  destruct Hrest as (rest0 & [cl0 passes0] & op0 & Hnil & Hblit & ->).
  simpl in Hnil. injection Hnil as <- <- <-.
  assert (Hblit' :
    op0 = OpBlit (mkBlit (b_source b) (b_dest b)
                    (if decide (b_dest b = finalTarget g)
                     then Layout.TransferSrc else Layout.Undefined)) /\
    passes1 = renderPasses g /\ cl1 !! b_source b = Some Layout.TransferSrc).
  { simpl in Hblit. unfold subscript in Hblit.
    destruct (decide (b_dest b = finalTarget g)) as [Heq | Hne].
    - rewrite Heq, lookup_singleton_eq in Hblit. injection Hblit as <- <- <-.
      rewrite Heq. split; [reflexivity|]. split; [reflexivity | apply lookup_insert_eq].
    - rewrite lookup_singleton_ne in Hblit by congruence.
      injection Hblit as <- <- <-.
      split; [reflexivity|]. split; [reflexivity | apply lookup_insert_eq]. }
  destruct Hblit' as (-> & -> & Hsource).
  split.
  - unfold transferLayout. simpl.
    rewrite lookup_app_r by lia. rewrite Hlen.
    replace (S (length ops0) - length ops0)%nat with 1%nat by lia. reflexivity.
  - destruct (visitRenderPass_final _ _ _ _ _ _ rp i info (b_source b)
                Hvisit Hrp Hi Hinfo HA Hvalid Hfirst) as (rp' & Hrp' & Hfinal).
    rewrite Hsource in Hfinal.
    unfold inferredColor. simpl.
    rewrite (layoutPass_other _ _ _ _ _ _ _ P Hhead HP), Hrp'. simpl. exact Hfinal.
Qed.

Lemma blitGraph_internal A B final P pb dA dB k rt :
  rendertargets (blitGraph A B final P pb dA dB) !! k = Some rt -> isExternal rt = false.
Proof.
  simpl. intros H.
  destruct (decide (B = k)) as [-> | HB].
  - rewrite lookup_insert_eq in H. injection H as <-. reflexivity.
  - rewrite lookup_insert_ne in H by assumption.
    destruct (decide (A = k)) as [-> | HA].
    + rewrite lookup_insert_eq in H. injection H as <-. reflexivity.
    + rewrite lookup_insert_ne, lookup_empty in H by assumption. discriminate.
Qed.

Lemma X20_blit_layouts_witness :
  exists g',
    inferLayouts (blitGraph Rendertargets.MainColor Rendertargets.FinalRender
                    Rendertargets.FinalRender RenderPasses.Scene PassBegin.Clear
                    plainTarget plainTarget) = Ret g' /\
    transferLayout g' 1 = Some Layout.TransferSrc /\
    finalLayout <$> inferredColor g' RenderPasses.Scene 0 = Some Layout.TransferSrc.
Proof.
  destruct (inferLayouts (blitGraph Rendertargets.MainColor Rendertargets.FinalRender
                            Rendertargets.FinalRender RenderPasses.Scene PassBegin.Clear
                            plainTarget plainTarget)) as [g'| | |] eqn:Hrun;
    try (vm_compute in Hrun; discriminate Hrun).
  exists g'. split; [reflexivity|].
  refine (X20_blit_layouts
           (blitGraph Rendertargets.MainColor Rendertargets.FinalRender
              Rendertargets.FinalRender RenderPasses.Scene PassBegin.Clear
              plainTarget plainTarget)
           [] RenderPasses.Scene
           (mkBlit Rendertargets.MainColor Rendertargets.FinalRender Layout.Undefined)
           (mkRenderPass 0%N 0%N (writes Rendertargets.MainColor PassBegin.Clear ∅)
              RenderPassDesc_new)
           0%nat (PassDesc.mkRTInfo Rendertargets.MainColor PassBegin.Clear (0, 0, 0, 0)) g'
           _ _ _ _ _ _ _ _ _ _).
  - reflexivity.
  - apply blitGraph_internal.
  - apply not_elem_of_nil.
  - vm_compute. reflexivity.
  - unfold MAX_COLOR_RENDERTARGETS. lia.
  - reflexivity.
  - reflexivity.
  - discriminate.
  - intros k info Hk. lia.
  - exact Hrun.
Defined.

(** ** What [build] leaves behind *)

Lemma createRendertargets_keeps rts acc r acc' r' k :
  createRendertargets rts acc r = Ret (acc', r') ->
  (forall rt, (k, rt) ∈ rts -> isExternal rt = true) ->
  acc' !! k = acc !! k.
Proof.
  revert acc r. induction rts as [|[k0 rt0] rest IH]; intros acc r H Hext; simpl in H.
  - injection H as <- _. reflexivity.
  - inv_ret H as u Hu. destruct rt0 as [e | i].
    + apply (IH _ _ H). intros rt Hin. apply Hext. right. exact Hin.
    + rewrite (IH _ _ H) by (intros rt Hin; apply Hext; right; exact Hin).
      apply lookup_insert_ne. intros ->.
      specialize (Hext (Internal i) ltac:(left)). discriminate Hext.
Qed.

Lemma createRendertargets_internal rts acc r acc' r' k i :
  createRendertargets rts acc r = Ret (acc', r') ->
  acc !! k = Some (Internal i) ->
  exists i', acc' !! k = Some (Internal i').
Proof.
  revert acc r i. induction rts as [|[k0 rt0] rest IH]; intros acc r i H Hk; simpl in H.
  - injection H as <- _. eauto.
  - inv_ret H as u Hu. destruct rt0 as [e | i0].
    + apply (IH _ _ _ H Hk).
    + destruct (decide (k0 = k)) as [-> | Hne].
      * eapply (IH _ _ _ H). apply lookup_insert_eq.
      * eapply (IH _ _ i H). rewrite lookup_insert_ne by assumption. exact Hk.
Qed.

Lemma layoutPass_keeps rts ops cl passes ops' cl' passes' k :
  layoutPass rts ops (cl, passes) = Ret (ops', (cl', passes')) ->
  (passes' !! k = None <-> passes !! k = None) /\
  (forall rp', passes' !! k = Some rp' ->
     exists rp, passes !! k = Some rp /\ handle rp' = handle rp /\
                fb rp' = fb rp /\ desc rp' = desc rp).
Proof.
  revert ops' cl' passes'.
  induction ops as [|op rest IH]; intros ops' cl' passes' H.
  - simpl in H. injection H as <- <- <-. split; [reflexivity|]. eauto.
  - apply layoutPass_cons_Ret in H.
    destruct H as (rest1 & [cl1 passes1] & op1 & Hrest & Hop & _).
    destruct (IH _ _ _ Hrest) as [Hnone Hsome].
    destruct op as [b | rpId | res].
    + simpl in Hop. destruct (subscript (b_dest b) cl1) as [l cl1'].
      injection Hop as _ _ <-. split; assumption.
    + apply visitOperation_pass_Ret in Hop. destruct Hop as [Hvisit _].
      apply visitRenderPass_Ret in Hvisit.
      destruct Hvisit as (rp & rpd' & Hrp & -> & _).
      destruct (decide (rpId = k)) as [-> | Hne].
      * rewrite lookup_insert_eq. split.
        -- split; [discriminate|]. intros Hk. apply Hnone in Hk. congruence.
        -- intros rp' Hrp'. injection Hrp' as <-. simpl. apply Hsome. exact Hrp.
      * rewrite lookup_insert_ne by assumption. split; assumption.
    + simpl in Hop. destruct (subscript (r_dest res) cl1) as [l cl1'].
      injection Hop as _ _ <-. split; assumption.
Qed.

Lemma hasExternal_Ret rts infos b :
  hasExternal rts infos = Ret b ->
  b = true <->
  exists i info rt,
    infos !! i = Some info /\ PassDesc.id info <> Rendertargets.Invalid /\
    rts !! PassDesc.id info = Some rt /\ isExternal rt = true.
Proof.
  induction infos as [|info rest IH]; intros H; simpl in H.
  - injection H as <-. split; [discriminate|].
    intros (i & info & rt & Hi & _). discriminate Hi.
  - case_bool_decide as Hid.
    + destruct (rts !! PassDesc.id info) as [rt|] eqn:Hrt; [|discriminate].
      destruct (isExternal rt) eqn:Hext.
      * injection H as <-. split; [|reflexivity]. intros _.
        exists 0%nat, info, rt. split_and!; [reflexivity | assumption..].
      * rewrite (IH H). split.
        -- intros (i & info' & rt' & Hi & Hrest). exists (S i), info', rt'.
           split; assumption.
        -- intros ([|i] & info' & rt' & Hi & Hid' & Hrt' & Hext').
           ++ injection Hi as <-. congruence.
           ++ exists i, info', rt'. split_and!; assumption.
    + rewrite (IH H). split.
      * intros (i & info' & rt' & Hi & Hrest). exists (S i), info', rt'.
        split; assumption.
      * intros ([|i] & info' & rt' & Hi & Hid' & Hrt' & Hext').
        -- injection Hi as <-. contradiction.
        -- exists i, info', rt'. split_and!; assumption.
Qed.

Lemma buildRenderPassFramebuffer_Ret rts rp r rp' r' :
  buildRenderPassFramebuffer rts rp r = Ret (rp', r') ->
  handle rp' = handle rp /\ desc rp' = desc rp /\ rpDesc rp' = rpDesc rp /\
  fb rp' <> 0%N.
Proof.
  unfold buildRenderPassFramebuffer. intros H.
  inv_ret H as ds Hds. inv_ret H as colors Hcolors.
  destruct (Backend.createFramebuffer _ r) as [fbHandle r1].
  inv_ret H as u Hfb. injection H as <- _. simpl.
  apply bool_decide_eq_true in Hfb. split_and!; [reflexivity.. | exact Hfb].
Qed.

Lemma createRenderPasses_spec rts rps passes ext r passes' ext' r' :
  createRenderPasses rts rps (passes, ext) r = Ret (passes', ext', r') ->
  NoDup rps.*1 ->
  (forall k, k ∈ rps.*1 -> k ∉ ext) ->
  (forall k, k ∉ rps.*1 -> passes' !! k = passes !! k /\ (k ∈ ext' <-> k ∈ ext)) /\
  (forall k temp, (k, temp) ∈ rps ->
     exists rp, passes' !! k = Some rp /\ handle rp <> 0%N /\ desc rp = desc temp /\
       (k ∈ ext' <-> fb rp = 0%N) /\
       hasExternal rts (PassDesc.colorRTs_ (desc temp)) = Ret (bool_decide (k ∈ ext'))).
Proof.
  revert passes ext r.
  induction rps as [|[k0 temp0] rest IH]; intros passes ext r H Hnodup Hfresh.
  - simpl in H. injection H as <- <- _. split.
    + intros k _. split; reflexivity.
    + intros k temp Hin. inversion Hin.
  - simpl in H. simpl in Hnodup. apply NoDup_cons in Hnodup.
    destruct Hnodup as [Hk0 Hnodup].
    inv_ret H as u1 Hhandle.
    destruct (Backend.createRenderPass (rpDesc temp0) r) as [rpHandle r1].
    inv_ret H as u2 Hrp. apply bool_decide_eq_true in Hrp.
    inv_ret H as u3 Hfb. apply bool_decide_eq_true in Hfb. simpl in Hfb.
    inv_ret H as external Hexternal. simpl in Hexternal.
    assert (Hk0ext : k0 ∉ ext) by (apply Hfresh; left).
    destruct external.
    + inv_ret H as u4 Hnew.
      destruct (IH _ _ _ H Hnodup) as [Hothers Hthese].
      { intros k Hk. rewrite not_elem_of_union, not_elem_of_singleton. split.
        - intros ->. contradiction.
        - apply Hfresh. right. exact Hk. }
      destruct (Hothers k0 Hk0) as [Hlook Hin].
      rewrite lookup_insert_eq in Hlook.
      assert (Hin0 : k0 ∈ ext')
        by (apply Hin, elem_of_union_l, elem_of_singleton; reflexivity).
      split.
      * intros k Hk. apply not_elem_of_cons in Hk. destruct Hk as [Hne Hk].
        destruct (Hothers k Hk) as [Hlook' Hin']. split.
        -- rewrite Hlook'. apply lookup_insert_ne. intros <-. apply Hne. reflexivity.
        -- rewrite Hin', elem_of_union, elem_of_singleton. split.
           ++ intros [Heq | Hext']; [|exact Hext'].
              exfalso. apply Hne. rewrite Heq. reflexivity.
           ++ intros Hext'. right. exact Hext'.
      * intros k temp Hk. apply elem_of_cons in Hk. destruct Hk as [Heq | Hk].
        -- injection Heq as -> ->. eexists. split; [exact Hlook|]. simpl.
           split_and!; [exact Hrp | reflexivity | split; intros _; assumption |].
           rewrite Hexternal. rewrite bool_decide_eq_true_2 by exact Hin0. reflexivity.
        -- apply (Hthese k temp Hk).
    + inv_ret H as built Hbuilt. destruct built as [temp1 r2].
      apply buildRenderPassFramebuffer_Ret in Hbuilt. simpl in Hbuilt.
      destruct Hbuilt as (Hh & Hd & _ & Hfb1).
      destruct (IH _ _ _ H Hnodup) as [Hothers Hthese].
      { intros k Hk. apply Hfresh. right. exact Hk. }
      destruct (Hothers k0 Hk0) as [Hlook Hin].
      rewrite lookup_insert_eq in Hlook.
      assert (Hin0 : k0 ∉ ext') by (rewrite Hin; exact Hk0ext).
      split.
      * intros k Hk. apply not_elem_of_cons in Hk. destruct Hk as [Hne Hk].
        destruct (Hothers k Hk) as [Hlook' Hin']. split.
        -- rewrite Hlook'. apply lookup_insert_ne. intros <-. apply Hne. reflexivity.
        -- exact Hin'.
      * intros k temp Hk. apply elem_of_cons in Hk. destruct Hk as [Heq | Hk].
        -- injection Heq as -> ->. exists temp1. split; [exact Hlook|].
           split_and!; [congruence | exact Hd | split; intros; contradiction |].
           rewrite Hexternal. rewrite bool_decide_eq_false_2 by exact Hin0. reflexivity.
        -- apply (Hthese k temp Hk).
Qed.

(** The steps of a build that returns. *)
Lemma build_Ret g r g' r' :
  build g r = Ret (g', r') ->
  exists rts r1 g2 passes ext,
    state g = Building /\
    createRendertargets (map_to_list (rendertargets g)) (rendertargets g) r = Ret (rts, r1) /\
    inferLayouts (set_rendertargets rts (set_state Ready g)) = Ret g2 /\
    createRenderPasses rts (map_to_list (renderPasses g2))
      (renderPasses g2, renderpassesWithExternalRTs g) r1 = Ret (passes, ext, r') /\
    g' = set_renderpassesWithExternalRTs ext (set_renderPasses passes g2) /\
    rendertargets g2 = rts /\ state g2 = Ready.
Proof.
  unfold build. intros H.
  inv_ret H as u1 Hstate. apply bool_decide_eq_true in Hstate.
  inv_ret H as u2 Hfinal.
  inv_ret H as created Hcreated. destruct created as [rts r1].
  inv_ret H as g2 Hinfer.
  inv_ret H as made Hmade. destruct made as [[passes ext] r2].
  injection H as <- <-.
  assert (Hg2 : rendertargets g2 = rts /\ state g2 = Ready /\
                renderpassesWithExternalRTs g2 = renderpassesWithExternalRTs g).
  { unfold inferLayouts in Hinfer. inv_ret Hinfer as res Hres.
    destruct res as [ops [cl ps]]. injection Hinfer as <-. split_and!; reflexivity. }
  destruct Hg2 as (Hrts & Hready & Hext). rewrite Hrts, Hext in Hmade.
  exists rts, r1, g2, passes, ext. split_and!; try assumption; reflexivity.
Qed.

(** X21. An external target cannot be bound while the graph is being
    built.  Once [build] has returned, a non-zero handle can be bound to
    it, which changes no other target.  On the graph as this bind leaves
    it, that is before [render] has cleared the handle again, a second
    bind of the same target fails, whatever the handle.  Binding an
    internal target changes nothing. *)
Theorem X21_bindExternalRT_needs_unbound_target g r g' r' rt e h :
  build g r = Ret (g', r') ->
  rendertargets g !! rt = Some (External e) -> e_handle e = 0%N ->
  h <> 0%N ->
  bindExternalRT rt h g = AssertionFailed /\
  (exists g'',
     bindExternalRT rt h g' = Ret g'' /\
     getHandle <$> rendertargets g'' !! rt = Some h /\
     (forall k, k <> rt -> rendertargets g'' !! k = rendertargets g' !! k) /\
     forall h', bindExternalRT rt h' g'' = AssertionFailed) /\
  (forall k i, rendertargets g !! k = Some (Internal i) ->
               bindExternalRT k h g' = Ret g').
Proof.
  intros Hbuild Hrt Hunbound Hh.
  destruct (build_Ret _ _ _ _ Hbuild)
    as (rts & r1 & g2 & passes & ext & Hstate & Hcreated & _ & _ & -> & Hrts & Hready).
  assert (Hrt' : rts !! rt = Some (External e)).
  { rewrite (createRendertargets_keeps _ _ _ _ _ rt Hcreated); [exact Hrt|].
    intros rt0 Hin. apply elem_of_map_to_list in Hin.
    rewrite Hrt in Hin. injection Hin as <-. reflexivity. }
  subst rts. split; [|split].
  - unfold bindExternalRT. rewrite Hstate. reflexivity.
  - eexists. split.
    + unfold bindExternalRT. simpl. rewrite Hready, Hrt'. simpl.
      rewrite (bool_decide_eq_true_2 _ Hh), Hunbound. simpl. reflexivity.
    + simpl. split_and!.
      * rewrite lookup_insert_eq. reflexivity.
      * intros k Hk. rewrite lookup_insert_ne by congruence. reflexivity.
      * intros h'. unfold bindExternalRT. simpl. rewrite Hready.
        rewrite lookup_insert_eq. simpl.
        destruct (bool_decide (h' <> 0%N)); [|reflexivity]. simpl.
        rewrite (bool_decide_eq_false_2 (h = 0%N)) by exact Hh. reflexivity.
  - intros k i Hk.
    destruct (createRendertargets_internal _ _ _ _ _ k i Hcreated Hk) as [i' Hi'].
    unfold bindExternalRT. simpl. rewrite Hready, Hi'. simpl.
    rewrite (bool_decide_eq_true_2 _ Hh). reflexivity.
Qed.

Lemma X21_bindExternalRT_witness :
  exists g g' r' g'',
    declareAll temporalDeclarations freshGraph = Ret g /\
    build g (mkBackend [] 0%N 0) = Ret (g', r') /\
    bindExternalRT Rendertargets.TemporalCurrent 7%N g' = Ret g'' /\
    bindExternalRT Rendertargets.TemporalCurrent 8%N g'' = AssertionFailed.
Proof.
  destruct (declareAll temporalDeclarations freshGraph) as [g| | |] eqn:Hdecl;
    try (vm_compute in Hdecl; discriminate Hdecl).
  destruct (build g (mkBackend [] 0%N 0)) as [[g' r']| | |] eqn:Hbuild;
    try (vm_compute in Hdecl; injection Hdecl as <-;
         vm_compute in Hbuild; discriminate Hbuild).
  assert (Hrt : rendertargets g !! Rendertargets.TemporalCurrent
                = Some (External (mkExternalRT (Format.Pixel 1) Layout.Undefined
                                    Layout.ShaderRead 0%N)))
    by (vm_compute in Hdecl; injection Hdecl as <-; vm_compute; reflexivity).
  destruct (X21_bindExternalRT_needs_unbound_target g _ g' r' Rendertargets.TemporalCurrent _ 7%N
              Hbuild Hrt eq_refl ltac:(discriminate))
    as (_ & (g'' & Hbind & _ & _ & Hagain) & _).
  exists g, g', r', g''.
  split; [reflexivity|]. split; [exact Hbuild|]. split; [exact Hbind | apply Hagain].
Defined.

(** X22. Of a graph that had no deferred pass, a build that returns
    leaves the graph ready with the passes that were declared, their
    declarations unchanged.  Each pass has a render-pass object.  A pass
    with an external target among its colour attachments is in
    [renderpassesWithExternalRTs] and has no framebuffer yet; every other
    pass has its framebuffer. *)
Theorem X22_build_creates_every_pass g r g' r' :
  renderpassesWithExternalRTs g = ∅ ->
  build g r = Ret (g', r') ->
  state g' = Ready /\
  (forall k rp, renderPasses g !! k = Some rp ->
     exists rp', renderPasses g' !! k = Some rp' /\ desc rp' = desc rp) /\
  (forall k rp', renderPasses g' !! k = Some rp' ->
     is_Some (renderPasses g !! k) /\
     handle rp' <> 0%N /\
     (k ∈ renderpassesWithExternalRTs g' <-> fb rp' = 0%N) /\
     (k ∈ renderpassesWithExternalRTs g' <->
        exists i info rt,
          PassDesc.colorRTs_ (desc rp') !! i = Some info /\
          PassDesc.id info <> Rendertargets.Invalid /\
          rendertargets g' !! PassDesc.id info = Some rt /\ isExternal rt = true)).
Proof.
  intros Hdeferred Hbuild.
  destruct (build_Ret _ _ _ _ Hbuild)
    as (rts & r1 & g2 & passes & ext & Hstate & Hcreated & Hinfer & Hmade & -> & Hrts & Hready).
  rewrite Hdeferred in Hmade.
  destruct (createRenderPasses_spec _ _ _ _ _ _ _ _ Hmade) as [Hothers Hthese].
  { apply NoDup_fst_map_to_list. }
  { intros k _. apply not_elem_of_empty. }
  assert (Hkeys : forall k, k ∈ (map_to_list (renderPasses g2)).*1 <->
                            is_Some (renderPasses g2 !! k)).
  { intros k. rewrite list_elem_of_fmap. split.
    - intros ([k1 rp1] & -> & Hin). apply elem_of_map_to_list in Hin. eauto.
    - intros [rp1 Hrp1]. exists (k, rp1). split; [reflexivity|].
      apply elem_of_map_to_list. exact Hrp1. }
  assert (Hlayout : forall k,
            (renderPasses g2 !! k = None <-> renderPasses g !! k = None) /\
            (forall rp2, renderPasses g2 !! k = Some rp2 ->
               exists rp, renderPasses g !! k = Some rp /\ handle rp2 = handle rp /\
                          fb rp2 = fb rp /\ desc rp2 = desc rp)).
  { intros k. unfold inferLayouts in Hinfer. inv_ret Hinfer as res Hres.
    destruct res as [ops [cl ps]]. injection Hinfer as <-. simpl.
    apply (layoutPass_keeps _ _ _ _ _ _ _ k Hres). }
  simpl. split; [exact Hready|]. split.
  - intros k rp Hrp. destruct (Hlayout k) as [Hnone Hsome].
    destruct (renderPasses g2 !! k) as [rp2|] eqn:Hrp2.
    + destruct (Hsome rp2 eq_refl) as (rp0 & Hrp0 & _ & _ & Hdesc).
      rewrite Hrp in Hrp0. injection Hrp0 as <-.
      destruct (Hthese k rp2) as (rp' & Hrp' & _ & Hd & _).
      { apply elem_of_map_to_list. exact Hrp2. }
      exists rp'. split; [exact Hrp' | congruence].
    + destruct Hnone as [Hnone _]. rewrite Hnone in Hrp by reflexivity. discriminate.
  - intros k rp' Hrp'. destruct (Hlayout k) as [Hnone Hsome].
    destruct (renderPasses g2 !! k) as [rp2|] eqn:Hrp2.
    + destruct (Hsome rp2 eq_refl) as (rp0 & Hrp0 & _).
      destruct (Hthese k rp2) as (rp1 & Hrp1 & Hh & Hd & Hfb & Hext).
      { apply elem_of_map_to_list. exact Hrp2. }
      rewrite Hrp' in Hrp1. injection Hrp1 as <-.
      split_and!; [eauto | exact Hh | exact Hfb |].
      rewrite Hd, Hrts. rewrite <- (hasExternal_Ret _ _ _ Hext), bool_decide_eq_true.
      reflexivity.
    + destruct (Hothers k) as [Hlook _].
      { rewrite Hkeys, Hrp2. intros [x Hx]. discriminate Hx. }
      rewrite Hlook, Hrp2 in Hrp'. discriminate Hrp'.
Qed.

Lemma X22_build_creates_witness :
  exists g g' r',
    declareAll temporalDeclarations freshGraph = Ret g /\
    build g (mkBackend [] 0%N 0) = Ret (g', r') /\
    state g' = Ready /\
    forall k rp', renderPasses g' !! k = Some rp' -> handle rp' <> 0%N.
Proof.
  destruct (declareAll temporalDeclarations freshGraph) as [g| | |] eqn:Hdecl;
    try (vm_compute in Hdecl; discriminate Hdecl).
  destruct (build g (mkBackend [] 0%N 0)) as [[g' r']| | |] eqn:Hbuild;
    try (vm_compute in Hdecl; injection Hdecl as <-;
         vm_compute in Hbuild; discriminate Hbuild).
  assert (Hdeferred : renderpassesWithExternalRTs g = ∅)
    by (vm_compute in Hdecl; injection Hdecl as <-; reflexivity).
  destruct (X22_build_creates_every_pass g _ g' r' Hdeferred Hbuild)
    as (Hready & _ & Hpasses).
  exists g, g', r'.
  split; [reflexivity|]. split; [exact Hbuild|]. split; [exact Hready|].
  intros k rp' Hrp'. apply (Hpasses k rp' Hrp').
Defined.

(** ** Final layouts of the writers *)

(** The table the layout pass starts from. *)
Lemma seedLayouts_lookup g A :
  seedLayouts g !! A =
    match rendertargets g !! A with
    | Some (External e) => Some (e_finalLayout e)
    | _ => if decide (A = finalTarget g) then Some Layout.TransferSrc else None
    end.
Proof.
  unfold seedLayouts.
  apply (map_fold_weak_ind
           (fun (r : gmap Rendertargets.t Layout.t) (m : gmap Rendertargets.t Rendertarget) =>
              r !! A = match m !! A with
                       | Some (External e) => Some (e_finalLayout e)
                       | _ => if decide (A = finalTarget g)
                              then Some Layout.TransferSrc else None
                       end)).
  - rewrite lookup_empty. destruct (decide (A = finalTarget g)) as [-> | Hne].
    + apply lookup_singleton_eq.
    + apply lookup_singleton_ne. congruence.
  - intros k rt m r Hfresh IH.
    destruct (decide (k = A)) as [-> | Hne].
    + rewrite lookup_insert_eq. rewrite Hfresh in IH.
      destruct rt as [e | i]; [apply lookup_insert_eq | exact IH].
    + rewrite (lookup_insert_ne m) by assumption.
      destruct rt as [e | i]; [rewrite lookup_insert_ne by assumption|]; exact IH.
Qed.

(** X23. A render pass that reads a target as an input makes the pass
    right before it, when that one writes the target, leave it in the
    shader-read layout. *)
Theorem X23_input_makes_writer_shader_read
    g ops0 P1 P2 after rp1 rp2 i info A g' :
  operations g = ops0 ++ OpRenderPass P1 :: OpRenderPass P2 :: after ->
  P1 ∉ passesOf ops0 -> P1 <> P2 ->
  renderPasses g !! P1 = Some rp1 -> renderPasses g !! P2 = Some rp2 ->
  A ∈ PassDesc.inputRendertargets (desc rp2) ->
  (i < MAX_COLOR_RENDERTARGETS)%nat ->
  PassDesc.colorRTs_ (desc rp1) !! i = Some info ->
  PassDesc.id info = A -> A <> Rendertargets.Invalid ->
  (forall k info', (k < i)%nat -> PassDesc.colorRTs_ (desc rp1) !! k = Some info' ->
                   PassDesc.id info' <> A) ->
  inferLayouts g = Ret g' ->
  finalLayout <$> inferredColor g' P1 i = Some Layout.ShaderRead.
Proof.
  intros Hops HP1 Hne Hrp1 Hrp2 Hinput Hi Hinfo HA Hvalid Hfirst H.
  unfold inferLayouts in H. inv_ret H as res Hrun.
  destruct res as [ops' [cl' passes']]. injection H as <-.
  rewrite Hops in Hrun. apply layoutPass_app in Hrun.
  destruct Hrun as (ops1' & ops2' & [cl2 passes2] & Htail & Hhead & _).
  apply layoutPass_cons_Ret in Htail.
  destruct Htail as (rest1 & [cl1 passes1] & op1 & Hrest & Hvisit1 & _).
  apply visitOperation_pass_Ret in Hvisit1. destruct Hvisit1 as [Hvisit1 _].
  apply layoutPass_cons_Ret in Hrest.
  destruct Hrest as (rest0 & [cl0 passes0] & op0 & Hafter & Hvisit2 & _).
  apply visitOperation_pass_Ret in Hvisit2. destruct Hvisit2 as [Hvisit2 _].
  destruct (layoutPass_inferred _ _ _ _ _ _ _ Hafter) as [Hkeep _].
  destruct (Hkeep P1 rp1 Hrp1) as (rp1' & Hrp1' & Hdesc1).
  destruct (Hkeep P2 rp2 Hrp2) as (rp2' & Hrp2' & Hdesc2).
  assert (Hread : cl1 !! A = Some Layout.ShaderRead).
  { apply visitRenderPass_table in Hvisit2.
    destruct Hvisit2 as (rp & rpd & rpd' & cl3 & Hrp & _ & ->).
    rewrite Hrp2' in Hrp. injection Hrp as <-.
    rewrite markInputs_lookup, Hdesc2.
    destruct (decide (A ∈ PassDesc.inputRendertargets (desc rp2))); [reflexivity|contradiction]. }
  assert (Hlook : passes1 !! P1 = Some rp1').
  { apply visitRenderPass_Ret in Hvisit2.
    destruct Hvisit2 as (rp & rpd' & _ & -> & _).
    rewrite lookup_insert_ne by congruence. exact Hrp1'. }
  destruct (visitRenderPass_final _ _ _ _ _ _ rp1' i info A Hvisit1 Hlook Hi)
    as (rp' & Hrp' & Hfinal); rewrite ?Hdesc1; try assumption.
  rewrite Hread in Hfinal.
  unfold inferredColor. simpl.
  rewrite (layoutPass_other _ _ _ _ _ _ _ P1 Hhead HP1), Hrp'. simpl. exact Hfinal.
Qed.

Lemma X23_input_witness :
  exists g',
    inferLayouts (exampleGraph Rendertargets.MainColor Rendertargets.FinalRender
                    RenderPasses.Scene RenderPasses.Final plainTarget plainTarget
                    (0, 0, 0, 0) (0, 0, 0, 0)) = Ret g' /\
    finalLayout <$> inferredColor g' RenderPasses.Scene 0 = Some Layout.ShaderRead.
Proof.
  destruct (inferLayouts (exampleGraph Rendertargets.MainColor Rendertargets.FinalRender
                            RenderPasses.Scene RenderPasses.Final plainTarget plainTarget
                            (0, 0, 0, 0) (0, 0, 0, 0))) as [g'| | |] eqn:Hrun;
    try (vm_compute in Hrun; discriminate Hrun).
  exists g'. split; [reflexivity|].
  refine (X23_input_makes_writer_shader_read
            (exampleGraph Rendertargets.MainColor Rendertargets.FinalRender
               RenderPasses.Scene RenderPasses.Final plainTarget plainTarget
               (0, 0, 0, 0) (0, 0, 0, 0))
            [] RenderPasses.Scene RenderPasses.Final []
            (mkRenderPass 0%N 0%N (exampleP1 Rendertargets.MainColor (0, 0, 0, 0))
               RenderPassDesc_new)
            (mkRenderPass 0%N 0%N
               (exampleP2 Rendertargets.MainColor Rendertargets.FinalRender (0, 0, 0, 0))
               RenderPassDesc_new)
            0%nat (PassDesc.mkRTInfo Rendertargets.MainColor PassBegin.Clear (0, 0, 0, 0))
            Rendertargets.MainColor g' _ _ _ _ _ _ _ _ _ _ _ Hrun).
  - reflexivity.
  - apply not_elem_of_nil.
  - discriminate.
  - vm_compute. reflexivity.
  - vm_compute. reflexivity.
  - vm_compute. reflexivity.
  - unfold MAX_COLOR_RENDERTARGETS. lia.
  - reflexivity.
  - reflexivity.
  - discriminate.
  - intros k info' Hk. lia.
Defined.

(** X24. The last operation being a render pass, the final layout it
    gets for a colour attachment is the one the table starts with for the
    target: the final layout declared for an external target,
    transfer-source for the internal target that is presented, and
    colour-attachment for any other internal target. *)
Theorem X24_last_writer_final_layout g ops0 P rp i info A g' :
  operations g = ops0 ++ [OpRenderPass P] ->
  P ∉ passesOf ops0 ->
  renderPasses g !! P = Some rp ->
  (i < MAX_COLOR_RENDERTARGETS)%nat ->
  PassDesc.colorRTs_ (desc rp) !! i = Some info ->
  PassDesc.id info = A -> A <> Rendertargets.Invalid ->
  (forall k info', (k < i)%nat -> PassDesc.colorRTs_ (desc rp) !! k = Some info' ->
                   PassDesc.id info' <> A) ->
  inferLayouts g = Ret g' ->
  finalLayout <$> inferredColor g' P i
    = Some (match rendertargets g !! A with
            | Some (External e) => e_finalLayout e
            | _ => if decide (A = finalTarget g)
                   then Layout.TransferSrc else Layout.ColorAttachment
            end).
Proof.
  intros Hops HP Hrp Hi Hinfo HA Hvalid Hfirst H.
  unfold inferLayouts in H. inv_ret H as res Hrun.
  destruct res as [ops' [cl' passes']]. injection H as <-.
  rewrite Hops in Hrun. apply layoutPass_app in Hrun.
  destruct Hrun as (ops1' & ops2' & [cl2 passes2] & Htail & Hhead & _).
  apply layoutPass_cons_Ret in Htail.
  destruct Htail as (rest1 & [cl1 passes1] & op1 & Hrest & Hvisit & _).
  apply visitOperation_pass_Ret in Hvisit. destruct Hvisit as [Hvisit _].
  simpl in Hrest. injection Hrest as _ <- <-.
  destruct (visitRenderPass_final _ _ _ _ _ _ rp i info A Hvisit Hrp Hi Hinfo HA Hvalid Hfirst)
    as (rp' & Hrp' & Hfinal).
  unfold inferredColor. simpl.
  rewrite (layoutPass_other _ _ _ _ _ _ _ P Hhead HP), Hrp'. simpl.
  rewrite Hfinal, seedLayouts_lookup. f_equal.
  destruct (rendertargets g !! A) as [[e | i0]|];
    try reflexivity; destruct (decide (A = finalTarget g)); reflexivity.
Qed.

Lemma X24_last_writer_witness :
  exists g',
    inferLayouts externalGraph = Ret g' /\
    finalLayout <$> inferredColor g' RenderPasses.Final 0 = Some Layout.ShaderRead.
Proof.
  destruct (inferLayouts externalGraph) as [g'| | |] eqn:Hrun;
    try (vm_compute in Hrun; discriminate Hrun).
  exists g'. split; [reflexivity|].
  refine (X24_last_writer_final_layout externalGraph [] RenderPasses.Final
            (mkRenderPass 0%N 0%N (writes Rendertargets.TemporalCurrent PassBegin.Clear ∅)
               RenderPassDesc_new)
            0%nat (PassDesc.mkRTInfo Rendertargets.TemporalCurrent PassBegin.Clear (0, 0, 0, 0))
            Rendertargets.TemporalCurrent g' _ _ _ _ _ _ _ _ Hrun).
  - reflexivity.
  - apply not_elem_of_nil.
  - vm_compute. reflexivity.
  - unfold MAX_COLOR_RENDERTARGETS. lia.
  - reflexivity.
  - reflexivity.
  - discriminate.
  - intros k info' Hk. lia.
Defined.

End RenderGraphLifeFacts.
